(* ===== verification/_CoqProject ===== *)
-Q . S2P
Prelude.v
Vte.v
ParserInstance.v
Status.v
Sticky.v
Ring.v
Scanner.v
ScannerSpec.v
ScannerProps.v
ScannerState.v
ScannerText.v
ScannerPrologue.v
Engine.v
Protocol.v
Wire.v
Pty.v
OsInstance.v
Session.v
Registry.v
TokioInstance.v
Server.v
Actor.v
ActorWitness.v
Connection.v
Clients.v
ClientsWitness.v
Idle.v
Stores.v
Syscalls.v
TaskEnd.v
Daemon.v
DaemonProps.v
Steps.v
Orphans.v
OrphansWitness.v
Delivery.v
Terminal.v
Detach.v
Intake.v
Senders.v
Requests.v
Listing.v
Keyboard.v
Keystrokes.v
Panics.v
DaemonWitness.v
Startup.v
Boot.v
Daemonize.v
Handoff.v
CoreTests.v
DaemonTests.v
