(* ===== verification/Prelude.v ===== *)
(** * jfterm-muxer: a terminal session multiplexer, verified

    The repository is a daemon, [jftermd], that keeps shells alive when their
    terminal goes away and shows their history to the next terminal. Bytes move
    through it in both directions:

    - a shell prints on a PTY; its session drains the PTY and feeds the replay
      engine ([core/]), which sanitizes the output and keeps it in a ring of
      chunks, each with a prologue that restores the visual state at its start;
    - the actor of the session forwards the same bytes to its client as DATA
      frames through a bounded queue, and a writer puts them on a socket;
    - a client's frames come back over the socket, are decoded, and reach the
      actor as commands.

    ** The files

    [Prelude] holds machine integers and bytes, the pieces of [std] the source
    uses (decimal text, UTF-8, [u8] parsing), loops whose body can panic, and the
    automation. The other files, in the order of the dependencies:

    - [Vte] is the interface to the [vte] crate, a parameter: one byte moves the
      parser and makes calls on the sink. [VteLaws] and [VteBounds] state the
      documented behaviour some theorems rely on; [ParserInstance] is a small
      machine that satisfies them, used by the witnesses.
    - [Status] (core/src/status.rs), [Sticky] (sticky.rs), [Ring] (ring.rs) and
      [Scanner] (scanner.rs) are the engine, one definition per method, with the
      fields of the structures as record fields and [&mut self] as a state that
      is returned; [Engine] (engine.rs) is the wrapper with the production
      watermark and the type class [Engine] against which sessions are proved.
    - [ScannerSpec] is the specification of the scanner: a lexer without ring or
      watermark, whose transcript says what a replay must be. [ScannerProps] has
      what holds for every parser, [ScannerState] that the state a scanner keeps is
      what the last call of the parser said, [ScannerText] what rests on [VteLaws],
      and [ScannerPrologue] the prologue read back.
    - [Protocol] (jftermd/src/protocol.rs) has the frames, their encoding and the
      decoder with its cursor and buffer; [Wire] has the parser without a buffer
      that the decoder refines. [serde_json] is the parameter [Json].
    - [Pty] (pty.rs) runs over the class [Os], a world and the answers of each
      system call; [OsInstance] is a scripted one. [Session] (session.rs) is a PTY
      with an engine and a lifecycle.
    - [Registry] (registry.rs) is the session table over the classes [Tokio] of
      channels and [Notify] and [Receivers] of their receiving ends, with the laws
      [NotifyLaws], [ChannelLaws], [CommandLaws], [ReceiveLaws], [TrafficLaws],
      [ReplyLaws] and [LossLaws]; [TokioInstance] satisfies them.
    - [Server] is the actor of server.rs: each arm of its [select!] is a
      definition, [select] composes them in the source's order, [actor_loop] and
      [session_task] are the task. [Actor] proves what the actor promises,
      [ActorWitness] runs it; [TaskEnd] has the end of the task, which follows the
      PTY of the session from its opening to its drop.
    - [Connection] is the rest of server.rs: the peer check, dispatch, control and
      session connections, the reader and the writer. [Clients] proves what a
      connection promises, end to end, and [ClientsWitness] runs it.
    - [Idle] is [wait_until_idle] of server.rs as a state machine interleaved with
      any operations on the table.
    - [Daemon] is the daemon as a whole: the accept loop ([run]), the connections,
      the session tasks and the watcher, each a state with the step it makes
      between two waits, over one registry, one store of channels and one machine;
      [step] takes any of them next, so a run is any interleaving. [DaemonProps]
      shows that it refines an abstract machine of the table, and that its reader
      makes the rounds of [reader_task]; [Detach] that a detach ends neither a shell
      nor its loop, and how the pid of a dead session can; [Terminal] that a terminal shows its own shell's output; [Senders]
      that what it types reaches the channel of its own session in order, and
      [Keyboard] that each INPUT goes from there to the master of the PTY in one write
      (over a log of the write calls, the buffer and what the kernel took of it),
      [Keystrokes] puts the two together; [Listing] what a LIST answers; [Panics] that no task panics;
      [Orphans] that no shell outlives the daemon, when [shut_down] drops the runtime,
      but those a failing [Pty::spawn] gives up, which [leaked] computes from the run.
      [DaemonWitness] and [OrphansWitness] run it. They share [Stores] (a relation that every operation
      on the channels keeps, each handler keeps), [Syscalls] (the same for the
      system calls), [Steps] (the same for an event of the daemon), [Delivery] (a
      queue has one owner, and a writer writes what comes out of its queue), [Intake]
      (what a connection has read of its socket at any moment of a run) and [Requests]
      (which requests for a LIST there are, and which are answered or lost).
    - [Daemonize] (daemonize.rs and main.rs from there on) is the race of any number
      of daemons for the lock file and the socket, call by call, with the errors of
      the calls. [Startup] has the checks of socket.rs and the command line of
      main.rs. [Boot] is [daemonize] with its forks and descriptors, and [main] with
      every early return. [Handoff] checks the two against each other: the calls of a
      daemon of the race are those of a run of [main].
    - [CoreTests] and [DaemonTests] are the unit tests of the sources, as programs
      over the definitions, which they pass.

    ** What the theorems show

    - End to end ([Terminal], [Senders], [Keystrokes], [Listing]): in any run of the
      daemon, what a client decodes is a prefix of the replay followed by the shell's
      output since the attach; its frames reach the actor as commands in order,
      however the socket cuts either stream and whatever the other clients send to
      the same session; what the shell reads is made of the INPUT frames of the
      clients, one write for each, those of each client in the order it typed them,
      none left out while the session lives; a LIST describes
      each session of the table that stays and answers within a second, once, as it
      was after the LIST came; no task panics ([Panics]).
    - The engine: a full replay is what the specification keeps, for every
      watermark and every way the output is split; no output makes it panic; a
      capped replay starts from the state at a cut; the prologue restores that
      state; text is replayed verbatim; an OSC with a terminator is dropped or kept
      whole by its code, one that is cancelled is kept, and one that breaks off takes
      an [ESC] with it; each attribute of the state is what was said of it last.
    - The wire: decoder and encoder are inverse, malformed and oversized frames
      end the stream, and the buffer is bounded.
    - Sessions and the actor: the engine has read what clients were sent; an exit
      is reported once; a dead session is inert and expires; the loop ends only
      for the reasons listed; CLOSE escalates once; no entry is left behind.
    - The daemon: one shell per id and a bounded table; in every interleaving an
      entry and the task that serves it come and go together; the loop of a shell that
      runs goes on and the shell is sent no deadly signal, unless its client sends
      CLOSE or its pid is also that of a dead session; no shell that was not given up
      by its own [spawn] outlives the daemon; only the owner has any effect; the daemon exits only when no task serves a session, and loses no wake-up
      once it has seen one.
    - The start and the end: one daemon while the lock file stays; a file that is
      not ours is never removed; a background daemon is detached from its
      terminal; the socket is served only under the lock and with mode 0600, and
      what was bound is removed in order, the lock last, whatever fails and however
      many daemons start at once.
    - Where the code does something else than it says, a theorem exhibits it: a
      cut inside the terminator of an OSC, two daemons after the unlink of the
      lock file, a first session the watcher misses, a short write that is lost,
      a relative socket path that means two files, a shell that leaks when a call
      behind its fork fails, a shell that is killed for a dead session's pid, a
      clipboard write that is kept because it was cancelled.

    ** Conventions

    A [None] result is a panic (an [expect], a slice out of bounds) or a loop that
    ran out of fuel; the theorems on totality say that neither happens. Fuel: the
    decoder and the readers take the length of the buffer, and a frame uses five
    bytes of it ([Wire.frames], [Connection.frame_fuel], [Connection.control_fuel]);
    [Pty.drain] takes the number of reads, and its theorem gives the answer of a
    kernel that stops within them; [reap_blocking] has the 200 rounds of the
    source; twenty digits are enough for any 64-bit number. Unsigned integers are
    [N], with the reduction written out where a value can leave its width. Instants
    are milliseconds. Each operation under a mutex is one step.

    ** What is not modelled

    The bodies of [vte], [tokio], [serde_json] and [nix], which are parameters;
    logging and the texts of messages; the installation of the signal handlers (a
    signal ends [run] as the watcher does). The tests that start real shells or
    speak over real sockets are left out: they observe other programs. [Daemonize]
    takes the socket and its lock file to be two files, as they are unless the socket
    is itself named [*.lock] ([Boot.extension_lock]). What else
    the sources hold is module lists, accessors and conversions of errors. In [Daemon] a step is everything
    between two waits: a write to a socket, the opening of a shell and a turn of
    an actor with its system calls are one step each, a task that is aborted stops
    at the step that aborts it, and a send to a full channel of commands, which
    waits in the source, is refused or taken at once. *)
From stdpp Require Export base tactics numbers list gmap strings sorting relations.
From Stdlib Require Export Strings.Byte.
From Stdlib Require Import NArith.
From Stdlib Require String.

Set Default Proof Using "Type".

(** * Machine integers and bytes *)

(** [u8], [u16], [u32], [u64] and [usize] values are kept as [N]; the
    operations that can leave the range write the reduction out. *)
Abbreviation u16 := N (only parsing).
Abbreviation u32 := N (only parsing).
Abbreviation u64 := N (only parsing).
Abbreviation usize := N (only parsing).

Definition u32_MAX : N := 4294967295.
Definition usize_MAX : N := 18446744073709551615.

(** [n as u32] and [n as u8]. *)
Definition as_u32 (n : N) : u32 := n mod 4294967296.

(** The value of a byte, and the byte of a value ([as u8]). *)
Definition u8 (b : byte) : N := Byte.to_N b.

Definition byte_of (n : N) : byte :=
  match Byte.of_N (n mod 256) with Some b => b | None => x00 end.

#[export] Instance byte_eq_decision : EqDecision byte := Byte.byte_eq_dec.

Lemma u8_bound b : (u8 b < 256)%N.
Proof. pose proof (Byte.to_N_bounded b). unfold u8. lia. Qed.

Lemma u8_inj b1 b2 : u8 b1 = u8 b2 -> b1 = b2.
Proof.
  intros H. pose proof (Byte.of_to_N b1) as H1. pose proof (Byte.of_to_N b2) as H2.
  unfold u8 in H. rewrite H in H1. congruence.
Qed.

Lemma byte_of_u8 b : byte_of (u8 b) = b.
Proof.
  pose proof (u8_bound b). unfold byte_of.
  rewrite N.mod_small by done. unfold u8. by rewrite Byte.of_to_N.
Qed.

Lemma u8_byte_of n : u8 (byte_of n) = (n mod 256)%N.
Proof.
  unfold byte_of, u8. destruct (Byte.of_N (n mod 256)) as [b|] eqn:E.
  - by apply Byte.to_of_N in E.
  - apply Byte.of_N_None_iff in E. pose proof (N.mod_lt n 256). lia.
Qed.

(** [lo ..= hi] contains [n]. *)
Definition in_range (lo hi n : N) : bool := ((lo <=? n) && (n <=? hi))%N.

Lemma in_range_spec lo hi n : in_range lo hi n = true <-> (lo <= n <= hi)%N.
Proof. unfold in_range. rewrite andb_true_iff, !N.leb_le. done. Qed.

Lemma in_range_false lo hi n : in_range lo hi n = false <-> ~ (lo <= n <= hi)%N.
Proof. rewrite <- in_range_spec. destruct (in_range lo hi n); naive_solver. Qed.

(** Byte-string literals. *)
Definition lit (s : string) : list byte := String.list_byte_of_string s.
Definition ESC : byte := x1b.
Definition BEL : byte := x07.

(** * The pieces of [std] the source uses *)

(** The decimal digits of [n], in front of [acc]. *)
Fixpoint to_digits (fuel : nat) (n : N) (acc : list byte) : list byte :=
  match fuel with
  | O => acc
  | S fuel =>
      let acc := byte_of (48 + n mod 10) :: acc in
      if (n <? 10)%N then acc else to_digits fuel (n / 10) acc
  end.

(** [n.to_string().as_bytes()]: 20 digits are enough for any [u64]. *)
Definition to_string (n : N) : list byte := to_digits 20 n [].

(** A UTF-8 continuation byte. *)
Definition is_cont (b : byte) : bool := in_range 0x80 0xBF (u8 b).

(** The bytes [std::str::from_utf8] accepts: the well-formed sequences of the
    Unicode standard (no overlong form, no surrogate, at most U+10FFFF). *)
Fixpoint utf8_valid (bs : list byte) : bool :=
  match bs with
  | [] => true
  | b0 :: r0 =>
    let n := u8 b0 in
    if in_range 0x00 0x7F n then utf8_valid r0
    else match r0 with
    | [] => false
    | b1 :: r1 =>
      if in_range 0xC2 0xDF n then is_cont b1 && utf8_valid r1
      else match r1 with
      | [] => false
      | b2 :: r2 =>
        if in_range 0xE0 0xEF n then
          is_cont b1 && is_cont b2
          && (if (n =? 0xE0)%N then (0xA0 <=? u8 b1)%N
              else if (n =? 0xED)%N then (u8 b1 <=? 0x9F)%N else true)
          && utf8_valid r2
        else match r2 with
        | [] => false
        | b3 :: r3 =>
          if in_range 0xF0 0xF4 n then
            is_cont b1 && is_cont b2 && is_cont b3
            && (if (n =? 0xF0)%N then (0x90 <=? u8 b1)%N
                else if (n =? 0xF4)%N then (u8 b1 <=? 0x8F)%N else true)
            && utf8_valid r3
          else false
        end
      end
    end
  end.

(** [std::str::from_utf8(bs).ok()]: the text is kept as its bytes. *)
Definition from_utf8 (bs : list byte) : option (list byte) :=
  if utf8_valid bs then Some bs else None.

Definition digit (b : byte) : option N :=
  if in_range 48 57 (u8 b) then Some (u8 b - 48)%N else None.

(** The accumulation loop of [<u8 as FromStr>::from_str]: an overflow and a
    byte that is no digit are both errors. *)
Fixpoint parse_u8_digits (acc : N) (bs : list byte) : option N :=
  match bs with
  | [] => Some acc
  | b :: r =>
    d ← digit b;
    let acc' := (acc * 10 + d)%N in
    if (255 <? acc')%N then None else parse_u8_digits acc' r
  end.

(** [s.parse::<u8>().ok()]: one leading [+] is accepted, the empty string, a
    lone sign, any other byte and a value above 255 are not. *)
Definition parse_u8 (bs : list byte) : option N :=
  match bs with
  | [] => None
  | [x2b] => None
  | x2b :: r => parse_u8_digits 0 r
  | _ => parse_u8_digits 0 bs
  end.

(** [Option::and_then]. *)
Definition and_then {A B : Type} (o : option A) (f : A -> option B) : option B :=
  match o with Some a => f a | None => None end.

(** [Result<A, E>]. *)
Inductive result (A E : Type) : Type :=
  | Ok (a : A)
  | Err (e : E).
Arguments Ok {A E} a.
Arguments Err {A E} e.

(** ** Decimal text *)

Definition is_digit (b : byte) : bool := in_range 48 57 (u8 b).
Definition dec_value (a : N) (bs : list byte) : N :=
  foldl (fun a b => a * 10 + (u8 b - 48))%N a bs.

Lemma digit_byte n : u8 (byte_of (48 + n mod 10)) = (48 + n mod 10)%N.
Proof. pose proof (N.mod_lt n 10 ltac:(done)). rewrite u8_byte_of, N.mod_small; lia. Qed.

Lemma digit_byte_is_digit n : is_digit (byte_of (48 + n mod 10)) = true.
Proof.
  pose proof (N.mod_lt n 10 ltac:(done)).
  unfold is_digit. apply in_range_spec. rewrite digit_byte.
  generalize dependent (n mod 10)%N. lia.
Qed.

Lemma to_digits_spec f n acc :
  (n < 10 ^ N.of_nat (S f))%N ->
  exists ds, to_digits (S f) n acc = ds ++ acc /\ ds <> [] /\
    Forall (fun b => is_digit b = true) ds /\ dec_value 0 ds = n.
Proof.
  revert n acc. induction f as [|f IH]; intros n acc Hn.
  all: change (to_digits (S ?f) n acc) with
    (if (n <? 10)%N then byte_of (48 + n mod 10) :: acc
     else to_digits f (n / 10) (byte_of (48 + n mod 10) :: acc)).
  all: destruct (N.ltb_spec n 10) as [Hlt|Hge];
    [exists [byte_of (48 + n mod 10)]; split_and!;
      [done|done|by repeat constructor; apply digit_byte_is_digit|
       unfold dec_value; cbn [foldl]; rewrite digit_byte, N.mod_small by done; clear; lia]|].
  - change (10 ^ N.of_nat 1)%N with 10%N in Hn. lia.
  - destruct (IH (n / 10)%N (byte_of (48 + n mod 10) :: acc)) as (ds & E & Hne & Hf & Hv).
    { apply N.Div0.div_lt_upper_bound. by rewrite (Nat2N.inj_succ (S f)), N.pow_succ_r' in Hn. }
    rewrite E. exists (ds ++ [byte_of (48 + n mod 10)]). split_and!.
    + by rewrite <- app_assoc.
    + by destruct ds.
    + apply Forall_app. split; [done|repeat constructor; apply digit_byte_is_digit].
    + unfold dec_value in *. rewrite foldl_app, Hv. cbn [foldl]. rewrite digit_byte.
      pose proof (N.div_mod n 10 ltac:(done)) as Hd. clear -Hd.
      generalize dependent (n mod 10)%N. generalize (n / 10)%N. lia.
Qed.

Lemma to_string_spec n :
  (n < 10 ^ 20)%N ->
  to_string n <> [] /\ Forall (fun b => is_digit b = true) (to_string n) /\
    dec_value 0 (to_string n) = n.
Proof.
  intros Hn. destruct (to_digits_spec 19 n [] Hn) as (ds & E & ?).
  unfold to_string. by rewrite E, app_nil_r.
Qed.

(** * Loops

    A Rust operation that can panic returns [option]: [None] is the panic.
    [foldM] is a [for] loop whose body can panic. *)
Fixpoint foldM {S A : Type} (f : S -> A -> option S) (s : S) (l : list A) : option S :=
  match l with
  | [] => Some s
  | a :: l' => s' ← f s a; foldM f s' l'
  end.

Section foldM.
Context {S A : Type} (f : S -> A -> option S).

Lemma foldM_app s l1 l2 :
  foldM f s (l1 ++ l2) = (s' ← foldM f s l1; foldM f s' l2).
Proof.
  revert s. induction l1 as [|a l1 IH]; intros s; [done|]. simpl.
  destruct (f s a) as [s'|]; simpl; [apply IH | done].
Qed.

Lemma foldM_concat s (ls : list (list A)) :
  foldM (foldM f) s ls = foldM f s (concat ls).
Proof.
  revert s. induction ls as [|l ls IH]; intros s; simpl; [done|].
  rewrite foldM_app. destruct (foldM f s l); simpl; auto.
Qed.

(** A body that runs and keeps [P] from every state of [P] gives a loop that
    runs and keeps [P]. *)
Lemma foldM_total (P : S -> Prop) s l :
  (forall s a, P s -> exists s', f s a = Some s' /\ P s') ->
  P s -> exists s', foldM f s l = Some s' /\ P s'.
Proof.
  intros Hf. revert s. induction l as [|a l IH]; intros s Hs; simpl; [eauto|].
  destruct (Hf s a Hs) as (s' & -> & Hs'). simpl. auto.
Qed.

Lemma foldM_inv (P : S -> Prop) s l s' :
  (forall s a s', P s -> f s a = Some s' -> P s') ->
  P s -> foldM f s l = Some s' -> P s'.
Proof.
  intros Hf. revert s. induction l as [|a l IH]; intros s Hs; simpl.
  - by intros [= <-].
  - destruct (f s a) as [s1|] eqn:E; simpl; [|done]. eauto.
Qed.
End foldM.

(** Rule induction on a run: an invariant of the steps holds along it. *)
Lemma rtc_invariant {A} (R : relation A) (P : A -> Prop) x y :
  (forall x y, P x -> R x y -> P y) -> rtc R x y -> P x -> P y.
Proof. intros HR. induction 1; eauto. Qed.

(** * Lists *)

Lemma last_snoc_inv {A} (l : list A) :
  l <> [] -> exists l' x, l = l' ++ [x].
Proof. intros H. destruct (exists_last H) as (l' & x & ->). eauto. Qed.

Lemma drop_concat_suffix {A} (n : nat) (ls : list (list A)) :
  exists pre, concat ls = pre ++ concat (drop n ls).
Proof. exists (concat (take n ls)). by rewrite <- concat_app, take_drop. Qed.

Lemma Forall2_impl_l {A B} (P : A -> Prop) (Q Q' : A -> B -> Prop) l k :
  Forall P l -> Forall2 Q l k -> (forall x y, P x -> Q x y -> Q' x y) -> Forall2 Q' l k.
Proof. intros Hp Hq Hi. induction Hq; inversion Hp; subst; constructor; auto. Qed.

(** * Automation *)

Create HintDb muxer discriminated.
Create Rewrite HintDb muxer.

(** Split a goal or hypothesis on the matches of a monadic definition. *)
Ltac simplify_option :=
  repeat match goal with
  | H : Some _ = Some _ |- _ => injection H as H
  | H : None = Some _ |- _ => discriminate H
  | H : Some _ = None |- _ => discriminate H
  | H : mbind _ ?m = Some _ |- _ =>
      let E := fresh "E" in destruct m eqn:E; simpl in H
  | H : (match ?m with Some _ => _ | None => _ end) = Some _ |- _ =>
      let E := fresh "E" in destruct m eqn:E; simpl in H
  end; simplify_eq.

(** Decide the branches a byte takes from the range it is in. *)
Ltac byte_range :=
  repeat match goal with
  | H : in_range _ _ _ = true |- _ => apply in_range_spec in H
  | H : (_ <=? _)%N = true |- _ => apply N.leb_le in H
  | H : (_ <? _)%N = true |- _ => apply N.ltb_lt in H
  | H : (_ <? _)%N = false |- _ => apply N.ltb_ge in H
  end.

Ltac branch :=
  match goal with
  | |- context [in_range ?lo ?hi ?n] =>
      first [ rewrite (proj2 (in_range_spec lo hi n)) by lia
            | rewrite (proj2 (in_range_false lo hi n)) by lia ]
  | |- context [(?a <=? ?b)%N] =>
      first [ rewrite (proj2 (N.leb_le a b)) by lia
            | rewrite (proj2 (N.leb_gt a b)) by lia ]
  | |- context [decide (?b = ?c)] =>
      first [ rewrite (decide_True (P := b = c)) by done
            | rewrite (decide_False (P := b = c)) by
                (intros ->; vm_compute in *; intuition congruence) ]
  end.

#[export] Hint Rewrite @foldM_app @concat_app @length_app @app_nil_r : muxer.
#[export] Hint Resolve u8_bound : muxer.
