(* ===== verification/Vte.v ===== *)
(** The interface to the [vte] crate, which the scanner drives.

    [vte] is not part of the repository. [Vte] is the parser as a parameter:
    feeding one byte moves the parser and makes a sequence of calls on the
    [Perform] sink, one constructor of [callback] per trait method. [VteLaws]
    states the documented behaviour of the parser (Paul Williams' state machine
    for DEC terminals, on 7-bit codes and UTF-8 text) that some theorems rely
    on, one byte at a time. *)
From S2P Require Import Prelude.

Abbreviation char := N (only parsing).

Inductive callback :=
  | Print (c : char)
  | Execute (b : byte)
  | Hook (params : list (list u16)) (intermediates : list byte) (ignore : bool) (action : char)
  | Put (b : byte)
  | Unhook
  | OscDispatch (params : list (list byte)) (bell_terminated : bool)
  | CsiDispatch (params : list (list u16)) (intermediates : list byte) (ignore : bool) (action : char)
  | EscDispatch (intermediates : list byte) (ignore : bool) (b : byte).

Class Vte := {
  parser : Type;
  parser_new : parser;
  (** [Parser::advance(&mut self, sink, &[b])]. *)
  advance : parser -> byte -> parser * list callback
}.

(** The calls made for each byte of a sequence. *)
Fixpoint advance_all `{Vte} (p : parser) (bs : list byte) : parser * list (list callback) :=
  match bs with
  | [] => (p, [])
  | b :: bs' => let '(p1, cbs) := advance p b in
                let '(p2, rest) := advance_all p1 bs' in (p2, cbs :: rest)
  end.

(** The parameters of an OSC: its body split at every [;]. *)
Fixpoint split_on (sep : byte) (bs : list byte) : list (list byte) :=
  match bs with
  | [] => [[]]
  | b :: bs' =>
      if decide (b = sep) then [] :: split_on sep bs'
      else match split_on sep bs' with
           | f :: rest => (b :: f) :: rest
           | [] => [[b]]
           end
  end.

(** A CSI parameter is a decimal number that saturates at [u16::MAX]; an
    absent one is 0. *)
Definition csi_number (bs : list byte) : u16 :=
  foldl (fun acc b => N.min (acc * 10 + (u8 b - 48)) 65535) 0%N bs.

Definition csi_params (bs : list byte) : list (list u16) :=
  (fun g => csi_number <$> split_on x3a g) <$> split_on x3b bs.

Definition is_printable (b : byte) : bool := in_range 0x20 0x7E (u8 b).
Definition is_c0 (b : byte) : bool := in_range 0x00 0x1F (u8 b) && bool_decide (b <> ESC).
(** What an OSC body may hold without ending it. *)
Definition is_osc_body (b : byte) : bool := (0x20 <=? u8 b)%N.
(** Digits and the two separators. *)
Definition is_csi_param (b : byte) : bool := in_range 0x30 0x3B (u8 b).
Definition is_csi_final (b : byte) : bool := in_range 0x40 0x7E (u8 b).
(** The limits of the parser's parameter tables. *)
Definition max_osc_params : nat := 16.
Definition max_params : nat := 32.

(** A call made for a completed character: printable, or a C1 control that
    arrived as a two-byte UTF-8 sequence. *)
Definition text_callback (cb : callback) : Prop :=
  (exists c, cb = Print c) \/ (exists b, cb = Execute b /\ (0x80 <= u8 b)%N).

(** One well-formed multibyte character. *)
Definition multibyte_char (bs : list byte) : Prop :=
  utf8_valid bs = true /\
  match bs with
  | b0 :: tl => (0x80 <= u8 b0)%N /\ length tl = (if (u8 b0 <? 0xE0)%N then 1
                                    else if (u8 b0 <? 0xF0)%N then 2 else 3)
  | [] => False
  end.

Class VteLaws {V : Vte} := {
  ground : parser -> Prop;
  escape : parser -> Prop;
  in_osc : parser -> list byte -> Prop;
  in_csi : parser -> list byte -> list byte -> Prop;
  new_ground : ground parser_new;
  ground_print p b : ground p -> is_printable b = true ->
    exists p', advance p b = (p', [Print (u8 b)]) /\ ground p';
  ground_char p bs : ground p -> multibyte_char bs ->
    exists p' cb, advance_all p bs = (p', replicate (pred (length bs)) [] ++ [[cb]]) /\
      text_callback cb /\ ground p';
  ground_execute p b : ground p -> is_c0 b = true ->
    exists p', advance p b = (p', [Execute b]) /\ ground p';
  ground_esc p : ground p -> exists p', advance p ESC = (p', []) /\ escape p';
  escape_osc p : escape p -> exists p', advance p x5d = (p', []) /\ in_osc p' [];
  osc_body p acc b : in_osc p acc -> is_osc_body b = true ->
    exists p', advance p b = (p', []) /\ in_osc p' (acc ++ [b]);
  osc_bell p acc : in_osc p acc -> length (split_on x3b acc) <= max_osc_params ->
    exists p', advance p BEL = (p', [OscDispatch (split_on x3b acc) true]) /\ ground p';
  (** A string terminator is [ESC \ ]: the OSC is dispatched on the [ESC]. *)
  osc_esc p acc : in_osc p acc -> length (split_on x3b acc) <= max_osc_params ->
    exists p', advance p ESC = (p', [OscDispatch (split_on x3b acc) false]) /\ escape p';
  (** CAN and SUB cancel it: it is dispatched all the same, and then the control is
      executed. *)
  osc_cancel p acc b : in_osc p acc -> length (split_on x3b acc) <= max_osc_params -> b = x18 \/ b = x1a ->
    exists p', advance p b = (p', [OscDispatch (split_on x3b acc) false; Execute b]) /\ ground p';
  escape_final p b : escape p -> b = x5c \/ b = x63 ->
    exists p', advance p b = (p', [EscDispatch [] false b]) /\ ground p';
  escape_csi p : escape p -> exists p', advance p x5b = (p', []) /\ in_csi p' [] [];
  csi_private p : in_csi p [] [] ->
    exists p', advance p x3f = (p', []) /\ in_csi p' [x3f] [];
  csi_param p inter acc b : in_csi p inter acc -> is_csi_param b = true ->
    exists p', advance p b = (p', []) /\ in_csi p' inter (acc ++ [b]);
  csi_final p inter acc b : in_csi p inter acc -> is_csi_final b = true ->
    length (concat (csi_params acc)) <= max_params ->
    exists p', advance p b = (p', [CsiDispatch (csi_params acc) inter false (u8 b)]) /\ ground p'
}.

(** What bounds the arguments of the calls, whatever the input: the parameter
    tables are limited, parameters saturate, and an OSC parameter holds neither
    the separator nor a control byte. [parser_ok] is the parser's invariant. *)
Definition osc_param_ok (p : list byte) : Prop :=
  forallb (fun b => is_osc_body b && bool_decide (b <> x3b)) p = true.

Definition callback_ok (cb : callback) : Prop :=
  match cb with
  | OscDispatch params _ => Forall osc_param_ok params
  | CsiDispatch params _ _ _ =>
      length (concat params) <= max_params /\ Forall (fun n => n <= 65535)%N (concat params)
  | _ => True
  end.

Class VteBounds {V : Vte} := {
  parser_ok : parser -> Prop;
  new_ok : parser_ok parser_new;
  advance_ok p b p' cbs : parser_ok p -> advance p b = (p', cbs) ->
    parser_ok p' /\ Forall callback_ok cbs
}.

(** [utf8_valid] consumes one character at a time. *)
Lemma utf8_valid_ind (P : list byte -> Prop) :
  P [] ->
  (forall b bs, (u8 b <= 0x7F)%N -> utf8_valid bs = true -> P bs -> P (b :: bs)) ->
  (forall c bs, multibyte_char c -> utf8_valid bs = true -> P bs -> P (c ++ bs)) ->
  forall bs, utf8_valid bs = true -> P bs.
Proof.
  intros Hnil Hascii Hmulti bs.
  remember (length bs) as n eqn:Hn. revert bs Hn.
  induction (lt_wf n) as [n _ IH]. intros bs -> Hv.
  destruct bs as [|b0 r0]; [done|].
  assert (IH' : forall r, length r < length (b0 :: r0) -> utf8_valid r = true -> P r) by eauto.
  clear IH. pose proof Hv as Hv0. simpl in Hv. cbv zeta in Hv.
  destruct (in_range 0x00 0x7F (u8 b0)) eqn:E0.
  { byte_range. apply Hascii; [lia|done|]. apply IH'; [simpl; lia|done]. }
  destruct r0 as [|b1 r1]; [done|].
  destruct (in_range 0xC2 0xDF (u8 b0)) eqn:E1.
  { apply andb_true_iff in Hv as [Hc Hv]. apply (Hmulti [b0; b1] r1); [|done|apply IH'; simpl; [lia|done]].
    unfold multibyte_char. cbn [utf8_valid]. cbv zeta. rewrite E0, E1, Hc. byte_range.
    split; [done|]. split; [lia|]. by rewrite (proj2 (N.ltb_lt _ _)) by lia. }
  destruct r1 as [|b2 r2]; [done|].
  destruct (in_range 0xE0 0xEF (u8 b0)) eqn:E2.
  { apply andb_true_iff in Hv as [Hc Hv]. apply (Hmulti [b0; b1; b2] r2); [|done|apply IH'; simpl; [lia|done]].
    unfold multibyte_char. cbn [utf8_valid]. cbv zeta. rewrite E0, E1, E2, Hc. byte_range.
    split; [done|]. split; [lia|].
    by rewrite (proj2 (N.ltb_ge _ _)), (proj2 (N.ltb_lt _ _)) by lia. }
  destruct r2 as [|b3 r3]; [done|].
  destruct (in_range 0xF0 0xF4 (u8 b0)) eqn:E3; [|done].
  apply andb_true_iff in Hv as [Hc Hv]. apply (Hmulti [b0; b1; b2; b3] r3); [|done|apply IH'; simpl; [lia|done]].
  unfold multibyte_char. cbn [utf8_valid]. cbv zeta. rewrite E0, E1, E2, E3, Hc. byte_range.
  split; [done|]. split; [lia|]. by rewrite !(proj2 (N.ltb_ge _ _)) by lia.
Qed.
