(* ===== verification/ParserInstance.v ===== *)
(** A concrete parser that satisfies [VteLaws].

    It is not a model of the [vte] crate: it is the smallest machine with the
    documented behaviour the laws state, and it shows that the laws can hold
    together. The theorems about the scanner are for any parser; their witnesses
    run this one. *)
From S2P Require Import Prelude Vte.

Inductive pstate :=
  | PGround
  | PUtf8 (more : nat) (scalar : N)
  | PEsc
  | POsc (acc : list byte)
  | PCsi (inter acc : list byte).

Definition ground_step (b : byte) : pstate * list callback :=
  let n := u8 b in
  if decide (b = ESC) then (PEsc, [])
  else if (n <=? 0x1F)%N then (PGround, [Execute b])
  else if (n <=? 0x7F)%N then (PGround, [Print n])
  else if in_range 0xC2 0xDF n then (PUtf8 1 (n - 0xC0), [])
  else if in_range 0xE0 0xEF n then (PUtf8 2 (n - 0xE0), [])
  else if in_range 0xF0 0xF4 n then (PUtf8 3 (n - 0xF0), [])
  else (PGround, [Print 0xFFFD]).

Definition step (p : pstate) (b : byte) : pstate * list callback :=
  match p with
  | PGround => ground_step b
  | PUtf8 more scalar =>
      if is_cont b then
        let scalar := (scalar * 64 + (u8 b - 0x80))%N in
        match more with
        | S (S l) => (PUtf8 (S l) scalar, [])
        | _ => (PGround, [Print scalar])
        end
      else (PGround, [Print 0xFFFD])
  | PEsc =>
      if decide (b = x5d) then (POsc [], [])
      else if decide (b = x5b) then (PCsi [] [], [])
      else (PGround, [EscDispatch [] false b])
  | POsc acc =>
      if decide (b = BEL) then (PGround, [OscDispatch (split_on x3b acc) true])
      else if decide (b = ESC) then (PEsc, [OscDispatch (split_on x3b acc) false])
      else if is_osc_body b then (POsc (acc ++ [b]), [])
      else if bool_decide (b = x18 \/ b = x1a) then (PGround, [OscDispatch (split_on x3b acc) false; Execute b])
      else (p, [])
  | PCsi inter acc =>
      if is_csi_param b then (PCsi inter (acc ++ [b]), [])
      else if is_csi_final b then
        (PGround, if bool_decide (length (concat (csi_params acc)) <= max_params)
                  then [CsiDispatch (csi_params acc) inter false (u8 b)] else [])
      else if bool_decide (b = x3f /\ inter = [] /\ acc = []) then (PCsi [b] [], [])
      else (PGround, [])
  end.

#[export] Instance reference_vte : Vte :=
  {| parser := pstate; parser_new := PGround; advance := step |}.

Lemma ground_step_print b : is_printable b = true -> ground_step b = (PGround, [Print (u8 b)]).
Proof.
  unfold is_printable. intros H. byte_range. unfold ground_step. by repeat branch.
Qed.

Lemma ground_step_execute b : is_c0 b = true -> ground_step b = (PGround, [Execute b]).
Proof.
  unfold is_c0. intros [H Hne%bool_decide_eq_true]%andb_true_iff. byte_range.
  unfold ground_step. rewrite decide_False by done. by repeat branch.
Qed.

Lemma cont_step more scalar b :
  is_cont b = true ->
  step (PUtf8 more scalar) b =
  match more with
  | S (S l) => (PUtf8 (S l) (scalar * 64 + (u8 b - 0x80)), [])
  | _ => (PGround, [Print (scalar * 64 + (u8 b - 0x80))])
  end.
Proof. intros H. unfold step. by rewrite H. Qed.

Lemma multibyte_step bs :
  multibyte_char bs ->
  exists c, advance_all PGround bs = (PGround, replicate (pred (length bs)) [] ++ [[Print c]]).
Proof.
  intros [Hv Hl]. destruct bs as [|b0 tl]; [done|]. destruct Hl as [Hb Hl].
  simpl in Hv. cbv zeta in Hv.
  destruct (in_range 0 0x7F (u8 b0)) eqn:E0; [byte_range; lia|].
  destruct (N.ltb_spec (u8 b0) 0xE0); [|destruct (N.ltb_spec (u8 b0) 0xF0)];
    destruct tl as [|b1 [|b2 [|b3 [|]]]]; simpl in Hl; try lia;
    repeat match type of Hv with
    | (if ?c then _ else _) = true => destruct c eqn:?
    | (_ && _)%bool = true => apply andb_true_iff in Hv as [Hv ?]
    end; try done; byte_range; try lia;
    repeat match goal with H : (_ && _)%bool = true |- _ => apply andb_true_iff in H as [? ?] end;
    eexists; cbn [advance_all advance reference_vte parser_new];
    change (step PGround b0) with (ground_step b0); unfold ground_step; repeat branch;
    rewrite !cont_step by done; reflexivity.
Qed.

#[export] Instance reference_laws : @VteLaws reference_vte.
Proof.
  refine {|
    ground := fun p : @parser reference_vte => p = PGround;
    escape := fun p : @parser reference_vte => p = PEsc;
    in_osc := fun (p : @parser reference_vte) acc => p = POsc acc;
    in_csi := fun (p : @parser reference_vte) inter acc => p = PCsi inter acc |};
    cbn [advance parser_new reference_vte].
  - done.
  - intros p b -> H. exists PGround. by rewrite <- ground_step_print.
  - intros p bs -> H. destruct (multibyte_step bs H) as [c Hc].
    exists PGround, (Print c). split; [done|]. split; [left; eauto|done].
  - intros p b -> H. exists PGround. by rewrite <- ground_step_execute.
  - intros p ->. by exists PEsc.
  - intros p ->. by exists (POsc []).
  - intros p acc b -> H. exists (POsc (acc ++ [b])). split; [|done].
    unfold step. unfold is_osc_body in *. pose proof H as H'. byte_range. repeat branch. done.
  - intros p acc -> _. by exists PGround.
  - intros p acc -> _. by exists PEsc.
  - intros p acc b -> _ [-> | ->]; by exists PGround.
  - intros p b -> [->| ->]; by exists PGround.
  - intros p ->. by exists (PCsi [] []).
  - intros p ->. by exists (PCsi [x3f] []).
  - intros p inter acc b -> H. exists (PCsi inter (acc ++ [b])). split; [|done].
    unfold step. by rewrite H.
  - intros p inter acc b -> H Hl. exists PGround. split; [|done].
    unfold step, is_csi_param. unfold is_csi_final in *. byte_range. repeat branch.
    by rewrite bool_decide_eq_true_2.
Defined.

Lemma csi_number_bound bs : (csi_number bs <= 65535)%N.
Proof.
  unfold csi_number. assert (H : (0 <= 65535)%N) by done. revert H. generalize 0%N.
  induction bs as [|b bs IH]; intros a Ha; simpl; [done|]. apply IH. lia.
Qed.

Lemma split_on_params acc :
  forallb is_osc_body acc = true -> Forall osc_param_ok (split_on x3b acc).
Proof.
  unfold osc_param_ok. induction acc as [|b acc IH]; simpl; [by repeat constructor|].
  intros [Hb H]%andb_true_iff. specialize (IH H). destruct (decide (b = x3b)) as [|Hne].
  - by constructor.
  - destruct (split_on x3b acc) as [|f r]; [by repeat constructor; simpl; rewrite Hb, bool_decide_eq_true_2|].
    inversion IH; subst. constructor; [|done]. simpl. by rewrite Hb, bool_decide_eq_true_2.
Qed.

#[export] Instance reference_bounds : @VteBounds reference_vte.
Proof.
  refine {| parser_ok := fun p : @parser reference_vte =>
    match p with POsc acc => forallb is_osc_body acc = true | _ => True end |}; [done|].
  cbn [advance reference_vte]. intros p b p' cbs Hp E.
  assert (Hc : forall acc, Forall (fun n => n <= 65535)%N (concat (csi_params acc))).
  { intros acc. unfold csi_params. induction (split_on x3b acc) as [|g gs IH]; simpl; [constructor|].
    apply Forall_app. split; [|done]. apply Forall_fmap, Forall_forall. intros; apply csi_number_bound. }
  destruct p; unfold step, ground_step in E; cbv zeta in E; repeat case_match; simplify_eq;
    try (split; [done|]; apply Forall_cons; split; [by apply split_on_params|by apply Forall_singleton]);
    try (split; [done|]; first [by apply Forall_nil | apply Forall_singleton]);
    try exact I; try by apply split_on_params.
  - split; [|apply Forall_nil; done]. rewrite forallb_app, Hp. simpl. by rewrite andb_true_r.
  - split; [|by apply Hc]. match goal with H : bool_decide _ = true |- _ => by apply bool_decide_eq_true in H end.
Defined.
