(* ===== verification/Status.v ===== *)
(** core/src/status.rs: the latest semantic shell status.

    [StatusCache] is the state the scanner updates while OSC 133 and OSC 9;4
    sequences arrive, [StatusSnapshot] the immutable view handed to the
    daemon. *)
From S2P Require Import Prelude.

Record StatusSnapshot := mkSnapshot {
  running : bool;
  progress : option N
}.

#[export] Instance StatusSnapshot_eq_dec : EqDecision StatusSnapshot.
Proof. solve_decision. Defined.

Record StatusCache := mkStatus {
  st_running : bool;
  st_progress : option N;
  saw_marker : bool
}.

Definition new : StatusCache :=
  {| st_running := false; st_progress := None; saw_marker := false |}.

Definition set_running (r : bool) (c : StatusCache) : StatusCache :=
  {| st_running := r; st_progress := st_progress c; saw_marker := saw_marker c |}.

Definition set_progress (p : option N) (c : StatusCache) : StatusCache :=
  {| st_running := st_running c; st_progress := p; saw_marker := saw_marker c |}.

Definition set_prompt_marker_seen (c : StatusCache) : StatusCache :=
  {| st_running := st_running c; st_progress := st_progress c; saw_marker := true |}.

Definition saw_prompt_marker (c : StatusCache) : bool := saw_marker c.

Definition snapshot (c : StatusCache) : StatusSnapshot :=
  {| running := st_running c; progress := st_progress c |}.

(** What every reachable cache satisfies: nothing but OSC 133 sets [running],
    and each OSC 133 latches the marker; a progress value is a [u8]. *)
Record status_wf (c : StatusCache) : Prop := {
  running_marked : st_running c = true -> saw_marker c = true;
  progress_u8 : forall p, st_progress c = Some p -> (p < 256)%N
}.

Lemma status_new_wf : status_wf new.
Proof. by split. Qed.
#[export] Hint Resolve status_new_wf : muxer.
