(* ===== verification/Sticky.v ===== *)
(** core/src/sticky.rs: the visual terminal state re-asserted at the head of
    a chunk, with its lazily built, cached serialization.

    The [RefCell] cache is part of the state, so [serialize] returns the state
    it leaves behind. Two states that differ only in the cache are the same
    terminal state: [sticky_equiv]. *)
From S2P Require Import Prelude.

Record StickyState := mkSticky {
  sgr : list u16;
  dec_modes : gmap u16 bool;
  scroll_region : option (u16 * u16);
  cwd : option (list byte);
  title : option (list byte);
  cache : option (list byte)
}.

Definition new : StickyState :=
  {| sgr := []; dec_modes := ∅; scroll_region := None; cwd := None;
     title := None; cache := None |}.

Definition invalidate (s : StickyState) : StickyState :=
  {| sgr := sgr s; dec_modes := dec_modes s; scroll_region := scroll_region s;
     cwd := cwd s; title := title s; cache := None |}.

Definition set_sgr (params : list u16) (s : StickyState) : StickyState :=
  invalidate
    {| sgr := params; dec_modes := dec_modes s; scroll_region := scroll_region s;
       cwd := cwd s; title := title s; cache := cache s |}.

Definition set_dec_mode (code : u16) (on : bool) (s : StickyState) : StickyState :=
  invalidate
    {| sgr := sgr s;
       dec_modes := if on then <[code := true]> (dec_modes s)
                    else delete code (dec_modes s);
       scroll_region := scroll_region s;
       cwd := cwd s; title := title s; cache := cache s |}.

Definition set_scroll_region (region : option (u16 * u16)) (s : StickyState) : StickyState :=
  invalidate
    {| sgr := sgr s; dec_modes := dec_modes s; scroll_region := region;
       cwd := cwd s; title := title s; cache := cache s |}.

Definition set_cwd (c : list byte) (s : StickyState) : StickyState :=
  invalidate
    {| sgr := sgr s; dec_modes := dec_modes s; scroll_region := scroll_region s;
       cwd := Some c; title := title s; cache := cache s |}.

Definition set_title (t : list byte) (s : StickyState) : StickyState :=
  invalidate
    {| sgr := sgr s; dec_modes := dec_modes s; scroll_region := scroll_region s;
       cwd := cwd s; title := Some t; cache := cache s |}.

(** [BTreeMap::keys]: ascending. *)
Definition dec_mode_keys (m : gmap u16 bool) : list u16 :=
  merge_sort N.le (map_to_list m).*1.

(** The [for (i, p) in self.sgr.iter().enumerate()] loop: [;] before every
    parameter but the first. *)
Fixpoint sgr_params (first : bool) (ps : list u16) : list byte :=
  match ps with
  | [] => []
  | p :: ps' => (if first then [] else lit ";") ++ to_string p ++ sgr_params false ps'
  end.

Definition build_serialized (s : StickyState) : list byte :=
  let out := ESC :: lit "[0m" in
  let out := match sgr s with
             | [] => out
             | ps => out ++ (ESC :: lit "[") ++ sgr_params true ps ++ lit "m"
             end in
  let out := out ++ concat ((fun code => (ESC :: lit "[?") ++ to_string code ++ lit "h")
                              <$> dec_mode_keys (dec_modes s)) in
  let out := match scroll_region s with
             | Some (top, bottom) =>
                 out ++ (ESC :: lit "[") ++ to_string top ++ lit ";"
                     ++ to_string bottom ++ lit "r"
             | None => out
             end in
  let out := match cwd s with
             | Some c => out ++ (ESC :: lit "]7;") ++ c ++ [BEL]
             | None => out
             end in
  match title s with
  | Some t => out ++ (ESC :: lit "]2;") ++ t ++ [BEL]
  | None => out
  end.

Definition serialize (s : StickyState) : list byte * StickyState :=
  match cache s with
  | Some cached => (cached, s)
  | None =>
      let out := build_serialized s in
      (out, {| sgr := sgr s; dec_modes := dec_modes s;
               scroll_region := scroll_region s; cwd := cwd s; title := title s;
               cache := Some out |})
  end.

(** ** The cache is coherent, and invisible *)

Definition cache_ok (s : StickyState) : Prop :=
  forall c, cache s = Some c -> c = build_serialized s.

(** Only modes that are on have an entry. *)
Definition modes_on (s : StickyState) : Prop :=
  forall code b, dec_modes s !! code = Some b -> b = true.

Record sticky_wf (s : StickyState) : Prop := {
  wf_cache : cache_ok s;
  wf_modes : modes_on s
}.

Record sticky_equiv (s1 s2 : StickyState) : Prop := {
  equiv_sgr : sgr s1 = sgr s2;
  equiv_modes : dec_modes s1 = dec_modes s2;
  equiv_region : scroll_region s1 = scroll_region s2;
  equiv_cwd : cwd s1 = cwd s2;
  equiv_title : title s1 = title s2
}.

#[export] Instance sticky_equivalence : Equivalence sticky_equiv.
Proof.
  split; [by intros ?|by intros ?? []|].
  intros x y z [] []. split; by etransitivity.
Qed.

(** Every operation of the source respects it. *)
Section proper.
#[export] Instance build_serialized_proper :
  Proper (sticky_equiv ==> eq) build_serialized.
Proof. intros s1 s2 [H1 H2 H3 H4 H5]. unfold build_serialized. by rewrite H1, H2, H3, H4, H5. Qed.

#[export] Instance set_sgr_proper : Proper (eq ==> sticky_equiv ==> sticky_equiv) set_sgr.
Proof. intros ?? <- ?? []. by split. Qed.
#[export] Instance set_dec_mode_proper :
  Proper (eq ==> eq ==> sticky_equiv ==> sticky_equiv) set_dec_mode.
Proof. intros ?? <- ?? <- ?? [? H ???]. split; simpl; [done| by rewrite H |done..]. Qed.
#[export] Instance set_scroll_region_proper :
  Proper (eq ==> sticky_equiv ==> sticky_equiv) set_scroll_region.
Proof. intros ?? <- ?? []. by split. Qed.
#[export] Instance set_cwd_proper : Proper (eq ==> sticky_equiv ==> sticky_equiv) set_cwd.
Proof. intros ?? <- ?? []. by split. Qed.
#[export] Instance set_title_proper : Proper (eq ==> sticky_equiv ==> sticky_equiv) set_title.
Proof. intros ?? <- ?? []. by split. Qed.
End proper.

Lemma serialize_equiv s : sticky_equiv (serialize s).2 s.
Proof. unfold serialize. by destruct (cache s). Qed.

Lemma serialize_build s : cache_ok s -> (serialize s).1 = build_serialized s.
Proof. intros H. unfold serialize. destruct (cache s) eqn:E; [by apply H|done]. Qed.

Lemma new_sticky_wf : sticky_wf new.
Proof. split; [done|]. intros code b. unfold new; simpl. by rewrite lookup_empty. Qed.

Lemma serialize_wf s : sticky_wf s -> sticky_wf (serialize s).2.
Proof.
  intros [Hc Hm]. unfold serialize. destruct (cache s) eqn:E; [by split|].
  split; [|done]. intros c [= <-]. apply build_serialized_proper. by split.
Qed.

(** Each mutation drops the cache and keeps the mode table to modes that are on. *)
Lemma mutation_wf s' :
  cache s' = None -> modes_on s' -> sticky_wf s'.
Proof. intros Hc Hm. split; [|done]. intros c. by rewrite Hc. Qed.

Lemma set_dec_mode_on code on s : modes_on s -> modes_on (set_dec_mode code on s).
Proof.
  intros Hm c b. unfold set_dec_mode; simpl. destruct on.
  - rewrite lookup_insert. case_decide; [by intros [= <-]|apply Hm].
  - rewrite lookup_delete. case_decide; [done|apply Hm].
Qed.

Lemma set_sgr_wf ps s : sticky_wf s -> sticky_wf (set_sgr ps s).
Proof. intros [? Hm]. by apply mutation_wf. Qed.
Lemma set_dec_mode_wf code on s : sticky_wf s -> sticky_wf (set_dec_mode code on s).
Proof. intros [? Hm]. apply mutation_wf; [done|by apply set_dec_mode_on]. Qed.
Lemma set_scroll_region_wf r s : sticky_wf s -> sticky_wf (set_scroll_region r s).
Proof. intros [? Hm]. by apply mutation_wf. Qed.
Lemma set_cwd_wf c s : sticky_wf s -> sticky_wf (set_cwd c s).
Proof. intros [? Hm]. by apply mutation_wf. Qed.
Lemma set_title_wf t s : sticky_wf s -> sticky_wf (set_title t s).
Proof. intros [? Hm]. by apply mutation_wf. Qed.

#[export] Hint Resolve new_sticky_wf serialize_wf set_sgr_wf set_dec_mode_wf
  set_scroll_region_wf set_cwd_wf set_title_wf wf_cache wf_modes : muxer.

(** ** Any use of the interface *)

Inductive sticky_op :=
  | OpSgr (params : list u16)
  | OpDecMode (code : u16) (on : bool)
  | OpScrollRegion (region : option (u16 * u16))
  | OpCwd (c : list byte)
  | OpTitle (t : list byte)
  | OpSerialize.

Definition apply_op (s : StickyState) (op : sticky_op) : StickyState :=
  match op with
  | OpSgr ps => set_sgr ps s
  | OpDecMode code on => set_dec_mode code on s
  | OpScrollRegion r => set_scroll_region r s
  | OpCwd c => set_cwd c s
  | OpTitle t => set_title t s
  | OpSerialize => (serialize s).2
  end.

Definition run_ops (ops : list sticky_op) : StickyState := foldl apply_op new ops.

Lemma run_ops_wf ops : sticky_wf (run_ops ops).
Proof.
  unfold run_ops. generalize new_sticky_wf. generalize new.
  induction ops as [|op ops IH]; intros s Hs; simpl; [done|].
  apply IH. destruct op; simpl; auto with muxer.
Qed.

Definition is_serialize (op : sticky_op) : bool :=
  match op with OpSerialize => true | _ => false end.

(** A [serialize] anywhere in a run changes no later output: the run without
    its [serialize] calls reaches the same terminal state. *)
Lemma run_ops_no_serialize ops :
  sticky_equiv (run_ops ops) (run_ops (base.filter (fun op => is_serialize op = false) ops)).
Proof.
  unfold run_ops.
  cut (forall s s', sticky_equiv s s' -> sticky_equiv (foldl apply_op s ops)
    (foldl apply_op s' (base.filter (fun op => is_serialize op = false) ops))); [intros Hc; by apply Hc|].
  induction ops as [|op ops IH]; intros s s' H; simpl; [done|].
  destruct (decide (is_serialize op = false)) as [E|E].
  - rewrite filter_cons_True by done. simpl. apply IH.
    destruct op; simpl in *; try done; by rewrite H.
  - rewrite filter_cons_False by done. apply IH.
    destruct op; try done. simpl. etransitivity; [apply serialize_equiv|done].
Qed.

(** C34: whatever setters and earlier [serialize] calls ran, [serialize] returns
    what building the prologue from scratch would, and the run with every
    earlier [serialize] call removed would return the same bytes: the cache is
    coherent and never observable. *)
Theorem serialize_never_stale ops :
  (serialize (run_ops ops)).1 = build_serialized (run_ops ops) /\
  (serialize (run_ops ops)).1 =
    (serialize (run_ops (base.filter (fun op => is_serialize op = false) ops))).1.
Proof.
  rewrite !serialize_build by apply wf_cache, run_ops_wf.
  split; [done|]. by rewrite run_ops_no_serialize.
Qed.
