(* ===== verification/Ring.v ===== *)
(** core/src/ring.rs: the ring of self-contained chunks.

    The open chunk is the last one. [open_mut] is [expect]: with no chunk it
    panics, so [append] is partial, and [ring_wf] is what makes it total. *)
From S2P Require Import Prelude.

Record Chunk := mkChunk {
  prologue : list byte;
  data : list byte
}.

Definition Chunk_new (p : list byte) : Chunk := {| prologue := p; data := [] |}.

Record ChunkRing := mkRing {
  chunks : list Chunk;
  watermark : usize
}.

Definition new (watermark : usize) : ChunkRing :=
  {| chunks := [Chunk_new []]; watermark := watermark |}.

(** [self.chunks.last_mut().expect(..)], used to replace the chunk it lends. *)
Definition open_mut (r : ChunkRing) (f : Chunk -> Chunk) : option ChunkRing :=
  match last (chunks r) with
  | Some c => Some {| chunks := <[pred (length (chunks r)) := f c]> (chunks r);
                      watermark := watermark r |}
  | None => None
  end.

Definition append (bytes : list byte) (r : ChunkRing) : option ChunkRing :=
  open_mut r (fun c => {| prologue := prologue c; data := data c ++ bytes |}).

Definition should_cut (r : ChunkRing) : bool :=
  match last (chunks r) with
  | Some c => (watermark r <=? N.of_nat (length (data c)))%N
  | None => false
  end.

Definition cut (p : list byte) (r : ChunkRing) : ChunkRing :=
  {| chunks := chunks r ++ [Chunk_new p]; watermark := watermark r |}.

Definition purge (clear_prologue : list byte) (r : ChunkRing) : ChunkRing :=
  {| chunks := [Chunk_new clear_prologue]; watermark := watermark r |}.

(** [n.saturating_sub(want_chunks.max(1))]: subtraction on [N] stops at 0. *)
Definition replay_start (want_chunks : usize) (r : ChunkRing) : nat :=
  N.to_nat (N.of_nat (length (chunks r)) - N.max want_chunks 1).

Definition replay (want_chunks : usize) (r : ChunkRing) : list byte :=
  let selected := drop (replay_start want_chunks r) (chunks r) in
  let out := match selected with first :: _ => prologue first | [] => [] end in
  out ++ concat (data <$> selected).

(** * Well-formedness, and the ring as a base plus a history *)

Definition ring_wf (r : ChunkRing) : Prop := chunks r <> [].

(** What a full replay starts from, and all the data kept since. *)
Definition base (r : ChunkRing) : list byte :=
  match chunks r with c :: _ => prologue c | [] => [] end.
Definition history (r : ChunkRing) : list byte := concat (data <$> chunks r).

(** The data of the open chunk. *)
Definition open_data (r : ChunkRing) : list byte :=
  match last (chunks r) with Some c => data c | None => [] end.

Lemma ring_snoc r : ring_wf r -> exists cs c, chunks r = cs ++ [c].
Proof. apply last_snoc_inv. Qed.

Lemma append_snoc cs c w bytes :
  append bytes {| chunks := cs ++ [c]; watermark := w |} =
  Some {| chunks := cs ++ [{| prologue := prologue c; data := data c ++ bytes |}];
          watermark := w |}.
Proof.
  unfold append, open_mut; simpl. rewrite last_snoc, length_app, Nat.add_1_r; simpl.
  by rewrite insert_app_r_alt, Nat.sub_diag.
Qed.

(** [append] never panics on a ring with a chunk, and adds its bytes at the
    end of the history, in the open chunk. *)
Lemma append_spec bytes r :
  ring_wf r ->
  exists r', append bytes r = Some r' /\ ring_wf r' /\ base r' = base r /\
    history r' = history r ++ bytes /\ open_data r' = open_data r ++ bytes /\
    watermark r' = watermark r /\ length (chunks r') = length (chunks r) /\
    prologue <$> chunks r' = prologue <$> chunks r.
Proof.
  intros (cs & c & E)%ring_snoc. destruct r as [ch w]; simpl in E; subst.
  rewrite append_snoc. eexists. split; [done|].
  unfold ring_wf, base, history, open_data; simpl.
  rewrite !last_snoc, !length_app, !fmap_app, !concat_app; simpl.
  rewrite !app_nil_r, app_assoc. repeat split; [by destruct cs|by destruct cs].
Qed.

Lemma ring_new_wf w : ring_wf (new w).
Proof. done. Qed.
Lemma cut_wf p r : ring_wf (cut p r).
Proof. unfold ring_wf, cut; simpl. by destruct (chunks r). Qed.
Lemma purge_wf p r : ring_wf (purge p r).
Proof. done. Qed.
#[export] Hint Resolve ring_new_wf cut_wf purge_wf : muxer.

(** A cut moves no data: only the chunk boundaries change. *)
Lemma cut_history p r : history (cut p r) = history r.
Proof. unfold history, cut; simpl. by rewrite fmap_app, concat_app; simpl; rewrite !app_nil_r. Qed.
Lemma cut_base p r : ring_wf r -> base (cut p r) = base r.
Proof. unfold ring_wf, base, cut; simpl. by destruct (chunks r). Qed.
Lemma cut_open p r : open_data (cut p r) = [].
Proof. unfold open_data, cut; simpl. by rewrite last_snoc. Qed.

Lemma should_cut_spec r :
  ring_wf r -> should_cut r = (watermark r <=? N.of_nat (length (open_data r)))%N.
Proof.
  intros (cs & c & E)%ring_snoc. unfold should_cut, open_data. by rewrite E, last_snoc.
Qed.

(** ** Replay *)

Lemma replay_full w r :
  (N.of_nat (length (chunks r)) <= w)%N -> replay w r = base r ++ history r.
Proof.
  intros H. unfold replay, replay_start, base, history.
  replace (N.to_nat _) with 0 by lia. done.
Qed.

Lemma replay_start_lt w r : ring_wf r -> replay_start w r < length (chunks r).
Proof. intros H. unfold ring_wf in H. unfold replay_start. destruct (chunks r); simpl in *; [done|lia]. Qed.

(** The replay of any number of chunks is one chunk's prologue followed by a
    suffix of the history that starts where that chunk starts. *)
Lemma replay_suffix w r :
  ring_wf r ->
  exists c pre, chunks r !! replay_start w r = Some c /\
    replay w r = prologue c ++ concat (data <$> drop (replay_start w r) (chunks r)) /\
    history r = pre ++ concat (data <$> drop (replay_start w r) (chunks r)).
Proof.
  intros H. pose proof (replay_start_lt w r H) as [c Hc]%lookup_lt_is_Some_2.
  unfold replay. 
  exists c, (concat (data <$> take (replay_start w r) (chunks r))).
  split; [done|]. split; [by rewrite (drop_S _ _ _ Hc)|].
  unfold history. by rewrite <- concat_app, <- fmap_app, take_drop.
Qed.
