(* ===== verification/Scanner.v ===== *)
(** core/src/scanner.rs: raw terminal output in, sanitized ring, sticky state
    and shell status out.

    The [Sink] handlers are the [Perform] methods; [advance_one] feeds one byte
    to the parser, runs the handlers it calls and acts on the event they leave;
    [feed] is the byte loop with its UTF-8 and C1 [ST] bookkeeping. [None] is a
    panic (the [expect] of the ring). *)
From S2P Require Import Prelude Vte.
From S2P Require Ring Status Sticky.
From Stdlib Require Import Ascii.

Inductive SegEvent :=
  | SegNone
  | KeepByte
  | KeepSeq
  | DropSeq
  | ClearSeq.

#[export] Instance SegEvent_eq_dec : EqDecision SegEvent.
Proof. solve_decision. Defined.

Record Sink := mkSink {
  sticky : Sticky.StickyState;
  status : Status.StatusCache;
  event : SegEvent;
  st_pending : option SegEvent;
  sgr_scratch : list u16
}.

Definition Sink_new : Sink :=
  {| sticky := Sticky.new; status := Status.new; event := SegNone;
     st_pending := None; sgr_scratch := [] |}.

Definition take_event (k : Sink) : SegEvent * Sink :=
  (event k, {| sticky := sticky k; status := status k; event := SegNone;
               st_pending := st_pending k; sgr_scratch := sgr_scratch k |}).

Definition set_event (e : SegEvent) (k : Sink) : Sink :=
  {| sticky := sticky k; status := status k; event := e;
     st_pending := st_pending k; sgr_scratch := sgr_scratch k |}.
Definition set_st_pending (o : option SegEvent) (k : Sink) : Sink :=
  {| sticky := sticky k; status := status k; event := event k;
     st_pending := o; sgr_scratch := sgr_scratch k |}.
Definition set_sticky (s : Sticky.StickyState) (k : Sink) : Sink :=
  {| sticky := s; status := status k; event := event k;
     st_pending := st_pending k; sgr_scratch := sgr_scratch k |}.
Definition set_status (s : Status.StatusCache) (k : Sink) : Sink :=
  {| sticky := sticky k; status := s; event := event k;
     st_pending := st_pending k; sgr_scratch := sgr_scratch k |}.
Definition set_sgr_scratch (l : list u16) (k : Sink) : Sink :=
  {| sticky := sticky k; status := status k; event := event k;
     st_pending := st_pending k; sgr_scratch := l |}.

(** ** The [Perform] methods *)

Definition print (_c : char) (k : Sink) : Sink :=
  set_event KeepByte (set_st_pending None k).

Definition execute (b : byte) (k : Sink) : Sink :=
  set_event (if decide (b = x07) then DropSeq else KeepSeq) (set_st_pending None k).

Definition hook (k : Sink) : Sink := set_event SegNone (set_st_pending None k).
Definition put (k : Sink) : Sink := set_event SegNone (set_st_pending None k).
Definition unhook (k : Sink) : Sink := set_event KeepSeq (set_st_pending None k).

(** [code] is [Some(lit)] for one of the literals of a match arm. *)
Definition code_is (code : option (list byte)) (arms : list string) : bool :=
  match code with
  | Some c => existsb (fun a => bool_decide (c = lit a)) arms
  | None => false
  end.

(** [params.get(i)]. *)
Definition get (params : list (list byte)) (i : nat) : option (list byte) := params !! i.

Definition osc_progress (params : list (list byte)) (k : Sink) : Sink :=
  if bool_decide (get params 1 = Some (lit "4")) then
    let state := and_then (get params 2) from_utf8 in
    let value := and_then (and_then (get params 3) from_utf8) parse_u8 in
    if code_is state ["0"] then set_status (Status.set_progress None (status k)) k
    else set_status (Status.set_progress value (status k)) k
  else k.

Definition osc_prompt (params : list (list byte)) (k : Sink) : Sink :=
  let k := set_status (Status.set_prompt_marker_seen (status k)) k in
  match and_then (get params 1) head with
  | Some x43 => set_status (Status.set_running true (status k)) k
  | Some x44 => set_status (Status.set_running false (status k)) k
  | _ => k
  end.

Definition osc_dispatch (params : list (list byte)) (k : Sink) : Sink :=
  let code := and_then (get params 0) from_utf8 in
  let k :=
    if code_is code ["0"; "1"; "2"] then
      set_event KeepSeq
        match get params 1 with
        | Some text => set_sticky (Sticky.set_title text (sticky k)) k
        | None => k
        end
    else if code_is code ["7"] then
      set_event KeepSeq
        match get params 1 with
        | Some cwd => set_sticky (Sticky.set_cwd cwd (sticky k)) k
        | None => k
        end
    else if code_is code ["9"] then set_event DropSeq (osc_progress params k)
    else if code_is code ["133"] then set_event DropSeq (osc_prompt params k)
    else if code_is code ["52"; "777"] then set_event DropSeq k
    else set_event KeepSeq k in
  set_st_pending (Some (event k)) k.

Definition ch (a : ascii) : char := N_of_ascii a.

(** [params.iter().next()...first().copied().unwrap_or(0)] at index [i]. *)
Definition param_or_0 (params : list (list u16)) (i : nat) : u16 :=
  default 0%N (and_then (params !! i) head).

Definition csi_sgr (params : list (list u16)) (k : Sink) : Sink :=
  let k := set_sgr_scratch (concat params) k in
  if bool_decide (sgr_scratch k = [] \/ sgr_scratch k = [0%N])
  then set_sticky (Sticky.set_sgr [] (sticky k)) k
  else set_sticky (Sticky.set_sgr (sgr_scratch k) (sticky k)) k.

Definition csi_region (params : list (list u16)) (k : Sink) : Sink :=
  let top := param_or_0 params 0 in
  let bottom := param_or_0 params 1 in
  if ((top =? 0) && (bottom =? 0))%N
  then set_sticky (Sticky.set_scroll_region None (sticky k)) k
  else set_sticky (Sticky.set_scroll_region (Some (top, bottom)) (sticky k)) k.

Definition csi_modes (on : bool) (params : list (list u16)) (k : Sink) : Sink :=
  foldl (fun k sub => match sub with
                      | code :: _ => set_sticky (Sticky.set_dec_mode code on (sticky k)) k
                      | [] => k
                      end) k params.

Definition csi_dispatch (params : list (list u16)) (intermediates : list byte)
    (action : char) (k : Sink) : Sink :=
  let k := set_st_pending None k in
  let is_private := bool_decide (head intermediates = Some x3f) in
  if (action =? ch "n")%N then set_event DropSeq k
  else if (action =? ch "c")%N then set_event DropSeq k
  else if ((action =? ch "m")%N && negb is_private) then
    set_event KeepSeq (csi_sgr params k)
  else if ((action =? ch "r")%N && negb is_private) then
    set_event KeepSeq (csi_region params k)
  else if (((action =? ch "h") || (action =? ch "l"))%N && is_private) then
    set_event KeepSeq (csi_modes (action =? ch "h")%N params k)
  else if (action =? ch "J")%N then
    let mode := param_or_0 params 0 in
    set_event (if ((mode =? 2) || (mode =? 3))%N then ClearSeq else KeepSeq) k
  else set_event KeepSeq k.

Definition esc_dispatch (b : byte) (k : Sink) : Sink :=
  match decide (b = x5c), st_pending k with
  | left _, Some ev => set_event ev (set_st_pending None k)
  | _, _ => set_event (if decide (b = x63) then ClearSeq else KeepSeq) (set_st_pending None k)
  end.

Definition perform (k : Sink) (cb : callback) : Sink :=
  match cb with
  | Print c => print c k
  | Execute b => execute b k
  | Hook _ _ _ _ => hook k
  | Put _ => put k
  | Unhook => unhook k
  | OscDispatch params _ => osc_dispatch params k
  | CsiDispatch params intermediates _ action => csi_dispatch params intermediates action k
  | EscDispatch _ _ b => esc_dispatch b k
  end.

(** ** The scanner *)

Record Scanner `{Vte} := mkScanner {
  parser_st : parser;
  sink : Sink;
  ring : Ring.ChunkRing;
  pending : list byte;
  utf8_remaining : N
}.

(** [b"\x1b[2J\x1b[H"]. *)
Definition clear_prologue : list byte := (ESC :: lit "[2J") ++ (ESC :: lit "[H").

Section scanner.
Context `{Vte}.

Definition new (watermark : usize) : Scanner :=
  {| parser_st := parser_new; sink := Sink_new; ring := Ring.new watermark;
     pending := []; utf8_remaining := 0 |}.

Definition set_ring (r : Ring.ChunkRing) (s : Scanner) : Scanner :=
  {| parser_st := parser_st s; sink := sink s; ring := r;
     pending := pending s; utf8_remaining := utf8_remaining s |}.
Definition set_pending (p : list byte) (s : Scanner) : Scanner :=
  {| parser_st := parser_st s; sink := sink s; ring := ring s;
     pending := p; utf8_remaining := utf8_remaining s |}.
Definition set_sink (k : Sink) (s : Scanner) : Scanner :=
  {| parser_st := parser_st s; sink := k; ring := ring s;
     pending := pending s; utf8_remaining := utf8_remaining s |}.
Definition set_utf8_remaining (n : N) (s : Scanner) : Scanner :=
  {| parser_st := parser_st s; sink := sink s; ring := ring s;
     pending := pending s; utf8_remaining := n |}.

(** [self.sink.sticky.serialize()], which may fill the cache. *)
Definition serialize_sticky (s : Scanner) : list byte * Scanner :=
  let '(out, st) := Sticky.serialize (sticky (sink s)) in
  (out, set_sink (set_sticky st (sink s)) s).

Definition maybe_cut (s : Scanner) : Scanner :=
  if Ring.should_cut (ring s) then
    let '(prologue, s) := serialize_sticky s in
    set_ring (Ring.cut prologue (ring s)) s
  else s.

Definition advance_one (s : Scanner) (b : byte) : option Scanner :=
  let s := set_pending (pending s ++ [b]) s in
  let '(p, cbs) := advance (parser_st s) b in
  let k := foldl perform (sink s) cbs in
  let '(ev, k) := take_event k in
  let s := {| parser_st := p; sink := k; ring := ring s; pending := pending s;
              utf8_remaining := utf8_remaining s |} in
  match ev with
  | SegNone => Some s
  | KeepByte | KeepSeq =>
      let span := pending s in
      let s := set_pending [] s in
      r ← Ring.append span (ring s);
      Some (maybe_cut (set_ring r s))
  | DropSeq => Some (set_pending [] s)
  | ClearSeq =>
      let s := set_pending [] s in
      let '(ser, s) := serialize_sticky s in
      Some (set_ring (Ring.purge (clear_prologue ++ ser) (ring s)) s)
  end.

(** The [match b] that counts the continuation bytes to come. *)
Definition utf8_lead (b : byte) : N :=
  let n := u8 b in
  if in_range 0xc2 0xdf n then 1
  else if in_range 0xe0 0xef n then 2
  else if in_range 0xf0 0xf4 n then 3
  else 0.

Definition feed_ground (s : Scanner) (b : byte) : option Scanner :=
  let s := set_utf8_remaining (utf8_lead b) s in
  if decide (b = x9c) then s ← advance_one s x1b; advance_one s x5c
  else advance_one s b.

(** The body of the loop of [feed]. *)
Definition feed_byte (s : Scanner) (b : byte) : option Scanner :=
  if (0 <? utf8_remaining s)%N then
    if is_cont b then advance_one (set_utf8_remaining (utf8_remaining s - 1) s) b
    else feed_ground (set_utf8_remaining 0 s) b
  else feed_ground s b.

Definition feed (s : Scanner) (bytes : list byte) : option Scanner :=
  foldM feed_byte s bytes.

Definition replay (want_chunks : usize) (s : Scanner) : list byte :=
  Ring.replay want_chunks (ring s).

Definition scanner_status (s : Scanner) : Status.StatusSnapshot :=
  Status.snapshot (status (sink s)).

Definition saw_prompt_marker (s : Scanner) : bool :=
  Status.saw_prompt_marker (status (sink s)).
End scanner.

Arguments take_event : simpl never.
Arguments serialize_sticky : simpl never.
Arguments utf8_lead : simpl never.
