(* ===== verification/ScannerSpec.v ===== *)
(** What the scanner promises, and that the ring implements it.

    The specification has no ring and no watermark. A [Lexer] cuts the byte
    stream into segments, each with the verdict of the sink; a transcript is
    the list of segments, and [kept] is what a replay of the whole history must
    be: the kept spans since the last clear, after the base that clear left.
    [Scanner.feed] refines it for every watermark. *)
From S2P Require Import Prelude Vte.
From S2P Require Import Status Sticky Ring Scanner.

(** * Sinks up to the prologue cache *)

Record sink_equiv (k1 k2 : Sink) : Prop := {
  eqv_sticky : Sticky.sticky_equiv (sticky k1) (sticky k2);
  eqv_status : status k1 = status k2;
  eqv_event : event k1 = event k2;
  eqv_pending : st_pending k1 = st_pending k2;
  eqv_scratch : sgr_scratch k1 = sgr_scratch k2
}.

#[export] Instance sink_equivalence : Equivalence sink_equiv.
Proof.
  split; [by intros ?|intros ?? []; split; by symmetry|].
  intros x y z [] []. split; by etransitivity.
Qed.

#[export] Instance set_event_proper : Proper (eq ==> sink_equiv ==> sink_equiv) set_event.
Proof. by intros ?? <- ?? []. Qed.
#[export] Instance set_st_pending_proper : Proper (eq ==> sink_equiv ==> sink_equiv) set_st_pending.
Proof. by intros ?? <- ?? []. Qed.
#[export] Instance set_status_proper : Proper (eq ==> sink_equiv ==> sink_equiv) set_status.
Proof. by intros ?? <- ?? []. Qed.
#[export] Instance set_scratch_proper : Proper (eq ==> sink_equiv ==> sink_equiv) set_sgr_scratch.
Proof. by intros ?? <- ?? []. Qed.
#[export] Instance set_sticky_proper :
  Proper (Sticky.sticky_equiv ==> sink_equiv ==> sink_equiv) set_sticky.
Proof. by intros ?? ? ?? []. Qed.
#[export] Instance event_proper : Proper (sink_equiv ==> eq) event.
Proof. by intros ?? []. Qed.
#[export] Instance status_proper : Proper (sink_equiv ==> eq) status.
Proof. by intros ?? []. Qed.
#[export] Instance st_pending_proper : Proper (sink_equiv ==> eq) st_pending.
Proof. by intros ?? []. Qed.
#[export] Instance scratch_proper : Proper (sink_equiv ==> eq) sgr_scratch.
Proof. by intros ?? []. Qed.
#[export] Instance sticky_proper : Proper (sink_equiv ==> Sticky.sticky_equiv) sticky.
Proof. by intros ?? []. Qed.

#[export] Instance csi_modes_proper on params :
  Proper (sink_equiv ==> sink_equiv) (csi_modes on params).
Proof.
  unfold csi_modes. induction params as [|sub params IH]; intros k1 k2 Hk; simpl; [done|].
  apply IH. destruct sub; [done|]. by rewrite Hk.
Qed.

#[export] Instance osc_progress_proper params :
  Proper (sink_equiv ==> sink_equiv) (osc_progress params).
Proof.
  intros k1 k2 Hk. unfold osc_progress. destruct (bool_decide _); [|done].
  destruct (code_is _ _); by rewrite Hk.
Qed.

#[export] Instance osc_prompt_proper params :
  Proper (sink_equiv ==> sink_equiv) (osc_prompt params).
Proof.
  intros k1 k2 Hk. unfold osc_prompt. destruct (and_then _ _) as [[]|]; by rewrite Hk.
Qed.

#[export] Instance osc_dispatch_proper params :
  Proper (sink_equiv ==> sink_equiv) (osc_dispatch params).
Proof.
  intros k1 k2 Hk. unfold osc_dispatch. cbv zeta.
  set (code := and_then _ _). destruct (get params 1);
    repeat match goal with |- context [if code_is code ?l then _ else _] =>
             destruct (code_is code l) end; by rewrite Hk.
Qed.

#[export] Instance csi_sgr_proper params : Proper (sink_equiv ==> sink_equiv) (csi_sgr params).
Proof.
  intros k1 k2 Hk. unfold csi_sgr. simpl. destruct (bool_decide _); by rewrite Hk.
Qed.

#[export] Instance csi_region_proper params :
  Proper (sink_equiv ==> sink_equiv) (csi_region params).
Proof. intros k1 k2 Hk. unfold csi_region. destruct (_ && _); by rewrite Hk. Qed.

#[export] Instance csi_dispatch_proper params inter action :
  Proper (sink_equiv ==> sink_equiv) (csi_dispatch params inter action).
Proof.
  intros k1 k2 Hk. unfold csi_dispatch. cbv zeta.
  repeat match goal with |- context [if ?b then _ else _] =>
           lazymatch b with context [sink_equiv] => fail | _ => destruct b end end;
    by rewrite Hk.
Qed.

#[export] Instance esc_dispatch_proper b : Proper (sink_equiv ==> sink_equiv) (esc_dispatch b).
Proof.
  intros k1 k2 Hk. unfold esc_dispatch. rewrite (st_pending_proper _ _ Hk).
  destruct (decide (b = x5c)), (st_pending k2); by rewrite Hk.
Qed.

#[export] Instance perform_proper : Proper (sink_equiv ==> eq ==> sink_equiv) perform.
Proof.
  intros k1 k2 Hk cb ? <-. destruct cb; simpl; try by rewrite Hk.
  all: by unfold print, execute, hook, put, unhook; rewrite Hk.
Qed.

#[export] Instance performs_proper :
  Proper (sink_equiv ==> eq ==> sink_equiv) (foldl perform).
Proof.
  intros k1 k2 Hk cbs ? <-. revert k1 k2 Hk.
  induction cbs as [|cb cbs IH]; intros k1 k2 Hk; simpl; [done|].
  apply IH. by rewrite Hk.
Qed.

(** * What every reachable sink satisfies *)

Record sink_wf (k : Sink) : Prop := {
  wf_sticky : sticky_wf (sticky k);
  wf_status : status_wf (status k)
}.

Lemma set_event_wf e k : sink_wf k -> sink_wf (set_event e k).
Proof. by intros []. Qed.
Lemma set_st_pending_wf o k : sink_wf k -> sink_wf (set_st_pending o k).
Proof. by intros []. Qed.
Lemma set_scratch_wf l k : sink_wf k -> sink_wf (set_sgr_scratch l k).
Proof. by intros []. Qed.
Lemma set_sticky_wf st k : sticky_wf st -> sink_wf k -> sink_wf (set_sticky st k).
Proof. by intros ? []. Qed.
Lemma set_status_wf st k : status_wf st -> sink_wf k -> sink_wf (set_status st k).
Proof. by intros ? []. Qed.
Lemma sink_new_wf : sink_wf Sink_new.
Proof. split; [apply new_sticky_wf|apply status_new_wf]. Qed.
Lemma sink_wf_sticky k : sink_wf k -> sticky_wf (sticky k).
Proof. by intros []. Qed.
#[export] Hint Resolve set_event_wf set_st_pending_wf set_scratch_wf set_sticky_wf
  set_status_wf sink_new_wf sink_wf_sticky : muxer.

Lemma parse_u8_digits_bound acc bs n : parse_u8_digits acc bs = Some n -> (acc < 256 -> n < 256)%N.
Proof.
  revert acc. induction bs as [|b bs IH]; intros acc; simpl.
  - by intros [= <-].
  - destruct (digit b) as [d|]; simpl; [|done]. case_match eqn:E; [done|].
    intros H _. apply IH in H; [done|]. apply N.ltb_ge in E. lia.
Qed.

Lemma parse_u8_bound bs n : parse_u8 bs = Some n -> (n < 256)%N.
Proof.
  unfold parse_u8. intros H.
  repeat case_match; simplify_eq; by eapply parse_u8_digits_bound in H; [|lia].
Qed.

Lemma osc_progress_wf params k : sink_wf k -> sink_wf (osc_progress params k).
Proof.
  intros Hk. pose proof Hk as [_ [Hr Hp]]. unfold osc_progress.
  destruct (bool_decide _); [|done].
  destruct (code_is _ _); apply set_status_wf; try done; split; try done; simpl.
  intros p. unfold and_then. repeat case_match; try done. apply parse_u8_bound.
Qed.

Lemma osc_prompt_wf params k : sink_wf k -> sink_wf (osc_prompt params k).
Proof.
  intros Hk. pose proof Hk as [_ [Hr Hp]]. unfold osc_prompt.
  destruct (and_then _ _) as [[]|]; repeat apply set_status_wf; try done; by split.
Qed.

Lemma csi_modes_wf on params k : sink_wf k -> sink_wf (csi_modes on params k).
Proof.
  unfold csi_modes. revert k. induction params as [|sub params IH]; intros k Hk; simpl; [done|].
  apply IH. destruct sub; auto with muxer.
Qed.

Lemma csi_sgr_wf params k : sink_wf k -> sink_wf (csi_sgr params k).
Proof. intros. unfold csi_sgr. destruct (bool_decide _); auto 8 with muxer. Qed.
Lemma csi_region_wf params k : sink_wf k -> sink_wf (csi_region params k).
Proof. intros. unfold csi_region. destruct (_ && _); auto 8 with muxer. Qed.
#[export] Hint Resolve osc_progress_wf osc_prompt_wf csi_modes_wf csi_sgr_wf csi_region_wf : muxer.

Lemma perform_wf cb k : sink_wf k -> sink_wf (perform k cb).
Proof.
  intros Hk. destruct cb; simpl;
    unfold print, execute, hook, put, unhook; auto with muxer.
  - unfold osc_dispatch. apply set_st_pending_wf.
    destruct (code_is _ _); [destruct (get params 1); auto with muxer|].
    destruct (code_is _ _); [destruct (get params 1); auto with muxer|].
    repeat (destruct (code_is _ _)); auto with muxer.
  - unfold csi_dispatch. cbv zeta.
    repeat match goal with |- context [if ?b then ?x else ?y] =>
      lazymatch type of x with Sink => destruct b | _ => fail end end; auto with muxer.
  - unfold esc_dispatch. destruct (decide _), (st_pending k); auto with muxer.
Qed.

Lemma performs_wf cbs k : sink_wf k -> sink_wf (foldl perform k cbs).
Proof. revert k. induction cbs; intros; simpl; auto using perform_wf. Qed.

Lemma take_event_wf k : sink_wf k -> sink_wf (take_event k).2.
Proof. by intros []. Qed.
#[export] Hint Resolve performs_wf take_event_wf : muxer.

(** * The specification: segments and what is kept of them *)

Record Segment := mkSegment {
  span : list byte;
  verdict : SegEvent;
  (** The sticky state right after the segment. *)
  after : StickyState
}.

Section lexer.
Context `{Vte}.

Record Lexer := mkLexer {
  lx_parser : parser;
  lx_sink : Sink;
  lx_pending : list byte
}.

Definition lexer_new : Lexer :=
  {| lx_parser := parser_new; lx_sink := Sink_new; lx_pending := [] |}.

(** Feed one byte; a verdict closes the segment. *)
Definition lex_step (l : Lexer) (b : byte) : Lexer * list Segment :=
  let '(p, cbs) := advance (lx_parser l) b in
  let '(ev, k) := take_event (foldl perform (lx_sink l) cbs) in
  let pend := lx_pending l ++ [b] in
  match ev with
  | SegNone => ({| lx_parser := p; lx_sink := k; lx_pending := pend |}, [])
  | _ => ({| lx_parser := p; lx_sink := k; lx_pending := [] |},
          [{| span := pend; verdict := ev; after := sticky k |}])
  end.

Fixpoint lex (l : Lexer) (bs : list byte) : Lexer * list Segment :=
  match bs with
  | [] => (l, [])
  | b :: bs' => let '(l1, g1) := lex_step l b in
                let '(l2, g2) := lex l1 bs' in (l2, g1 ++ g2)
  end.

Definition transcript (bs : list byte) : list Segment := (lex lexer_new bs).2.

(** The base of the replay and the bytes kept since. *)
Definition keep_segment (t : list byte * list byte) (g : Segment) : list byte * list byte :=
  match verdict g with
  | KeepByte | KeepSeq => (t.1, t.2 ++ span g)
  | DropSeq | SegNone => t
  | ClearSeq => (clear_prologue ++ build_serialized (after g), [])
  end.

Definition kept (gs : list Segment) : list byte * list byte :=
  foldl keep_segment ([], []) gs.

(** The bytes the parser is fed: a standalone C1 [ST] becomes [ESC \ ]. *)
Fixpoint expand (utf8 : N) (bs : list byte) : list byte :=
  match bs with
  | [] => []
  | b :: bs' =>
      if ((0 <? utf8)%N && is_cont b) then b :: expand (utf8 - 1) bs'
      else (if decide (b = x9c) then [x1b; x5c] else [b]) ++ expand (utf8_lead b) bs'
  end.
End lexer.

Lemma build_after_equiv k1 k2 :
  sink_equiv k1 k2 -> build_serialized (sticky k1) = build_serialized (sticky k2).
Proof. intros H. by rewrite H. Qed.

Lemma take_event_equiv k1 k2 :
  sink_equiv k1 k2 -> (take_event k1).1 = (take_event k2).1 /\
    sink_equiv (take_event k1).2 (take_event k2).2.
Proof. intros []. by split. Qed.

(** * The scanner is the lexer driving the ring *)

(** What one segment does to the ring. *)
Definition ring_step (r : ChunkRing) (g : Segment) : option ChunkRing :=
  match verdict g with
  | KeepByte | KeepSeq =>
      r ← Ring.append (span g) r;
      Some (if should_cut r then cut (build_serialized (after g)) r else r)
  | DropSeq | SegNone => Some r
  | ClearSeq => Some (purge (clear_prologue ++ build_serialized (after g)) r)
  end.

Lemma ring_step_total r g :
  ring_wf r -> exists r', ring_step r g = Some r' /\ ring_wf r'.
Proof.
  intros Hr. unfold ring_step.
  destruct (append_spec (span g) r Hr) as (r' & E & Hr' & _).
  destruct (verdict g); try (eexists; split; [done|]; done || apply purge_wf);
    rewrite E; simpl; eexists; (split; [done|]); destruct (should_cut r'); auto with muxer.
Qed.

Section refinement.
Context `{Vte}.

Record tracks (l : Lexer) (s : Scanner) : Prop := {
  tr_parser : parser_st s = lx_parser l;
  tr_sink : sink_equiv (sink s) (lx_sink l);
  tr_wf : sink_wf (sink s);
  tr_pending : pending s = lx_pending l
}.

Lemma new_tracks w : tracks lexer_new (new w).
Proof. by split; [| |apply sink_new_wf|]. Qed.

Lemma tracks_serialize l s :
  tracks l s ->
  (serialize_sticky s).1 = build_serialized (sticky (lx_sink l)) /\
  tracks l (serialize_sticky s).2 /\
  ring (serialize_sticky s).2 = ring s /\
  utf8_remaining (serialize_sticky s).2 = utf8_remaining s.
Proof.
  intros [Hp Hk Hwf Hpe]. unfold serialize_sticky.
  pose proof (serialize_equiv (sticky (sink s))) as He.
  pose proof (serialize_build _ (wf_cache _ (wf_sticky _ Hwf))) as Hb.
  pose proof (serialize_wf _ (wf_sticky _ Hwf)) as Hw.
  destruct (serialize (sticky (sink s))) as [out st]; simpl in *. subst out.
  split; [by rewrite Hk|]. split; [|done].
  split; simpl; [done| |by apply set_sticky_wf|done].
  etransitivity; [|exact Hk]. destruct (sink s); by split.
Qed.

Lemma advance_one_tracks l s b :
  tracks l s -> ring_wf (ring s) ->
  exists s', advance_one s b = Some s' /\ tracks (lex_step l b).1 s' /\
    foldM ring_step (ring s) (lex_step l b).2 = Some (ring s') /\
    ring_wf (ring s') /\ utf8_remaining s' = utf8_remaining s.
Proof.
  intros [Hp Hk Hwf Hpe] Hr. unfold advance_one, lex_step. cbv zeta.
  change (parser_st (set_pending _ s)) with (parser_st s).
  change (sink (set_pending _ s)) with (sink s).
  rewrite Hp, Hpe. destruct (advance (lx_parser l) b) as [p cbs].
  pose proof (performs_proper _ _ Hk cbs _ eq_refl) as Hk'.
  pose proof (take_event_wf _ (performs_wf cbs _ Hwf)) as Hwf'.
  pose proof (take_event_equiv _ _ Hk') as [He Hk''].
  destruct (take_event (foldl perform (sink s) cbs)) as [ev k1].
  destruct (take_event (foldl perform (lx_sink l) cbs)) as [ev' k2]; simpl in *; subst ev'.
  set (s1 := {| parser_st := p; sink := k1; ring := ring s; pending := [];
                utf8_remaining := utf8_remaining s |}).
  set (l1 := {| lx_parser := p; lx_sink := k2; lx_pending := [] |}).
  assert (T1 : tracks l1 s1) by (by split).
  destruct ev; simpl; unfold ring_step; simpl;
    [eexists; split; [done|]; by split; [split|]
    | | |eexists; split; [done|]; by split; [split|]|].
  3: { destruct (tracks_serialize l1 s1 T1) as (E1 & E2 & E3 & E4).
       unfold set_pending; simpl. fold s1.
       destruct (serialize_sticky s1) as [out s2]; simpl in *; subst.
       eexists; split; [done|]. split; [by destruct E2|]. rewrite E3. simpl.
       split; [done|]. split; [apply purge_wf|done]. }
  all: destruct (append_spec (lx_pending l ++ [b]) (ring s) Hr) as (r & Er & Hr' & _);
    rewrite Er; simpl; unfold maybe_cut; simpl;
    destruct (should_cut r); [|by eexists].
  all: destruct (tracks_serialize l1 (set_ring r s1)) as (E1 & E2 & E3 & E4); [by destruct T1|];
    unfold set_pending; simpl; fold (set_ring r s1);
    change (set_ring r _) with (set_ring r s1);
    destruct (serialize_sticky (set_ring r s1)) as [out s2]; simpl in *; subst out;
    eexists; split; [done|]; (split; [by destruct E2|]); simpl; rewrite E3, ?E4; simpl;
    split; [done|]; split; [apply cut_wf|done].
Qed.

Lemma advance_all_tracks l s bs :
  tracks l s -> ring_wf (ring s) ->
  exists s', foldM advance_one s bs = Some s' /\ tracks (lex l bs).1 s' /\
    foldM ring_step (ring s) (lex l bs).2 = Some (ring s') /\
    ring_wf (ring s') /\ utf8_remaining s' = utf8_remaining s.
Proof.
  revert l s. induction bs as [|b bs IH]; intros l s Ht Hr; simpl; [by eexists|].
  destruct (advance_one_tracks l s b Ht Hr) as (s1 & E1 & T1 & F1 & R1 & U1).
  rewrite E1; simpl. destruct (lex_step l b) as [l1 g1]; simpl in *.
  destruct (IH l1 s1 T1 R1) as (s2 & E2 & T2 & F2 & R2 & U2).
  destruct (lex l1 bs) as [l2 g2]; simpl in *.
  exists s2. split_and!; try done; [|congruence]. by rewrite foldM_app, F1.
Qed.
End refinement.

Section feed.
Context `{Vte}.

Lemma lex_app l a b :
  lex l (a ++ b) = ((lex (lex l a).1 b).1, (lex l a).2 ++ (lex (lex l a).1 b).2).
Proof.
  revert l. induction a as [|x a IH]; intros l; simpl.
  - by destruct (lex l b).
  - destruct (lex_step l x) as [l1 g1]. rewrite IH.
    destruct (lex l1 a) as [l2 g2]; simpl. destruct (lex l2 b); simpl. by rewrite app_assoc.
Qed.

Lemma set_utf8_tracks l s n : tracks l s -> tracks l (set_utf8_remaining n s).
Proof. by intros []. Qed.

Lemma feed_ground_all s b :
  feed_ground s b =
  foldM advance_one (set_utf8_remaining (utf8_lead b) s) (if decide (b = x9c) then [x1b; x5c] else [b]).
Proof.
  unfold feed_ground. cbv zeta. destruct (decide _); simpl;
    destruct (advance_one _ _); simpl; try done. by destruct (advance_one _ _).
Qed.

(** What one input byte feeds the parser, and the counter it leaves. *)
Definition expand_byte (utf8 : N) (b : byte) : list byte * N :=
  if ((0 <? utf8)%N && is_cont b) then ([b], utf8 - 1)%N
  else (if decide (b = x9c) then [x1b; x5c] else [b], utf8_lead b).

Lemma expand_cons utf8 b bs :
  expand utf8 (b :: bs) = (expand_byte utf8 b).1 ++ expand (expand_byte utf8 b).2 bs.
Proof. simpl. unfold expand_byte. by destruct (_ && _). Qed.

Lemma feed_byte_all s b :
  exists s0, parser_st s0 = parser_st s /\ sink s0 = sink s /\ ring s0 = ring s /\
    pending s0 = pending s /\ utf8_remaining s0 = (expand_byte (utf8_remaining s) b).2 /\
    feed_byte s b = foldM advance_one s0 (expand_byte (utf8_remaining s) b).1.
Proof.
  unfold feed_byte, expand_byte. rewrite !feed_ground_all.
  destruct (0 <? utf8_remaining s)%N; simpl; [destruct (is_cont b); simpl|].
  - exists (set_utf8_remaining (utf8_remaining s - 1) s). split_and!; try done.
    by destruct (advance_one _ _).
  - by exists (set_utf8_remaining (utf8_lead b) (set_utf8_remaining 0 s)).
  - by exists (set_utf8_remaining (utf8_lead b) s).
Qed.

Lemma feed_tracks l s bs :
  tracks l s -> ring_wf (ring s) ->
  exists s', feed s bs = Some s' /\
    tracks (lex l (expand (utf8_remaining s) bs)).1 s' /\
    foldM ring_step (ring s) (lex l (expand (utf8_remaining s) bs)).2 = Some (ring s') /\
    ring_wf (ring s').
Proof.
  revert l s. induction bs as [|b bs IH]; intros l s Ht Hr; [by eexists|].
  destruct (feed_byte_all s b) as (s0 & Ep & Ek & Er & Epe & Eu & Ef).
  destruct (advance_all_tracks l s0 (expand_byte (utf8_remaining s) b).1)
    as (s1 & E1 & T1 & F1 & R1 & U1); [destruct Ht; split; congruence|congruence|].
  destruct (IH _ s1 T1 R1) as (s2 & E2 & T2 & F2 & R2).
  exists s2. rewrite expand_cons, lex_app. simpl.
  unfold feed in *. simpl. rewrite Ef, E1. simpl.
  rewrite U1, Eu in T2, F2. split; [done|]. split; [done|]. split; [|done].
  rewrite foldM_app, <- Er, F1. done.
Qed.
End feed.

(** * The ring against the specification *)

Definition kept_span (g : Segment) : list byte :=
  match verdict g with KeepByte | KeepSeq => span g | _ => [] end.

Definition is_clear (g : Segment) : bool :=
  match verdict g with ClearSeq => true | _ => false end.

(** The effect of a step, by verdict: keep (and maybe cut), skip, or purge. *)
Lemma ring_step_cases r g r' :
  ring_wf r -> ring_step r g = Some r' ->
  (is_clear g = false /\ kept_span g = span g /\
     exists cs c r1, chunks r = cs ++ [c] /\ watermark r1 = watermark r /\
       chunks r1 = cs ++ [{| prologue := prologue c; data := data c ++ span g |}] /\
       r' = if should_cut r1 then cut (build_serialized (after g)) r1 else r1) \/
  (is_clear g = false /\ kept_span g = [] /\ r' = r) \/
  (is_clear g = true /\ r' = purge (clear_prologue ++ build_serialized (after g)) r).
Proof.
  intros (cs & c & E)%ring_snoc. unfold ring_step, is_clear, kept_span.
  destruct r as [ch w]; simpl in E; subst ch.
  destruct (verdict g); rewrite ?append_snoc; simpl; intros [= <-]; eauto.
  all: left; split; [done|]; split; [done|];
    eexists _, _, {| chunks := _; watermark := w |}; by split_and!.
Qed.

Lemma should_cut_snoc cs c w :
  should_cut {| chunks := cs ++ [c]; watermark := w |} = (w <=? N.of_nat (length (data c)))%N.
Proof. unfold should_cut; simpl. by rewrite last_snoc. Qed.

Lemma ring_step_kept r g r' :
  ring_wf r -> ring_step r g = Some r' ->
  (Ring.base r', history r') = keep_segment (Ring.base r, history r) g.
Proof.
  intros Hr. unfold ring_step, keep_segment.
  destruct (append_spec (span g) r Hr) as (r1 & E & Hr1 & Hb & Hh & _).
  destruct (verdict g); rewrite ?E; simpl; intros [= <-]; try done.
  all: by destruct (should_cut r1); rewrite ?cut_base, ?cut_history, ?Hb, ?Hh.
Qed.

Lemma ring_steps_kept r gs r' :
  ring_wf r -> foldM ring_step r gs = Some r' ->
  (Ring.base r', history r') = foldl keep_segment (Ring.base r, history r) gs.
Proof.
  revert r. induction gs as [|g gs IH]; intros r Hr; simpl.
  - by intros [= <-].
  - destruct (ring_step_total r g Hr) as (r1 & E & Hr1). rewrite E; simpl.
    intros H. rewrite (IH _ Hr1 H). by rewrite <- (ring_step_kept _ _ _ Hr E).
Qed.

(** A step adds at most one chunk. *)
Lemma ring_step_length r g r' :
  ring_wf r -> ring_step r g = Some r' -> length (chunks r') <= S (length (chunks r)).
Proof.
  intros Hr [(_ & _ & cs & c & r1 & E & _ & E1 & ->)|[(_ & _ & ->)|(_ & ->)]]%ring_step_cases;
    [|lia|simpl; lia|done].
  destruct (should_cut r1); simpl; rewrite ?length_app, E1, E, !length_app; simpl; lia.
Qed.

Lemma ring_steps_length r gs r' :
  ring_wf r -> foldM ring_step r gs = Some r' -> length (chunks r') <= length gs + length (chunks r).
Proof.
  revert r. induction gs as [|g gs IH]; intros r Hr; simpl; [by intros [= <-]|].
  destruct (ring_step_total r g Hr) as (r1 & E & Hr1). rewrite E; simpl. intros H.
  apply IH in H; [|done]. apply ring_step_length in E; [lia|done].
Qed.
