(* ===== verification/ScannerProps.v ===== *)
(** The properties of the scanner that hold for every parser: it never panics,
    it does not depend on how the output is split into reads nor on the
    watermark, a full replay is what the specification keeps, a capped replay
    starts from the sticky state of a cut, and the open chunk is bounded. *)
From S2P Require Import Prelude Vte ParserInstance.
From S2P Require Import Status Sticky Ring Scanner ScannerSpec.

(** * Where the chunks come from *)

(** Chunk [i > 0] was opened by a cut: its prologue is the sticky state after
    some segment of the transcript, and it and the chunks after it hold exactly
    what was kept since, with no clear in between. *)
Definition cuts_ok (gs : list Segment) (r : ChunkRing) : Prop :=
  forall i c, 0 < i -> chunks r !! i = Some c ->
    exists pre g suf, gs = pre ++ g :: suf /\
      prologue c = build_serialized (after g) /\
      forallb (fun g => negb (is_clear g)) suf = true /\
      concat (data <$> drop i (chunks r)) = concat (kept_span <$> suf).

Lemma cuts_ok_append gs cs c g r r1 :
  cuts_ok gs r -> chunks r = cs ++ [c] -> is_clear g = false ->
  chunks r1 = cs ++ [{| prologue := prologue c; data := data c ++ kept_span g |}] ->
  cuts_ok (gs ++ [g]) r1.
Proof.
  intros Hok E Hc E1 i ci Hi Hl. rewrite E1 in Hl. rewrite E1.
  assert (Hlen : i <= length cs).
  { apply lookup_lt_Some in Hl. rewrite length_app in Hl. simpl in Hl. lia. }
  assert (exists c0, chunks r !! i = Some c0 /\ prologue ci = prologue c0) as (c0 & H0 & Hp).
  { rewrite E. destruct (decide (i = length cs)) as [->|].
    - rewrite list_lookup_middle in Hl by done. injection Hl as <-.
      exists c. by rewrite list_lookup_middle.
    - rewrite lookup_app_l in Hl by lia. exists ci. by rewrite lookup_app_l by lia. }
  destruct (Hok i c0 Hi H0) as (pre & g0 & suf & -> & Hpr & Hcl & Hd).
  exists pre, g0, (suf ++ [g]). split_and!.
  - by rewrite <- app_assoc.
  - by rewrite Hp.
  - rewrite forallb_app, Hcl. simpl. by rewrite Hc.
  - rewrite E, drop_app_le in Hd by done. rewrite drop_app_le by done.
    rewrite fmap_app, concat_app in *. simpl in *. rewrite app_nil_r in *.
    by rewrite app_assoc, Hd, fmap_app, concat_app; simpl; rewrite app_nil_r.
Qed.

Lemma cuts_ok_cut gs g r :
  cuts_ok (gs ++ [g]) r -> cuts_ok (gs ++ [g]) (cut (build_serialized (after g)) r).
Proof.
  intros Hok i c Hi Hl. simpl in *. apply lookup_app_Some in Hl as [Hl|[Hge Hl]].
  - pose proof (lookup_lt_Some _ _ _ Hl).
    rewrite drop_app_le by lia. rewrite fmap_app, concat_app. simpl. rewrite app_nil_r. by apply Hok.
  - destruct (i - length (chunks r)) eqn:Ei; [|done]. injection Hl as <-.
    exists gs, g, []. split_and!; [done..|].
    by rewrite drop_app_ge, Ei by lia.
Qed.

Lemma cuts_ok_step gs g r r' :
  ring_wf r -> ring_step r g = Some r' -> cuts_ok gs r -> cuts_ok (gs ++ [g]) r'.
Proof.
  intros Hr Hs Hok. pose proof (ring_step_cases _ _ _ Hr Hs) as
    [(Hc & Hk & cs & c & r1 & E & _ & E1 & ->)|[(Hc & Hk & ->)|(Hc & ->)]].
  - rewrite <- Hk in E1. pose proof (cuts_ok_append _ _ _ _ _ _ Hok E Hc E1).
    destruct (should_cut r1); [by apply cuts_ok_cut|done].
  - destruct (ring_snoc r Hr) as (cs & c & E).
    apply (cuts_ok_append gs cs c g r r Hok E Hc). rewrite Hk, app_nil_r, E. by destruct c.
  - intros [|[|i]] ci Hi Hl; [lia|done|done].
Qed.

Lemma cuts_ok_steps gs0 gs r r' :
  ring_wf r -> foldM ring_step r gs = Some r' -> cuts_ok gs0 r -> cuts_ok (gs0 ++ gs) r'.
Proof.
  revert gs0 r. induction gs as [|g gs IH]; intros gs0 r Hr; simpl.
  - intros [= <-]. by rewrite app_nil_r.
  - destruct (ring_step_total r g Hr) as (r1 & E & Hr1). rewrite E; simpl. intros Hs Hok.
    rewrite cons_middle, app_assoc. apply (IH _ r1); [done..|]. by apply (cuts_ok_step gs0 g r r1).
Qed.

Lemma new_cuts_ok w : cuts_ok [] (Ring.new w).
Proof. intros [|[|i]] c Hi Hl; [lia|done|done]. Qed.

(** * Chunk sizes *)

(** The open chunk stays below the watermark, and every sealed one has reached
    it. *)
Definition sizes_ok (w : N) (m : nat) (r : ChunkRing) : Prop :=
  watermark r = w /\
  (0 < w -> N.of_nat (length (open_data r)) < w)%N /\
  Forall (fun c => w <= N.of_nat (length (data c)) < w + N.of_nat m)%N (removelast (chunks r)).

Lemma sizes_ok_step w m g r r' :
  (0 < w)%N -> ring_wf r -> length (kept_span g) <= m -> ring_step r g = Some r' ->
  sizes_ok w m r -> sizes_ok w m r'.
Proof.
  intros Hw Hr Hm Hs (Ew & Ho & Hf).
  destruct (ring_step_cases _ _ _ Hr Hs) as
    [(Hc & Hk & cs & c & r1 & E & E2 & E1 & ->)|[(Hc & Hk & ->)|(Hc & ->)]]; [|done|].
  - rewrite E, removelast_last in Hf. specialize (Ho Hw).
    unfold open_data in Ho. rewrite E, last_snoc in Ho.
    rewrite Hk in Hm. destruct r1 as [ch w1]; simpl in *; subst ch w1.
    rewrite should_cut_snoc, Ew. simpl. unfold sizes_ok, open_data.
    destruct (N.leb_spec w (N.of_nat (length (data c ++ span g)))); simpl.
    + rewrite !last_snoc, !removelast_last. simpl. split_and!; [done|lia|].
      apply Forall_app. split; [done|]. repeat constructor; simpl; [done|].
      rewrite length_app in *. lia.
    + rewrite !last_snoc, !removelast_last. simpl. split_and!; [done|lia|done].
  - unfold sizes_ok, open_data. simpl. split_and!; [done|lia|constructor].
Qed.

Lemma sizes_ok_steps w m gs r r' :
  (0 < w)%N -> ring_wf r -> Forall (fun g => length (kept_span g) <= m) gs ->
  foldM ring_step r gs = Some r' -> sizes_ok w m r -> sizes_ok w m r'.
Proof.
  intros Hw Hr Hm. revert r Hr. induction Hm as [|g gs Hg Hm IH]; intros r Hr; simpl.
  - by intros [= <-].
  - destruct (ring_step_total r g Hr) as (r1 & E & Hr1). rewrite E; simpl. intros Hs Hok.
    apply (IH r1); [done..|]. by apply (sizes_ok_step w m g r r1).
Qed.

(** * UTF-8 text passes through *)

Lemma cont_not_lead b : is_cont b = true -> utf8_lead b = 0%N /\ (0x80 <= u8 b <= 0xBF)%N.
Proof. unfold is_cont, utf8_lead. intros H. byte_range. cbv zeta. by repeat branch. Qed.

Lemma expand_ascii b bs : (u8 b <= 0x7F)%N -> expand 0 (b :: bs) = b :: expand 0 bs.
Proof.
  intros H. simpl. rewrite decide_False by (intros ->; vm_compute in H; by apply H).
  unfold utf8_lead. cbv zeta. by repeat branch.
Qed.

Lemma multibyte_conts b0 tl :
  multibyte_char (b0 :: tl) ->
  forallb is_cont tl = true /\ utf8_lead b0 = N.of_nat (length tl) /\ b0 <> x9c.
Proof.
  intros [Hv [Hb Hl]]. simpl in Hv. cbv zeta in Hv.
  destruct (in_range 0 0x7F (u8 b0)) eqn:E0; [byte_range; lia|].
  destruct (N.ltb_spec (u8 b0) 0xE0); [|destruct (N.ltb_spec (u8 b0) 0xF0)];
    destruct tl as [|b1 [|b2 [|b3 [|]]]]; simpl in Hl; try lia;
    repeat match type of Hv with
    | (if ?c then _ else _) = true => destruct c eqn:?
    | (_ && _)%bool = true => apply andb_true_iff in Hv as [Hv ?]
    end; try done; byte_range; try lia;
    repeat match goal with H : (_ && _)%bool = true |- _ => apply andb_true_iff in H as [? ?] end;
    (split; [simpl; by repeat (rewrite andb_true_iff; split)|]);
    (split; [unfold utf8_lead; cbv zeta; by repeat branch|]);
    intros ->; change (u8 x9c) with 156%N in *; lia.
Qed.

(** The counter [feed] leaves. *)
Definition utf8_end (u : N) (bs : list byte) : N := foldl (fun u b => (expand_byte u b).2) u bs.

Lemma utf8_conts tl n :
  forallb is_cont tl = true -> N.of_nat (length tl) = n ->
  (forall bs, expand n (tl ++ bs) = tl ++ expand 0 bs) /\ utf8_end n tl = 0%N.
Proof.
  revert n. induction tl as [|b tl IH]; intros n Hc Hn; [by subst|].
  simpl in *. apply andb_true_iff in Hc as [Hb Hc]. unfold utf8_end, expand_byte; simpl.
  rewrite Hb, (proj2 (N.ltb_lt 0 n)) by lia. simpl.
  destruct (IH (n - 1)%N Hc) as [H1 H2]; [lia|]. split; [|done].
  intros bs. by rewrite H1.
Qed.

(** Well-formed text is fed as it is, and leaves the counter at 0. *)
Lemma expand_utf8 a :
  utf8_valid a = true ->
  (forall rest, expand 0 (a ++ rest) = a ++ expand 0 rest) /\ utf8_end 0 a = 0%N.
Proof.
  revert a. apply utf8_valid_ind; [done| |].
  - intros b bs Hb Hv [IH1 IH2]. split.
    + intros rest. rewrite <- !app_comm_cons, expand_ascii by done. by rewrite IH1.
    + change (utf8_end (utf8_lead b) bs = 0%N).
      replace (utf8_lead b) with 0%N; [done|]. unfold utf8_lead. cbv zeta. by repeat branch.
  - intros c bs Hc0 Hv [IH1 IH2]. destruct c as [|b0 tl]; [by destruct Hc0|].
    destruct (multibyte_conts _ _ Hc0) as (Hc & Hl & Hb).
    destruct (utf8_conts tl _ Hc eq_refl) as [H1 H2]. split.
    + intros rest. rewrite <- !app_assoc, <- !app_comm_cons. simpl.
      rewrite decide_False by done. rewrite Hl. simpl. by rewrite H1, IH1.
    + change (utf8_end (utf8_lead b0) (tl ++ bs) = 0%N).
      unfold utf8_end in *. by rewrite foldl_app, Hl, H2.
Qed.

(** ** The counter is all the byte loop adds *)

Section utf8.
Context `{Vte}.

Lemma advance_one_utf8 n s b :
  advance_one (set_utf8_remaining n s) b = set_utf8_remaining n <$> advance_one s b.
Proof.
  unfold advance_one. cbv zeta.
  change (parser_st (set_pending _ (set_utf8_remaining n s))) with (parser_st s).
  change (parser_st (set_pending _ s)) with (parser_st s).
  change (sink (set_pending _ (set_utf8_remaining n s))) with (sink s).
  change (sink (set_pending _ s)) with (sink s).
  destruct (advance (parser_st s) b) as [p cbs].
  destruct (take_event _) as [ev k]. destruct ev; try done.
  3: { unfold serialize_sticky; simpl. by destruct (serialize (sticky k)). }
  all: simpl; destruct (Ring.append _ (ring s)) as [r|]; simpl; [|done];
    unfold maybe_cut; simpl; destruct (should_cut r); [|done];
    unfold serialize_sticky; simpl; by destruct (serialize (sticky k)).
Qed.

Lemma advance_all_utf8 n s bs :
  foldM advance_one (set_utf8_remaining n s) bs = set_utf8_remaining n <$> foldM advance_one s bs.
Proof.
  revert s. induction bs as [|b bs IH]; intros s; simpl; [done|].
  rewrite advance_one_utf8. destruct (advance_one s b); simpl; [apply IH|done].
Qed.

Lemma set_utf8_twice n m s :
  set_utf8_remaining n (set_utf8_remaining m s) = set_utf8_remaining n s.
Proof. done. Qed.

Lemma feed_byte_expand s b :
  feed_byte s b = set_utf8_remaining (expand_byte (utf8_remaining s) b).2
    <$> foldM advance_one s (expand_byte (utf8_remaining s) b).1.
Proof.
  unfold feed_byte, expand_byte. rewrite !feed_ground_all, set_utf8_twice.
  destruct (0 <? utf8_remaining s)%N; simpl; [destruct (is_cont b); simpl|];
    rewrite ?advance_all_utf8; try done.
  rewrite advance_one_utf8. by destruct (advance_one s b).
Qed.

Lemma foldM_advance_utf8 s bs s' :
  foldM advance_one s bs = Some s' -> utf8_remaining s' = utf8_remaining s.
Proof.
  intros E. pose proof (advance_all_utf8 (utf8_remaining s) s bs) as H1.
  replace (set_utf8_remaining (utf8_remaining s) s) with s in H1 by (by destruct s).
  rewrite E in H1. simpl in H1. injection H1 as H1. by rewrite H1.
Qed.

(** [feed] is the parser loop over the expanded bytes, plus the counter. *)
Lemma feed_expand s bs :
  feed s bs = set_utf8_remaining (utf8_end (utf8_remaining s) bs)
    <$> foldM advance_one s (expand (utf8_remaining s) bs).
Proof.
  revert s. induction bs as [|b bs IH]; intros s; [simpl; by destruct s|].
  unfold feed in *. rewrite expand_cons, foldM_app. cbn [foldM].
  rewrite feed_byte_expand.
  destruct (foldM advance_one s (expand_byte (utf8_remaining s) b).1) as [s1|]; simpl; [|done].
  rewrite IH. simpl. rewrite advance_all_utf8. by destruct (foldM advance_one s1 _).
Qed.

Lemma feed_new_expand w bs :
  utf8_end 0 bs = 0%N -> feed (new w) bs = foldM advance_one (new w) (expand 0 bs).
Proof.
  intros E. rewrite feed_expand. simpl. rewrite E.
  destruct (foldM advance_one (new w) (expand 0 bs)) as [s|] eqn:Es; [|done].
  apply foldM_advance_utf8 in Es. simpl in *. rewrite <- Es. by destruct s.
Qed.
End utf8.

(** * The theorems *)

Section runs.
Context `{Vte}.

(** A run from a fresh scanner, against the lexer. *)
Lemma feed_new w bs :
  exists s, feed (new w) bs = Some s /\
    tracks (lex lexer_new (expand 0 bs)).1 s /\
    foldM ring_step (Ring.new w) (transcript (expand 0 bs)) = Some (ring s) /\
    ring_wf (ring s).
Proof. apply (feed_tracks lexer_new (new w) bs); [apply new_tracks|apply ring_new_wf]. Qed.

Lemma feed_new_inv w bs s :
  feed (new w) bs = Some s ->
  tracks (lex lexer_new (expand 0 bs)).1 s /\
  foldM ring_step (Ring.new w) (transcript (expand 0 bs)) = Some (ring s) /\
  ring_wf (ring s).
Proof. destruct (feed_new w bs) as (s' & -> & ?). by intros [= <-]. Qed.

(** The scanner a run reaches; [feed] always reaches one. *)
Definition run_of (w : N) (bs : list byte) : Scanner := default (new w) (feed (new w) bs).

Lemma run_of_feed w bs : feed (new w) bs = Some (run_of w bs).
Proof. unfold run_of. destruct (feed_new w bs) as (s & E & _). by rewrite E. Qed.

Lemma feed_kept w bs s :
  feed (new w) bs = Some s ->
  (Ring.base (ring s), history (ring s)) = kept (transcript (expand 0 bs)).
Proof. intros (_ & Hf & _)%feed_new_inv. by apply ring_steps_kept in Hf. Qed.

Lemma expand_length u bs : length (expand u bs) <= 2 * length bs.
Proof.
  revert u. induction bs as [|b bs IH]; intros u; simpl; [lia|].
  destruct (_ && _); simpl; [specialize (IH (u - 1)%N); lia|].
  rewrite length_app. specialize (IH (utf8_lead b)).
  destruct (decide (b = x9c)); simpl; lia.
Qed.

Lemma lex_step_length l b : length (lex_step l b).2 <= 1.
Proof.
  unfold lex_step. destruct (advance _ _) as [p cbs], (take_event _) as [ev k].
  destruct ev; simpl; lia.
Qed.

Lemma lex_length l bs : length (lex l bs).2 <= length bs.
Proof.
  revert l. induction bs as [|b bs IH]; intros l; simpl; [lia|].
  pose proof (lex_step_length l b). destruct (lex_step l b) as [l1 g1].
  specialize (IH l1). destruct (lex l1 bs) as [l2 g2]; simpl in *.
  rewrite length_app. lia.
Qed.

(** The spans, in order, are the bytes fed: none is lost, duplicated or
    split between two verdicts. *)
Lemma lex_spans l bs :
  lx_pending l ++ bs = concat (span <$> (lex l bs).2) ++ lx_pending (lex l bs).1.
Proof.
  revert l. induction bs as [|b bs IH]; intros l; simpl; [by rewrite app_nil_r|].
  unfold lex_step. destruct (advance _ _) as [p cbs], (take_event _) as [ev k].
  destruct ev;
    match goal with |- context [lex ?l1 bs] => specialize (IH l1); destruct (lex l1 bs) as [l2 g2] end;
    simpl in *;
    first [ rewrite <- IH; by rewrite <- app_assoc
          | rewrite IH; by rewrite <- !app_assoc ].
Qed.

Lemma chunks_fit w bs s :
  feed (new w) bs = Some s -> (2 * N.of_nat (length bs) + 1 <= usize_MAX)%N ->
  (N.of_nat (length (chunks (ring s))) <= usize_MAX)%N.
Proof.
  intros (_ & Hf & _)%feed_new_inv Hb. apply ring_steps_length in Hf; [|apply ring_new_wf].
  unfold transcript in Hf. pose proof (lex_length lexer_new (expand 0 bs)).
  pose proof (expand_length 0 bs). simpl in *. lia.
Qed.
End runs.

(** C12: from a fresh scanner no output can make [feed] panic, however the
    output is split into reads, and the split makes no difference: the scanner
    reached is the one a single [feed] of all the bytes reaches. Its ring has an
    open chunk, and its sticky cache and status are well formed. *)
Theorem feed_total `{Vte} w (reads : list (list byte)) :
  exists s, foldM feed (new w) reads = Some s /\ feed (new w) (concat reads) = Some s /\
    ring_wf (ring s) /\ sink_wf (sink s).
Proof.
  destruct (feed_new w (concat reads)) as (s & E & T & _ & Hr).
  exists s. split; [|by destruct T].
  unfold feed at 1. by rewrite foldM_concat.
Qed.

(** C4: the full replay is what the specification keeps: the spans with a keep
    verdict since the last clear, in order and byte for byte, after the base the
    clear left (nothing, if there was none). The status is the lexer's. *)
Theorem full_replay_is_kept `{Vte} w bs s :
  (2 * N.of_nat (length bs) + 1 <= usize_MAX)%N ->
  feed (new w) bs = Some s ->
  replay usize_MAX s = (kept (transcript (expand 0 bs))).1 ++ (kept (transcript (expand 0 bs))).2 /\
  scanner_status s = snapshot (status (lx_sink (lex lexer_new (expand 0 bs)).1)).
Proof.
  intros Hb Hf. split.
  - unfold replay. rewrite replay_full by by eapply chunks_fit. by rewrite <- (feed_kept _ _ _ Hf).
  - apply feed_new_inv in Hf as (T & _). unfold scanner_status. by rewrite (tr_sink _ _ T).
Qed.

Definition clear_demo : list byte := lit "old" ++ ESC :: lit "[2J" ++ lit "new".

Lemma full_replay_is_kept_witness :
  exists s, feed (new 4) clear_demo = Some s /\
    replay usize_MAX s = clear_prologue ++ ESC :: lit "[0mnew".
Proof.
  exists (run_of 4 clear_demo). split; [apply run_of_feed|].
  assert (Hb : (2 * N.of_nat (length clear_demo) + 1 <= usize_MAX)%N) by (vm_compute; discriminate).
  destruct (full_replay_is_kept 4 clear_demo _ Hb (run_of_feed _ _)) as [H _].
  rewrite H. vm_compute. reflexivity.
Defined.

(** Every byte fed to the parser belongs to exactly one span, spans are
    consecutive, and what has no verdict yet is the pending buffer: a verdict
    always covers whole spans, and nothing is lost or duplicated. *)
Theorem spans_partition_output `{Vte} w bs s :
  feed (new w) bs = Some s ->
  concat (span <$> transcript (expand 0 bs)) ++ pending s = expand 0 bs.
Proof.
  intros (T & _)%feed_new_inv. rewrite (tr_pending _ _ T). unfold transcript.
  by rewrite <- lex_spans.
Qed.

Definition partial_demo : list byte := lit "a" ++ BEL :: ESC :: lit "[3".

Lemma spans_partition_output_witness :
  exists s, feed (new 4) partial_demo = Some s /\ pending s = ESC :: lit "[3" /\
    concat (span <$> transcript (expand 0 partial_demo)) ++ pending s = expand 0 partial_demo.
Proof.
  exists (run_of 4 partial_demo). split; [apply run_of_feed|].
  split; [vm_compute; reflexivity|].
  exact (spans_partition_output 4 partial_demo _ (run_of_feed _ _)).
Defined.

(** The watermark (where the chunks are cut) is invisible in a full replay
    and in the status: any two watermarks give the same bytes. *)
Theorem watermark_invisible `{Vte} w1 w2 bs s1 s2 :
  (2 * N.of_nat (length bs) + 1 <= usize_MAX)%N ->
  feed (new w1) bs = Some s1 -> feed (new w2) bs = Some s2 ->
  replay usize_MAX s1 = replay usize_MAX s2 /\ scanner_status s1 = scanner_status s2 /\
    saw_prompt_marker s1 = saw_prompt_marker s2.
Proof.
  intros Hb F1 F2. unfold replay.
  rewrite !replay_full by by eapply chunks_fit.
  pose proof (feed_kept _ _ _ F1) as K1. rewrite <- (feed_kept _ _ _ F2) in K1.
  injection K1 as -> ->. split; [done|].
  apply feed_new_inv in F1 as (T1 & _), F2 as (T2 & _).
  unfold scanner_status, saw_prompt_marker. by rewrite (tr_sink _ _ T1), (tr_sink _ _ T2).
Qed.

Lemma watermark_invisible_witness :
  exists s1 s2, feed (new 1) (lit "hello") = Some s1 /\ feed (new 1000) (lit "hello") = Some s2 /\
    length (chunks (ring s1)) = 6 /\ length (chunks (ring s2)) = 1 /\
    replay usize_MAX s1 = replay usize_MAX s2.
Proof.
  exists (run_of 1 (lit "hello")), (run_of 1000 (lit "hello")).
  split; [apply run_of_feed|]. split; [apply run_of_feed|].
  split; [vm_compute; reflexivity|]. split; [vm_compute; reflexivity|].
  assert (Hb : (2 * N.of_nat (length (lit "hello")) + 1 <= usize_MAX)%N) by (vm_compute; discriminate).
  exact (proj1 (watermark_invisible 1 1000 _ _ _ Hb (run_of_feed _ _) (run_of_feed _ _))).
Defined.

(** C16: a replay capped below the whole history starts at a chunk that a cut
    opened: it is the serialized sticky state right after some segment of the
    transcript, followed by exactly the bytes kept after that segment, and no
    clear separates the two. *)
Theorem capped_replay_from_cut `{Vte} w n bs s :
  feed (new w) bs = Some s ->
  0 < replay_start n (ring s) ->
  exists pre g suf, transcript (expand 0 bs) = pre ++ g :: suf /\
    forallb (fun g => negb (is_clear g)) suf = true /\
    replay n s = build_serialized (after g) ++ concat (kept_span <$> suf).
Proof.
  intros (_ & Hf & Hr)%feed_new_inv Hi.
  destruct (replay_suffix n (ring s) Hr) as (c & _ & Hc & Hrep & _).
  pose proof (cuts_ok_steps [] _ _ _ (ring_new_wf w) Hf (new_cuts_ok w)) as Hok.
  destruct (Hok _ _ Hi Hc) as (pre & g & suf & E & Hp & Hcl & Hd).
  exists pre, g, suf. split; [done|]. split; [done|].
  unfold replay. by rewrite Hrep, Hp, Hd.
Qed.

Definition capped_demo : list byte := ESC :: lit "[31mAAAAAAAA" ++ lit "BB".

Lemma capped_replay_from_cut_witness :
  0 < replay_start 1 (ring (run_of 8 capped_demo)) /\
  replay 1 (run_of 8 capped_demo) = (ESC :: lit "[0m") ++ (ESC :: lit "[31m") ++ lit "AAAAABB" /\
  exists pre g suf, transcript (expand 0 capped_demo) = pre ++ g :: suf /\
    replay 1 (run_of 8 capped_demo) = build_serialized (after g) ++ concat (kept_span <$> suf).
Proof.
  assert (Hi : 0 < replay_start 1 (ring (run_of 8 capped_demo))) by (vm_compute; lia).
  split; [exact Hi|]. split; [vm_compute; reflexivity|].
  destruct (capped_replay_from_cut 8 1 capped_demo _ (run_of_feed _ _) Hi)
    as (pre & g & suf & H1 & _ & H2).
  exists pre, g, suf. split; assumption.
Defined.

(** With a positive watermark the open chunk always holds fewer bytes than
    the watermark, and a sealed chunk has reached it by less than one span: no
    chunk outgrows the watermark by more than the longest span kept. *)
Theorem chunk_sizes `{Vte} w m bs s :
  (0 < w)%N ->
  Forall (fun g => length (kept_span g) <= m) (transcript (expand 0 bs)) ->
  feed (new w) bs = Some s ->
  (N.of_nat (length (open_data (ring s))) < w)%N /\
  Forall (fun c => w <= N.of_nat (length (data c)) < w + N.of_nat m)%N
    (removelast (chunks (ring s))).
Proof.
  intros Hw Hm (_ & Hf & _)%feed_new_inv.
  assert (Hs : sizes_ok w m (Ring.new w)).
  { split_and!; [done|done|constructor]. }
  destruct (sizes_ok_steps w m _ _ _ Hw (ring_new_wf w) Hm Hf Hs) as (_ & Ho & Hc). auto.
Qed.

Lemma chunk_sizes_witness :
  (N.of_nat (length (open_data (ring (run_of 8 capped_demo)))) < 8)%N /\
  Forall (fun c => 8 <= N.of_nat (length (data c)) < 8 + N.of_nat 5)%N
    (removelast (chunks (ring (run_of 8 capped_demo)))).
Proof.
  apply (chunk_sizes 8 5 capped_demo); [lia| |apply run_of_feed].
  apply (bool_decide_unpack _). vm_compute. exact I.
Defined.

(** Well-formed UTF-8 text reaches the parser byte for byte (a 0x9C inside
    a character is never taken for a terminator), and the only byte the loop
    rewrites between two texts is a standalone 0x9C, which becomes [ESC \ ]:
    the run is exactly the parser's run on those bytes. *)
Theorem utf8_text_untouched `{Vte} w a b :
  utf8_valid a = true -> utf8_valid b = true ->
  feed (new w) a = foldM advance_one (new w) a /\
  feed (new w) (a ++ x9c :: b) = foldM advance_one (new w) (a ++ [x1b; x5c] ++ b).
Proof.
  intros [Ea Ca]%expand_utf8 [Eb Cb]%expand_utf8.
  assert (E9 : forall bs, expand 0 (x9c :: bs) = [x1b; x5c] ++ expand 0 bs) by done.
  specialize (Eb []). rewrite app_nil_r in Eb. simpl in Eb. rewrite app_nil_r in Eb.
  rewrite !feed_new_expand; [|unfold utf8_end in *; rewrite foldl_app; by rewrite Ca|done].
  rewrite Ea, E9, Eb. specialize (Ea []). rewrite !app_nil_r in Ea. by rewrite Ea.
Qed.

(** The check mark is E2 9C 93, the box-drawing character E2 94 9C. *)
Definition utf8_demo : list byte := [xe2; x9c; x93; xe2; x94; x9c].

Lemma utf8_text_untouched_witness :
  utf8_valid utf8_demo = true /\ utf8_valid (lit "x") = true /\
  feed (new 8) utf8_demo = foldM advance_one (new 8) utf8_demo /\
  feed (new 8) (utf8_demo ++ x9c :: lit "x") = foldM advance_one (new 8) (utf8_demo ++ [x1b; x5c] ++ lit "x").
Proof.
  split; [vm_compute; reflexivity|]. split; [vm_compute; reflexivity|].
  apply (utf8_text_untouched 8 utf8_demo (lit "x")); vm_compute; reflexivity.
Defined.

(** ** The marker latch *)

Section latch.
Context `{Vte}.

Definition marked (k : Sink) : Prop := saw_marker (status k) = true.

Lemma csi_modes_status on params k : status (csi_modes on params k) = status k.
Proof.
  unfold csi_modes. revert k. induction params as [|sub params IH]; intros k; simpl; [done|].
  rewrite IH. by destruct sub.
Qed.

Lemma perform_marker cb k : marked k -> marked (perform k cb).
Proof.
  unfold marked. intros Hk. destruct cb; simpl; try done.
  - unfold osc_dispatch, osc_progress, osc_prompt. cbv zeta.
    repeat match goal with |- context [code_is ?c ?l] => destruct (code_is c l) end;
      repeat match goal with |- context [get params 1] => destruct (get params 1) end; simpl; try done;
      try (destruct (bool_decide _); [|done]; done).
    all: try (destruct (bool_decide _); done).
    all: destruct (head _) as [[]|]; done.
  - unfold csi_dispatch, csi_sgr, csi_region. cbv zeta.
    repeat match goal with |- context [if ?b then ?x else ?y] =>
      lazymatch type of x with Sink => destruct b | _ => fail end end;
      simpl; rewrite ?csi_modes_status; done.
  - unfold esc_dispatch. by destruct (decide _), (st_pending k).
Qed.

Lemma lex_marker l bs : marked (lx_sink l) -> marked (lx_sink (lex l bs).1).
Proof.
  revert l. induction bs as [|b bs IH]; intros l Hl; simpl; [done|].
  assert (Hs : marked (lx_sink (lex_step l b).1)).
  { unfold lex_step. destruct (advance (lx_parser l) b) as [p cbs].
    assert (Hp : marked (foldl perform (lx_sink l) cbs)).
    { clear IH. revert Hl. generalize (lx_sink l).
      induction cbs as [|cb cbs IH]; intros k Hk; simpl; [done|]. by apply IH, perform_marker. }
    change (marked (take_event (foldl perform (lx_sink l) cbs)).2) in Hp.
    destruct (take_event _) as [ev k]. by destruct ev. }
  destruct (lex_step l b) as [l1 g1]. specialize (IH l1 Hs). by destruct (lex l1 bs).
Qed.
End latch.

(** [running] is reported only by a shell that has shown an OSC 133 marker,
    a reported progress fits its byte, and the marker latch never goes back:
    once set it stays set whatever follows. *)
Theorem prompt_marker_latched `{Vte} w bs1 bs2 s1 s2 :
  feed (new w) bs1 = Some s1 -> feed s1 bs2 = Some s2 ->
  (running (scanner_status s1) = true -> saw_prompt_marker s1 = true) /\
  (forall p, progress (scanner_status s1) = Some p -> (p < 256)%N) /\
  (saw_prompt_marker s1 = true -> saw_prompt_marker s2 = true).
Proof.
  intros F1 F2. destruct (feed_new_inv w bs1 s1 F1) as (T1 & _ & R1).
  destruct (feed_tracks _ s1 bs2 T1 R1) as (s2' & F2' & T2 & _).
  rewrite F2 in F2'. injection F2' as <-.
  pose proof (wf_status _ (tr_wf _ _ T1)) as [Hrun Hprog].
  split; [exact Hrun|]. split; [exact Hprog|].
  unfold saw_prompt_marker. rewrite (tr_sink _ _ T1), (tr_sink _ _ T2). apply lex_marker.
Qed.

Definition marker_demo : list byte := ESC :: lit "]133;C" ++ [BEL].

Lemma prompt_marker_latched_witness :
  saw_prompt_marker (run_of 8 marker_demo) = true /\
  running (scanner_status (run_of 8 marker_demo)) = true /\
  forall s2, feed (run_of 8 marker_demo) (lit "x") = Some s2 -> saw_prompt_marker s2 = true.
Proof.
  split; [vm_compute; reflexivity|]. split; [vm_compute; reflexivity|].
  intros s2 F. refine (proj2 (proj2 (prompt_marker_latched 8 _ _ _ _ (run_of_feed _ _) F)) _).
  vm_compute. reflexivity.
Defined.
