(* ===== verification/ScannerState.v ===== *)
(** The state a scanner keeps is what the shell has said last.

    Each attribute of the terminal (title, directory, graphic rendition, margins, each
    DEC mode) and of the shell (running, progress, prompt marks) is given here as a
    function of the calls the parser makes, with no state: what a call says of it, if
    anything. The scanner, which updates a sink and cuts, drops and caches on the way,
    holds of each what the last call said. *)
From S2P Require Import Prelude Vte ParserInstance.
From S2P Require Import Status Sticky Scanner ScannerSpec ScannerProps.
From Stdlib Require Import Ascii.

(** * What a call says *)

(** An OSC of one of these codes that has a text. *)
Definition osc_text (codes : list string) (cb : callback) : option (list byte) :=
  match cb with
  | OscDispatch (c :: text :: _) _ => if existsb (fun a => bool_decide (c = lit a)) codes then Some text else None
  | _ => None
  end.

Definition says_title : callback -> option (list byte) := osc_text ["0"; "1"; "2"]%string.
Definition says_cwd : callback -> option (list byte) := osc_text ["7"]%string.

(** The sequences with a [?] are private. *)
Definition private (inter : list byte) : bool := match inter with x3f :: _ => true | _ => false end.

(** SGR: nothing, or a single 0, is a reset. *)
Definition says_sgr (cb : callback) : option (list u16) :=
  match cb with
  | CsiDispatch params inter _ action =>
      if (action =? ch "m")%N && negb (private inter)
      then Some (match concat params with [0%N] => [] | ps => ps end) else None
  | _ => None
  end.

(** The first number of a parameter, 0 if there is none. *)
Definition number (params : list (list u16)) (i : nat) : u16 :=
  match params !! i with Some (n :: _) => n | _ => 0%N end.

(** DECSTBM: no margins, or the two. *)
Definition says_region (cb : callback) : option (option (u16 * u16)) :=
  match cb with
  | CsiDispatch params inter _ action =>
      if (action =? ch "r")%N && negb (private inter)
      then Some (match number params 0, number params 1 with 0%N, 0%N => None | t, b => Some (t, b) end) else None
  | _ => None
  end.

(** DECSET and DECRST of a list that names the mode: it is on, or it has no entry. *)
Definition says_mode (code : u16) (cb : callback) : option (option bool) :=
  match cb with
  | CsiDispatch params inter _ action =>
      if private inter && existsb (fun sub => bool_decide (head sub = Some code)) params then
        if (action =? ch "h")%N then Some (Some true) else if (action =? ch "l")%N then Some None else None
      else None
  | _ => None
  end.

(** OSC 133;C and 133;D: a command runs, or is done. *)
Definition says_running (cb : callback) : option bool :=
  match cb with
  | OscDispatch (c :: (x43 :: _) :: _) _ => if bool_decide (c = lit "133") then Some true else None
  | OscDispatch (c :: (x44 :: _) :: _) _ => if bool_decide (c = lit "133") then Some false else None
  | _ => None
  end.

Definition says_marker (cb : callback) : option bool :=
  match cb with OscDispatch (c :: _) _ => if bool_decide (c = lit "133") then Some true else None | _ => None end.

(** OSC 9;4;state;value: the value, or none in the state 0. *)
Definition says_progress (cb : callback) : option (option N) :=
  match cb with
  | OscDispatch (c :: k :: rest) _ =>
      if bool_decide (c = lit "9") && bool_decide (k = lit "4") then
        Some (if bool_decide (rest !! 0 = Some (lit "0")) then None
              else and_then (and_then (rest !! 1) from_utf8) parse_u8)
      else None
  | _ => None
  end.

(** * The sink *)

(** A field each call sets to what it says of it, or leaves alone. *)
Definition follows {A} (f : Sink -> A) (says : callback -> option A) : Prop :=
  forall k cb, f (perform k cb) = default (f k) (says cb).

Lemma follows_last {A} (f : Sink -> A) says k cbs :
  follows f says -> f (foldl perform k cbs) = default (f k) (last (omap says cbs)).
Proof.
  intros Hf. revert k. induction cbs as [|cb cbs IH]; intros k; [done|]. cbn [foldl omap list_omap].
  rewrite IH, Hf. destruct (says cb) as [a|]; [|done]. rewrite last_cons. by destruct (last _).
Qed.

(** A code is compared as text, and every literal is. *)
Lemma code_is_bytes params arms :
  forallb (fun a => utf8_valid (lit a)) arms = true ->
  code_is (and_then (get params 0) from_utf8) arms =
    match params with c :: _ => existsb (fun a => bool_decide (c = lit a)) arms | [] => false end.
Proof.
  intros Ha. unfold get. destruct params as [|c params]; [done|]. cbn [lookup list_lookup and_then].
  unfold from_utf8. destruct (utf8_valid c) eqn:Ec; [done|]. cbn [code_is].
  induction arms as [|a arms IH]; [done|]. cbn [forallb] in Ha. apply andb_true_iff in Ha as [Hv Ha].
  cbn [existsb]. rewrite <- IH by done. rewrite bool_decide_eq_false_2; [done|]. intros ->. congruence.
Qed.

(** The arms of [osc_dispatch], by the bytes of the code. *)
Definition osc_code (params : list (list byte)) (arms : list string) : bool :=
  match params with c :: _ => existsb (fun a => bool_decide (c = lit a)) arms | [] => false end.

Lemma osc_arms params k :
  sticky (osc_dispatch params k) =
    (if osc_code params ["0"; "1"; "2"]%string then
       match get params 1 with Some t => Sticky.set_title t (sticky k) | None => sticky k end
     else if osc_code params ["7"]%string then
       match get params 1 with Some c => Sticky.set_cwd c (sticky k) | None => sticky k end
     else sticky k) /\
  status (osc_dispatch params k) =
    (if osc_code params ["0"; "1"; "2"]%string then status k else if osc_code params ["7"]%string then status k
     else if osc_code params ["9"]%string then status (osc_progress params k)
     else if osc_code params ["133"]%string then status (osc_prompt params k) else status k).
Proof.
  unfold osc_dispatch. cbv zeta. rewrite !code_is_bytes by done. fold (osc_code params ["0"; "1"; "2"]%string).
  fold (osc_code params ["7"]%string) (osc_code params ["9"]%string) (osc_code params ["133"]%string) (osc_code params ["52"; "777"]%string).
  assert (Hp : sticky (osc_progress params k) = sticky k) by (unfold osc_progress; repeat case_match; done).
  assert (Hq : sticky (osc_prompt params k) = sticky k) by (unfold osc_prompt; cbv zeta; repeat case_match; done).
  destruct (osc_code params ["0"; "1"; "2"]%string); [by destruct (get params 1)|].
  destruct (osc_code params ["7"]%string); [by destruct (get params 1)|].
  destruct (osc_code params ["9"]%string); [done|].
  destruct (osc_code params ["133"]%string); [done|]. by destruct (osc_code params ["52"; "777"]%string).
Qed.

Lemma is_private inter : bool_decide (head inter = Some x3f) = private inter.
Proof. destruct inter as [|b inter]; [done|]. unfold private. by destruct b. Qed.

(** The arms of [csi_dispatch]. *)
Lemma csi_arms params inter action k :
  sticky (csi_dispatch params inter action k) =
    (if (action =? ch "m")%N && negb (private inter) then sticky (csi_sgr params k)
     else if (action =? ch "r")%N && negb (private inter) then sticky (csi_region params k)
     else if ((action =? ch "h") || (action =? ch "l"))%N && private inter
     then sticky (csi_modes (action =? ch "h")%N params k) else sticky k) /\
  status (csi_dispatch params inter action k) = status k.
Proof.
  assert (Hm : forall on ps k, status (csi_modes on ps k) = status k).
  { unfold csi_modes. intros on ps. induction ps as [|[|c sub] ps IH]; intros k0; cbn [foldl]; [done|apply IH|]. by rewrite IH. }
  assert (Hs : forall on ps k1 k2, sticky k1 = sticky k2 -> sticky (csi_modes on ps k1) = sticky (csi_modes on ps k2)).
  { unfold csi_modes. intros on ps. induction ps as [|[|c sub] ps IH]; intros k1 k2 E; cbn [foldl]; [done|by apply IH|].
    apply IH. simpl. by rewrite E. }
  unfold csi_dispatch. cbv zeta. rewrite is_private.
  destruct (N.eqb_spec action (ch "n")) as [->|]; [done|]. destruct (N.eqb_spec action (ch "c")) as [->|]; [done|].
  destruct ((action =? ch "m")%N && negb (private inter)).
  { unfold csi_sgr. cbv zeta. destruct (bool_decide _); done. }
  destruct ((action =? ch "r")%N && negb (private inter)).
  { unfold csi_region. destruct ((_ =? 0) && (_ =? 0))%N; done. }
  destruct (_ && private inter); [split; [by apply Hs|cbn [set_event status]; by rewrite Hm]|].
  destruct (N.eqb_spec action (ch "J")) as [->|]; [|done]. by destruct (_ || _)%N.
Qed.

(** The calls that are neither leave the state alone. *)
Definition speaks (cb : callback) : bool :=
  match cb with OscDispatch _ _ | CsiDispatch _ _ _ _ => true | _ => false end.

Lemma perform_mute cb k : speaks cb = false -> sticky (perform k cb) = sticky k /\ status (perform k cb) = status k.
Proof.
  destruct cb as [c|b|params inter ig action|b| |params bt|params inter ig action|inter ig b]; try done. intros _.
  cbn [perform]. unfold esc_dispatch. by destruct (decide (b = x5c)), (st_pending k).
Qed.

(** ** Each field *)

Lemma follows_text {A} (f : StickyState -> A) says :
  (forall cb, speaks cb = false -> says cb = None) ->
  (forall params bt k, f (sticky (osc_dispatch params k)) = default (f (sticky k)) (says (OscDispatch params bt))) ->
  (forall params inter ig action k,
     f (sticky (csi_dispatch params inter action k)) = default (f (sticky k)) (says (CsiDispatch params inter ig action))) ->
  follows (fun k => f (sticky k)) says.
Proof.
  intros Hn Ho Hc k cb. destruct (speaks cb) eqn:Es.
  - destruct cb; try done; [apply Ho|apply Hc].
  - rewrite (Hn cb Es). by destruct (perform_mute cb k Es) as [-> _].
Qed.

Lemma csi_keeps {A} (f : StickyState -> A) params inter action k :
  (forall l st, f (Sticky.set_sgr l st) = f st) -> (forall r st, f (Sticky.set_scroll_region r st) = f st) ->
  (forall c on st, f (Sticky.set_dec_mode c on st) = f st) ->
  f (sticky (csi_dispatch params inter action k)) = f (sticky k).
Proof.
  intros H1 H2 H3. destruct (csi_arms params inter action k) as [-> _].
  destruct (_ && _); [unfold csi_sgr; cbv zeta; destruct (bool_decide _); apply H1|].
  destruct (_ && _); [unfold csi_region; destruct ((_ =? 0) && (_ =? 0))%N; apply H2|].
  destruct (_ && _); [|done]. unfold csi_modes. generalize (action =? ch "h")%N. intros on. revert k.
  induction params as [|[|c sub] params IH]; intros k; [done|apply IH|]. cbn [foldl]. rewrite IH. apply H3.
Qed.

Lemma osc_keeps {A} (f : StickyState -> A) params k :
  (forall t st, f (Sticky.set_title t st) = f st) -> (forall c st, f (Sticky.set_cwd c st) = f st) ->
  f (sticky (osc_dispatch params k)) = f (sticky k).
Proof.
  intros H1 H2. destruct (osc_arms params k) as [-> _].
  destruct (osc_code _ _); [destruct (get params 1); [apply H1|done]|].
  destruct (osc_code _ _); [destruct (get params 1); [apply H2|done]|done].
Qed.

Lemma title_follows : follows (fun k => title (sticky k)) (fun cb => Some <$> says_title cb).
Proof.
  apply follows_text; [by intros []|intros params bt k|intros params inter ig action k; by apply csi_keeps].
  destruct (osc_arms params k) as [-> _]. unfold get. destruct params as [|c [|t params]]; [done| |].
  - cbn [lookup list_lookup]. repeat case_match; done.
  - cbn [lookup list_lookup says_title osc_text osc_code]. destruct (existsb _ _); [done|]. by destruct (existsb _ _).
Qed.

Lemma cwd_follows : follows (fun k => cwd (sticky k)) (fun cb => Some <$> says_cwd cb).
Proof.
  apply follows_text; [by intros []|intros params bt k|intros params inter ig action k; by apply csi_keeps].
  destruct (osc_arms params k) as [-> _]. unfold get. destruct params as [|c [|t params]]; [done| |].
  - cbn [lookup list_lookup]. repeat case_match; done.
  - cbn [lookup list_lookup says_cwd osc_text osc_code existsb]. rewrite orb_false_r.
    destruct (bool_decide_reflect (c = lit "7")) as [->|]; [done|]. by destruct (_ || _).
Qed.

(** The two halves of a test for an action. *)
Lemma is_action action a c : (action =? ch a)%N && c = true -> action = ch a /\ c = true.
Proof. by intros [->%N.eqb_eq Hc]%andb_true_iff. Qed.

Lemma sgr_follows : follows (fun k => sgr (sticky k)) says_sgr.
Proof.
  apply follows_text; [by intros []|intros params bt k; by apply osc_keeps|intros params inter ig action k].
  destruct (csi_arms params inter action k) as [-> _]. cbn [says_sgr].
  destruct ((action =? ch "m")%N && negb (private inter)).
  { unfold csi_sgr. cbv zeta. cbn [sgr_scratch set_sgr_scratch]. destruct (concat params) as [|[|p] [|q ps]]; reflexivity. }
  destruct (_ && _); [unfold csi_region; by destruct ((_ =? 0) && (_ =? 0))%N|].
  destruct (_ && _); [|done]. unfold csi_modes. generalize (action =? ch "h")%N. intros on. revert k.
  induction params as [|[|c sub] params IH]; intros k; [done|apply IH|]. cbn [foldl]. by rewrite IH.
Qed.

Lemma number_param params i : number params i = param_or_0 params i.
Proof. unfold number, param_or_0. by destruct (params !! i) as [[|n sub]|]. Qed.

Lemma region_follows : follows (fun k => scroll_region (sticky k)) says_region.
Proof.
  apply follows_text; [by intros []|intros params bt k; by apply osc_keeps|intros params inter ig action k].
  destruct (csi_arms params inter action k) as [-> _]. cbn [says_region].
  destruct ((action =? ch "m")%N && negb (private inter)) eqn:Em.
  { apply is_action in Em as [-> _]. unfold csi_sgr. cbv zeta. by destruct (bool_decide _). }
  destruct ((action =? ch "r")%N && negb (private inter)).
  { unfold csi_region. rewrite !number_param. by destruct (param_or_0 params 0), (param_or_0 params 1). }
  clear Em. destruct (_ && _); [|done]. unfold csi_modes. generalize (action =? ch "h")%N. intros on. revert k.
  induction params as [|[|c sub] params IH]; intros k; [done|apply IH|]. cbn [foldl]. by rewrite IH.
Qed.

Lemma csi_modes_at code on params k :
  dec_modes (sticky (csi_modes on params k)) !! code =
    if existsb (fun sub => bool_decide (head sub = Some code)) params then (if on then Some true else None)
    else dec_modes (sticky k) !! code.
Proof.
  unfold csi_modes. revert k. induction params as [|[|c sub] params IH]; intros k; cbn [foldl existsb]; [done|by rewrite IH|].
  rewrite IH. destruct (existsb _ params); [by rewrite orb_true_r|]. rewrite orb_false_r. cbn [head sticky set_sticky].
  unfold Sticky.set_dec_mode. cbn [dec_modes invalidate]. destruct (bool_decide_reflect (Some c = Some code)) as [[= ->]|Hne].
  - destruct on; [by rewrite lookup_insert_eq|by rewrite lookup_delete_eq].
  - destruct on; [by rewrite lookup_insert_ne by congruence|by rewrite lookup_delete_ne by congruence].
Qed.

Lemma mode_follows code : follows (fun k => dec_modes (sticky k) !! code) (says_mode code).
Proof.
  apply (follows_text (fun st => dec_modes st !! code)); [by intros []|intros params bt k|intros params inter ig action k].
  { apply (osc_keeps (fun st => dec_modes st !! code)); done. }
  destruct (csi_arms params inter action k) as [-> _]. cbn [says_mode]. destruct (private inter); cbn [negb andb].
  2: { rewrite !andb_true_r, andb_false_r. destruct (action =? ch "m")%N; [unfold csi_sgr; cbv zeta; by destruct (bool_decide _)|].
       destruct (action =? ch "r")%N; [|done]. unfold csi_region. by destruct ((_ =? 0) && (_ =? 0))%N. }
  rewrite !andb_false_r, andb_true_r. destruct (action =? ch "h")%N; cbn [orb].
  { rewrite csi_modes_at. by destruct (existsb _ params). }
  destruct (action =? ch "l")%N; [rewrite csi_modes_at|]; by destruct (existsb _ params).
Qed.

(** The status is of the OSCs alone. *)
Lemma follows_status {A} (f : StatusCache -> A) says :
  (forall cb, match cb with OscDispatch _ _ => True | _ => says cb = None end) ->
  (forall params bt k, f (status (osc_dispatch params k)) = default (f (status k)) (says (OscDispatch params bt))) ->
  follows (fun k => f (status k)) says.
Proof.
  intros Hn Ho k cb. pose proof (Hn cb) as Hcb. destruct (speaks cb) eqn:Es.
  - destruct cb as [| | | | |params bt|params inter ig action|]; try done; [apply Ho|]. rewrite Hcb. cbn [perform].
    by destruct (csi_arms params inter action k) as [_ ->].
  - destruct (perform_mute cb k Es) as [_ ->]. destruct cb; try done; by rewrite Hcb.
Qed.

(** The codes exclude one another. *)
Lemma osc_code_one c params s : osc_code (c :: params) [s] = bool_decide (c = lit s).
Proof. cbn [osc_code existsb]. by rewrite orb_false_r. Qed.

Ltac osc_cases c :=
  destruct (bool_decide_reflect (c = lit "133")) as [->|?]; [|destruct (bool_decide_reflect (c = lit "9")) as [->|?]].

Lemma status_osc c params k :
  status (osc_dispatch (c :: params) k) =
    if bool_decide (c = lit "133") then status (osc_prompt (c :: params) k)
    else if bool_decide (c = lit "9") then status (osc_progress (c :: params) k) else status k.
Proof.
  destruct (osc_arms (c :: params) k) as [_ ->]. rewrite !osc_code_one. osc_cases c; [reflexivity|reflexivity|].
  by repeat case_match.
Qed.

(** Progress is all that OSC 9 sets. *)
Lemma osc_progress_sets params k :
  st_running (status (osc_progress params k)) = st_running (status k) /\
  saw_marker (status (osc_progress params k)) = saw_marker (status k) /\
  st_progress (status (osc_progress params k)) =
    if bool_decide (get params 1 = Some (lit "4")) then
      if bool_decide (get params 2 = Some (lit "0")) then None else and_then (and_then (get params 3) from_utf8) parse_u8
    else st_progress (status k).
Proof.
  unfold osc_progress. destruct (bool_decide _); [|done]. cbv zeta.
  assert (E : code_is (and_then (get params 2) from_utf8) ["0"%string] = bool_decide (get params 2 = Some (lit "0"))).
  { unfold get. destruct (params !! 2) as [x|]; [|done]. cbn [and_then].
    pose proof (code_is_bytes [x] ["0"%string] eq_refl) as Hc. cbn [get lookup list_lookup and_then existsb] in Hc.
    rewrite Hc, orb_false_r. apply bool_decide_ext. split; [by intros ->|by intros [= ->]]. }
  rewrite E. by destruct (bool_decide _).
Qed.

Lemma osc_prompt_sets params k :
  st_progress (status (osc_prompt params k)) = st_progress (status k) /\ saw_marker (status (osc_prompt params k)) = true.
Proof. unfold osc_prompt. cbv zeta. by repeat case_match. Qed.

Lemma running_follows : follows (fun k => st_running (status k)) says_running.
Proof.
  apply follows_status; [by intros []|]. intros [|c params] bt k; [done|]. rewrite status_osc.
  assert (E : says_running (OscDispatch (c :: params) bt) = if bool_decide (c = lit "133") then
    match and_then (get (c :: params) 1) head with Some x43 => Some true | Some x44 => Some false | _ => None end else None).
  { cbn [says_running]. unfold get. cbn [lookup list_lookup].
    destruct params as [|[|b t] params], (bool_decide (c = lit "133")); try done; by destruct b. }
  rewrite E. clear E. destruct (bool_decide (c = lit "133")).
  - unfold osc_prompt. cbv zeta. destruct (and_then (get (c :: params) 1) head) as [b|]; [|done]. by destruct b.
  - destruct (bool_decide (c = lit "9")); [apply osc_progress_sets|done].
Qed.

Lemma marker_follows : follows (fun k => saw_marker (status k)) says_marker.
Proof.
  apply follows_status; [by intros []|]. intros [|c params] bt k; [done|]. rewrite status_osc. cbn [says_marker].
  destruct (bool_decide (c = lit "133")); [apply osc_prompt_sets|].
  destruct (bool_decide (c = lit "9")); [apply osc_progress_sets|done].
Qed.

Lemma progress_follows : follows (fun k => st_progress (status k)) says_progress.
Proof.
  apply follows_status; [by intros []|]. intros [|c params] bt k; [done|]. rewrite status_osc. osc_cases c.
  - destruct (osc_prompt_sets (lit "133" :: params) k) as [Hp _].
    rewrite Hp. by destruct params.
  - destruct (osc_progress_sets (lit "9" :: params) k) as (_ & _ & Hp). cbn [says_progress].
    rewrite Hp. unfold get. cbn [lookup list_lookup].
    destruct params as [|x params]; [done|]. cbn [lookup list_lookup andb].
    rewrite (bool_decide_ext (Some x = Some (lit "4")) (x = lit "4")) by (split; [by intros [= ->]|by intros ->]).
    by destruct (bool_decide (x = lit "4")).
  - cbn [says_progress]. destruct params; [done|]. by rewrite bool_decide_eq_false_2.
Qed.

(** * The scanner *)

Section scanner.
Context `{V : Vte}.

(** The calls the parser makes for some bytes. *)
Definition calls (bs : list byte) : list callback := concat (advance_all parser_new bs).2.

(** The last word, if any. *)
Definition last_said {A} (says : callback -> option A) (bs : list byte) : option A := last (omap says (calls bs)).

(** A field that no verdict moves, over a run of the lexer. *)
Lemma lex_last {A} (f : Sink -> A) says l bs :
  follows f says -> (forall k, f (take_event k).2 = f k) ->
  f (lx_sink (lex l bs).1) = default (f (lx_sink l)) (last (omap says (concat (advance_all (lx_parser l) bs).2))).
Proof.
  intros Hf Ht. revert l. induction bs as [|b bs IH]; intros l; [done|]. cbn [lex advance_all].
  assert (Hs : lx_parser (lex_step l b).1 = (advance (lx_parser l) b).1 /\
    f (lx_sink (lex_step l b).1) = f (foldl perform (lx_sink l) (advance (lx_parser l) b).2)).
  { unfold lex_step. destruct (advance _ _) as [p cbs]. pose proof (Ht (foldl perform (lx_sink l) cbs)) as Hk.
    destruct (take_event _) as [ev k]. by destruct ev. }
  destruct (lex_step l b) as [l1 g1]. cbn [fst] in Hs. destruct Hs as [Hp Hs]. specialize (IH l1). destruct (lex l1 bs) as [l2 g2].
  destruct (advance (lx_parser l) b) as [p cbs]. cbn [fst snd] in *. rewrite IH, Hp, Hs. rewrite (follows_last f says) by done.
  destruct (advance_all p bs) as [p2 rest]. cbn [snd concat]. rewrite omap_app, last_app. by destruct (last (omap says (concat rest))).
Qed.

(** What a scanner holds of such a field. *)
Lemma feed_last {A} (f : Sink -> A) says w bs s :
  feed (new w) bs = Some s -> follows f says -> (forall k, f (take_event k).2 = f k) ->
  (forall k1 k2, sink_equiv k1 k2 -> f k1 = f k2) ->
  f (sink s) = default (f Sink_new) (last_said says (expand 0 bs)).
Proof.
  intros (T & _)%feed_new_inv Hf Ht He. rewrite (He _ _ (tr_sink _ _ T)). exact (lex_last f says lexer_new (expand 0 bs) Hf Ht).
Qed.
End scanner.

Lemma last_said_some `{Vte} {A} (says : callback -> option A) bs :
  default None (last_said (fun cb => Some <$> says cb) bs) = last_said says bs.
Proof. unfold last_said. rewrite <- list_fmap_omap, fmap_last. by destruct (last _). Qed.

(** C35: whatever the shell prints, what a scanner holds of the terminal and of the
    shell is what the last call of the parser that concerns it said: the title and
    the directory are those of the last OSC 0, 1 or 2 and the last OSC 7 that has a
    text, the graphic rendition is that of the last SGR, the margins those of the
    last DECSTBM, a DEC mode is on if the last DECSET or DECRST that names it sets
    it, and a command runs, makes progress and has been marked as the last OSC 133;C
    or D, the last OSC 9;4 and any OSC 133 said. The calls are those for the bytes
    with each C1 [ST] as [ESC \ ]; cuts, drops, clears and the cache of the prologue
    move none of it. *)
Theorem state_is_last_said `{Vte} w bs s :
  feed (new w) bs = Some s ->
  let seen := expand 0 bs in
  let st := sticky (sink s) in
  title st = last_said says_title seen /\ cwd st = last_said says_cwd seen /\
  sgr st = default [] (last_said says_sgr seen) /\ scroll_region st = default None (last_said says_region seen) /\
  (forall code, dec_modes st !! code = default None (last_said (says_mode code) seen)) /\
  st_running (status (sink s)) = default false (last_said says_running seen) /\
  st_progress (status (sink s)) = default None (last_said says_progress seen) /\
  saw_marker (status (sink s)) = default false (last_said says_marker seen).
Proof.
  intros Hf seen st. unfold st, seen. split_and!.
  - rewrite (feed_last _ _ _ _ _ Hf title_follows); [apply last_said_some|done|by intros ? ? [[]]].
  - rewrite (feed_last _ _ _ _ _ Hf cwd_follows); [apply last_said_some|done|by intros ? ? [[]]].
  - exact (feed_last _ _ _ _ _ Hf sgr_follows ltac:(done) ltac:(by intros ? ? [[]])).
  - exact (feed_last _ _ _ _ _ Hf region_follows ltac:(done) ltac:(by intros ? ? [[]])).
  - intros code. refine (feed_last _ _ _ _ _ Hf (mode_follows code) ltac:(done) _). by intros k1 k2 [[_ -> _ _ _] _ _ _ _].
  - exact (feed_last _ _ _ _ _ Hf running_follows ltac:(done) ltac:(by intros ? ? [_ -> _ _ _])).
  - exact (feed_last _ _ _ _ _ Hf progress_follows ltac:(done) ltac:(by intros ? ? [_ -> _ _ _])).
  - exact (feed_last _ _ _ _ _ Hf marker_follows ltac:(done) ltac:(by intros ? ? [_ -> _ _ _])).
Qed.

(** Two titles, the second cut at its [;], margins set and reset, a mode on and another
    off, a command that is done and its progress. *)
Definition said_demo : list byte :=
  (ESC :: lit "]2;one" ++ [BEL]) ++ (ESC :: lit "[?2004;25h") ++ (ESC :: lit "[2;20r") ++ (ESC :: lit "]133;C" ++ [BEL]) ++
  (ESC :: lit "]9;4;1;40" ++ [BEL]) ++ (ESC :: lit "]0;two;three" ++ [x9c]) ++ (ESC :: lit "[r") ++ (ESC :: lit "[?25l") ++
  (ESC :: lit "]133;D" ++ [BEL]) ++ (ESC :: lit "[1;31m").

Lemma state_is_last_said_witness :
  title (sticky (sink (run_of 8 said_demo))) = Some (lit "two") /\
  sgr (sticky (sink (run_of 8 said_demo))) = [1; 31]%N /\
  scroll_region (sticky (sink (run_of 8 said_demo))) = None /\
  dec_modes (sticky (sink (run_of 8 said_demo))) !! 2004%N = Some true /\
  dec_modes (sticky (sink (run_of 8 said_demo))) !! 25%N = None /\
  st_running (status (sink (run_of 8 said_demo))) = false /\
  st_progress (status (sink (run_of 8 said_demo))) = Some 40%N.
Proof.
  destruct (state_is_last_said 8 said_demo _ (run_of_feed 8 said_demo)) as (-> & _ & -> & -> & Hm & -> & -> & _).
  rewrite !Hm. split_and!; vm_compute; reflexivity.
Defined.
