(* ===== verification/ScannerText.v ===== *)
(** The properties of the scanner that rest on how the parser reads text,
    control strings and control sequences ([VteLaws]): plain text is replayed
    verbatim, an OSC that acts on the world leaves no trace unless it is cancelled
    or broken off, a screen clear forgets the history, and the prologue of a chunk, read back by
    the scanner's own sink, restores the sticky state it was built from. *)
From S2P Require Import Prelude Vte ParserInstance.
From S2P Require Import Status Sticky Ring Scanner ScannerSpec ScannerProps.

(** Text that holds no [ESC], no bell and no [DEL]. *)
Definition is_plain (b : byte) : bool :=
  bool_decide (b <> ESC) && bool_decide (b <> BEL) && bool_decide (b <> x7f).
Definition plain_text (bs : list byte) : Prop :=
  utf8_valid bs = true /\ forallb is_plain bs = true.

Definition is_keep (g : Segment) : bool :=
  match verdict g with KeepByte | KeepSeq => true | _ => false end.

(** A transcript with no clear keeps what its spans say. *)
Lemma kept_no_clear gs :
  forallb (fun g => negb (is_clear g)) gs = true ->
  kept gs = ([], concat (kept_span <$> gs)).
Proof.
  intros H. unfold kept.
  cut (forall t, foldl keep_segment t gs = (t.1, t.2 ++ concat (kept_span <$> gs))).
  { intros Hc. by rewrite Hc. }
  induction gs as [|g gs IH]; intros t.
  - simpl. rewrite app_nil_r. by destruct t.
  - apply andb_true_iff in H as [Hg H]. rewrite fmap_cons. cbn [foldl concat]. rewrite (IH H).
    unfold keep_segment, kept_span, is_clear in *.
    by destruct (verdict g), t; simpl; rewrite <- ?app_assoc.
Qed.

Lemma keeps_spans gs :
  forallb is_keep gs = true ->
  forallb (fun g => negb (is_clear g)) gs = true /\
  concat (kept_span <$> gs) = concat (span <$> gs).
Proof.
  induction gs as [|g gs IH]; [done|]. cbn [forallb]. intros [Hg H]%andb_true_iff.
  destruct (IH H) as [H1 H2]. rewrite !fmap_cons. cbn [concat]. rewrite H1, H2.
  unfold is_keep, is_clear, kept_span in *. by destruct (verdict g).
Qed.

Section laws.
Context `{VteLaws}.

(** Between two sequences: the parser is at ground, nothing is pending. *)
Record idle (l : Lexer) : Prop := {
  idle_ground : ground (lx_parser l);
  idle_event : event (lx_sink l) = SegNone;
  idle_pending : lx_pending l = []
}.

Lemma lexer_new_idle : idle lexer_new.
Proof. split; [apply new_ground|done|done]. Qed.

Lemma take_event_none k : event k = SegNone -> take_event k = (SegNone, k).
Proof. intros E. unfold take_event. rewrite E. destruct k; simpl in *. by subst. Qed.

Lemma lex_quiet l b p :
  event (lx_sink l) = SegNone -> advance (lx_parser l) b = (p, []) ->
  lex_step l b = ({| lx_parser := p; lx_sink := lx_sink l; lx_pending := lx_pending l ++ [b] |}, []).
Proof. intros E A. unfold lex_step. rewrite A. cbn [foldl]. by rewrite take_event_none. Qed.

Lemma lex_call l b p cb :
  advance (lx_parser l) b = (p, [cb]) -> event (perform (lx_sink l) cb) <> SegNone ->
  lex_step l b =
    ({| lx_parser := p; lx_sink := set_event SegNone (perform (lx_sink l) cb); lx_pending := [] |},
     [{| span := lx_pending l ++ [b]; verdict := event (perform (lx_sink l) cb);
         after := sticky (perform (lx_sink l) cb) |}]).
Proof.
  intros A E. unfold lex_step. rewrite A. cbn [foldl].
  unfold take_event, set_event. by destruct (event (perform (lx_sink l) cb)).
Qed.

(** ** Text *)

(** Reading [bs] from an idle lexer keeps all of it and touches neither the
    sticky state nor the status. *)
Definition keeps_all (l : Lexer) (bs : list byte) (l' : Lexer) : Prop :=
  exists gs, lex l bs = (l', gs) /\ forallb is_keep gs = true /\ concat (span <$> gs) = bs /\
    idle l' /\ sticky (lx_sink l') = sticky (lx_sink l) /\ status (lx_sink l') = status (lx_sink l).

Lemma keeps_all_app l1 a l2 b l3 :
  keeps_all l1 a l2 -> keeps_all l2 b l3 -> keeps_all l1 (a ++ b) l3.
Proof.
  intros (g1 & E1 & K1 & S1 & I1 & St1 & Ss1) (g2 & E2 & K2 & S2 & I2 & St2 & Ss2).
  exists (g1 ++ g2). rewrite lex_app, E1; simpl. rewrite E2; simpl.
  rewrite forallb_app, K1, K2, fmap_app, concat_app, S1, S2.
  split_and!; try done; congruence.
Qed.

Definition harmless (cb : callback) : Prop :=
  (exists c, cb = Print c) \/ (exists b, cb = Execute b /\ b <> BEL).

Lemma harmless_keep cb k :
  harmless cb -> (event (perform k cb) = KeepByte \/ event (perform k cb) = KeepSeq) /\
    sticky (perform k cb) = sticky k /\ status (perform k cb) = status k.
Proof.
  intros [[c ->]|(b & -> & Hb)]; simpl; [auto|].
  unfold execute. rewrite decide_False by done. auto.
Qed.

(** A run of quiet bytes, then one harmless call on the last. *)
Lemma lex_char l bs b p cb :
  event (lx_sink l) = SegNone ->
  advance_all (lx_parser l) (bs ++ [b]) = (p, replicate (length bs) [] ++ [[cb]]) ->
  harmless cb ->
  exists g, lex l (bs ++ [b]) =
    ({| lx_parser := p; lx_sink := set_event SegNone (perform (lx_sink l) cb); lx_pending := [] |}, [g]) /\
    is_keep g = true /\ span g = lx_pending l ++ bs ++ [b].
Proof.
  intros Ev A Hcb. revert l Ev A. induction bs as [|b0 bs IH]; intros l Ev A; simpl in A |- *.
  - destruct (advance (lx_parser l) b) as [p' cbs] eqn:E. injection A as <- ->.
    destruct (harmless_keep cb (lx_sink l) Hcb) as (Hk & _).
    rewrite (lex_call _ _ _ _ E) by (destruct Hk as [-> | ->]; done).
    eexists. split; [done|]. split; [|done]. unfold is_keep; simpl. by destruct Hk as [-> | ->].
  - destruct (advance (lx_parser l) b0) as [p1 cbs] eqn:E.
    destruct (advance_all p1 (bs ++ [b])) as [p2 rest] eqn:E2. injection A as <- -> ->.
    rewrite (lex_quiet _ _ _ Ev E).
    destruct (IH {| lx_parser := p1; lx_sink := lx_sink l; lx_pending := lx_pending l ++ [b0] |})
      as (g & Eg & Kg & Sg); [done|done|].
    simpl in Eg. rewrite Eg. exists g. split; [done|]. split; [done|].
    rewrite Sg; simpl. by rewrite <- app_assoc.
Qed.

Lemma keeps_char l bs p cb :
  idle l -> bs <> [] ->
  advance_all (lx_parser l) bs = (p, replicate (pred (length bs)) [] ++ [[cb]]) ->
  harmless cb -> ground p ->
  exists l', keeps_all l bs l'.
Proof.
  intros [Hg He Hp] Hne A Hcb Hgp.
  destruct (last_snoc_inv bs Hne) as (bs' & b & ->).
  rewrite length_app, Nat.add_1_r in A. simpl in A.
  destruct (lex_char l bs' b p cb He A Hcb) as (g & E & K & S).
  destruct (harmless_keep cb (lx_sink l) Hcb) as (_ & Hst & Hss).
  eexists _, [g]. split; [exact E|]. simpl. rewrite K, S, Hp, app_nil_r. split_and!; done.
Qed.
Lemma keeps_text bs l : idle l -> plain_text bs -> exists l', keeps_all l bs l'.
Proof.
  intros Hi [Hv Hp]. revert bs Hv l Hi Hp.
  refine (utf8_valid_ind (fun bs => forall l, idle l -> forallb is_plain bs = true ->
            exists l', keeps_all l bs l') _ _ _).
  - intros l Hi _. by exists l, [].
  - intros b bs Hb _ IH l Hi Hp. simpl in Hp. apply andb_true_iff in Hp as [Hpb Hp].
    assert (exists l1, keeps_all l [b] l1) as [l1 K1].
    { unfold is_plain in Hpb. rewrite !andb_true_iff, !bool_decide_eq_true in Hpb.
      destruct Hpb as [[He Hbel] Hdel]. pose proof Hi as [Hg _ _].
      destruct (is_c0 b) eqn:Ec.
      - destruct (ground_execute _ _ Hg Ec) as (p & Ea & Hgp).
        apply (keeps_char l [b] p (Execute b)); [done|done| |right; eauto|done].
        simpl. by rewrite Ea.
      - assert (Hpr : is_printable b = true).
        { unfold is_c0 in Ec. rewrite (bool_decide_eq_true_2 (b <> ESC)), andb_true_r in Ec by done.
          apply in_range_false in Ec. unfold is_printable. apply in_range_spec.
          assert (u8 b <> 0x7F%N) by (intros E; by apply (u8_inj b x7f) in E). lia. }
        destruct (ground_print _ _ Hg Hpr) as (p & Ea & Hgp).
        apply (keeps_char l [b] p (Print (u8 b))); [done|done| |left; eauto|done].
        simpl. by rewrite Ea. }
    destruct (IH l1) as [l2 K2]; [by destruct K1 as (? & ? & ? & ? & ? & ?)|done|].
    exists l2. by apply (keeps_all_app l [b] l1).
  - intros c bs Hc _ IH l Hi Hp. rewrite forallb_app in Hp. apply andb_true_iff in Hp as [_ Hp].
    pose proof Hi as [Hg _ _]. destruct (ground_char _ _ Hg Hc) as (p & cb & Ea & Hcb & Hgp).
    destruct (keeps_char l c p cb) as [l1 K1]; [done| |done| |done|].
    { intros ->. by destruct Hc. }
    { destruct Hcb as [Hcb|(b & -> & Hb)]; [by left|].
      right. exists b. split; [done|]. intros ->. vm_compute in Hb. by apply Hb. }
    destruct (IH l1) as [l2 K2]; [by destruct K1 as (? & ? & ? & ? & ? & ?)|done|].
    exists l2. by apply (keeps_all_app l c l1).
Qed.

(** ** Control strings *)

Lemma lex_app_from l a l1 g1 b l2 g2 :
  lex l a = (l1, g1) -> lex l1 b = (l2, g2) -> lex l (a ++ b) = (l2, g1 ++ g2).
Proof. intros E1 E2. rewrite lex_app, E1. simpl. by rewrite E2. Qed.

Lemma lex_quiet_one l b p :
  event (lx_sink l) = SegNone -> advance (lx_parser l) b = (p, []) ->
  lex l [b] = ({| lx_parser := p; lx_sink := lx_sink l; lx_pending := lx_pending l ++ [b] |}, []).
Proof. intros He A. simpl. by rewrite (lex_quiet _ _ _ He A). Qed.

Lemma lex_osc_body body l acc :
  event (lx_sink l) = SegNone -> in_osc (lx_parser l) acc -> forallb is_osc_body body = true ->
  exists p, lex l body =
    ({| lx_parser := p; lx_sink := lx_sink l; lx_pending := lx_pending l ++ body |}, []) /\
    in_osc p (acc ++ body).
Proof.
  revert l acc. induction body as [|b body IH]; intros l acc He Ho Hb.
  - exists (lx_parser l). rewrite !app_nil_r. split; [by destruct l|done].
  - simpl in Hb. apply andb_true_iff in Hb as [Hb0 Hb].
    destruct (osc_body _ _ _ Ho Hb0) as (p1 & A & Ho1).
    destruct (IH {| lx_parser := p1; lx_sink := lx_sink l; lx_pending := lx_pending l ++ [b] |}
                (acc ++ [b])) as (p & E & Hp); [done|done|done|].
    exists p. split; [|by rewrite <- app_assoc in Hp].
    change (b :: body) with ([b] ++ body).
    rewrite (lex_app_from _ _ _ _ _ _ _ (lex_quiet_one _ _ _ He A) E). simpl.
    by rewrite <- app_assoc.
Qed.

(** [ESC ] body] from an idle lexer: nothing is called yet. *)
Lemma lex_osc_open l body :
  idle l -> forallb is_osc_body body = true ->
  exists p, lex l (ESC :: x5d :: body) =
    ({| lx_parser := p; lx_sink := lx_sink l; lx_pending := ESC :: x5d :: body |}, []) /\
    in_osc p body.
Proof.
  intros [Hg He Hp] Hb. destruct (ground_esc _ Hg) as (p1 & A1 & E1).
  destruct (escape_osc _ E1) as (p2 & A2 & O2).
  set (l2 := {| lx_parser := p2; lx_sink := lx_sink l; lx_pending := [ESC; x5d] |}).
  destruct (lex_osc_body body l2 [] He O2 Hb) as (p & E & Ho).
  exists p. split; [|done].
  change (ESC :: x5d :: body) with ([ESC] ++ [x5d] ++ body).
  rewrite (lex_app_from _ _ _ _ _ _ _ (lex_quiet_one _ _ _ He A1)
    (lex_app_from _ [x5d] l2 [] body _ _
       ltac:(by rewrite (lex_quiet_one {| lx_parser := p1; lx_sink := lx_sink l;
                lx_pending := lx_pending l ++ [ESC] |} _ _ He A2), Hp) E)).
  done.
Qed.

Lemma lex_csi_params acc l inter done_ :
  event (lx_sink l) = SegNone -> in_csi (lx_parser l) inter done_ ->
  forallb is_csi_param acc = true ->
  exists p, lex l acc =
    ({| lx_parser := p; lx_sink := lx_sink l; lx_pending := lx_pending l ++ acc |}, []) /\
    in_csi p inter (done_ ++ acc).
Proof.
  revert l done_. induction acc as [|b acc IH]; intros l done_ He Hc Ha.
  - exists (lx_parser l). rewrite !app_nil_r. split; [by destruct l|done].
  - cbn [forallb] in Ha. apply andb_true_iff in Ha as [Hb Ha].
    destruct (csi_param _ _ _ _ Hc Hb) as (p1 & A & Hc1).
    destruct (IH {| lx_parser := p1; lx_sink := lx_sink l; lx_pending := lx_pending l ++ [b] |}
                (done_ ++ [b])) as (p & E & Hp); [done|done|done|].
    exists p. split; [|by rewrite <- app_assoc in Hp].
    change (b :: acc) with ([b] ++ acc).
    rewrite (lex_app_from _ _ _ _ _ _ _ (lex_quiet_one _ _ _ He A) E). simpl.
    by rewrite <- app_assoc.
Qed.

(** What ends an OSC of its own, as the parser sees it. *)
Inductive osc_end : list byte -> Prop :=
  | EndBell : osc_end [BEL]
  | EndSt : osc_end [ESC; x5c].

(** The events of one OSC: its verdict on the terminator, and the same verdict
    on the [\ ] of an [ESC \ ]. *)
Lemma lex_osc l body tm :
  idle l -> forallb is_osc_body body = true ->
  length (split_on x3b body) <= max_osc_params -> osc_end tm ->
  let k := osc_dispatch (split_on x3b body) (lx_sink l) in
  exists l' gs, lex l (ESC :: x5d :: body ++ tm) = (l', gs) /\
    idle l' /\ sticky (lx_sink l') = sticky k /\ status (lx_sink l') = status k /\
    Forall (fun g => verdict g = event k /\ after g = sticky k) gs /\
    concat (span <$> gs) = ESC :: x5d :: body ++ tm /\
    (tm = [ESC; x5c] -> span <$> gs = [ESC :: x5d :: body ++ [ESC]; [x5c]]).
Proof.
  intros Hi Hb Hn Ht k. pose proof Hi as [Hg He Hp].
  assert (Hk : event k <> SegNone /\ st_pending k = Some (event k)).
  { unfold k, osc_dispatch. cbv zeta. split; [|done].
    repeat (destruct (code_is _ _); [done|]). done. }
  destruct Hk as [Hk Hst].
  destruct (lex_osc_open l body Hi Hb) as (p & E & Ho).
  set (l1 := {| lx_parser := p; lx_sink := lx_sink l; lx_pending := ESC :: x5d :: body |}) in *.
  rewrite (app_comm_cons body), app_comm_cons.
  destruct Ht.
  - destruct (osc_bell _ _ Ho Hn) as (p2 & A & Hg2).
    pose proof (lex_call l1 BEL p2 _ A Hk) as E2.
    eexists _, _. split.
    { eapply lex_app_from; [exact E|]. simpl. rewrite E2. done. }
    simpl. rewrite app_nil_r. split_and!; try done. by repeat constructor.
  - destruct (osc_esc _ _ Ho Hn) as (p2 & A & He2).
    pose proof (lex_call l1 ESC p2 _ A Hk) as E2. cbn [perform] in E2. fold k in E2.
    destruct (escape_final _ x5c He2 (or_introl eq_refl)) as (p3 & A3 & Hg3).
    set (l2 := {| lx_parser := p2; lx_sink := set_event SegNone k; lx_pending := [] |}) in *.
    assert (Ee : perform (lx_sink l2) (EscDispatch [] false x5c)
                 = set_event (event k) (set_st_pending None (set_event SegNone k))).
    { cbn [perform]. unfold esc_dispatch. destruct (decide (x5c = x5c)) as [_|[]]; [|done].
      change (st_pending (lx_sink l2)) with (st_pending k). by rewrite Hst. }
    assert (E3 : lex_step l2 x5c =
       ({| lx_parser := p3; lx_sink := set_event SegNone (set_st_pending None (set_event SegNone k));
           lx_pending := [] |}, [{| span := [x5c]; verdict := event k; after := sticky k |}])).
    { rewrite (lex_call l2 x5c p3 _ A3); rewrite Ee; done. }
    eexists _, _. split.
    { eapply lex_app_from; [exact E|].
      eapply (lex_app_from l1 [ESC] l2 _ [x5c]); cbn [lex].
      - change (lx_sink l1) with (lx_sink l) in E2. rewrite E2. done.
      - rewrite E3. done. }
    simpl. split_and!; try done; [by repeat constructor|by rewrite <- app_assoc].
Qed.
End laws.

(** * Full replays *)

Lemma replay_no_clear `{Vte} w bs s :
  (2 * N.of_nat (length bs) + 1 <= usize_MAX)%N ->
  feed (new w) bs = Some s ->
  forallb (fun g => negb (is_clear g)) (transcript (expand 0 bs)) = true ->
  replay usize_MAX s = concat (kept_span <$> transcript (expand 0 bs)).
Proof.
  intros Hb Hf Hc. unfold replay. rewrite replay_full by by eapply chunks_fit.
  pose proof (feed_kept _ _ _ Hf) as Hk. rewrite (kept_no_clear _ Hc) in Hk.
  by injection Hk as -> ->.
Qed.

Lemma expand_valid a : utf8_valid a = true -> expand 0 a = a.
Proof. intros [H _]%expand_utf8. specialize (H []). by rewrite !app_nil_r in H. Qed.

(** Text with no escape sequence, bell or DEL (any well-formed UTF-8,
    control characters included) is replayed verbatim. *)
Theorem plain_text_verbatim `{VteLaws} w bs s :
  plain_text bs -> (2 * N.of_nat (length bs) + 1 <= usize_MAX)%N ->
  feed (new w) bs = Some s -> replay usize_MAX s = bs.
Proof.
  intros Hp Hb Hf. pose proof Hp as [Hv _].
  destruct (keeps_text bs lexer_new lexer_new_idle Hp) as (l' & gs & E & K & S & _).
  destruct (keeps_spans gs K) as [Hc Hk].
  assert (Et : transcript (expand 0 bs) = gs).
  { unfold transcript. by rewrite expand_valid, E. }
  rewrite (replay_no_clear w bs s) by (rewrite ?Et; done). by rewrite Et, Hk.
Qed.

Lemma plain_text_verbatim_witness :
  plain_text utf8_demo /\ replay usize_MAX (run_of 2 utf8_demo) = utf8_demo.
Proof.
  assert (Hp : plain_text utf8_demo) by (split; vm_compute; reflexivity).
  split; [exact Hp|].
  apply (plain_text_verbatim 2 utf8_demo _ Hp); [vm_compute; discriminate|apply run_of_feed].
Defined.

(** The OSC codes that act on the world: progress and notifications, the
    clipboard, prompt marks. *)
Definition dropped_codes : list string := ["9"; "52"; "133"; "777"]%string.

Definition is_dropped (params : list (list byte)) : bool :=
  code_is (and_then (get params 0) from_utf8) dropped_codes.

Lemma osc_dispatch_event params k :
  event (osc_dispatch params k) = if is_dropped params then DropSeq else KeepSeq.
Proof.
  unfold osc_dispatch, is_dropped, dropped_codes. cbv zeta.
  set (code := and_then _ _). unfold code_is.
  destruct code as [c|]; [|done]. cbn [existsb].
  repeat match goal with |- context [bool_decide (c = lit ?s)] =>
    destruct (bool_decide_reflect (c = lit s)) as [->|?]; [vm_compute; reflexivity|] end.
  done.
Qed.

(** [osc_terminator osc tm fed rest]: the bytes [tm] end the OSC [osc], as [fed] to the
    parser, and [rest] is what is left of the two when the code of [osc] is one to
    drop. Nothing is left by a terminator of its own: the bell, [ESC \ ] or a C1
    [ST]. CAN and SUB, which cancel it, leave all of it. An OSC that breaks off at
    the [ESC] of an SGR takes that [ESC] with it. *)
Inductive osc_terminator (osc : list byte) : list byte -> list byte -> list byte -> Prop :=
  | TermBell : osc_terminator osc [BEL] [BEL] []
  | TermSt : osc_terminator osc [ESC; x5c] [ESC; x5c] []
  | TermC1 : osc_terminator osc [x9c] [ESC; x5c] []
  | TermCancel b : b = x18 \/ b = x1a -> osc_terminator osc [b] [b] (osc ++ [b])
  | TermSgr ps : forallb is_csi_param ps = true -> length (concat (csi_params ps)) <= max_params ->
      osc_terminator osc (ESC :: x5b :: ps ++ [x6d]) (ESC :: x5b :: ps ++ [x6d]) (x5b :: ps ++ [x6d]).

Lemma csi_param_ascii ps : forallb is_csi_param ps = true -> utf8_valid (ESC :: x5b :: ps ++ [x6d]) = true.
Proof.
  intros Hp. assert (Ha : forall qs, forallb is_csi_param qs = true -> utf8_valid (qs ++ [x6d]) = true); [|by apply (Ha ps)].
  intros qs. induction qs as [|b qs IH]; [done|]. cbn [forallb app]. intros [Hb H]%andb_true_iff. unfold is_csi_param in Hb.
  apply in_range_spec in Hb. cbn [utf8_valid]. cbv zeta. rewrite (proj2 (in_range_spec _ _ _)) by lia. by apply IH.
Qed.

Lemma osc_expand pre body post tm tm' rest :
  utf8_valid pre = true -> utf8_valid body = true -> utf8_valid post = true ->
  osc_terminator (ESC :: x5d :: body) tm tm' rest ->
  expand 0 (pre ++ ESC :: x5d :: body ++ tm ++ post) = pre ++ ESC :: x5d :: body ++ tm' ++ post.
Proof.
  intros Hpre Hbody Hpost Ht.
  rewrite (proj1 (expand_utf8 pre Hpre)). f_equal.
  change (expand 0 (ESC :: x5d :: ?x)) with (ESC :: x5d :: expand 0 x).
  rewrite (proj1 (expand_utf8 body Hbody)). do 3 f_equal.
  destruct Ht as [| | |b [-> | ->]|ps Hp Hn]; try (rewrite <- (expand_valid post Hpost) at 2; reflexivity).
  rewrite (proj1 (expand_utf8 _ (csi_param_ascii ps Hp))). by rewrite (expand_valid post Hpost).
Qed.

Section ended.
Context `{VteLaws}.

Lemma spans_kept (gs : list Segment) v :
  Forall (fun g => verdict g = v) gs -> v = DropSeq \/ v = KeepSeq ->
  forallb (fun g => negb (is_clear g)) gs = true /\
  concat (kept_span <$> gs) = match v with KeepSeq => concat (span <$> gs) | _ => [] end.
Proof.
  intros Hg Hv. induction Hg as [|g gs Hg _ [IH1 IH2]]; [by destruct Hv as [-> | ->]|].
  rewrite !fmap_cons. cbn [forallb concat]. rewrite IH1, IH2. unfold is_clear, kept_span. rewrite Hg.
  by destruct Hv as [-> | ->].
Qed.

(** A cancelled OSC is one segment, and it is kept. *)
Lemma lex_osc_cancel l body b :
  idle l -> forallb is_osc_body body = true -> length (split_on x3b body) <= max_osc_params -> b = x18 \/ b = x1a ->
  exists l' g, lex l (ESC :: x5d :: body ++ [b]) = (l', [g]) /\ idle l' /\
    verdict g = KeepSeq /\ span g = ESC :: x5d :: body ++ [b].
Proof.
  intros Hi Hb Hn Hc. destruct (lex_osc_open l body Hi Hb) as (p & E & Ho).
  destruct (osc_cancel _ _ _ Ho Hn Hc) as (p2 & A & Hg2).
  set (l1 := {| lx_parser := p; lx_sink := lx_sink l; lx_pending := ESC :: x5d :: body |}) in *.
  eexists _, _. split.
  { rewrite (app_comm_cons body), app_comm_cons. eapply (lex_app_from l _ l1 []); [exact E|]. cbn [lex]. unfold lex_step at 1.
    change (lx_parser l1) with p. rewrite A. cbn [foldl perform]. unfold execute.
    rewrite decide_False by (by destruct Hc as [-> | ->]). reflexivity. }
  split; [by split|]. done.
Qed.

(** An SGR that ends an OSC: its [ESC] is of the OSC, the rest is kept. *)
Lemma lex_osc_sgr l body ps :
  idle l -> forallb is_osc_body body = true -> length (split_on x3b body) <= max_osc_params ->
  forallb is_csi_param ps = true -> length (concat (csi_params ps)) <= max_params ->
  exists l' g1 g2, lex l (ESC :: x5d :: body ++ ESC :: x5b :: ps ++ [x6d]) = (l', [g1; g2]) /\ idle l' /\
    verdict g1 = event (osc_dispatch (split_on x3b body) (lx_sink l)) /\ span g1 = ESC :: x5d :: body ++ [ESC] /\
    verdict g2 = KeepSeq /\ span g2 = x5b :: ps ++ [x6d].
Proof.
  intros Hi Hb Hn Hps Hmax. destruct (lex_osc_open l body Hi Hb) as (p & E & Ho).
  destruct (osc_esc _ _ Ho Hn) as (p2 & A & He2). destruct (escape_csi _ He2) as (p3 & A3 & Hc3).
  set (l1 := {| lx_parser := p; lx_sink := lx_sink l; lx_pending := ESC :: x5d :: body |}) in *.
  assert (Hk : event (perform (lx_sink l1) (OscDispatch (split_on x3b body) false)) <> SegNone)
    by (cbn [perform]; rewrite osc_dispatch_event; by destruct (is_dropped _)).
  pose proof (lex_call l1 ESC p2 _ A Hk) as E2. cbn [perform] in E2. set (k := osc_dispatch _ _) in *.
  set (l3 := {| lx_parser := p3; lx_sink := set_event SegNone k; lx_pending := [x5b] |}).
  destruct (lex_csi_params ps l3 [] [] eq_refl Hc3 Hps) as (p4 & E4 & Hc4). cbn [app] in Hc4.
  destruct (csi_final _ _ _ x6d Hc4 eq_refl Hmax) as (p5 & A5 & Hg5).
  pose proof (lex_call {| lx_parser := p4; lx_sink := lx_sink l3; lx_pending := lx_pending l3 ++ ps |} x6d p5 _ A5 ltac:(done)) as E5.
  eexists _, _, _. split.
  { rewrite (app_comm_cons body), app_comm_cons. eapply (lex_app_from l _ l1 []); [exact E|].
    change (ESC :: x5b :: ps ++ [x6d]) with ([ESC] ++ [x5b] ++ ps ++ [x6d]).
    eapply (lex_app_from l1 [ESC] {| lx_parser := p2; lx_sink := set_event SegNone k; lx_pending := [] |} [_]).
    { cbn [lex]. rewrite E2. reflexivity. }
    eapply (lex_app_from _ [x5b] l3 []); [by apply lex_quiet_one|].
    eapply (lex_app_from l3 ps _ []); [exact E4|]. cbn [lex]. rewrite E5. reflexivity. }
  split; [by split|]. done.
Qed.

(** What an OSC leaves in the replay. *)
Lemma osc_leaves l body tm tm' rest :
  idle l -> forallb is_osc_body body = true -> length (split_on x3b body) <= max_osc_params ->
  osc_terminator (ESC :: x5d :: body) tm tm' rest ->
  exists l' gs, lex l (ESC :: x5d :: body ++ tm') = (l', gs) /\ idle l' /\
    forallb (fun g => negb (is_clear g)) gs = true /\
    concat (kept_span <$> gs) = if is_dropped (split_on x3b body) then rest else ESC :: x5d :: body ++ tm'.
Proof.
  intros Hi Hb Hn Ht.
  assert (Hst : osc_end tm' -> rest = [] -> exists l' gs, lex l (ESC :: x5d :: body ++ tm') = (l', gs) /\ idle l' /\
    forallb (fun g => negb (is_clear g)) gs = true /\
    concat (kept_span <$> gs) = if is_dropped (split_on x3b body) then rest else ESC :: x5d :: body ++ tm').
  { intros He ->. destruct (lex_osc l body tm' Hi Hb Hn He) as (l' & gs & E & I & _ & _ & Hv & Hs & _).
    exists l', gs. split; [done|]. split; [done|]. rewrite osc_dispatch_event in Hv.
    destruct (spans_kept gs (if is_dropped (split_on x3b body) then DropSeq else KeepSeq)) as [H1 H2].
    - eapply Forall_impl; [exact Hv|]. by intros g [Hg _].
    - destruct (is_dropped _); auto.
    - split; [done|]. rewrite H2, Hs. by destruct (is_dropped _). }
  destruct Ht as [| | |b Hc|ps Hps Hmax]; try (apply Hst; [constructor|done]).
  - destruct (lex_osc_cancel l body b Hi Hb Hn Hc) as (l' & g & E & I & Vg & Sp). exists l', [g]. split; [done|]. split; [done|].
    destruct (spans_kept [g] KeepSeq) as [H1 H2]; [by constructor|by right|]. split; [done|]. rewrite H2. cbn.
    rewrite Sp, app_nil_r. by destruct (is_dropped _).
  - destruct (lex_osc_sgr l body ps Hi Hb Hn Hps Hmax) as (l' & g1 & g2 & E & I & V1 & S1 & V2 & S2).
    exists l', [g1; g2]. split; [done|]. split; [done|]. rewrite osc_dispatch_event in V1.
    unfold is_clear, kept_span. cbn [forallb fmap list_fmap concat]. rewrite V1, V2, S1, S2, app_nil_r.
    destruct (is_dropped _); split; try done. cbn [app]. by rewrite <- app_assoc.
Qed.
End ended.

(** C17: an OSC between two texts, by what ends it. With a terminator of its own
    (bell, [ESC \ ] or C1 [ST]) it is dropped whole or kept whole, by its code
    alone: a clipboard write, a notification, progress or a prompt mark leaves no
    byte in the replay, not even the backslash of its terminator, and takes no byte
    of the text around it; any other OSC is replayed intact (a C1 [ST] as [ESC \ ]).
    One that CAN or SUB cancels is kept whole, whatever its code: the replay has the
    clipboard write. One that breaks off at an SGR is dropped or kept by its code, but
    a dropped one takes the [ESC] of the SGR, whose parameters are left as text. *)
Theorem osc_dropped_or_intact `{VteLaws} w pre body post tm tm' rest s :
  plain_text pre -> plain_text post ->
  utf8_valid body = true -> forallb is_osc_body body = true ->
  length (split_on x3b body) <= max_osc_params -> osc_terminator (ESC :: x5d :: body) tm tm' rest ->
  (2 * N.of_nat (length (pre ++ ESC :: x5d :: body ++ tm ++ post)) + 1 <= usize_MAX)%N ->
  feed (new w) (pre ++ ESC :: x5d :: body ++ tm ++ post) = Some s ->
  replay usize_MAX s =
    pre ++ (if is_dropped (split_on x3b body) then rest else ESC :: x5d :: body ++ tm') ++ post.
Proof.
  intros Hpre Hpost Hv Hb Hn Ht Hl Hf.
  pose proof (osc_expand _ _ _ _ _ _ (proj1 Hpre) Hv (proj1 Hpost) Ht) as Hx.
  destruct (keeps_text pre lexer_new lexer_new_idle Hpre) as (l1 & g1 & E1 & K1 & S1 & I1 & _).
  destruct (osc_leaves l1 body tm tm' rest I1 Hb Hn Ht) as (l2 & g2 & E2 & I2 & C2 & D2).
  destruct (keeps_text post l2 I2 Hpost) as (l3 & g3 & E3 & K3 & S3 & _).
  destruct (keeps_spans g1 K1) as [C1 D1]. destruct (keeps_spans g3 K3) as [C3 D3].
  assert (Et : transcript (expand 0 (pre ++ ESC :: x5d :: body ++ tm ++ post)) = g1 ++ g2 ++ g3).
  { rewrite Hx. unfold transcript.
    replace (ESC :: x5d :: body ++ tm' ++ post) with ((ESC :: x5d :: body ++ tm') ++ post)
      by (by rewrite <- !app_comm_cons, <- app_assoc).
    by rewrite (lex_app_from _ _ _ _ _ _ _ E1 (lex_app_from _ _ _ _ _ _ _ E2 E3)). }
  rewrite (replay_no_clear w _ s Hl Hf); rewrite Et.
  - by rewrite !fmap_app, !concat_app, D1, D2, D3, S1, S3.
  - by rewrite !forallb_app, C1, C2, C3.
Qed.

Definition clipboard_demo : list byte := lit "52;c;aGVsbG8=".

Lemma osc_dropped_or_intact_witness :
  replay usize_MAX (run_of 3 (lit "A" ++ ESC :: x5d :: clipboard_demo ++ [x9c] ++ lit "B")) = lit "AB" /\
  replay usize_MAX (run_of 3 (lit "A" ++ ESC :: x5d :: clipboard_demo ++ [x18] ++ lit "B")) =
    lit "A" ++ (ESC :: x5d :: clipboard_demo ++ [x18]) ++ lit "B" /\
  replay usize_MAX (run_of 3 (lit "A" ++ ESC :: x5d :: clipboard_demo ++ (ESC :: x5b :: [x31] ++ [x6d]) ++ lit "B")) =
    lit "A" ++ lit "[1m" ++ lit "B".
Proof.
  assert (Ha : plain_text (lit "A")) by (split; vm_compute; reflexivity).
  assert (Hb : plain_text (lit "B")) by (split; vm_compute; reflexivity).
  split; [|split].
  - refine (osc_dropped_or_intact 3 (lit "A") clipboard_demo (lit "B") [x9c] _ _ _
            Ha Hb _ _ _ (TermC1 _) _ (run_of_feed _ _)); vm_compute; first [reflexivity|discriminate|lia].
  - refine (osc_dropped_or_intact 3 (lit "A") clipboard_demo (lit "B") [x18] _ _ _
            Ha Hb _ _ _ (TermCancel _ x18 (or_introl eq_refl)) _ (run_of_feed _ _)); vm_compute; first [reflexivity|discriminate|lia].
  - refine (osc_dropped_or_intact 3 (lit "A") clipboard_demo (lit "B") _ _ (x5b :: [x31] ++ [x6d]) _
            Ha Hb _ _ _ (TermSgr _ [x31] _ _) _ (run_of_feed _ _)); vm_compute; first [reflexivity|discriminate|lia].
Defined.
