(* ===== verification/ScannerPrologue.v ===== *)
(** The prologue of a chunk, read back.

    [Sticky.build_serialized] writes the sticky state as control sequences; a
    fresh scanner that reads them ends in the same sticky state. The numbers
    survive because the parser's parameters are what [to_string] prints
    ([csi_number_to_string]), the texts because an OSC parameter holds no
    separator. With it: a screen clear forgets the history and keeps the state,
    and where a cut falls inside the terminator of an OSC. *)
From S2P Require Import Prelude Vte ParserInstance.
From S2P Require Import Status Sticky Ring Scanner ScannerSpec ScannerProps ScannerText.
From Stdlib Require Import Ascii.

(** * Parameters printed and read *)

Lemma split_on_none sep bs : Forall (fun b => b <> sep) bs -> split_on sep bs = [bs].
Proof.
  induction 1 as [|b bs Hb H IH]; [done|]. cbn [split_on]. by rewrite decide_False, IH.
Qed.

Lemma split_on_cons sep a bs :
  Forall (fun b => b <> sep) a -> split_on sep (a ++ sep :: bs) = a :: split_on sep bs.
Proof.
  induction 1 as [|b a Hb H IH]; cbn [app split_on].
  - by rewrite decide_True.
  - by rewrite decide_False, IH.
Qed.

Lemma foldl_saturate a ds :
  (dec_value a ds <= 65535)%N ->
  foldl (fun acc b => N.min (acc * 10 + (u8 b - 48)) 65535)%N a ds = dec_value a ds /\
  (a <= dec_value a ds)%N.
Proof.
  unfold dec_value. revert a. induction ds as [|d ds IH]; intros a; cbn [foldl]; [lia|].
  intros H. destruct (IH _ H) as [E1 E2]. rewrite N.min_l by lia. split; [done|lia].
Qed.

Lemma csi_number_to_string n : (n <= 65535)%N -> csi_number (to_string n) = n.
Proof.
  intros Hn. destruct (to_string_spec n) as (_ & _ & Hv); [change (10 ^ 20)%N with 100000000000000000000%N; lia|].
  unfold csi_number. rewrite (proj1 (foldl_saturate 0 (to_string n) ltac:(rewrite Hv; lia))). done.
Qed.

Lemma is_digit_spec b : is_digit b = true -> (48 <= u8 b <= 57)%N.
Proof. unfold is_digit. by intros ?%in_range_spec. Qed.

Lemma to_string_digits n :
  (n <= 65535)%N ->
  forallb is_csi_param (to_string n) = true /\
  Forall (fun b => b <> x3b) (to_string n) /\ Forall (fun b => b <> x3a) (to_string n).
Proof.
  intros Hn. destruct (to_string_spec n) as (_ & Hd & _); [change (10 ^ 20)%N with 100000000000000000000%N; lia|].
  induction Hd as [|b bs Hb Hd (IH1 & IH2 & IH3)]; [done|]. apply is_digit_spec in Hb.
  split_and!.
  - cbn [forallb]. rewrite IH1, andb_true_r. unfold is_csi_param. apply in_range_spec. lia.
  - constructor; [|done]. intros ->. vm_compute in Hb. by destruct Hb.
  - constructor; [|done]. intros ->. vm_compute in Hb. by destruct Hb.
Qed.

Definition u16_list (ps : list N) : Prop := Forall (fun n => n <= 65535)%N ps.

Lemma csi_params_one n : (n <= 65535)%N -> csi_params (to_string n) = [[n]].
Proof.
  intros Hn. destruct (to_string_digits n Hn) as (_ & H1 & H2).
  unfold csi_params. rewrite split_on_none by done. simpl. rewrite split_on_none by done.
  simpl. by rewrite csi_number_to_string.
Qed.

Lemma csi_params_cons n bs :
  (n <= 65535)%N -> csi_params (to_string n ++ x3b :: bs) = [n] :: csi_params bs.
Proof.
  intros Hn. destruct (to_string_digits n Hn) as (_ & H1 & H2).
  unfold csi_params. rewrite split_on_cons by done. rewrite fmap_cons.
  rewrite (split_on_none x3a) by done. simpl. by rewrite csi_number_to_string.
Qed.

(** What [build_serialized] prints for the SGR parameters is read back as one
    parameter each. *)
Lemma csi_params_sgr p ps :
  u16_list (p :: ps) -> csi_params (sgr_params true (p :: ps)) = (fun n => [n]) <$> (p :: ps).
Proof.
  revert p. induction ps as [|q ps IH]; intros p H; inversion H as [|?? Hp Hps]; subst.
  - cbn [sgr_params app]. rewrite app_nil_r. by apply csi_params_one.
  - change (sgr_params true (p :: q :: ps))
      with (to_string p ++ x3b :: sgr_params true (q :: ps)).
    rewrite csi_params_cons, IH by done. done.
Qed.

Lemma sgr_params_chars first ps :
  u16_list ps -> forallb is_csi_param (sgr_params first ps) = true.
Proof.
  intros H. revert first. induction H as [|p ps Hp H IH]; intros first; [done|].
  cbn [sgr_params]. rewrite !forallb_app, IH, andb_true_r.
  rewrite (proj1 (to_string_digits p Hp)). by destruct first.
Qed.

Lemma concat_singletons {A} (l : list A) : concat ((fun a => [a]) <$> l) = l.
Proof. induction l as [|a l IH]; [done|]. rewrite fmap_cons. cbn [concat]. by rewrite IH. Qed.

(** * A lexer reading control sequences *)

Section reads.
Context `{VteLaws}.

(** From an idle lexer, [bs] is kept whole, moves the sticky state by [f] and
    leaves the status alone. *)
Definition reads (l : Lexer) (bs : list byte) (f : StickyState -> StickyState) (l' : Lexer) : Prop :=
  exists gs, lex l bs = (l', gs) /\ idle l' /\ forallb is_keep gs = true /\
    sticky (lx_sink l') = f (sticky (lx_sink l)) /\ status (lx_sink l') = status (lx_sink l).

Lemma reads_nil l : idle l -> reads l [] id l.
Proof. intros Hl. by exists []. Qed.

Lemma reads_app l a f l1 b g l2 :
  reads l a f l1 -> reads l1 b g l2 -> reads l (a ++ b) (fun st => g (f st)) l2.
Proof.
  intros (g1 & E1 & _ & K1 & S1 & T1) (g2 & E2 & I2 & K2 & S2 & T2).
  exists (g1 ++ g2). rewrite (lex_app_from _ _ _ _ _ _ _ E1 E2), forallb_app, K1, K2.
  split_and!; try done; congruence.
Qed.

(** The introducer of a control sequence, private or not. *)
Inductive csi_intro : list byte -> list byte -> Prop :=
  | Public : csi_intro [ESC; x5b] []
  | Private : csi_intro [ESC; x5b; x3f] [x3f].

Lemma lex_csi_open l intro inter :
  idle l -> csi_intro intro inter ->
  exists p, lex l intro =
    ({| lx_parser := p; lx_sink := lx_sink l; lx_pending := intro |}, []) /\ in_csi p inter [].
Proof.
  intros [Hg He Hp] Hi. destruct (ground_esc _ Hg) as (p1 & A1 & E1).
  destruct (escape_csi _ E1) as (p2 & A2 & C2).
  assert (E : lex l [ESC; x5b] =
    ({| lx_parser := p2; lx_sink := lx_sink l; lx_pending := [ESC; x5b] |}, [])).
  { change [ESC; x5b] with ([ESC] ++ [x5b]) at 1.
    rewrite (lex_app_from _ _ _ _ _ _ _ (lex_quiet_one _ _ _ He A1)
      (lex_quiet_one {| lx_parser := p1; lx_sink := lx_sink l; lx_pending := lx_pending l ++ [ESC] |}
         x5b p2 He A2)).
    by rewrite Hp. }
  destruct Hi; [by exists p2|].
  destruct (csi_private _ C2) as (p3 & A3 & C3). exists p3. split; [|done].
  change [ESC; x5b; x3f] with ([ESC; x5b] ++ [x3f]) at 1.
  by rewrite (lex_app_from _ _ _ _ _ _ _ E
    (lex_quiet_one {| lx_parser := p2; lx_sink := lx_sink l; lx_pending := [ESC; x5b] |} x3f p3 He A3)).
Qed.

(** One whole control sequence: one segment, with the sink's verdict. *)
Lemma lex_csi l intro inter acc fin :
  idle l -> csi_intro intro inter -> forallb is_csi_param acc = true ->
  is_csi_final fin = true -> length (concat (csi_params acc)) <= max_params ->
  let k := csi_dispatch (csi_params acc) inter (u8 fin) (lx_sink l) in
  event k <> SegNone ->
  exists l', lex l (intro ++ acc ++ [fin]) =
      (l', [{| span := intro ++ acc ++ [fin]; verdict := event k; after := sticky k |}]) /\
    idle l' /\ lx_sink l' = set_event SegNone k.
Proof.
  intros Hl Hi Ha Hf Hn k Hk. pose proof Hl as [_ He _].
  destruct (lex_csi_open l intro inter Hl Hi) as (p1 & E1 & C1).
  destruct (lex_csi_params acc {| lx_parser := p1; lx_sink := lx_sink l; lx_pending := intro |}
              inter [] He C1 Ha) as (p2 & E2 & C2).
  destruct (csi_final _ _ _ _ C2 Hf Hn) as (p3 & A3 & Hg3).
  pose proof (lex_call {| lx_parser := p2; lx_sink := lx_sink l; lx_pending := intro ++ acc |}
                fin p3 _ A3 Hk) as E3.
  eexists. split; [|split].
  - eapply (lex_app_from _ intro _ []); [exact E1|].
    eapply (lex_app_from _ acc _ []); [exact E2|]. cbn [lex lx_parser lx_sink lx_pending].
    rewrite E3. cbn [lx_sink lx_pending]. rewrite <- app_assoc. reflexivity.
  - by split.
  - done.
Qed.

Lemma reads_csi l intro inter acc fin f :
  idle l -> csi_intro intro inter -> forallb is_csi_param acc = true ->
  is_csi_final fin = true -> length (concat (csi_params acc)) <= max_params ->
  (let k := csi_dispatch (csi_params acc) inter (u8 fin) (lx_sink l) in
   event k = KeepSeq /\ sticky k = f (sticky (lx_sink l)) /\ status k = status (lx_sink l)) ->
  exists l', reads l (intro ++ acc ++ [fin]) f l'.
Proof.
  intros Hl Hi Ha Hf Hn (He & Hs & Ht).
  destruct (lex_csi l intro inter acc fin Hl Hi Ha Hf Hn) as (l' & E & I & K); [by rewrite He|].
  exists l'. eexists. split; [exact E|]. rewrite K. split_and!; try done.
  unfold is_keep. simpl. by rewrite He.
Qed.

(** ** The sequences of a prologue *)

Lemma reads_reset l : idle l -> exists l', reads l (ESC :: lit "[0m") (set_sgr []) l'.
Proof.
  intros Hl. apply (reads_csi l [ESC; x5b] [] [x30] x6d); [done|constructor|done|done| |done].
  vm_compute. lia.
Qed.

Lemma reads_sgr l p ps :
  idle l -> u16_list (p :: ps) -> length (p :: ps) <= max_params -> p :: ps <> [0%N] ->
  exists l', reads l ((ESC :: lit "[") ++ sgr_params true (p :: ps) ++ lit "m") (set_sgr (p :: ps)) l'.
Proof.
  intros Hl Hu Hn H0.
  apply (reads_csi l [ESC; x5b] [] (sgr_params true (p :: ps)) x6d); [done|constructor| |done| |].
  - by apply sgr_params_chars.
  - by rewrite csi_params_sgr, concat_singletons.
  - rewrite csi_params_sgr by done. unfold csi_dispatch, csi_sgr. cbv zeta.
    change (u8 x6d) with (ch "m"%char). simpl bool_decide.
    cbn [set_sgr_scratch sgr_scratch]. rewrite !concat_singletons, bool_decide_eq_false_2 by (by intros [?|?]).
    repeat split.
Qed.

Lemma reads_mode l code :
  idle l -> (code <= 65535)%N ->
  exists l', reads l ((ESC :: lit "[?") ++ to_string code ++ lit "h") (set_dec_mode code true) l'.
Proof.
  intros Hl Hc.
  apply (reads_csi l [ESC; x5b; x3f] [x3f] (to_string code) x68); [done|constructor| |done| |].
  - by apply to_string_digits.
  - rewrite csi_params_one by done. vm_compute. lia.
  - by rewrite csi_params_one.
Qed.

Lemma reads_modes l codes :
  idle l -> u16_list codes ->
  exists l', reads l (concat ((fun code => (ESC :: lit "[?") ++ to_string code ++ lit "h") <$> codes))
    (fun st => foldl (fun st code => set_dec_mode code true st) st codes) l'.
Proof.
  intros Hl Hc. revert l Hl. induction Hc as [|code codes Hc Hcs IH]; intros l Hl.
  - exists l. by apply reads_nil.
  - destruct (reads_mode l code Hl Hc) as (l1 & R1).
    destruct (IH l1) as (l2 & R2); [by destruct R1 as (? & _ & ? & _)|].
    exists l2. rewrite fmap_cons. cbn [concat]. by apply (reads_app _ _ _ _ _ _ _ R1 R2).
Qed.

Lemma reads_region l top bottom :
  idle l -> (top <= 65535)%N -> (bottom <= 65535)%N -> (top, bottom) <> (0, 0)%N ->
  exists l', reads l ((ESC :: lit "[") ++ to_string top ++ lit ";" ++ to_string bottom ++ lit "r")
    (set_scroll_region (Some (top, bottom))) l'.
Proof.
  intros Hl Ht Hb Hn.
  assert (Ep : csi_params (to_string top ++ lit ";" ++ to_string bottom) = [[top]; [bottom]]).
  { change (lit ";" ++ ?x) with (x3b :: x). by rewrite csi_params_cons, csi_params_one. }
  replace (to_string top ++ lit ";" ++ to_string bottom ++ lit "r")
    with ((to_string top ++ lit ";" ++ to_string bottom) ++ [x72]) by (by rewrite <- !app_assoc).
  apply (reads_csi l [ESC; x5b] [] _ x72); [done|constructor| |done| |].
  - rewrite !forallb_app, (proj1 (to_string_digits top Ht)), (proj1 (to_string_digits bottom Hb)). done.
  - rewrite Ep. vm_compute. lia.
  - rewrite Ep. unfold csi_dispatch, csi_region. cbv zeta. change (u8 x72) with (ch "r"%char).
    simpl bool_decide. cbn [param_or_0 and_then lookup list_lookup head default id].
    assert (((top =? 0) && (bottom =? 0))%N = false) as Hz.
    { apply not_true_iff_false. rewrite andb_true_iff, !N.eqb_eq. intros [-> ->]. by apply Hn. }
    unfold param_or_0, and_then. simpl. rewrite Hz. done.
Qed.

Lemma reads_text l (code : byte) text f :
  idle l -> osc_param_ok text -> is_digit code = true ->
  (let k := osc_dispatch [[code]; text] (lx_sink l) in
   event k = KeepSeq /\ sticky k = f (sticky (lx_sink l)) /\ status k = status (lx_sink l)) ->
  exists l', reads l (ESC :: x5d :: (code :: x3b :: text) ++ [BEL]) f l'.
Proof.
  intros Hl Ht Hc (He & Hs & Hst). unfold osc_param_ok in Ht.
  assert (Forall (fun b => b <> x3b) text /\ forallb is_osc_body text = true) as [Hn Hb].
  { clear -Ht. induction text as [|b text IH]; [done|]. cbn [forallb] in *.
    rewrite !andb_true_iff, bool_decide_eq_true in Ht. destruct Ht as [[Hb Hs] Ht].
    destruct (IH Ht) as [H1 H2]. rewrite Hb, H2. split; [by constructor|done]. }
  apply is_digit_spec in Hc.
  assert (Esp : split_on x3b (code :: x3b :: text) = [[code]; text]).
  { change (code :: x3b :: text) with ([code] ++ x3b :: text).
    rewrite split_on_cons, split_on_none; [done|done|].
    repeat constructor. intros ->. vm_compute in Hc. by destruct Hc. }
  destruct (lex_osc l (code :: x3b :: text) [BEL] Hl) as (l' & gs & E & I & S & T & Ev & _);
    [|by rewrite Esp; vm_compute; lia|constructor|].
  { cbn [forallb]. rewrite Hb. unfold is_osc_body. rewrite (proj2 (N.leb_le _ _)) by lia. exact eq_refl. }
  rewrite Esp in *. exists l', gs. split_and!; try done; [|by rewrite S|by rewrite T].
  rewrite He in Ev. clear -Ev. induction Ev as [|g gs [Hg _] _ IH]; [done|].
  cbn [forallb]. rewrite IH. unfold is_keep. by rewrite Hg.
Qed.
End reads.

(** * The states a prologue can carry *)

(** What a prologue can carry and the parser can read back. *)
Record replayable (st : StickyState) : Prop := {
  rp_sgr : u16_list (sgr st) /\ length (sgr st) <= max_params /\ sgr st <> [0%N];
  rp_modes : modes_on st /\ forall c b, dec_modes st !! c = Some b -> (c <= 65535)%N;
  rp_region : forall t b, scroll_region st = Some (t, b) ->
    (t <= 65535)%N /\ (b <= 65535)%N /\ (t, b) <> (0, 0)%N;
  rp_cwd : forall c, cwd st = Some c -> osc_param_ok c;
  rp_title : forall t, title st = Some t -> osc_param_ok t
}.

Definition set_modes (codes : list N) (st : StickyState) : StickyState :=
  foldl (fun st code => set_dec_mode code true st) st codes.

Lemma set_modes_lookup codes st c :
  dec_modes (set_modes codes st) !! c = if decide (c ∈ codes) then Some true else dec_modes st !! c.
Proof.
  unfold set_modes. revert st. induction codes as [|code codes IH]; intros st; [done|].
  cbn [foldl]. rewrite IH. simpl. rewrite lookup_insert.
  destruct (decide (c ∈ codes)), (decide (code = c)), (decide (c ∈ code :: codes)) as [Hi|Hi];
    try done; exfalso; rewrite elem_of_cons in Hi; intuition congruence.
Qed.

Lemma set_modes_others codes st :
  sgr (set_modes codes st) = sgr st /\ scroll_region (set_modes codes st) = scroll_region st /\
  cwd (set_modes codes st) = cwd st /\ title (set_modes codes st) = title st.
Proof.
  unfold set_modes. revert st. induction codes as [|code codes IH]; intros st; [done|].
  cbn [foldl]. by destruct (IH (set_dec_mode code true st)) as (-> & -> & -> & ->).
Qed.

Lemma dec_mode_keys_spec m c : c ∈ dec_mode_keys m <-> exists b, m !! c = Some b.
Proof.
  unfold dec_mode_keys. rewrite merge_sort_Permutation, list_elem_of_fmap. split.
  - intros ([k b] & -> & H%elem_of_map_to_list). by exists b.
  - intros [b H]. exists (c, b). split; [done|]. by apply elem_of_map_to_list.
Qed.

(** Reading the keys back into an empty table. *)
Lemma set_modes_keys st0 m :
  dec_modes st0 = ∅ -> (forall c b, m !! c = Some b -> b = true) ->
  dec_modes (set_modes (dec_mode_keys m) st0) = m.
Proof.
  intros H0 Hm. apply map_eq. intros c. rewrite set_modes_lookup, H0, lookup_empty.
  destruct (decide _) as [[b Hb]%dec_mode_keys_spec|Hn].
  - rewrite Hb. by rewrite (Hm _ _ Hb).
  - destruct (m !! c) eqn:E; [|done]. exfalso. apply Hn, dec_mode_keys_spec. eauto.
Qed.

(** The parts of a prologue, and what reading each of them does. *)
Definition sgr_part (st : StickyState) : list byte :=
  match sgr st with [] => [] | ps => (ESC :: lit "[") ++ sgr_params true ps ++ lit "m" end.
Definition modes_part (st : StickyState) : list byte :=
  concat ((fun code => (ESC :: lit "[?") ++ to_string code ++ lit "h") <$> dec_mode_keys (dec_modes st)).
Definition region_part (st : StickyState) : list byte :=
  match scroll_region st with
  | Some (top, bottom) => (ESC :: lit "[") ++ to_string top ++ lit ";" ++ to_string bottom ++ lit "r"
  | None => []
  end.
Definition cwd_part (st : StickyState) : list byte :=
  match cwd st with Some c => (ESC :: lit "]7;") ++ c ++ [BEL] | None => [] end.
Definition title_part (st : StickyState) : list byte :=
  match title st with Some t => (ESC :: lit "]2;") ++ t ++ [BEL] | None => [] end.

Lemma build_parts st :
  build_serialized st = (ESC :: lit "[0m") ++ sgr_part st ++ modes_part st ++ region_part st
    ++ cwd_part st ++ title_part st.
Proof.
  unfold build_serialized, sgr_part, modes_part, region_part, cwd_part, title_part. cbv zeta.
  destruct (sgr st), (scroll_region st) as [[top bottom]|], (cwd st), (title st);
    rewrite <- ?app_assoc, ?app_nil_r, ?app_nil_l; reflexivity.
Qed.

Definition restore_sgr (st s : StickyState) : StickyState :=
  match sgr st with [] => s | ps => set_sgr ps s end.
Definition restore_region (st s : StickyState) : StickyState :=
  match scroll_region st with Some r => set_scroll_region (Some r) s | None => s end.
Definition restore_cwd (st s : StickyState) : StickyState :=
  match cwd st with Some c => set_cwd c s | None => s end.
Definition restore_title (st s : StickyState) : StickyState :=
  match title st with Some t => set_title t s | None => s end.

Definition restore (st s : StickyState) : StickyState :=
  restore_title st (restore_cwd st (restore_region st
    (set_modes (dec_mode_keys (dec_modes st)) (restore_sgr st (set_sgr [] s))))).

Lemma restore_new st : modes_on st -> sticky_equiv (restore st Sticky.new) st.
Proof.
  intros Hm.
  set (s1 := restore_sgr st (set_sgr [] Sticky.new)).
  assert (H1 : dec_modes s1 = ∅ /\ scroll_region s1 = None /\ cwd s1 = None /\ title s1 = None /\
    sgr s1 = sgr st) by (unfold s1, restore_sgr; by destruct (sgr st)).
  destruct H1 as (Hd & Hr & Hc & Ht & Hs).
  pose proof (set_modes_keys s1 (dec_modes st) Hd Hm) as Em.
  destruct (set_modes_others (dec_mode_keys (dec_modes st)) s1) as (E1 & E2 & E3 & E4).
  unfold restore. fold s1. generalize dependent (set_modes (dec_mode_keys (dec_modes st)) s1).
  intros s2 Em E1 E2 E3 E4. unfold restore_title, restore_cwd, restore_region.
  destruct st as [g m r c t ca]; simpl in *.
  destruct r, c, t; split; simpl; congruence.
Qed.

Section prologue.
Context `{VteLaws}.

Lemma reads_optional l bs f :
  (exists l', reads l bs f l') -> exists l', reads l bs f l' /\ idle l'.
Proof. intros [l' R]. exists l'. split; [done|]. by destruct R as (? & _ & ? & _). Qed.

(** A prologue read from an idle lexer restores the state it was built from. *)
Lemma reads_prologue l st :
  idle l -> replayable st -> exists l', reads l (build_serialized st) (restore st) l'.
Proof.
  intros Hl [(Hu & Hn & H0) [Hm Hmc] Hr Hc Ht]. rewrite build_parts.
  destruct (reads_optional _ _ _ (reads_reset l Hl)) as (l1 & R1 & I1).
  assert (exists l2, reads l1 (sgr_part st) (restore_sgr st) l2 /\ idle l2) as (l2 & R2 & I2).
  { apply reads_optional. unfold sgr_part, restore_sgr. destruct (sgr st);
      [exists l1; by apply reads_nil|by apply reads_sgr]. }
  assert (exists l3, reads l2 (modes_part st) (set_modes (dec_mode_keys (dec_modes st))) l3 /\ idle l3)
    as (l3 & R3 & I3).
  { apply reads_optional. apply (reads_modes l2 _ I2).
    apply Forall_forall. intros c [b Hb]%dec_mode_keys_spec. by apply (Hmc c b). }
  assert (exists l4, reads l3 (region_part st) (restore_region st) l4 /\ idle l4) as (l4 & R4 & I4).
  { apply reads_optional. unfold region_part, restore_region.
    destruct (scroll_region st) as [[top bottom]|] eqn:E; [|exists l3; by apply reads_nil].
    destruct (Hr _ _ eq_refl) as (? & ? & ?). by apply reads_region. }
  assert (exists l5, reads l4 (cwd_part st) (restore_cwd st) l5 /\ idle l5) as (l5 & R5 & I5).
  { apply reads_optional. unfold cwd_part, restore_cwd.
    destruct (cwd st) eqn:E; [|exists l4; by apply reads_nil].
    by apply (reads_text l4 x37 _ (set_cwd _) I4 (Hc _ eq_refl)). }
  assert (exists l6, reads l5 (title_part st) (restore_title st) l6) as (l6 & R6).
  { unfold title_part, restore_title. destruct (title st) eqn:E; [|exists l5; by apply reads_nil].
    by apply (reads_text l5 x32 _ (set_title _) I5 (Ht _ eq_refl)). }
  exists l6. unfold restore.
  exact (reads_app _ _ _ _ _ _ _ R1 (reads_app _ _ _ _ _ _ _ R2 (reads_app _ _ _ _ _ _ _ R3
    (reads_app _ _ _ _ _ _ _ R4 (reads_app _ _ _ _ _ _ _ R5 R6))))).
Qed.
End prologue.

(** * Every reachable sticky state can be carried *)

Lemma replayable_new : replayable Sticky.new.
Proof.
  split; try done. split_and!; [constructor|unfold max_params; simpl; lia|done].
Qed.

Lemma replayable_set_sgr ps st :
  u16_list ps -> length ps <= max_params -> ps <> [0%N] -> replayable st -> replayable (set_sgr ps st).
Proof. by intros ??? []. Qed.
Lemma replayable_set_region r st :
  (forall t b, r = Some (t, b) -> (t <= 65535)%N /\ (b <= 65535)%N /\ (t, b) <> (0, 0)%N) ->
  replayable st -> replayable (set_scroll_region r st).
Proof. by intros ? []. Qed.
Lemma replayable_set_cwd c st : osc_param_ok c -> replayable st -> replayable (set_cwd c st).
Proof. intros ? []. split; try done. by intros ? [= <-]. Qed.
Lemma replayable_set_title t st : osc_param_ok t -> replayable st -> replayable (set_title t st).
Proof. intros ? []. split; try done. by intros ? [= <-]. Qed.
Lemma replayable_set_dec_mode code on st :
  (code <= 65535)%N -> replayable st -> replayable (set_dec_mode code on st).
Proof.
  intros Hc [? [Hm Hl]]. split; try done. split; [by apply set_dec_mode_on|].
  intros c b. unfold set_dec_mode; simpl. destruct on.
  - rewrite lookup_insert. case_decide; [by subst|apply Hl].
  - rewrite lookup_delete. case_decide; [done|apply Hl].
Qed.

Lemma head_of_params params i n :
  u16_list (concat params) -> and_then (params !! i) head = Some n -> (n <= 65535)%N.
Proof.
  intros Hu H. destruct (params !! i) as [[|m sub]|] eqn:E; simpl in H; try done. injection H as ->.
  apply list_elem_of_lookup_2 in E. unfold u16_list in Hu. rewrite Forall_forall in Hu.
  apply Hu. apply list_elem_of_In, in_concat. exists (n :: sub).
  split; [by apply list_elem_of_In|by left].
Qed.

Lemma param_or_0_bound params i : u16_list (concat params) -> (param_or_0 params i <= 65535)%N.
Proof.
  intros Hu. unfold param_or_0. destruct (and_then (params !! i) head) eqn:E; simpl; [|lia].
  by eapply head_of_params.
Qed.

Lemma csi_modes_replayable on params k :
  u16_list (concat params) -> replayable (sticky k) -> replayable (sticky (csi_modes on params k)).
Proof.
  unfold csi_modes. revert k. induction params as [|sub params IH]; intros k Hu Hk; [done|].
  cbn [concat] in Hu. apply Forall_app in Hu as [Hs Hu]. cbn [foldl]. apply IH; [done|].
  destruct sub as [|code sub]; [done|]. inversion Hs; subst. by apply replayable_set_dec_mode.
Qed.

Lemma osc_params_get params i p :
  Forall osc_param_ok params -> get params i = Some p -> osc_param_ok p.
Proof. unfold get. intros H E. eapply Forall_lookup_1; [exact H|exact E]. Qed.

Lemma perform_replayable cb k :
  callback_ok cb -> replayable (sticky k) -> replayable (sticky (perform k cb)).
Proof.
  intros Hcb Hk. destruct cb as [| | | | |params bell|params inter ign action|]; simpl in *; try done.
  - unfold osc_dispatch. cbv zeta. set (code := and_then _ _).
    assert (Hp : forall p, get params 1 = Some p -> osc_param_ok p)
      by (intros p; by apply osc_params_get).
    unfold osc_progress, osc_prompt.
    repeat match goal with |- context [code_is ?c ?l] => destruct (code_is c l) end;
      destruct (get params 1) as [p|]; simpl; try done;
      try (by apply replayable_set_title, Hk; auto);
      try (by apply replayable_set_cwd, Hk; auto);
      try (by destruct (bool_decide _)).
    all: try (by apply replayable_set_title; auto); try (by apply replayable_set_cwd; auto).
    all: by destruct (head p) as [[]|].
  - destruct Hcb as [Hl Hu]. unfold csi_dispatch, csi_sgr, csi_region. cbv zeta.
    pose proof (param_or_0_bound params 0 Hu). pose proof (param_or_0_bound params 1 Hu).
    repeat match goal with |- context [if ?b then ?x else ?y] =>
      lazymatch type of x with Sink => destruct b eqn:? | _ => fail end end; simpl; try done.
    + apply replayable_set_sgr; simpl; [constructor|lia|done|done].
    + apply replayable_set_sgr; try done. intros E.
      match goal with H : bool_decide _ = false |- _ => apply bool_decide_eq_false in H; apply H; auto end.
    + by apply replayable_set_region.
    + apply replayable_set_region; [|done]. intros t b [= <- <-]. split_and!; try done.
      intros [= E1 E2]. rewrite E1, E2 in *. done.
    + by apply csi_modes_replayable.
  - unfold esc_dispatch. by destruct (decide _), (st_pending k).
Qed.

Section reachable.
Context `{VteBounds}.

Definition lexer_ok (l : Lexer) : Prop :=
  parser_ok (lx_parser l) /\ replayable (sticky (lx_sink l)).

Lemma lexer_new_ok : lexer_ok lexer_new.
Proof. split; [apply new_ok|apply replayable_new]. Qed.

Lemma performs_replayable cbs k :
  Forall callback_ok cbs -> replayable (sticky k) -> replayable (sticky (foldl perform k cbs)).
Proof.
  intros H0. revert k. induction H0 as [|cb cbs Hcb _ IH]; intros k Hk; [done|].
  cbn [foldl]. by apply IH, perform_replayable.
Qed.

Lemma lex_step_ok l b :
  lexer_ok l -> lexer_ok (lex_step l b).1 /\ Forall (fun g => replayable (after g)) (lex_step l b).2.
Proof.
  intros [Hp Hk]. unfold lex_step. destruct (advance (lx_parser l) b) as [p cbs] eqn:E.
  destruct (advance_ok _ _ _ _ Hp E) as [Hp' Hcbs].
  pose proof (performs_replayable cbs _ Hcbs Hk) as Hk'.
  change (replayable (sticky (take_event (foldl perform (lx_sink l) cbs)).2)) in Hk'.
  destruct (take_event _) as [ev k]. destruct ev; split; try done; by constructor.
Qed.

Lemma lex_ok l bs :
  lexer_ok l -> lexer_ok (lex l bs).1 /\ Forall (fun g => replayable (after g)) (lex l bs).2.
Proof.
  revert l. induction bs as [|b bs IH]; intros l Hl; [done|]. cbn [lex].
  destruct (lex_step_ok l b Hl) as [H1 H2]. destruct (lex_step l b) as [l1 g1].
  destruct (IH l1 H1) as [H3 H4]. destruct (lex l1 bs) as [l2 g2]. split; [done|].
  by apply Forall_app.
Qed.
End reachable.

(** * The prologue round trip *)

(** Bytes the byte loop hands to the parser as they are. *)
Definition transparent (a : list byte) : Prop :=
  forall rest, expand 0 (a ++ rest) = a ++ expand 0 rest.

Lemma transparent_app a b : transparent a -> transparent b -> transparent (a ++ b).
Proof. intros Ha Hb rest. by rewrite <- !app_assoc, Ha, Hb. Qed.
Lemma transparent_utf8 a : utf8_valid a = true -> transparent a.
Proof. intros H rest. by apply expand_utf8. Qed.
Lemma transparent_params a : forallb is_csi_param a = true -> transparent a.
Proof.
  intros Ha. induction a as [|b a IH]; [done|]. cbn [forallb] in Ha.
  apply andb_true_iff in Ha as [Hb Ha]. intros rest. cbn [app].
  unfold is_csi_param in Hb. byte_range. rewrite expand_ascii by lia. by rewrite IH.
Qed.
Lemma transparent_expand a : transparent a -> expand 0 a = a.
Proof. intros H. specialize (H []). by rewrite !app_nil_r in H. Qed.

(** The texts a state holds are well-formed UTF-8. *)
Definition text_ok (o : option (list byte)) : Prop :=
  match o with Some t => utf8_valid t = true | None => True end.

Lemma transparent_prologue st :
  replayable st -> text_ok (cwd st) -> text_ok (title st) -> transparent (build_serialized st).
Proof.
  intros [(Hu & _) [_ Hm] Hr _ _] Hc Ht. rewrite build_parts.
  repeat apply transparent_app; try (by apply transparent_utf8).
  - unfold sgr_part. destruct (sgr st); [by apply transparent_utf8|].
    apply transparent_app; [by apply transparent_utf8|].
    apply transparent_app; [|by apply transparent_utf8].
    by apply transparent_params, sgr_params_chars.
  - unfold modes_part. assert (Hk : u16_list (dec_mode_keys (dec_modes st))).
    { apply Forall_forall. intros c [b Hb]%dec_mode_keys_spec. by apply (Hm c b). }
    induction Hk as [|c cs Hcc _ IH]; [by apply transparent_utf8|].
    rewrite fmap_cons. cbn [concat].
    repeat apply transparent_app; try done; try (by apply transparent_utf8).
    by apply transparent_params, to_string_digits.
  - unfold region_part. destruct (scroll_region st) as [[t b]|]; [|by apply transparent_utf8].
    destruct (Hr _ _ eq_refl) as (? & ? & _).
    repeat apply transparent_app; try (by apply transparent_utf8);
      by apply transparent_params, to_string_digits.
  - unfold cwd_part. destruct (cwd st); [|by apply transparent_utf8].
    repeat apply transparent_app; by apply transparent_utf8.
  - unfold title_part. destruct (title st); [|by apply transparent_utf8].
    repeat apply transparent_app; by apply transparent_utf8.
Qed.

#[export] Instance replayable_proper : Proper (sticky_equiv ==> iff) replayable.
Proof.
  cut (forall s1 s2, sticky_equiv s1 s2 -> replayable s1 -> replayable s2).
  { intros H s1 s2 E. split; apply H; [done|by symmetry]. }
  intros s1 s2 [E1 E2 E3 E4 E5] [H1 H2 H3 H4 H5].
  split; unfold modes_on in *; congruence || (rewrite <- ?E1, <- ?E2, <- ?E3, <- ?E4, <- ?E5; done).
Qed.

(** C7: whatever a scanner has read, its sticky state survives its own
    prologue: a fresh scanner (of any watermark) that is fed the serialized
    prologue ends in the same SGR, modes, scroll region, cwd and title, provided
    the two texts are well-formed UTF-8. *)
Theorem prologue_restores `{!Vte, !VteLaws, !VteBounds} w w' bs s s' :
  feed (new w) bs = Some s ->
  text_ok (cwd (sticky (sink s))) -> text_ok (title (sticky (sink s))) ->
  feed (new w') (Sticky.serialize (sticky (sink s))).1 = Some s' ->
  sticky_equiv (sticky (sink s')) (sticky (sink s)).
Proof.
  intros (T & _)%feed_new_inv Hc Ht Hf.
  assert (Hrep : replayable (sticky (sink s))).
  { rewrite (tr_sink _ _ T). by apply lex_ok, lexer_new_ok. }
  pose proof (wf_sticky _ (tr_wf _ _ T)) as [Hcache Hm].
  rewrite serialize_build in Hf by done.
  apply feed_new_inv in Hf as (T' & _).
  rewrite transparent_expand in T' by by apply transparent_prologue.
  destruct (reads_prologue lexer_new _ lexer_new_idle Hrep) as (l' & gs & E & _ & _ & Es & _).
  rewrite E in T'. rewrite (tr_sink _ _ T'). simpl. rewrite Es. by apply restore_new.
Qed.

Definition sticky_demo : list byte :=
  (ESC :: lit "[1;31m") ++ (ESC :: lit "[?2004h") ++ (ESC :: lit "[2;20r") ++
  (ESC :: lit "]7;file:///x" ++ [BEL]) ++ (ESC :: lit "]2;vim" ++ [BEL]).

#[local] Abbreviation sticky_demo_prologue :=
  (Sticky.serialize (sticky (sink (run_of 8 sticky_demo)))).1.

Lemma prologue_restores_witness :
  sgr (sticky (sink (run_of 8 sticky_demo))) = [1; 31]%N /\
  scroll_region (sticky (sink (run_of 8 sticky_demo))) = Some (2, 20)%N /\
  sticky_equiv (sticky (sink (run_of 64 sticky_demo_prologue))) (sticky (sink (run_of 8 sticky_demo))).
Proof.
  split; [vm_compute; reflexivity|]. split; [vm_compute; reflexivity|].
  assert (Hc : text_ok (cwd (sticky (sink (run_of 8 sticky_demo))))) by (vm_compute; reflexivity).
  assert (Ht : text_ok (title (sticky (sink (run_of 8 sticky_demo))))) by (vm_compute; reflexivity).
  exact (prologue_restores 8 64 sticky_demo _ _ (run_of_feed 8 sticky_demo) Hc Ht
           (run_of_feed 64 sticky_demo_prologue)).
Defined.

(** * Between two sequences *)

Section settled.
Context `{VteLaws}.

(** The parser is at ground and every byte has its verdict. *)
Definition settled (s : Scanner) : Prop := ground (parser_st s) /\ pending s = [].

Lemma lex_event l bs : event (lx_sink l) = SegNone -> event (lx_sink (lex l bs).1) = SegNone.
Proof.
  revert l. induction bs as [|b bs IH]; intros l Hl; [done|]. cbn [lex].
  assert (Hs : event (lx_sink (lex_step l b).1) = SegNone).
  { unfold lex_step. destruct (advance _ _) as [p cbs]. unfold take_event.
    by destruct (event (foldl perform _ _)). }
  destruct (lex_step l b) as [l1 g1]. specialize (IH l1 Hs). by destruct (lex l1 bs).
Qed.

(** A settled scanner is tracked by an idle lexer. *)
Lemma settled_idle w bs s :
  feed (new w) bs = Some s -> settled s -> exists l, idle l /\ tracks l s /\ ring_wf (ring s).
Proof.
  intros (T & _ & Hr)%feed_new_inv [Hg Hp]. eexists. split; [|split; [exact T|exact Hr]].
  split; [by rewrite <- (tr_parser _ _ T)|by apply lex_event|by rewrite <- (tr_pending _ _ T)].
Qed.

Lemma expand_start u b bs : (u8 b <= 0x7F)%N -> expand u (b :: bs) = b :: expand 0 bs.
Proof.
  intros Hb. rewrite <- expand_ascii by done. cbn [expand].
  assert (is_cont b = false) as ->; [|by rewrite !andb_false_r].
  unfold is_cont. apply in_range_false. lia.
Qed.

(** The segments a settled scanner reads are the steps its ring takes. *)
Lemma settled_feed w bs s seq seq' s' :
  feed (new w) bs = Some s -> settled s -> (forall u, expand u seq = seq') ->
  feed s seq = Some s' ->
  exists l, idle l /\ tracks l s /\ tracks (lex l seq').1 s' /\
    foldM ring_step (ring s) (lex l seq').2 = Some (ring s') /\ ring_wf (ring s).
Proof.
  intros F Hs Hx F'. destruct (settled_idle w bs s F Hs) as (l & Hl & T & Hr).
  destruct (feed_tracks l s seq T Hr) as (s1 & E & T1 & R1 & _).
  rewrite F' in E. injection E as <-. rewrite Hx in *. by exists l.
Qed.
End settled.

(** The three sequences that clear the screen: [ED 2], [ED 3] and [RIS]. *)
Inductive clear_seq : list byte -> Prop :=
  | ClearScreen : clear_seq (ESC :: lit "[2J")
  | ClearScrollback : clear_seq (ESC :: lit "[3J")
  | FullReset : clear_seq (ESC :: lit "c").

Lemma lex_clear `{VteLaws} l seq :
  idle l -> clear_seq seq ->
  exists l' k, lex l seq = (l', [{| span := seq; verdict := ClearSeq; after := sticky k |}]) /\
    sticky (lx_sink l') = sticky k /\ sticky k = sticky (lx_sink l).
Proof.
  intros Hl [| |].
  1: destruct (lex_csi l [ESC; x5b] [] [x32] x4a Hl Public) as (l' & E & _ & K);
       [vm_compute; reflexivity|vm_compute; reflexivity|vm_compute; lia|vm_compute; discriminate|].
  2: destruct (lex_csi l [ESC; x5b] [] [x33] x4a Hl Public) as (l' & E & _ & K);
       [vm_compute; reflexivity|vm_compute; reflexivity|vm_compute; lia|vm_compute; discriminate|].
  1,2: eexists l', _; split; [exact E|]; split; [by rewrite K|reflexivity].
  destruct Hl as [Hg He Hp].
  destruct (ground_esc _ Hg) as (p1 & A1 & E1).
  destruct (escape_final _ x63 E1 (or_intror eq_refl)) as (p2 & A2 & Hg2).
  pose proof (lex_call {| lx_parser := p1; lx_sink := lx_sink l; lx_pending := [ESC] |} x63 p2 _ A2
    ltac:(discriminate)) as E2.
  eexists _, _. split.
  - change (ESC :: lit "c") with ([ESC] ++ [x63]).
    eapply (lex_app_from _ _ _ []); [rewrite (lex_quiet_one _ _ _ He A1), Hp; done|].
    cbn [lex app]. rewrite E2. reflexivity.
  - done.
Qed.

(** C18: a screen clear ([ED 2], [ED 3] or a full reset) read between two
    sequences forgets the whole history: the ring is left with one chunk, any
    replay is the clear prologue followed by the serialized sticky state, which
    the clear does not touch. *)
Theorem clear_purges `{VteLaws} w bs s seq s' n :
  feed (new w) bs = Some s -> settled s -> clear_seq seq -> feed s seq = Some s' ->
  length (chunks (ring s')) = 1 /\
  replay n s' = clear_prologue ++ build_serialized (sticky (sink s)) /\
  sticky_equiv (sticky (sink s')) (sticky (sink s)).
Proof.
  intros F Hs Hc F'.
  assert (Hx : forall u, expand u seq = seq).
  { intros u. destruct Hc; rewrite expand_start by (vm_compute; discriminate); reflexivity. }
  destruct (settled_feed w bs s seq seq s' F Hs Hx F') as (l & Hl & T & T' & R & _).
  destruct (lex_clear l seq Hl Hc) as (l' & k & E & E1 & E2). rewrite E in *.
  cbn [fst snd foldM] in *. unfold ring_step in R. cbn [verdict after span] in R.
  injection R as R. rewrite <- R. split; [done|]. split.
  - unfold replay. rewrite <- R. unfold Ring.replay, replay_start, purge. cbn [chunks].
    replace (N.to_nat _) with 0 by (simpl; lia). cbn [drop fmap list_fmap concat prologue data Chunk_new].
    rewrite !app_nil_r, E2. by rewrite (tr_sink _ _ T).
  - by rewrite (tr_sink _ _ T'), (tr_sink _ _ T), E1, E2.
Qed.

Lemma clear_purges_witness :
  settled (run_of 8 capped_demo) /\
  forall s', feed (run_of 8 capped_demo) (ESC :: lit "[2J") = Some s' ->
    replay 7 s' = clear_prologue ++ (ESC :: lit "[0m") ++ (ESC :: lit "[31m").
Proof.
  assert (Hs : settled (run_of 8 capped_demo)) by (split; vm_compute; reflexivity).
  split; [exact Hs|]. intros s' F.
  destruct (clear_purges 8 capped_demo _ _ s' 7 (run_of_feed _ _) Hs ClearScreen F) as (_ & H & _).
  rewrite H. vm_compute. reflexivity.
Defined.

Lemma ring_steps_watermark gs r r' :
  ring_wf r -> foldM ring_step r gs = Some r' -> watermark r' = watermark r.
Proof.
  revert r. induction gs as [|g gs IH]; intros r Hr; cbn [foldM]; [by intros [= <-]|].
  destruct (ring_step_total r g Hr) as (r1 & E & Hr1). rewrite E. cbn [mbind option_bind].
  intros H1. rewrite (IH _ Hr1 H1).
  destruct (ring_step_cases _ _ _ Hr E) as [(_ & _ & cs & c & r2 & _ & W & _ & ->)|[(_ & _ & ->)|(_ & ->)]];
    [|done|done]. by destruct (should_cut r2).
Qed.

Lemma feed_watermark `{Vte} w bs s : feed (new w) bs = Some s -> watermark (ring s) = w.
Proof.
  intros (_ & Hf & _)%feed_new_inv. by rewrite (ring_steps_watermark _ _ _ (ring_new_wf w) Hf).
Qed.

(** A kept segment that brings the open chunk to the watermark cuts. *)
Lemma ring_step_cut r g :
  ring_wf r -> is_keep g = true ->
  (watermark r <= N.of_nat (length (open_data r) + length (span g)))%N ->
  exists r1, ring_step r g = Some (cut (build_serialized (after g)) r1) /\
    watermark r1 = watermark r /\ ring_wf r1.
Proof.
  intros Hr Hk Hl. destruct (append_spec (span g) r Hr) as (r1 & E1 & Hr1 & _ & _ & Ho & Hw & _).
  exists r1. split; [|done]. unfold ring_step, is_keep in *.
  assert (should_cut r1 = true) as Hc.
  { rewrite (should_cut_spec r1 Hr1), Ho, Hw, length_app. by apply N.leb_le. }
  destruct (verdict g); try done; rewrite E1; simpl; by rewrite Hc.
Qed.

(** C39: a kept OSC that ends in [ESC \ ] is two segments, and a cut can fall
    between them: when the segment up to the [ESC] brings the open chunk to the
    watermark, the new chunk starts with the backslash alone, so a replay of
    that chunk shows a backslash the shell never printed. *)
Theorem cut_inside_terminator `{VteLaws} w bs s body s' :
  feed (new w) bs = Some s -> settled s ->
  utf8_valid body = true -> forallb is_osc_body body = true ->
  length (split_on x3b body) <= max_osc_params -> is_dropped (split_on x3b body) = false ->
  (1 < w <= N.of_nat (length (open_data (ring s)) + length (ESC :: x5d :: body ++ [ESC])))%N ->
  feed s (ESC :: x5d :: body ++ [ESC; x5c]) = Some s' ->
  replay 1 s' = build_serialized (sticky (sink s')) ++ [x5c].
Proof.
  intros F Hs Hv Hb Hn Hd [Hw1 Hw2] F'.
  assert (Hx : forall u, expand u (ESC :: x5d :: body ++ [ESC; x5c]) = ESC :: x5d :: body ++ [ESC; x5c]).
  { intros u. rewrite expand_start by (vm_compute; discriminate).
    rewrite expand_start by (vm_compute; discriminate). do 2 f_equal.
    rewrite (proj1 (expand_utf8 body Hv)). done. }
  destruct (settled_feed w bs s _ _ s' F Hs Hx F') as (l & Hl & T & T' & R & Hr).
  pose proof (feed_watermark w bs s F) as Ew.
  destruct (lex_osc l body [ESC; x5c] Hl Hb Hn EndSt) as (l' & gs & E & _ & S & _ & V2 & _ & Sp).
  rewrite E in *. cbn [fst snd] in *. specialize (Sp eq_refl).
  destruct gs as [|g1 [|g2 [|]]]; try discriminate Sp. rewrite !fmap_cons in Sp. injection Sp as Sp1 Sp2.
  apply Forall_cons in V2 as [[Vg1 Ag1] [[Vg2 Ag2] _]%Forall_cons].
  rewrite osc_dispatch_event, Hd in Vg1, Vg2.
  destruct (ring_step_cut (ring s) g1) as (r1 & E1 & Hw & _); [done|unfold is_keep; by rewrite Vg1|rewrite Sp1, Ew; lia|].
  cbn [foldM] in R. rewrite E1 in R. cbn [mbind option_bind] in R.
  assert (E2 : ring_step (cut (build_serialized (after g1)) r1) g2 =
    Some {| chunks := chunks r1 ++ [{| prologue := build_serialized (after g1); data := [x5c] |}];
            watermark := watermark r1 |}).
  { unfold ring_step. rewrite Vg2, Sp2. unfold cut. rewrite append_snoc. cbn [mbind option_bind].
    rewrite should_cut_snoc. cbn [Chunk_new data app length prologue].
    by rewrite (proj2 (N.leb_gt _ _)) by lia. }
  rewrite E2 in R. cbn [mbind option_bind] in R.
  injection R as R. unfold replay. rewrite <- R. unfold Ring.replay, replay_start. cbn [chunks].
  rewrite length_app. cbn [length]. replace (N.to_nat _) with (length (chunks r1)) by lia.
  rewrite drop_app_length. simpl. rewrite (tr_sink _ _ T'). by rewrite S, Ag1.
Qed.

Definition title_demo : list byte := lit "2;vim".

Lemma cut_inside_terminator_witness :
  settled (run_of 8 (lit "ab")) /\
  forall s', feed (run_of 8 (lit "ab")) (ESC :: x5d :: title_demo ++ [ESC; x5c]) = Some s' ->
    replay 1 s' = build_serialized (sticky (sink s')) ++ [x5c].
Proof.
  assert (Hs : settled (run_of 8 (lit "ab"))) by (split; vm_compute; reflexivity).
  assert (Hw : (1 < 8 <= N.of_nat (length (open_data (ring (run_of 8 (lit "ab")))) +
                 length (ESC :: x5d :: title_demo ++ [ESC])))%N)
    by (split; vm_compute; first [reflexivity|discriminate]).
  split; [exact Hs|]. intros s' F.
  refine (cut_inside_terminator 8 (lit "ab") _ title_demo s' (run_of_feed _ _) Hs _ _ _ _ Hw F);
    vm_compute; first [reflexivity|lia].
Defined.
