(* ===== verification/Engine.v ===== *)
(** core/src/engine.rs: the core as the daemon uses it.

    [ReplayEngine] wraps a scanner with the production watermark. [Engine] is
    what it promises to a session: a client proves against the interface, and
    [replay_engine] discharges it. *)
From S2P Require Import Prelude Vte ParserInstance.
From S2P Require Import Status Sticky Ring Scanner ScannerSpec ScannerProps.

Definition WATERMARK : usize := 128 * 1024.

Record ReplayEngine `{Vte} := mkEngine { scanner : Scanner }.

Section engine.
Context `{Vte}.

Definition new : ReplayEngine := {| scanner := Scanner.new WATERMARK |}.

Definition feed (e : ReplayEngine) (bytes : list byte) : option ReplayEngine :=
  s ← Scanner.feed (scanner e) bytes; Some {| scanner := s |}.

Definition replay (e : ReplayEngine) : list byte := Scanner.replay usize_MAX (scanner e).

Definition replay_capped (e : ReplayEngine) (want_chunks : usize) : list byte :=
  Scanner.replay want_chunks (scanner e).

Definition status (e : ReplayEngine) : StatusSnapshot := Scanner.scanner_status (scanner e).

Definition has_prompt_marking (e : ReplayEngine) : bool :=
  Scanner.saw_prompt_marker (scanner e).
End engine.

(** ** The interface *)

(** What a session relies on: [eng_feed] runs on every reachable engine and
    does not see how the output is cut; the state after any output is a function
    of the output; a running shell is a marked one; the marker is never lost. *)
Class Engine := {
  engine : Type;
  eng_new : engine;
  eng_feed : engine -> list byte -> option engine;
  eng_replay : engine -> list byte;
  eng_replay_capped : engine -> usize -> list byte;
  eng_status : engine -> StatusSnapshot;
  eng_marking : engine -> bool
}.

Class EngineLaws {E : Engine} := {
  eng_feed_nil e : eng_feed e [] = Some e;
  eng_feed_total out : exists e, eng_feed eng_new out = Some e;
  eng_feed_app out more e :
    eng_feed eng_new out = Some e -> eng_feed e more = eng_feed eng_new (out ++ more);
  eng_running_marked out e :
    eng_feed eng_new out = Some e -> running (eng_status e) = true -> eng_marking e = true;
  eng_marking_kept out more e e' :
    eng_feed eng_new out = Some e -> eng_feed e more = Some e' ->
    eng_marking e = true -> eng_marking e' = true
}.

#[export] Instance replay_engine `{Vte} : Engine :=
  {| engine := ReplayEngine; eng_new := new; eng_feed := feed; eng_replay := replay;
     eng_replay_capped := replay_capped; eng_status := status; eng_marking := has_prompt_marking |}.

Section implements.
Context `{Vte}.

Lemma scanner_feed_app s a b : Scanner.feed s (a ++ b) = (s' ← Scanner.feed s a; Scanner.feed s' b).
Proof. apply foldM_app. Qed.

Lemma engine_feed_inv (out : list byte) e :
  feed new out = Some e -> Scanner.feed (Scanner.new WATERMARK) out = Some (scanner e).
Proof.
  unfold feed, new. simpl. destruct (Scanner.feed _ out) as [s|]; simpl; [|done]. by intros [= <-].
Qed.

Lemma feed_app_lemma (out more : list byte) e :
  feed new out = Some e -> feed e more = feed new (out ++ more).
Proof.
  intros Hf%engine_feed_inv. unfold feed, new. cbn [scanner].
  rewrite scanner_feed_app, Hf. done.
Qed.

Lemma marked_of_running out s :
  Scanner.feed (Scanner.new WATERMARK) out = Some s ->
  running (scanner_status s) = true -> Scanner.saw_prompt_marker s = true.
Proof. intros (T & _)%feed_new_inv. apply (running_marked _ (wf_status _ (tr_wf _ _ T))). Qed.

Lemma marker_kept out more s s' :
  Scanner.feed (Scanner.new WATERMARK) out = Some s -> Scanner.feed s more = Some s' ->
  Scanner.saw_prompt_marker s = true -> Scanner.saw_prompt_marker s' = true.
Proof.
  intros (T & _ & R)%feed_new_inv F.
  destruct (feed_tracks _ s more T R) as (s1 & E & T1 & _). rewrite F in E. injection E as <-.
  unfold Scanner.saw_prompt_marker. rewrite (tr_sink _ _ T), (tr_sink _ _ T1). apply lex_marker.
Qed.

#[export] Instance replay_engine_laws : EngineLaws.
Proof.
  split; cbn [engine eng_new eng_feed eng_status eng_marking replay_engine].
  - by intros [s].
  - intros out. destruct (feed_new WATERMARK out) as (s & E & _).
    exists {| scanner := s |}. unfold feed, new. simpl. by rewrite E.
  - intros out more e. apply feed_app_lemma.
  - intros out e Hf%engine_feed_inv. by eapply marked_of_running.
  - intros out more e e' Hf F. pose proof (engine_feed_inv out e Hf) as Hs.
    unfold feed in F. destruct (Scanner.feed (scanner e) more) as [s'|] eqn:E; simpl in F; [|done].
    injection F as <-. by eapply marker_kept.
Qed.
End implements.
