(* ===== verification/Protocol.v ===== *)
(** jftermd/src/protocol.rs: the TLV wire protocol.

    Frame types and frames, their encoding, the decoder with its read cursor
    and lazily compacted buffer, the JSON messages and the splitting of output
    into [Data] frames. [None] is a panic: a slice out of bounds. [encode] is the
    release build, where the [debug_assert] on the payload length is absent and
    the length is truncated to 32 bits. *)
From S2P Require Import Prelude.

Definition PROTO_VERSION : u32 := 1.
Definition MAX_FRAME_LEN : u32 := 16 * 1024 * 1024.
Definition COMPACT_THRESHOLD : usize := 64 * 1024.

Inductive FrameType :=
  | Hello_ | HelloOk | List_ | Sessions | AttachOrOpen_ | Input | Resize_ | Close
  | Data | Status | Exit.

#[export] Instance FrameType_eq_dec : EqDecision FrameType.
Proof. solve_decision. Defined.

(** [self.ty as u8]: the discriminants. *)
Definition as_u8 (t : FrameType) : N :=
  match t with
  | Hello_ => 1 | HelloOk => 2 | List_ => 3 | Sessions => 4 | AttachOrOpen_ => 5
  | Input => 6 | Resize_ => 7 | Close => 8 | Data => 9 | Status => 10 | Exit => 11
  end.

Definition try_from (b : N) : result FrameType N :=
  match b with
  | 1 => Ok Hello_ | 2 => Ok HelloOk | 3 => Ok List_ | 4 => Ok Sessions
  | 5 => Ok AttachOrOpen_ | 6 => Ok Input | 7 => Ok Resize_ | 8 => Ok Close
  | 9 => Ok Data | 10 => Ok Status | 11 => Ok Exit
  | _ => Err b
  end%N.

Record Frame := mkFrame {
  ty : FrameType;
  payload : list byte
}.

#[export] Instance Frame_eq_dec : EqDecision Frame.
Proof. solve_decision. Defined.

Definition Frame_new (t : FrameType) (p : list byte) : Frame := {| ty := t; payload := p |}.

(** [u32::to_be_bytes] and [u32::from_be_bytes]. *)
Definition to_be_bytes (n : u32) : list byte :=
  [byte_of (n / 16777216); byte_of (n / 65536); byte_of (n / 256); byte_of n].
Definition from_be_bytes (b0 b1 b2 b3 : byte) : u32 :=
  u8 b0 * 16777216 + u8 b1 * 65536 + u8 b2 * 256 + u8 b3.

Definition encode (f : Frame) : list byte :=
  let len := N.of_nat (length (payload f)) in
  [byte_of (as_u8 (ty f))] ++ to_be_bytes (as_u32 len) ++ payload f.

Inductive ProtocolError :=
  | UnknownType (b : N)
  | FrameTooLarge (n : u32).

#[export] Instance ProtocolError_eq_dec : EqDecision ProtocolError.
Proof. solve_decision. Defined.

(** ** The decoder *)

Record FrameDecoder := mkDecoder {
  buf : list byte;
  pos : usize
}.

Definition FrameDecoder_new : FrameDecoder := {| buf := []; pos := 0 |}.

(** [&bytes[i..]], and [bytes.drain(..i)], which panics on the same bound. *)
Definition slice_from (i : usize) (bytes : list byte) : option (list byte) :=
  if (i <=? N.of_nat (length bytes))%N then Some (drop (N.to_nat i) bytes) else None.

Definition compact (d : FrameDecoder) : option FrameDecoder :=
  if (pos d =? 0)%N then Some d
  else rest ← slice_from (pos d) (buf d); Some {| buf := rest; pos := 0 |}.

Definition push (bytes : list byte) (d : FrameDecoder) : option FrameDecoder :=
  d ← compact d;
  Some {| buf := buf d ++ bytes; pos := pos d |}.

Definition next_frame (d : FrameDecoder) :
    option (FrameDecoder * result (option Frame) ProtocolError) :=
  avail ← slice_from (pos d) (buf d);
  match avail with
  | ty_byte :: b0 :: b1 :: b2 :: b3 :: body =>
      let len := from_be_bytes b0 b1 b2 b3 in
      if (MAX_FRAME_LEN <? len)%N then Some (d, Err (FrameTooLarge len))
      else match try_from (u8 ty_byte) with
      | Err b => Some (d, Err (UnknownType b))
      | Ok t =>
          let total := (5 + len)%N in
          if (N.of_nat (length avail) <? total)%N then Some (d, Ok None)
          else
            let payload := take (N.to_nat len) body in
            let d := {| buf := buf d; pos := pos d + total |} in
            d ← (if (COMPACT_THRESHOLD <=? pos d)%N then compact d else Some d);
            Some (d, Ok (Some (Frame_new t payload)))
      end
  | _ => Some (d, Ok None)
  end.

(** ** Messages *)

Record Hello := mkHello { proto_version : u32; daemon_version : list byte }.

Record SessionInfo := mkSessionInfo {
  info_session_id : string;
  info_argv : list (list byte);
  info_cwd : list byte;
  info_running : bool;
  info_has_client : bool;
  info_created_at : u64
}.

Record AttachOrOpen := mkAttachOrOpen {
  session_id : string;
  cwd : list byte;
  argv : list (list byte);
  want_chunks : usize;
  cols : u16;
  rows : u16
}.

Record Resize := mkResize { resize_cols : u16; resize_rows : u16 }.
Record CloseMsg := mkCloseMsg { grace_ms : u32 }.
Record StatusMsg := mkStatusMsg { msg_running : bool; msg_progress : option N }.
Record ExitMsg := mkExitMsg { exit_status : Z }.

(** [serde_json] for one message type, a parameter: what it writes and what it
    reads. The error is [serde_json::Error]. *)
Class Json (T : Type) := {
  json_error : Type;
  to_vec : T -> result (list byte) json_error;
  from_slice : list byte -> result T json_error
}.

(** A message that is written is read back. *)
Class JsonLaws (T : Type) `{Json T} := {
  from_to_vec v bs : to_vec v = Ok bs -> from_slice bs = Ok v
}.

Definition control `{Json T} (t : FrameType) (value : T) : result Frame json_error :=
  match to_vec value with
  | Ok bs => Ok (Frame_new t bs)
  | Err e => Err e
  end.

Definition json (T : Type) `{Json T} (f : Frame) : result T json_error := from_slice (payload f).

(** ** Output as [Data] frames *)

(** The first [n] bytes and the rest: [slice::chunks] splits there. *)
Fixpoint split_at (n : N) (bytes : list byte) : list byte * list byte :=
  match bytes with
  | [] => ([], [])
  | b :: rest =>
      if (n =? 0)%N then ([], bytes)
      else let '(c, r) := split_at (n - 1) rest in (b :: c, r)
  end.

(** [bytes.chunks(n)]; [length bytes] rounds are enough when [0 < n]. *)
Fixpoint chunks_of (fuel : nat) (n : N) (bytes : list byte) : list (list byte) :=
  match fuel, bytes with
  | O, _ | _, [] => []
  | S fuel, _ => let '(c, r) := split_at n bytes in c :: chunks_of fuel n r
  end.

Definition slice_chunks (n : N) (bytes : list byte) : list (list byte) :=
  chunks_of (length bytes) n bytes.

Definition frame_data (bytes : list byte) : list Frame :=
  (fun c => Frame_new Data c) <$> slice_chunks MAX_FRAME_LEN bytes.
