(* ===== verification/Wire.v ===== *)
(** What the wire protocol promises: the decoder refines a parser of the byte
    stream that has no buffer, so the way the stream is cut into reads does not
    matter; frames survive the wire; a malformed header is an error that no
    later byte repairs; and the buffer is bounded. *)
From S2P Require Import Prelude Protocol.

(** * The parser of the unread bytes *)

Definition parse (bs : list byte) : result (option (Frame * list byte)) ProtocolError :=
  match bs with
  | ty_byte :: b0 :: b1 :: b2 :: b3 :: body =>
      let len := from_be_bytes b0 b1 b2 b3 in
      if (MAX_FRAME_LEN <? len)%N then Err (FrameTooLarge len)
      else match try_from (u8 ty_byte) with
      | Err b => Err (UnknownType b)
      | Ok t =>
          if (N.of_nat (length body) <? len)%N then Ok None
          else Ok (Some (Frame_new t (take (N.to_nat len) body), drop (N.to_nat len) body))
      end
  | _ => Ok None
  end.

(** The frames of a stream, what is left of it, and the error that ended it. *)
Fixpoint frames_from (fuel : nat) (bs : list byte) : list Frame * list byte * option ProtocolError :=
  match fuel with
  | O => ([], bs, None)
  | S fuel =>
      match parse bs with
      | Err e => ([], bs, Some e)
      | Ok None => ([], bs, None)
      | Ok (Some (f, rest)) =>
          let '(fs, r, e) := frames_from fuel rest in (f :: fs, r, e)
      end
  end.

(** A frame takes at least five bytes, so [length bs] rounds are enough. *)
Definition frames (bs : list byte) : list Frame * list byte * option ProtocolError :=
  frames_from (length bs) bs.

(** The 5-byte headers [parse] reads. *)
Lemma parse_short bs : length bs < 5 -> parse bs = Ok None.
Proof. intros H. do 5 (destruct bs as [|? bs]; [done|]). simpl in H. lia. Qed.

Lemma parse_frame bs f rest :
  parse bs = Ok (Some (f, rest)) ->
  exists h, length h = 5 /\ bs = h ++ payload f ++ rest /\
    (N.of_nat (length (payload f)) <= MAX_FRAME_LEN)%N.
Proof.
  destruct bs as [|t [|b0 [|b1 [|b2 [|b3 body]]]]]; try done. cbn [parse]. cbv zeta.
  destruct (N.ltb_spec MAX_FRAME_LEN (from_be_bytes b0 b1 b2 b3)); [done|].
  destruct (try_from (u8 t)); [|done].
  destruct (N.ltb_spec (N.of_nat (length body)) (from_be_bytes b0 b1 b2 b3)); [done|].
  intros [= <- <-]. exists [t; b0; b1; b2; b3]. split; [done|]. simpl. rewrite take_drop.
  split; [done|]. rewrite length_take. lia.
Qed.

Lemma parse_app bs b :
  match parse bs with
  | Ok None => True
  | Ok (Some (f, rest)) => parse (bs ++ b) = Ok (Some (f, rest ++ b))
  | Err e => parse (bs ++ b) = Err e
  end.
Proof.
  destruct bs as [|t [|b0 [|b1 [|b2 [|b3 body]]]]]; try done.
  cbn [parse app]. cbv zeta. set (len := from_be_bytes b0 b1 b2 b3).
  destruct (MAX_FRAME_LEN <? len)%N; [done|]. destruct (try_from (u8 t)); [|done].
  destruct (N.ltb_spec (N.of_nat (length body)) len) as [|H]; [done|].
  rewrite (proj2 (N.ltb_ge _ _)) by (rewrite length_app; lia).
  by rewrite take_app_le, drop_app_le by lia.
Qed.

Lemma parse_none_short bs : parse bs = Ok None -> (N.of_nat (length bs) < 5 + MAX_FRAME_LEN)%N.
Proof.
  destruct bs as [|t [|b0 [|b1 [|b2 [|b3 body]]]]]; try done. cbn [parse]. cbv zeta.
  destruct (N.ltb_spec MAX_FRAME_LEN (from_be_bytes b0 b1 b2 b3)); [done|].
  destruct (try_from (u8 t)); [|done].
  destruct (N.ltb_spec (N.of_nat (length body)) (from_be_bytes b0 b1 b2 b3)) as [Hl|]; [|done].
  intros _. cbn [length]. lia.
Qed.

Lemma parse_rest_length bs f rest : parse bs = Ok (Some (f, rest)) -> length rest + 5 <= length bs.
Proof. intros (h & Hh & -> & _)%parse_frame. rewrite !length_app. lia. Qed.

(** More fuel than [length bs] changes nothing. *)
Lemma frames_from_fuel n m bs :
  length bs <= n -> length bs <= m -> frames_from n bs = frames_from m bs.
Proof.
  revert m bs. induction n as [|n IH]; intros [|m] bs Hn Hm; try done.
  1,2: destruct bs; [by rewrite ?(parse_short [])|simpl in *; lia].
  cbn [frames_from]. destruct (parse bs) as [[[f rest]|]|e] eqn:E; try done.
  apply parse_rest_length in E. by rewrite (IH m rest) by lia.
Qed.

Lemma frames_step bs :
  frames bs = match parse bs with
              | Err e => ([], bs, Some e)
              | Ok None => ([], bs, None)
              | Ok (Some (f, rest)) => let '(fs, r, e) := frames rest in (f :: fs, r, e)
              end.
Proof.
  unfold frames. rewrite (frames_from_fuel _ (S (length bs))) by lia. cbn [frames_from].
  destruct (parse bs) as [[[f rest]|]|e] eqn:E; try done.
  apply parse_rest_length in E. by rewrite (frames_from_fuel _ (length rest)) by lia.
Qed.

Lemma frames_ind (P : list byte -> Prop) :
  (forall bs, (forall f rest, parse bs = Ok (Some (f, rest)) -> P rest) -> P bs) -> forall bs, P bs.
Proof.
  intros HP bs. remember (length bs) as n eqn:Hn. revert bs Hn.
  induction (lt_wf n) as [n _ IH]. intros bs ->. apply HP. intros f rest E.
  apply parse_rest_length in E. eapply IH; [|done]. lia.
Qed.

(** What is decoded from a prefix stays decoded when more bytes arrive. *)
Lemma frames_app a b :
  match frames a with
  | (fs, r, None) => frames (a ++ b) = let '(fs', r', e') := frames (r ++ b) in (fs ++ fs', r', e')
  | (fs, r, Some e) => frames (a ++ b) = (fs, r ++ b, Some e)
  end.
Proof.
  induction a as [a IH] using frames_ind. rewrite (frames_step a).
  pose proof (parse_app a b) as Hp. destruct (parse a) as [[[f rest]|]|e] eqn:E.
  - specialize (IH f rest eq_refl). destruct (frames rest) as [[fs r] [e|]].
    + rewrite frames_step, Hp, IH. done.
    + rewrite (frames_step (a ++ b)), Hp, IH. by destruct (frames (r ++ b)) as [[??]?].
  - by destruct (frames (a ++ b)) as [[??]?].
  - by rewrite frames_step, Hp.
Qed.

Lemma frames_rest bs fs r : frames bs = (fs, r, None) -> parse r = Ok None.
Proof.
  revert fs r. induction bs as [bs IH] using frames_ind. intros fs r. rewrite frames_step.
  destruct (parse bs) as [[[f rest]|]|e] eqn:E; [|by intros [= <- <-]|done].
  specialize (IH f rest eq_refl). destruct (frames rest) as [[fs' r'] e']. intros [= <- <- ->].
  by eapply IH.
Qed.

(** * Encoding *)

Lemma try_from_as_u8 t : try_from (as_u8 t) = Ok t.
Proof. by destruct t. Qed.

Lemma as_u8_bound t : (as_u8 t < 256)%N.
Proof. by destruct t. Qed.

Lemma be_bytes n : (n < 4294967296)%N ->
  exists b0 b1 b2 b3, to_be_bytes n = [b0; b1; b2; b3] /\ from_be_bytes b0 b1 b2 b3 = n.
Proof.
  intros Hn. eexists _, _, _, _. split; [reflexivity|]. unfold from_be_bytes. rewrite !u8_byte_of.
  rewrite (N.mod_small (n / 16777216)) by (apply N.Div0.div_lt_upper_bound; lia).
  pose proof (N.div_mod n 256 ltac:(done)) as H0.
  pose proof (N.div_mod (n / 256) 256 ltac:(done)) as H1.
  pose proof (N.div_mod (n / 256 / 256) 256 ltac:(done)) as H2.
  rewrite !N.Div0.div_div in H1, H2. rewrite !N.Div0.div_div in H2.
  change (256 * 256)%N with 65536%N in *. change (65536 * 256)%N with 16777216%N in *.
  change (256 * 65536)%N with 16777216%N in *.
  revert H0 H1 H2. generalize (n mod 256)%N ((n / 256) mod 256)%N ((n / 65536) mod 256)%N. lia.
Qed.

Definition frame_fits (f : Frame) : Prop := (N.of_nat (length (payload f)) <= MAX_FRAME_LEN)%N.

(** The header of a payload of any length below 2^32. *)
Lemma encode_header f :
  (N.of_nat (length (payload f)) < 4294967296)%N ->
  exists t b0 b1 b2 b3, encode f = t :: b0 :: b1 :: b2 :: b3 :: payload f /\
    from_be_bytes b0 b1 b2 b3 = N.of_nat (length (payload f)) /\ try_from (u8 t) = Ok (ty f).
Proof.
  intros Hl. destruct (be_bytes _ Hl) as (b0 & b1 & b2 & b3 & E & V).
  exists (byte_of (as_u8 (ty f))), b0, b1, b2, b3. unfold encode, as_u32.
  rewrite N.mod_small, E by done. split; [done|]. split; [done|].
  rewrite u8_byte_of, N.mod_small by apply as_u8_bound. apply try_from_as_u8.
Qed.

Lemma parse_encode f rest : frame_fits f -> parse (encode f ++ rest) = Ok (Some (f, rest)).
Proof.
  unfold frame_fits. intros Hf.
  destruct (encode_header f) as (t & b0 & b1 & b2 & b3 & -> & V & T).
  { unfold MAX_FRAME_LEN in Hf. lia. }
  cbn [app parse]. cbv zeta. rewrite V, T, (proj2 (N.ltb_ge _ _)) by done.
  rewrite (proj2 (N.ltb_ge _ _)) by (rewrite length_app; lia).
  rewrite Nat2N.id, take_app_length, drop_app_length. by destruct f.
Qed.

Lemma frames_encode fs rest :
  Forall frame_fits fs ->
  frames (concat (encode <$> fs) ++ rest) =
    let '(fs', r, e) := frames rest in (fs ++ fs', r, e).
Proof.
  induction 1 as [|f fs Hf Hfs IH]; [simpl; by destruct (frames rest) as [[??]?]|].
  rewrite fmap_cons. cbn [concat]. rewrite <- app_assoc, frames_step, parse_encode, IH by done.
  by destruct (frames rest) as [[??]?].
Qed.

(** * The decoder refines the parser *)

(** The bytes a decoder has not consumed: all its state, for a client. *)
Definition unread (d : FrameDecoder) : list byte := drop (N.to_nat (pos d)) (buf d).
Definition decoder_wf (d : FrameDecoder) : Prop :=
  (pos d <= N.of_nat (length (buf d)))%N /\ (pos d < COMPACT_THRESHOLD)%N.
Lemma decoder_new_wf : decoder_wf FrameDecoder_new.
Proof. by split. Qed.

Lemma slice_from_ok i bytes :
  (i <= N.of_nat (length bytes))%N -> slice_from i bytes = Some (drop (N.to_nat i) bytes).
Proof. intros H. unfold slice_from. by rewrite (proj2 (N.leb_le _ _)). Qed.

Lemma compact_spec d :
  (pos d <= N.of_nat (length (buf d)))%N -> compact d = Some {| buf := unread d; pos := 0 |}.
Proof.
  intros H. unfold compact, unread. destruct (N.eqb_spec (pos d) 0) as [E|_].
  - rewrite E. simpl. destruct d as [b p]; simpl in *. by subst.
  - by rewrite slice_from_ok.
Qed.

Lemma push_spec d bytes :
  decoder_wf d ->
  exists d', push bytes d = Some d' /\ decoder_wf d' /\ unread d' = unread d ++ bytes /\ pos d' = 0%N.
Proof.
  intros [H _]. unfold push. rewrite compact_spec by done. simpl. eexists. split; [done|].
  split; [|done]. split; simpl; [lia|done].
Qed.

(** One call: it never panics, it answers what the parser answers on the
    unread bytes, and it consumes exactly the frame it returns. *)
Lemma next_frame_spec d :
  decoder_wf d ->
  match parse (unread d) with
  | Ok (Some (f, rest)) =>
      exists d', next_frame d = Some (d', Ok (Some f)) /\ decoder_wf d' /\ unread d' = rest
  | Ok None => next_frame d = Some (d, Ok None)
  | Err e => next_frame d = Some (d, Err e)
  end.
Proof.
  intros [Hp Hc]. unfold next_frame. rewrite slice_from_ok by done. fold (unread d).
  cbn [mbind option_bind].
  destruct (unread d) as [|t [|b0 [|b1 [|b2 [|b3 body]]]]] eqn:E; try done.
  cbn [parse]. cbv zeta. set (len := from_be_bytes b0 b1 b2 b3).
  destruct (MAX_FRAME_LEN <? len)%N; [done|]. destruct (try_from (u8 t)) as [ft|]; [|done].
  cbn [length].
  destruct (N.ltb_spec (N.of_nat (length body)) len) as [Hl|Hl].
  - by rewrite (proj2 (N.ltb_lt _ _)) by lia.
  - rewrite (proj2 (N.ltb_ge _ _)) by lia.
    set (d1 := {| buf := buf d; pos := (pos d + (5 + len))%N |}).
    assert (Hlen : length (buf d) = N.to_nat (pos d) + (5 + length body)).
    { unfold unread in E. apply (f_equal length) in E. rewrite length_drop in E. simpl in E. lia. }
    assert (H1 : (pos d1 <= N.of_nat (length (buf d1)))%N) by (simpl; lia).
    assert (Hu : unread d1 = drop (N.to_nat len) body).
    { unfold unread in *. simpl.
      replace (N.to_nat (pos d + (5 + len))) with (N.to_nat (pos d) + (5 + N.to_nat len)) by lia.
      by rewrite <- drop_drop, E. }
    destruct (N.leb_spec COMPACT_THRESHOLD (pos d1)) as [Hle|Hle].
    + rewrite compact_spec by done. eexists. split; [done|]. split; [|by rewrite <- Hu].
      split; simpl; [lia|done].
    + exists d1. split; [done|]. split; [done|done].
Qed.

(** ** A connection: push what a read returned, then take every whole frame *)

Fixpoint pop_frames (fuel : nat) (d : FrameDecoder) :
    option (FrameDecoder * list Frame * option ProtocolError) :=
  match fuel with
  | O => Some (d, [], None)
  | S fuel =>
      '(d, r) ← next_frame d;
      match r with
      | Err e => Some (d, [], Some e)
      | Ok None => Some (d, [], None)
      | Ok (Some f) => '(d, fs, e) ← pop_frames fuel d; Some (d, f :: fs, e)
      end
  end.

Fixpoint read_all (d : FrameDecoder) (reads : list (list byte)) :
    option (FrameDecoder * list Frame * option ProtocolError) :=
  match reads with
  | [] => Some (d, [], None)
  | bytes :: reads =>
      d ← push bytes d;
      '(d, fs, e) ← pop_frames (length (buf d)) d;
      match e with
      | Some e => Some (d, fs, Some e)
      | None => '(d, fs', e) ← read_all d reads; Some (d, fs ++ fs', e)
      end
  end.

Lemma pop_frames_spec n d :
  decoder_wf d -> length (unread d) <= n ->
  exists d', pop_frames n d = Some (d', (frames (unread d)).1.1, (frames (unread d)).2) /\
    decoder_wf d' /\ unread d' = (frames (unread d)).1.2.
Proof.
  revert d. induction n as [|n IH]; intros d Hw Hn; rewrite frames_step.
  - destruct (unread d) eqn:E; [|simpl in Hn; lia]. rewrite parse_short by (simpl; lia). by exists d.
  - cbn [pop_frames]. pose proof (next_frame_spec d Hw) as Hs.
    destruct (parse (unread d)) as [[[f rest]|]|e] eqn:E.
    + destruct Hs as (d1 & -> & Hw1 & Hu1). cbn [mbind option_bind].
      pose proof (parse_rest_length _ _ _ E).
      destruct (IH d1 Hw1) as (d2 & E2 & Hw2 & Hu2); [rewrite Hu1; lia|].
      rewrite E2, Hu1 in *. exists d2. cbn [mbind option_bind].
      by destruct (frames rest) as [[fs r] e].
    + rewrite Hs. by exists d.
    + rewrite Hs. by exists d.
Qed.

Lemma read_all_spec reads d :
  decoder_wf d -> parse (unread d) = Ok None ->
  exists d' fs rest e, read_all d reads = Some (d', fs, e) /\
    frames (unread d ++ concat reads) = (fs, rest, e) /\ decoder_wf d' /\
    (e = None -> unread d' = rest /\ parse rest = Ok None).
Proof.
  revert d. induction reads as [|bytes reads IH]; intros d Hw Hn.
  - exists d, [], (unread d), None. cbn [concat]. rewrite app_nil_r, frames_step, Hn. done.
  - cbn [read_all concat]. destruct (push_spec d bytes Hw) as (d1 & -> & Hw1 & Hu1 & Hp1).
    cbn [mbind option_bind].
    assert (Hl : length (unread d1) <= length (buf d1)) by (unfold unread; rewrite length_drop; lia).
    destruct (pop_frames_spec _ d1 Hw1 Hl) as (d2 & -> & Hw2 & Hu2).
    cbn [mbind option_bind]. rewrite Hu1 in *.
    pose proof (frames_app (unread d ++ bytes) (concat reads)) as Ha.
    pose proof (frames_rest (unread d ++ bytes)) as Hr.
    destruct (frames (unread d ++ bytes)) as [[fs r] [e|]]; simpl in *.
    + rewrite <- app_assoc in Ha. eexists d2, fs, _, (Some e). by rewrite Ha.
    + destruct (IH d2 Hw2) as (d3 & fs3 & rest & e & -> & E3 & Hw3 & He); [rewrite Hu2; by eapply Hr|].
      cbn [mbind option_bind]. rewrite <- app_assoc in Ha. rewrite Hu2 in E3. rewrite Ha, E3.
      by exists d3, (fs ++ fs3), rest, e.
Qed.

(** C11: the decoder never panics, and what it decodes depends only on the bytes
    that arrived: however they are cut into reads, the frames and the error are
    those of the buffer-free parser on the concatenation, and without an error
    the unread bytes are what the parser leaves. *)
Theorem decoder_refines_parser reads :
  exists d fs rest e, read_all FrameDecoder_new reads = Some (d, fs, e) /\
    frames (concat reads) = (fs, rest, e) /\ (e = None -> unread d = rest).
Proof.
  destruct (read_all_spec reads FrameDecoder_new decoder_new_wf eq_refl)
    as (d & fs & rest & e & H1 & H2 & _ & H3).
  exists d, fs, rest, e. split; [done|]. split; [done|]. intros He. by apply H3.
Qed.

(** C13: whole frames survive the wire: encode any frames within the cap one
    after another, cut the bytes into reads anywhere, even inside a header, and
    the receiver gets exactly those frames in order, keeping for later exactly
    the bytes of the frame that is not complete yet. *)
Theorem wire_roundtrip fs tail reads :
  Forall frame_fits fs -> parse tail = Ok None ->
  concat reads = concat (encode <$> fs) ++ tail ->
  exists d, read_all FrameDecoder_new reads = Some (d, fs, None) /\ unread d = tail.
Proof.
  intros Hf Ht Hr.
  destruct (read_all_spec reads FrameDecoder_new decoder_new_wf eq_refl)
    as (d & fs' & rest & e & H1 & H2 & _ & H3).
  change (unread FrameDecoder_new) with (@nil byte) in H2.
  rewrite app_nil_l, Hr, frames_encode, frames_step, Ht, app_nil_r in H2 by done.
  injection H2 as <- <- <-. exists d. split; [done|]. by apply H3.
Qed.

Definition wire_demo : list Frame :=
  [Frame_new Input (lit "ls"); Frame_new List_ []; Frame_new Data (lit "hi")].

Lemma wire_roundtrip_witness :
  exists d, read_all FrameDecoder_new
      [[x06; x00; x00]; [x00; x02; x6c; x73; x03; x00; x00; x00]; [x00; x09; x00; x00; x00; x02; x68; x69; x06]]
    = Some (d, wire_demo, None) /\ unread d = [x06].
Proof.
  refine (wire_roundtrip wire_demo [x06] _ _ _ _); [|vm_compute; reflexivity|vm_compute; reflexivity].
  repeat constructor; vm_compute; discriminate.
Defined.

(** Nothing in [encode] stops a payload above the cap (the assertion is
    absent from the release build), but the receiver refuses it by its header
    alone: it fails with the declared length before it buffers the payload,
    whatever follows, and asking again gives the same error. *)
Theorem oversize_refused f rest d :
  (MAX_FRAME_LEN < N.of_nat (length (payload f)) < 4294967296)%N ->
  decoder_wf d -> unread d = take 5 (encode f) ++ rest ->
  next_frame d = Some (d, Err (FrameTooLarge (N.of_nat (length (payload f))))).
Proof.
  intros [Hm Hl] Hw Hu. pose proof (next_frame_spec d Hw) as Hs. rewrite Hu in Hs.
  destruct (encode_header f Hl) as (t & b0 & b1 & b2 & b3 & E & V & T). rewrite E in Hs.
  cbn [take app parse] in Hs. cbv zeta in Hs. by rewrite V, (proj2 (N.ltb_lt _ _)) in Hs.
Qed.

Lemma frame_of_length n : exists f, N.of_nat (length (payload f)) = n.
Proof.
  exists (Frame_new Data (replicate (N.to_nat n) x00)). cbn [payload Frame_new].
  by rewrite length_replicate, N2Nat.id.
Qed.

Lemma oversize_refused_witness :
  exists f d, N.of_nat (length (payload f)) = 16777217%N /\
    next_frame d = Some (d, Err (FrameTooLarge (N.of_nat (length (payload f))))).
Proof.
  destruct (frame_of_length 16777217) as [f Hl].
  set (d := {| buf := take 5 (encode f) ++ []; pos := 0 |}).
  exists f, d. split; [exact Hl|].
  refine (oversize_refused f [] d _ _ eq_refl).
  - rewrite Hl. split; vm_compute; reflexivity.
  - split; [apply N.le_0_l|vm_compute; reflexivity].
Defined.

(** C36: a frame header with an unknown type or a length above the cap closes
    the stream as soon as its five bytes are there. The length is checked first;
    the frames before it are still delivered, and no byte that follows changes
    the outcome. *)
Theorem malformed_header_fatal fs t b0 b1 b2 b3 later reads :
  Forall frame_fits fs ->
  concat reads = concat (encode <$> fs) ++ [t; b0; b1; b2; b3] ++ later ->
  (forall ft, try_from (u8 t) <> Ok ft) \/ (MAX_FRAME_LEN < from_be_bytes b0 b1 b2 b3)%N ->
  exists d, read_all FrameDecoder_new reads =
    Some (d, fs, Some (if (MAX_FRAME_LEN <? from_be_bytes b0 b1 b2 b3)%N
                       then FrameTooLarge (from_be_bytes b0 b1 b2 b3) else UnknownType (u8 t))).
Proof.
  intros Hf Hr Hbad. set (err := if (MAX_FRAME_LEN <? _)%N then FrameTooLarge _ else UnknownType _).
  destruct (read_all_spec reads FrameDecoder_new decoder_new_wf eq_refl)
    as (d & fs' & rest & e & H1 & H2 & _ & _).
  change (unread FrameDecoder_new) with (@nil byte) in H2. rewrite app_nil_l, Hr in H2.
  assert (Hp : parse ([t; b0; b1; b2; b3] ++ later) = Err err).
  { cbn [app parse]. cbv zeta. unfold err.
    destruct (MAX_FRAME_LEN <? from_be_bytes b0 b1 b2 b3)%N eqn:E; [done|].
    destruct Hbad as [Hbad|Hbad]; [|apply N.ltb_ge in E; lia].
    unfold try_from in *. destruct (u8 t) as [|p]; [done|].
    repeat (destruct p; try done; try (exfalso; by eapply Hbad)). }
  rewrite frames_encode, frames_step, Hp, app_nil_r in H2 by done.
  injection H2 as <- <- <-. by exists d.
Qed.

Lemma malformed_header_fatal_witness :
  exists d, read_all FrameDecoder_new [[x06; x00; x00; x00; x01; x61; x0c]; [x00; x00; x00; x00]] =
    Some (d, [Frame_new Input (lit "a")], Some (UnknownType 12)).
Proof.
  refine (malformed_header_fatal [Frame_new Input (lit "a")] x0c x00 x00 x00 x00 [] _ _ _ _).
  - repeat constructor; vm_compute; discriminate.
  - vm_compute; reflexivity.
  - left. intros ft. vm_compute. discriminate.
Defined.

(** C37: memory: after any reads that carry no error the buffer holds less than
    the compaction threshold of consumed bytes plus one incomplete frame, and
    the cursor stays inside it. *)
Theorem decoder_bounded reads d fs :
  read_all FrameDecoder_new reads = Some (d, fs, None) ->
  (N.of_nat (length (buf d)) < COMPACT_THRESHOLD + 5 + MAX_FRAME_LEN)%N /\
  (pos d <= N.of_nat (length (buf d)))%N.
Proof.
  intros Hr. destruct (read_all_spec reads FrameDecoder_new decoder_new_wf eq_refl)
    as (d' & fs' & rest & e & H1 & _ & [Hp Hc] & H3).
  rewrite Hr in H1. injection H1 as <- <- <-. destruct (H3 eq_refl) as [Hu Hn].
  apply parse_none_short in Hn. rewrite <- Hu in Hn. unfold unread in Hn.
  rewrite length_drop in Hn. split; [lia|done].
Qed.

Lemma decoder_bounded_witness :
  exists d fs, read_all FrameDecoder_new [[x06; x00; x00; x00; x01; x61; x0a]] = Some (d, fs, None) /\
    (N.of_nat (length (buf d)) < COMPACT_THRESHOLD + 5 + MAX_FRAME_LEN)%N.
Proof.
  eexists _, _. split; [vm_compute; reflexivity|].
  refine (proj1 (decoder_bounded [[x06; x00; x00; x00; x01; x61; x0a]] _ [Frame_new Input (lit "a")] _)).
  vm_compute. reflexivity.
Defined.

(** * Output in [Data] frames *)

Lemma split_at_spec n bs :
  (split_at n bs).1 ++ (split_at n bs).2 = bs /\
  (N.of_nat (length (split_at n bs).1) <= n)%N /\
  (bs <> [] -> 0 < n -> (split_at n bs).1 <> [])%N /\
  ((split_at n bs).2 <> [] -> N.of_nat (length (split_at n bs).1) = n).
Proof.
  revert n. induction bs as [|b bs IH]; intros n; [simpl; split_and!; [done|lia|done|done]|].
  cbn [split_at]. destruct (N.eqb_spec n 0) as [->|Hn]; [simpl; split_and!; [done|lia|lia|done]|].
  destruct (IH (n - 1)%N) as (H1 & H2 & _ & H4). destruct (split_at (n - 1) bs) as [c r]; simpl in *.
  split_and!; [by rewrite H1|lia|done|]. intros Hr. specialize (H4 Hr). lia.
Qed.

Lemma chunks_of_spec fuel n bs :
  (0 < n)%N -> length bs <= fuel ->
  concat (chunks_of fuel n bs) = bs /\
  Forall (fun c => c <> [] /\ N.of_nat (length c) <= n)%N (chunks_of fuel n bs) /\
  Forall (fun c => N.of_nat (length c) = n) (removelast (chunks_of fuel n bs)).
Proof.
  intros Hn. revert bs. induction fuel as [|fuel IH]; intros bs Hf.
  { destruct bs; [done|simpl in Hf; lia]. }
  destruct bs as [|b bs]; [done|]. cbn [chunks_of].
  destruct (split_at_spec n (b :: bs)) as (H1 & H2 & H3 & H4). destruct (split_at n (b :: bs)) as [c r].
  simpl in *. specialize (H3 ltac:(done) Hn).
  destruct (IH r) as (E1 & E2 & E3).
  { apply (f_equal length) in H1. rewrite length_app in H1. simpl in H1. destruct c; [done|]. simpl in H1. lia. }
  split; [by rewrite E1|]. split; [by constructor|].
  destruct (chunks_of fuel n r) eqn:E; [constructor|]. constructor; [|done].
  apply H4. intros ->. by destruct fuel.
Qed.

Lemma frame_data_concat bs : concat (payload <$> frame_data bs) = bs.
Proof.
  unfold frame_data, slice_chunks.
  destruct (chunks_of_spec (length bs) MAX_FRAME_LEN bs eq_refl ltac:(lia)) as (E & _).
  etransitivity; [|exact E]. f_equal. rewrite <- list_fmap_compose. apply list_fmap_id.
Qed.

Lemma frame_data_fits bs :
  Forall (fun f => ty f = Data /\ payload f <> [] /\ frame_fits f) (frame_data bs).
Proof.
  unfold frame_data, slice_chunks. apply Forall_fmap.
  destruct (chunks_of_spec (length bs) MAX_FRAME_LEN bs eq_refl ltac:(lia)) as (_ & H & _).
  eapply Forall_impl; [exact H|]. intros c [H1 H2]. done.
Qed.

(** Output split into [Data] frames reaches the client intact: however the
    socket cuts the encoded frames into reads, the client decodes only [Data]
    frames, none empty, whose payloads concatenate to the output, and every frame
    but the last is exactly as long as the cap. *)
Theorem output_reaches_client bytes reads :
  concat reads = concat (encode <$> frame_data bytes) ->
  exists d fs, read_all FrameDecoder_new reads = Some (d, fs, None) /\
    concat (payload <$> fs) = bytes /\
    Forall (fun f => ty f = Data /\ payload f <> []) fs /\
    Forall (fun f => N.of_nat (length (payload f)) = MAX_FRAME_LEN) (removelast fs).
Proof.
  intros Hr. pose proof (frame_data_fits bytes) as Hf.
  destruct (read_all_spec reads FrameDecoder_new decoder_new_wf eq_refl)
    as (d & fs & rest & e & H1 & H2 & _ & _).
  change (unread FrameDecoder_new) with (@nil byte) in H2.
  rewrite app_nil_l, Hr, <- (app_nil_r (concat _)), frames_encode in H2
    by (eapply Forall_impl; [exact Hf|]; by intros f (_ & _ & ?)).
  cbn in H2. rewrite app_nil_r in H2. injection H2 as <- <- <-.
  exists d, (frame_data bytes). split; [done|]. split; [apply frame_data_concat|].
  split; [eapply Forall_impl; [exact Hf|]; by intros f (? & ? & _)|].
  unfold frame_data, slice_chunks.
  destruct (chunks_of_spec (length bytes) MAX_FRAME_LEN bytes eq_refl ltac:(lia)) as (_ & _ & H).
  revert H. generalize (chunks_of (length bytes) MAX_FRAME_LEN bytes) as l.
  intros l. induction l as [|c l IH]; [done|]. rewrite fmap_cons.
  destruct l as [|c2 l]; [done|]. cbn [removelast fmap list_fmap].
  intros [Hc Hl]%Forall_cons. constructor; [done|]. by apply IH.
Qed.

Lemma output_reaches_client_witness :
  exists d fs, read_all FrameDecoder_new [[x09; x00; x00]; [x00; x02; x68]; [x69]] = Some (d, fs, None) /\
    concat (payload <$> fs) = lit "hi".
Proof.
  destruct (output_reaches_client (lit "hi") [[x09; x00; x00]; [x00; x02; x68]; [x69]])
    as (d & fs & H1 & H2 & _); [vm_compute; reflexivity|].
  exists d, fs. split; assumption.
Defined.

(** * Types and messages *)

(** The type byte: every frame type is read back from its discriminant, no
    byte is read as a type with another discriminant, and a byte that is refused
    is returned and is no type's discriminant. *)
Theorem frame_type_bytes :
  (forall t, try_from (as_u8 t) = Ok t) /\
  (forall b, match try_from b with
             | Ok t => as_u8 t = b
             | Err b' => b' = b /\ forall t, as_u8 t <> b
             end).
Proof.
  split; [apply try_from_as_u8|]. intros b.
  assert (Hn : forall t, as_u8 t = b -> try_from b = Ok t) by (intros t <-; apply try_from_as_u8).
  destruct (try_from b) as [t|b'] eqn:E.
  - unfold try_from in E. repeat case_match; by simplify_eq.
  - split; [unfold try_from in E; repeat case_match; by simplify_eq|].
    intros t Ht. by specialize (Hn t Ht).
Qed.

(** A control message survives the wire: the frame [control] builds, cut
    into reads anywhere, is decoded to a frame of the same type whose [json] is
    the message. *)
Theorem control_roundtrip `{JsonLaws T} t (v : T) f reads :
  control t v = Ok f -> frame_fits f -> concat reads = encode f ->
  exists d f', read_all FrameDecoder_new reads = Some (d, [f'], None) /\ ty f' = t /\ json T f' = Ok v.
Proof.
  unfold control. intros Hc Hf Hr. destruct (to_vec v) as [bs|] eqn:E; [|done].
  injection Hc as <-.
  destruct (read_all_spec reads FrameDecoder_new decoder_new_wf eq_refl)
    as (d & fs & rest & e & H1 & H2 & _ & _).
  change (unread FrameDecoder_new) with (@nil byte) in H2.
  rewrite app_nil_l, Hr, <- (app_nil_r (encode _)), frames_step, parse_encode in H2 by done.
  injection H2 as <- <- <-. exists d, (Frame_new t bs). split; [done|]. split; [done|].
  unfold json. by apply from_to_vec.
Qed.

(** A codec for [CloseMsg] (not JSON: four bytes), to show the law can hold. *)
#[local] Instance close_codec : Json CloseMsg :=
  {| json_error := unit;
     to_vec v := if (grace_ms v <? 4294967296)%N then Ok (to_be_bytes (grace_ms v)) else Err tt;
     from_slice bs := match bs with
                      | [b0; b1; b2; b3] => Ok {| grace_ms := from_be_bytes b0 b1 b2 b3 |}
                      | _ => Err tt
                      end |}.

#[local] Instance close_codec_laws : JsonLaws CloseMsg.
Proof.
  split. intros [n] bs. cbn [to_vec close_codec grace_ms from_slice].
  destruct (N.ltb_spec n 4294967296) as [Hn|]; [|done]. intros [= <-].
  destruct (be_bytes n Hn) as (b0 & b1 & b2 & b3 & -> & E). by rewrite E.
Qed.

Lemma control_roundtrip_witness :
  exists d f', read_all FrameDecoder_new [[x08; x00]; [x00; x00; x04; x00; x00; x05; xdc]] =
    Some (d, [f'], None) /\ ty f' = Close /\ json CloseMsg f' = Ok {| grace_ms := 1500 |}.
Proof.
  refine (control_roundtrip Close {| grace_ms := 1500 |} (Frame_new Close [x00; x00; x05; xdc]) _ _ _ _);
    vm_compute; first [reflexivity|discriminate].
Defined.
