(* ===== verification/Pty.v ===== *)
(** jftermd/src/pty.rs: the PTY master and its shell child.

    The kernel and the [nix] crate are a parameter: [Os] is a world, and each
    system call the source makes answers from it and moves it. The operations
    thread the world in the order of the calls. The two loops that poll the
    kernel are bounded: [reap_blocking] by its 200 rounds, as in the source, and
    [drain] by fuel, where [None] says the kernel had more to read. *)
From S2P Require Import Prelude.

(** ** The operating system *)

Inductive Errno := EAGAIN | EINTR | EIO | ESRCH | ECHILD | EOther (code : Z).
#[export] Instance Errno_eq_dec : EqDecision Errno.
Proof. solve_decision. Defined.

Inductive Signal := SIGHUP | SIGKILL | SIGWINCH.
#[export] Instance Signal_eq_dec : EqDecision Signal.
Proof. solve_decision. Defined.

(** [WaitStatus]: terminal, or one of [Stopped], [Continued], [StillAlive]... *)
Inductive WaitStatus :=
  | Exited (code : Z)
  | Signaled (sig : Z)
  | NotTerminal.

(** [io::Error]: a system error, or the kind the source builds. *)
Inductive io_error := Sys (e : Errno) | InvalidInput | InvalidData | PermissionDenied | AlreadyExists
  | NotFound | AddrInUse.
Abbreviation io_result A := (result A io_error).

Record Winsize := mkWinsize { ws_row : u16; ws_col : u16; ws_xpixel : u16; ws_ypixel : u16 }.

Definition winsize (cols rows : u16) : Winsize :=
  {| ws_row := rows; ws_col := cols; ws_xpixel := 0; ws_ypixel := 0 |}.

Abbreviation Pid := N (only parsing).
Abbreviation Fd := N (only parsing).

(** What the child runs: [chdir], whose failure is ignored, then [execvpe], then
    [_exit] with a fixed code if the exec fails. *)
Record ExecPlan := mkExec {
  plan_cwd : list byte;
  plan_argv : list (list byte);
  plan_env : list (list byte);
  plan_fallback : Z
}.

Class Os := {
  world : Type;
  env_vars : world -> list (list byte * list byte);
  forkpty : Winsize -> ExecPlan -> world -> world * result (Fd * Pid) Errno;
  set_nonblocking : Fd -> world -> world * result unit Errno;
  set_cloexec : Fd -> world -> world * result unit Errno;
  getpgid : Pid -> world -> world * result Pid Errno;
  sleep_ms : N -> world -> world;
  os_read : Fd -> world -> world * result (list byte) Errno;
  os_write : Fd -> list byte -> world -> world * result N Errno;
  tiocswinsz : Fd -> Winsize -> world -> world * result unit Errno;
  killpg : Pid -> Signal -> world -> world * result unit Errno;
  tcgetpgrp : Fd -> world -> world * result Pid Errno;
  waitpid : Pid -> bool -> world -> world * result WaitStatus Errno;
  (** Seconds since the epoch, negative before it. *)
  system_time : world -> Z
}.

Record DrainResult := mkDrain { bytes : list byte; eof : bool }.

Record Pty := mkPty { master : Fd; child : Pid }.

Definition sys {A : Type} (r : result A Errno) : io_result A :=
  match r with Ok a => Ok a | Err e => Err (Sys e) end.

(** ** What is prepared before the fork *)

(** [CString::new]: an interior NUL is an error. *)
Definition CString_new (s : list byte) : io_result (list byte) :=
  if existsb (fun b => bool_decide (b = x00)) s then Err InvalidInput else Ok s.

(** [iter.collect::<Result<_, _>>()]: the first error wins. *)
Fixpoint collect (rs : list (io_result (list byte))) : io_result (list (list byte)) :=
  match rs with
  | [] => Ok []
  | Err e :: _ => Err e
  | Ok s :: rs => match collect rs with Ok l => Ok (s :: l) | Err e => Err e end
  end.

Definition forced_env : list (list byte) := [lit "TERM=xterm-256color"; lit "COLORTERM=truecolor"].

Definition inherited (kv : list byte * list byte) : bool :=
  bool_decide (kv.1 <> lit "TERM" /\ kv.1 <> lit "COLORTERM").

(** [std::env::vars], which panics on a variable that is not UTF-8. *)
Definition vars (env : list (list byte * list byte)) : option (list (list byte * list byte)) :=
  if forallb (fun kv => utf8_valid kv.1 && utf8_valid kv.2) env then Some env else None.

(** The part of [spawn] in front of the fork; the outer [option] is the panic. *)
Definition prepare (argv : list (list byte)) (cwd : list byte)
    (env : list (list byte * list byte)) : option (io_result ExecPlan) :=
  match collect (CString_new <$> argv) with
  | Err e => Some (Err e)
  | Ok argv_c =>
      if bool_decide (argv_c = []) then Some (Err InvalidInput)
      else
        env ← vars env;
        match collect ((fun kv => CString_new (kv.1 ++ lit "=" ++ kv.2)) <$> base.filter inherited env) with
        | Err e => Some (Err e)
        | Ok env_c =>
            match CString_new cwd with
            | Err e => Some (Err e)
            | Ok cwd_c => Some (Ok {| plan_cwd := cwd_c; plan_argv := argv_c;
                                      plan_env := env_c ++ forced_env; plan_fallback := 127 |})
            end
        end
  end.

Section pty.
Context `{Os}.

(** [await_own_process_group]: up to [n] rounds of [getpgid]. *)
Fixpoint await_group (n : nat) (p : Pty) (w : world) : world :=
  match n with
  | O => w
  | S n =>
      match getpgid (child p) w with
      | (w, Ok pgid) => if (pgid =? child p)%N then w else await_group n p (sleep_ms 1 w)
      | (w, Err ESRCH) => w
      | (w, Err _) => await_group n p (sleep_ms 1 w)
      end
  end.

Definition spawn (argv : list (list byte)) (cwd : list byte) (ws : Winsize) (w : world) :
    option (world * io_result Pty) :=
  plan ← prepare argv cwd (env_vars w);
  match plan with
  | Err e => Some (w, Err e)
  | Ok plan =>
      match forkpty ws plan w with
      | (w, Err e) => Some (w, Err (Sys e))
      | (w, Ok (m, c)) =>
          match set_nonblocking m w with
          | (w, Err e) => Some (w, Err (Sys e))
          | (w, Ok _) =>
              match set_cloexec m w with
              | (w, Err e) => Some (w, Err (Sys e))
              | (w, Ok _) =>
                  let p := {| master := m; child := c |} in
                  Some (await_group 200 p w, Ok p)
              end
          end
      end
  end.

Definition write_input (p : Pty) (data : list byte) (w : world) : world * io_result N :=
  let '(w, r) := os_write (master p) data w in (w, sys r).

(** The read loop, from the bytes read so far. *)
Fixpoint drain (fuel : nat) (p : Pty) (acc : list byte) (w : world) :
    option (world * io_result DrainResult) :=
  match fuel with
  | O => None
  | S fuel =>
      match os_read (master p) w with
      | (w, Ok []) => Some (w, Ok {| bytes := acc; eof := true |})
      | (w, Ok got) => drain fuel p (acc ++ got) w
      | (w, Err EAGAIN) => Some (w, Ok {| bytes := acc; eof := false |})
      | (w, Err EINTR) => drain fuel p acc w
      | (w, Err EIO) => Some (w, Ok {| bytes := acc; eof := true |})
      | (w, Err e) => Some (w, Err (Sys e))
      end
  end.

Definition sigwinch (p : Pty) (w : world) : world * io_result unit :=
  let '(w, r) := killpg (child p) SIGWINCH w in (w, sys r).

Definition resize (p : Pty) (ws : Winsize) (w : world) : world * io_result unit :=
  match tiocswinsz (master p) ws w with
  | (w, Err e) => (w, Err (Sys e))
  | (w, Ok _) => sigwinch p w
  end.

Definition foreground_busy (p : Pty) (w : world) : world * io_result bool :=
  match tcgetpgrp (master p) w with
  | (w, Err e) => (w, Err (Sys e))
  | (w, Ok fg) => (w, Ok (negb (fg =? child p)%N))
  end.

Definition hangup (p : Pty) (w : world) : world * io_result unit :=
  let '(w, r) := killpg (child p) SIGHUP w in (w, sys r).

Definition kill (p : Pty) (w : world) : world * io_result unit :=
  let '(w, r) := killpg (child p) SIGKILL w in (w, sys r).

Definition try_reap (p : Pty) (w : world) : world * io_result (option Z) :=
  match waitpid (child p) true w with
  | (w, Ok (Exited code)) => (w, Ok (Some code))
  | (w, Ok (Signaled sig)) => (w, Ok (Some (128 + sig)%Z))
  | (w, Ok NotTerminal) => (w, Ok None)
  | (w, Err ECHILD) => (w, Ok None)
  | (w, Err e) => (w, Err (Sys e))
  end.

(** [reap_blocking] with [n] rounds left. *)
Fixpoint reap_rounds (n : nat) (p : Pty) (w : world) : world * io_result (option Z) :=
  match n with
  | O => (w, Ok None)
  | S n =>
      match waitpid (child p) true w with
      | (w, Ok (Exited code)) => (w, Ok (Some code))
      | (w, Ok (Signaled sig)) => (w, Ok (Some (128 + sig)%Z))
      | (w, Ok NotTerminal) => reap_rounds n p (sleep_ms 5 w)
      | (w, Err ECHILD) => (w, Ok None)
      | (w, Err e) => (w, Err (Sys e))
      end
  end.

Definition reap_blocking (p : Pty) (w : world) : world * io_result (option Z) :=
  reap_rounds 200 p w.

(** [Drop for Pty]: both results are ignored. *)
Definition drop_pty (p : Pty) (w : world) : world :=
  let w := (killpg (child p) SIGKILL w).1 in
  (waitpid (child p) false w).1.
End pty.

(** * What the loops do with the kernel's answers *)

Section pty_spec.
Context `{Os}.

(** The kernel answers a run of reads with data or [EINTR] (an empty entry). *)
Inductive reads (fd : Fd) : world -> list (list byte) -> world -> Prop :=
  | ReadsNil w : reads fd w [] w
  | ReadsData w w1 got l w2 :
      os_read fd w = (w1, Ok got) -> got <> [] -> reads fd w1 l w2 -> reads fd w (got :: l) w2
  | ReadsIntr w w1 l w2 :
      os_read fd w = (w1, Err EINTR) -> reads fd w1 l w2 -> reads fd w ([] :: l) w2.

(** The answer that ends the loop, and what the loop makes of it. *)
Definition drain_end (acc : list byte) (r : result (list byte) Errno) :
    option (io_result DrainResult) :=
  match r with
  | Ok [] => Some (Ok {| bytes := acc; eof := true |})
  | Ok _ => None
  | Err EAGAIN => Some (Ok {| bytes := acc; eof := false |})
  | Err EINTR => None
  | Err EIO => Some (Ok {| bytes := acc; eof := true |})
  | Err e => Some (Err (Sys e))
  end.

Lemma drain_unfold fuel p acc w :
  drain (S fuel) p acc w =
  let '(w1, r) := os_read (master p) w in
  match drain_end acc r with
  | Some out => Some (w1, out)
  | None => drain fuel p (acc ++ match r with Ok got => got | Err _ => [] end) w1
  end.
Proof.
  cbn [drain]. destruct (os_read (master p) w) as [w1 [[|b got]|[]]]; cbn [drain_end]; try done.
  by rewrite app_nil_r.
Qed.

Lemma drain_iff fuel p acc w w' out :
  drain fuel p acc w = Some (w', out) <->
  exists l w1 r, length l < fuel /\ reads (master p) w l w1 /\
    os_read (master p) w1 = (w', r) /\ drain_end (acc ++ concat l) r = Some out.
Proof.
  revert acc w. induction fuel as [|fuel IH]; intros acc w.
  { split; [done|]. intros (l & ? & ? & Hl & _). lia. }
  rewrite drain_unfold. destruct (os_read (master p) w) as [w1 r] eqn:E.
  destruct (drain_end acc r) as [out'|] eqn:Eo.
  - split.
    + intros [= <- <-]. exists [], w, r. simpl. rewrite app_nil_r. split_and!; try done; [lia|constructor].
    + intros (l & w2 & r' & _ & Hr & Er & Ho).
      inversion Hr as [|? ? got l' ? E1 Hne|? ? l' ? E1]; subst; rewrite E in *; simplify_eq.
      * simpl in Ho. rewrite app_nil_r in Ho. congruence.
      * by destruct got.
  - rewrite IH. split.
    + intros (l & w2 & r' & Hl & Hr & Er & Ho). destruct r as [got|e].
      * exists (got :: l), w2, r'. cbn [length concat]. rewrite app_assoc.
        split_and!; [lia|eapply ReadsData; [done| |done]; by intros ->|done|done].
      * destruct e; try done. exists ([] :: l), w2, r'. cbn [length concat]. rewrite app_nil_l.
        rewrite app_nil_r in Ho. split_and!; [lia|by eapply ReadsIntr|done|done].
    + intros (l & w2 & r' & Hl & Hr & Er & Ho).
      inversion Hr as [|? ? got l' ? E1 Hne Hr'|? ? l' ? E1 Hr']; subst; rewrite E in *; simplify_eq.
      * simpl in Ho. rewrite app_nil_r in Ho. congruence.
      * exists l', w2, r'. cbn [length concat] in *. rewrite app_assoc in Ho. split_and!; [lia|done..].
      * exists l', w2, r'. cbn [length concat] in *. rewrite app_nil_r. split_and!; [lia|done..].
Qed.

(** [k] rounds in which the child had no terminal status. *)
Inductive polls (c : Pid) : world -> nat -> world -> Prop :=
  | PollsNone w : polls c w 0 w
  | PollsMore w w1 k w2 :
      waitpid c true w = (w1, Ok NotTerminal) -> polls c (sleep_ms 5 w1) k w2 -> polls c w (S k) w2.

Definition reap_end (r : result WaitStatus Errno) : option (io_result (option Z)) :=
  match r with
  | Ok (Exited code) => Some (Ok (Some code))
  | Ok (Signaled sig) => Some (Ok (Some (128 + sig)%Z))
  | Ok NotTerminal => None
  | Err ECHILD => Some (Ok None)
  | Err e => Some (Err (Sys e))
  end.

Lemma reap_rounds_spec n p w w' out :
  reap_rounds n p w = (w', out) ->
  exists k w1, polls (child p) w k w1 /\
    ((k = n /\ w' = w1 /\ out = Ok None) \/
     (k < n /\ exists r, waitpid (child p) true w1 = (w', r) /\ reap_end r = Some out)).
Proof.
  revert w. induction n as [|n IH]; intros w; cbn [reap_rounds].
  { intros [= <- <-]. exists 0, w. split; [constructor|by left]. }
  destruct (waitpid (child p) true w) as [w1 r] eqn:E. intros Hr.
  destruct (reap_end r) as [out'|] eqn:Ee.
  - exists 0, w. split; [constructor|]. right. split; [lia|]. exists r.
    destruct r as [[]|[]]; simplify_eq; by rewrite E.
  - destruct r as [[]|[]]; try done. destruct (IH _ Hr) as (k & w2 & Hp & Hk).
    exists (S k), w2. split; [by eapply PollsMore|].
    destruct Hk as [(-> & ? & ?)|(? & ?)]; [by left|right]. split; [lia|done].
Qed.
End pty_spec.

(** A drain that returns has read the PTY in order, losing nothing: its
    bytes are the concatenation of everything the kernel handed out up to the
    first answer that is neither data nor [EINTR]; it reports the end of file on
    a 0-byte read or [EIO] and only then, and any other error than [EAGAIN] is
    returned. The loop needs one round per read. *)
Theorem drain_reads_everything `{Os} fuel p w w' out :
  drain fuel p [] w = Some (w', out) <->
  exists l w1 r, length l < fuel /\ reads (master p) w l w1 /\
    os_read (master p) w1 = (w', r) /\ drain_end (concat l) r = Some out.
Proof. apply drain_iff. Qed.

(** Reaping is bounded and fabricates no status: it polls at most 200 times,
    each but the last answered "not terminal"; a code it returns is the exit
    code, or 128 plus the signal, that [waitpid] reported; with no terminal
    status within the bound the answer is [None]. *)
Theorem reap_honest `{Os} p w :
  exists k w1, polls (child p) w k w1 /\
    ((k = 200 /\ reap_blocking p w = (w1, Ok None)) \/
     (k < 200 /\ exists w' r out, waitpid (child p) true w1 = (w', r) /\ reap_end r = Some out /\
        reap_blocking p w = (w', out))).
Proof.
  unfold reap_blocking. generalize 200. intros n.
  destruct (reap_rounds n p w) as [w' out] eqn:E.
  destruct (reap_rounds_spec n p w w' out E) as (k & w1 & Hp & [(-> & -> & ->)|(Hk & r & Er & Eo)]);
    exists k, w1 || exists n, w1; (split; [done|]); [by left|right].
  split; [done|]. by exists w', r, out.
Qed.

(** ** The environment of the shell *)

Lemma collect_ok l l' :
  collect (CString_new <$> l) = Ok l' -> l' = l /\ Forall (fun s => x00 ∉ s) l.
Proof.
  revert l'. induction l as [|s l IH]; intros l'; [by intros [= <-]|]. rewrite fmap_cons. cbn [collect].
  unfold CString_new at 1. destruct (existsb _ s) eqn:E; [done|].
  destruct (collect _) as [l1|]; [|done]. intros [= <-]. destruct (IH l1 eq_refl) as [-> Hf].
  split; [done|]. constructor; [|done]. intros Hin. apply not_true_iff_false in E. apply E.
  apply existsb_exists. exists x00. split; [by apply list_elem_of_In|by apply bool_decide_eq_true].
Qed.

Lemma prepare_ok argv cwd env plan :
  prepare argv cwd env = Some (Ok plan) ->
  argv <> [] /\ Forall (fun s => x00 ∉ s) (cwd :: argv) /\
  plan = {| plan_cwd := cwd; plan_argv := argv;
            plan_env := ((fun kv => kv.1 ++ lit "=" ++ kv.2) <$> base.filter inherited env) ++ forced_env;
            plan_fallback := 127 |}.
Proof.
  unfold prepare. destruct (collect (CString_new <$> argv)) as [argv_c|] eqn:Ea; [|done].
  apply collect_ok in Ea as [-> Ha]. case_bool_decide as Hne; [done|].
  unfold vars. destruct (forallb _ env); cbn [mbind option_bind]; [|done].
  rewrite (list_fmap_compose (fun kv : list byte * list byte => kv.1 ++ lit "=" ++ kv.2) CString_new).
  destruct (collect (CString_new <$> _)) as [env_c|] eqn:Ee; [|done].
  apply collect_ok in Ee as [-> _].
  destruct (collect (CString_new <$> [cwd])) as [c|] eqn:Ec.
  - apply collect_ok in Ec as E'. destruct E' as [-> Hc]. rewrite fmap_cons in Ec. cbn [collect fmap list_fmap] in Ec.
    destruct (CString_new cwd) as [c'|]; [|done]. injection Ec as ->. intros [= <-].
    split; [done|]. split; [|done]. constructor; [by inversion Hc|done].
  - rewrite fmap_cons in Ec. cbn [collect fmap list_fmap] in Ec. by destruct (CString_new cwd).
Qed.

Lemma key_of_entry (k v k' v' : list byte) :
  x3d ∉ k -> x3d ∉ k' -> k ++ lit "=" ++ v = k' ++ lit "=" ++ v' -> k = k'.
Proof.
  revert k'. induction k as [|b k IH]; intros [|b' k'] Hk Hk'; simpl; try done.
  - intros [= <- _]. exfalso. apply Hk'. by left.
  - intros [= -> _]. exfalso. apply Hk. by left.
  - intros [= <- E]. f_equal. apply (IH k'); [by intros ?; apply Hk; right|by intros ?; apply Hk'; right|done].
Qed.

(** What [spawn] runs is what it was asked, or an error before any fork: the
    argument list is not empty and holds no NUL, the child gets exactly that
    list and directory, and whatever the daemon's own environment says, the
    child's [TERM] and [COLORTERM] are the forced ones, while every other
    variable is inherited. *)
Theorem spawn_environment argv cwd env plan :
  (forall kv, kv ∈ env -> x3d ∉ kv.1) ->
  prepare argv cwd env = Some (Ok plan) ->
  argv <> [] /\ plan_argv plan = argv /\ plan_cwd plan = cwd /\
  (forall k v, x3d ∉ k -> k ++ lit "=" ++ v ∈ plan_env plan <->
     (k = lit "TERM" /\ v = lit "xterm-256color") \/ (k = lit "COLORTERM" /\ v = lit "truecolor") \/
     (k <> lit "TERM" /\ k <> lit "COLORTERM" /\ (k, v) ∈ env)).
Proof.
  intros Hk (Hne & _ & ->)%prepare_ok. split; [done|]. split; [done|]. split; [done|].
  intros k v Hkv. cbn [plan_env].
  assert (Hin : forall k' v' : list byte, x3d ∉ k' ->
    k ++ lit "=" ++ v = k' ++ lit "=" ++ v' <-> k = k' /\ v = v').
  { intros k' v' Hk'. split; [|by intros [-> ->]]. intros E.
    pose proof (key_of_entry k v k' v' Hkv Hk' E) as ->.
    apply app_inv_head in E. by injection E as ->. }
  rewrite elem_of_app, list_elem_of_fmap. unfold forced_env.
  rewrite !elem_of_cons, elem_of_nil.
  change (lit "TERM=xterm-256color") with (lit "TERM" ++ lit "=" ++ lit "xterm-256color").
  change (lit "COLORTERM=truecolor") with (lit "COLORTERM" ++ lit "=" ++ lit "truecolor").
  rewrite !Hin by (apply (bool_decide_unpack _); vm_compute; exact I).
  split.
  - intros [([k' v'] & E & [Hi Hm]%list_elem_of_filter)|[E|[E|[]]]]; [|by left|by right; left].
    apply Hin in E as [-> ->]; [|by apply (Hk (k', v'))]. do 2 right.
    unfold inherited in Hi. apply bool_decide_unpack in Hi. by destruct Hi.
  - intros [[-> ->]|[[-> ->]|(H1 & H2 & H3)]]; [by right; left|by right; right; left|].
    left. exists (k, v). split; [done|]. apply list_elem_of_filter. split; [|done].
    unfold inherited. apply Is_true_true, bool_decide_eq_true. done.
Qed.

Lemma spawn_environment_witness :
  lit "TERM=dumb" ∉ plan_env {| plan_cwd := lit "/"; plan_argv := [lit "sh"];
    plan_env := lit "HOME=/root" :: forced_env; plan_fallback := 127 |}.
Proof.
  assert (Hk : forall kv, kv ∈ [(lit "TERM", lit "dumb"); (lit "HOME", lit "/root")] -> x3d ∉ kv.1).
  { intros kv Hkv. rewrite !elem_of_cons, elem_of_nil in Hkv.
    destruct Hkv as [->|[->|[]]]; apply (bool_decide_unpack _); vm_compute; exact I. }
  assert (Hp : prepare [lit "sh"] (lit "/") [(lit "TERM", lit "dumb"); (lit "HOME", lit "/root")] =
    Some (Ok {| plan_cwd := lit "/"; plan_argv := [lit "sh"];
                plan_env := lit "HOME=/root" :: forced_env; plan_fallback := 127 |}))
    by (vm_compute; reflexivity).
  destruct (spawn_environment _ _ _ _ Hk Hp) as (_ & _ & _ & H).
  intros Hin. apply (H (lit "TERM") (lit "dumb")) in Hin;
    [|apply (bool_decide_unpack _); vm_compute; exact I].
  destruct Hin as [[_ E]|[[E _]|[E _]]]; [discriminate E|discriminate E|by apply E].
Defined.
