(* ===== verification/OsInstance.v ===== *)
(** A scripted operating system, for the witnesses.

    It is not a model of a kernel: the answers to reads, writes and waits are
    lists fixed in advance (what is left of them is the world), an exhausted
    list answers [EAGAIN], [EIO] or "not terminal", the one master is descriptor 3,
    and the signals sent are logged. The theorems are for any [Os]. *)
From S2P Require Import Prelude Pty.

Record Script := mkScript {
  script_reads : list (result (list byte) Errno);
  script_writes : list N;
  script_waits : list (result WaitStatus Errno);
  foreground : Pid;
  written : list (list byte * list byte);
  signals : list (Pid * Signal)
}.

Definition quiet : Script :=
  {| script_reads := []; script_writes := []; script_waits := []; foreground := 7;
     written := []; signals := [] |}.

Definition script_read (w : Script) : Script * result (list byte) Errno :=
  match script_reads w with
  | r :: rs => ({| script_reads := rs; script_writes := script_writes w; script_waits := script_waits w;
                   foreground := foreground w; written := written w; signals := signals w |}, r)
  | [] => (w, Err EAGAIN)
  end.

(** The kernel takes as many bytes as the script says, and logs them. *)
Definition script_write (data : list byte) (w : Script) : Script * result N Errno :=
  match script_writes w with
  | n :: ns => ({| script_reads := script_reads w; script_writes := ns; script_waits := script_waits w;
                   foreground := foreground w; written := written w ++ [(data, take (N.to_nat n) data)];
                   signals := signals w |}, Ok (N.min n (N.of_nat (length data))))
  | [] => ({| script_reads := script_reads w; script_writes := []; script_waits := script_waits w;
              foreground := foreground w; written := written w ++ [(data, [])]; signals := signals w |}, Err EIO)
  end.

Definition script_wait (w : Script) : Script * result WaitStatus Errno :=
  match script_waits w with
  | r :: rs => ({| script_reads := script_reads w; script_writes := script_writes w; script_waits := rs;
                   foreground := foreground w; written := written w; signals := signals w |}, r)
  | [] => (w, Ok NotTerminal)
  end.

Definition script_kill (p : Pid) (s : Signal) (w : Script) : Script * result unit Errno :=
  ({| script_reads := script_reads w; script_writes := script_writes w; script_waits := script_waits w;
      foreground := foreground w; written := written w; signals := signals w ++ [(p, s)] |}, Ok tt).

#[export] Instance script_os : Os :=
  {| world := Script;
     env_vars _ := [];
     forkpty _ _ w := (w, Ok (3, 7)%N);
     set_nonblocking _ w := (w, Ok tt);
     set_cloexec _ w := (w, Ok tt);
     getpgid p w := (w, Ok p);
     sleep_ms _ w := w;
     os_read _ := script_read;
     os_write fd data w := if (fd =? 3)%N then script_write data w else (w, Err EIO);
     tiocswinsz _ _ w := (w, Ok tt);
     killpg := script_kill;
     tcgetpgrp _ w := (w, Ok (foreground w));
     waitpid _ _ := script_wait;
     system_time _ := 1717286400%Z |}.
