(* ===== verification/Session.v ===== *)
(** jftermd/src/session.rs: one shell session, a PTY plus the replay engine and
    the lifecycle.

    The engine is any [Engine]; the theorems use its laws only. A [None] is a
    panic, or a drain the kernel keeps feeding beyond the fuel. *)
From S2P Require Import Prelude Status Engine Pty OsInstance.
From S2P Require Import Vte ParserInstance.
From S2P Require Protocol.

Inductive Lifecycle := Live | Dead (status : Z).
#[export] Instance Lifecycle_eq_dec : EqDecision Lifecycle.
Proof. solve_decision. Defined.

Record DrainOutcome := mkOutcome {
  data : list byte;
  out_status : StatusSnapshot;
  exit : option Z
}.

Record AttachReplay := mkReplay {
  replay_data : list byte;
  replay_status : StatusSnapshot
}.

Record Session `{Engine} := mkSession {
  id : string;
  argv : list (list byte);
  cwd : list byte;
  pty : Pty;
  engine_st : engine;
  size : Winsize;
  created_at : u64;
  lifecycle : Lifecycle
}.

Section session.
Context `{Engine, Os}.

Definition set_engine (e : engine) (s : Session) : Session :=
  {| id := id s; argv := argv s; cwd := cwd s; pty := pty s; engine_st := e;
     size := size s; created_at := created_at s; lifecycle := lifecycle s |}.
Definition set_size (z : Winsize) (s : Session) : Session :=
  {| id := id s; argv := argv s; cwd := cwd s; pty := pty s; engine_st := engine_st s;
     size := z; created_at := created_at s; lifecycle := lifecycle s |}.
Definition set_lifecycle (l : Lifecycle) (s : Session) : Session :=
  {| id := id s; argv := argv s; cwd := cwd s; pty := pty s; engine_st := engine_st s;
     size := size s; created_at := created_at s; lifecycle := l |}.

(** [duration_since(UNIX_EPOCH).expect(..)]. *)
Definition now_secs (w : world) : option u64 :=
  if (system_time w <? 0)%Z then None else Some (Z.to_N (system_time w)).

(** The inner [None] is a panic; one of the clock unwinds over the new PTY. *)
Definition open (sid : string) (args : list (list byte)) (dir : list byte) (cols rows : u16)
    (w : world) : world * option (io_result Session) :=
  let z := winsize cols rows in
  match spawn args dir z w with
  | None => (w, None)
  | Some (w, Err e) => (w, Some (Err e))
  | Some (w, Ok p) =>
      match now_secs w with
      | None => (drop_pty p w, None)
      | Some now =>
          (w, Some (Ok {| id := sid; argv := args; cwd := dir; pty := p; engine_st := eng_new;
                          size := z; created_at := now; lifecycle := Live |}))
      end
  end.

Definition is_dead (s : Session) : bool :=
  match lifecycle s with Dead _ => true | Live => false end.

Definition drain (fuel : nat) (s : Session) (w : world) :
    option (world * Session * io_result DrainOutcome) :=
  '(w, r) ← Pty.drain fuel (pty s) [] w;
  match r with
  | Err e => Some (w, s, Err e)
  | Ok drained =>
      e ← (if bool_decide (bytes drained = []) then Some (engine_st s)
           else eng_feed (engine_st s) (bytes drained));
      let s := set_engine e s in
      if eof drained && negb (is_dead s) then
        match reap_blocking (pty s) w with
        | (w, Err e) => Some (w, s, Err e)
        | (w, Ok reaped) =>
            let status := default 0%Z reaped in
            let s := set_lifecycle (Dead status) s in
            Some (w, s, Ok {| data := bytes drained; out_status := eng_status (engine_st s);
                              exit := Some status |})
        end
      else Some (w, s, Ok {| data := bytes drained; out_status := eng_status (engine_st s);
                             exit := None |})
  end.

Definition write_input (s : Session) (input : list byte) (w : world) : world * io_result unit :=
  if is_dead s then (w, Ok tt)
  else match Pty.write_input (pty s) input w with
       | (w, Err e) => (w, Err e)
       | (w, Ok _) => (w, Ok tt)
       end.

Definition resize (cols rows : u16) (s : Session) (w : world) : world * Session * io_result unit :=
  let s := set_size (winsize cols rows) s in
  if is_dead s then (w, s, Ok tt)
  else let '(w, r) := Pty.resize (pty s) (size s) w in (w, s, r).

Definition replay_for_attach (want_chunks : usize) (s : Session) : AttachReplay :=
  let d := if (want_chunks =? 0)%N then eng_replay (engine_st s)
           else eng_replay_capped (engine_st s) want_chunks in
  {| replay_data := d; replay_status := eng_status (engine_st s) |}.

Definition status (s : Session) : StatusSnapshot := eng_status (engine_st s).

Definition poll_running (s : Session) (w : world) : world * bool :=
  if is_dead s then (w, false)
  else match foreground_busy (pty s) w with
       | (w, Ok b) => (w, b)
       | (w, Err _) => (w, false)
       end.

Definition has_prompt_marking (s : Session) : bool := eng_marking (engine_st s).

Definition effective_running (s : Session) (w : world) : world * bool :=
  if is_dead s then (w, false)
  else if has_prompt_marking s then (w, running (eng_status (engine_st s)))
  else poll_running s w.

Definition hangup (s : Session) (w : world) : world * io_result unit :=
  if is_dead s then (w, Ok tt) else Pty.hangup (pty s) w.

Definition kill (s : Session) (w : world) : world * io_result unit :=
  if is_dead s then (w, Ok tt) else Pty.kill (pty s) w.

(** [cwd.to_string_lossy()] is the identity on the UTF-8 text it came from. *)
Definition info (has_client : bool) (s : Session) (w : world) : world * Protocol.SessionInfo :=
  let '(w, r) := effective_running s w in
  (w, {| Protocol.info_session_id := id s; Protocol.info_argv := argv s;
         Protocol.info_cwd := cwd s; Protocol.info_running := r;
         Protocol.info_has_client := has_client; Protocol.info_created_at := created_at s |}).
End session.

(** * A session over its life *)

Section life.
Context `{EngineLaws, Os}.

(** The operations that drain nothing. *)
Inductive quiet_step : world * Session -> world * Session -> Prop :=
  | QuietWrite s w input w' r : write_input s input w = (w', r) -> quiet_step (w, s) (w', s)
  | QuietResize cl rw s w w' s' x : resize cl rw s w = (w', s', x) -> quiet_step (w, s) (w', s')
  | QuietHangup s w w' r : hangup s w = (w', r) -> quiet_step (w, s) (w', s)
  | QuietKill s w w' r : kill s w = (w', r) -> quiet_step (w, s) (w', s)
  | QuietPoll s w w' r : effective_running s w = (w', r) -> quiet_step (w, s) (w', s).

(** A life of the session: the bytes its drains returned, in order, and the
    exit codes they reported. *)
Inductive session_run : world * Session -> list byte -> list Z -> world * Session -> Prop :=
  | RunDone c : session_run c [] [] c
  | RunQuiet c c1 o x c2 : quiet_step c c1 -> session_run c1 o x c2 -> session_run c o x c2
  | RunDrain fuel w s w1 s1 out o x c2 :
      drain fuel s w = Some (w1, s1, Ok out) -> session_run (w1, s1) o x c2 ->
      session_run (w, s) (data out ++ o) (option_list (exit out) ++ x) c2.

(** The engine has read exactly [o], and the exit codes are the lifecycle's. *)
Definition session_ok (o : list byte) (x : list Z) (s : Session) : Prop :=
  eng_feed eng_new o = Some (engine_st s) /\
  x = match lifecycle s with Live => [] | Dead st => [st] end.

Lemma open_ok sid args dir c r w w' s :
  open sid args dir c r w = (w', Some (Ok s)) -> session_ok [] [] s.
Proof.
  unfold open. destruct (spawn _ _ _ _) as [[w1 [p|e]]|]; try done.
  destruct (now_secs w1); [|done]. intros [= <- <-].
  split; [apply eng_feed_nil|done].
Qed.

(** A drain of a live session, by what the PTY and the reaper answer. *)
Lemma drain_live fuel s w w1 d e :
  Pty.drain fuel (pty s) [] w = Some (w1, Ok d) -> eof d = false -> bytes d <> [] ->
  eng_feed (engine_st s) (bytes d) = Some e ->
  drain fuel s w = Some (w1, set_engine e s,
    Ok {| data := bytes d; out_status := eng_status e; exit := None |}).
Proof.
  intros E1 E2 E3 E4. unfold drain. rewrite E1. cbn [mbind option_bind].
  rewrite bool_decide_eq_false_2, E4 by done. cbn [mbind option_bind]. by rewrite E2.
Qed.

Lemma drain_exit fuel s w w1 w2 d e st :
  Pty.drain fuel (pty s) [] w = Some (w1, Ok d) -> eof d = true -> bytes d <> [] ->
  lifecycle s = Live -> eng_feed (engine_st s) (bytes d) = Some e ->
  reap_blocking (pty s) w1 = (w2, Ok st) ->
  drain fuel s w = Some (w2, set_lifecycle (Dead (default 0%Z st)) (set_engine e s),
    Ok {| data := bytes d; out_status := eng_status e; exit := Some (default 0%Z st) |}).
Proof.
  intros E1 E2 E3 E4 E5 E6. unfold drain. rewrite E1. cbn [mbind option_bind].
  rewrite bool_decide_eq_false_2, E5 by done. cbn [mbind option_bind].
  unfold is_dead. cbn [set_engine lifecycle pty]. rewrite E2, E4. simpl. by rewrite E6.
Qed.

Lemma quiet_keeps c c' : quiet_step c c' ->
  engine_st c'.2 = engine_st c.2 /\ lifecycle c'.2 = lifecycle c.2.
Proof.
  intros [?????|????? s' ? Er|????|????|????]; try done. simpl. revert Er. unfold resize. cbv zeta.
  destruct (is_dead _); [by intros [= _ <- _]|].
  destruct (Pty.resize _ _ _). by intros [= _ <- _].
Qed.

Lemma drain_ok fuel o x w s w' s' out :
  session_ok o x s -> drain fuel s w = Some (w', s', Ok out) ->
  session_ok (o ++ data out) (x ++ option_list (exit out)) s'.
Proof.
  intros [He Hx]. unfold drain.
  destruct (Pty.drain _ _ _ _) as [[w1 [d|e]]|]; cbn [mbind option_bind]; try done.
  set (fed := if bool_decide (bytes d = []) then _ else _).
  assert (Hfed : fed = eng_feed eng_new (o ++ bytes d)).
  { unfold fed. case_bool_decide as Hd; [by rewrite Hd, app_nil_r|by apply eng_feed_app]. }
  rewrite Hfed. destruct (eng_feed eng_new (o ++ bytes d)) as [e|] eqn:Ef; cbn [mbind option_bind]; [|done].
  destruct (eof d && negb (is_dead (set_engine e s))) eqn:Ed.
  - apply andb_true_iff in Ed as [_ Hl]. unfold is_dead in Hl. simpl in Hl.
    destruct (lifecycle s); [|done]. subst x.
    destruct (reap_blocking (pty (set_engine e s)) w1) as [w2 [reaped|er]]; [|done]. intros [= <- <- <-]. by split.
  - intros [= <- <- <-]. split; [done|]. simpl. by rewrite app_nil_r.
Qed.

Lemma run_ok c o x c' o0 x0 :
  session_run c o x c' -> session_ok o0 x0 c.2 -> session_ok (o0 ++ o) (x0 ++ x) c'.2.
Proof.
  intros Hr. revert o0 x0. induction Hr as [c|c c1 o x c2 Hq _ IH|fuel w s w1 s1 out o x c2 Hd _ IH];
    intros o0 x0 Hok.
  - by rewrite !app_nil_r.
  - apply IH. destruct (quiet_keeps _ _ Hq) as [E1 E2]. destruct Hok as [H1 H2].
    split; by rewrite ?E1, ?E2.
  - rewrite !app_assoc. apply IH. by eapply drain_ok.
Qed.
End life.

(** C8: the engine of a session has read exactly what the drains handed out for
    the client, in order, whatever else was done to the session; and the exit
    is reported once, by the drain that found it, with the code the session
    keeps. *)
Theorem session_faithful `{EngineLaws, Os} sid args dir c r w0 w s o x w' s' :
  open sid args dir c r w0 = (w, Some (Ok s)) -> session_run (w, s) o x (w', s') ->
  eng_feed eng_new o = Some (engine_st s') /\
  x = match lifecycle s' with Live => [] | Dead st => [st] end.
Proof. intros Ho%open_ok Hr. exact (run_ok _ _ _ _ [] [] Hr Ho). Qed.

(** A shell that prints, is interrupted by a signal and exits with 3. *)
Definition script_demo : Script :=
  {| script_reads := [Ok (lit "hello"); Err EINTR; Ok (lit " world"); Err EAGAIN; Ok (lit "!"); Err EIO];
     script_writes := []; script_waits := [Ok NotTerminal; Ok (Exited 3)];
     foreground := 7; written := []; signals := [] |}.

Definition session0 : Session :=
  {| id := "s"; argv := [lit "sh"]; cwd := lit "/"; pty := {| master := 3; child := 7 |};
     engine_st := eng_new; size := winsize 80 24; created_at := 1717286400; lifecycle := Live |}.

Lemma opened_session0 : open "s" [lit "sh"] (lit "/") 80 24 script_demo = (script_demo, Some (Ok session0)).
Proof.
  assert (E : spawn [lit "sh"] (lit "/") (winsize 80 24) script_demo =
    Some (script_demo, Ok {| master := 3; child := 7 |})) by (vm_compute; reflexivity).
  unfold open. rewrite E. reflexivity.
Qed.

(** What is left of the script after the first drain. *)
Definition script_rest : Script :=
  {| script_reads := [Ok (lit "!"); Err EIO]; script_writes := [];
     script_waits := [Ok NotTerminal; Ok (Exited 3)]; foreground := 7; written := []; signals := [] |}.

(** The demo session lives to its end, for any engine that keeps its promises. *)
Lemma demo_run : exists w' s',
  session_run (script_demo, session0) (lit "hello world!") [3%Z] (w', s') /\ lifecycle s' = Dead 3.
Proof.
  destruct (eng_feed_total (lit "hello world")) as [e1 E1].
  destruct (eng_feed_total (lit "hello world" ++ lit "!")) as [e2 E2].
  rewrite <- (eng_feed_app _ _ _ E1) in E2.
  pose proof (drain_live 10 session0 script_demo script_rest
    {| bytes := lit "hello world"; eof := false |} e1
    ltac:(vm_compute; reflexivity) eq_refl ltac:(discriminate) E1) as D1.
  pose proof (drain_exit 10 (set_engine e1 session0) script_rest _ _ {| bytes := lit "!"; eof := true |}
    e2 (Some 3%Z) ltac:(vm_compute; reflexivity) eq_refl ltac:(discriminate) eq_refl E2
    ltac:(vm_compute; reflexivity)) as D2.
  pose proof (RunDrain _ _ _ _ _ _ _ _ _ D1 (RunDrain _ _ _ _ _ _ _ _ _ D2 (RunDone _))) as R.
  eexists _, _. split; [exact R|done].
Qed.

Lemma session_faithful_witness :
  exists o x w' s', session_run (script_demo, session0) o x (w', s') /\ o = lit "hello world!" /\
    x = [3%Z] /\ eng_feed eng_new o = Some (engine_st s') /\ lifecycle s' = Dead 3.
Proof.
  destruct demo_run as (w' & s' & Hr & Hl).
  exists (lit "hello world!"), [3%Z], w', s'. split; [exact Hr|]. split; [reflexivity|]. split; [reflexivity|].
  split; [|exact Hl].
  exact (proj1 (session_faithful _ _ _ _ _ _ _ _ _ _ _ _ opened_session0 Hr)).
Defined.

(** C15: what a reattaching client is sent is the sanitized output of the shell's
    whole life: with [want_chunks = 0] the replay is what the scanner's
    specification keeps of the bytes drained so far, however they were read. *)
Theorem attach_replays_history `{Vte, Os} sid args dir c r w0 w s o x w' s' :
  open sid args dir c r w0 = (w, Some (Ok s)) -> session_run (w, s) o x (w', s') ->
  (2 * N.of_nat (length o) + 1 <= usize_MAX)%N ->
  replay_data (replay_for_attach 0 s') =
    (ScannerSpec.kept (ScannerSpec.transcript (ScannerSpec.expand 0 o))).1 ++
    (ScannerSpec.kept (ScannerSpec.transcript (ScannerSpec.expand 0 o))).2.
Proof.
  intros Ho%open_ok Hr Hb. destruct (run_ok _ _ _ _ [] [] Hr Ho) as [He _].
  cbn [app] in He. apply engine_feed_inv in He. pose proof (ScannerProps.feed_kept _ _ _ He) as Hk.
  unfold replay_for_attach. simpl. unfold replay, Scanner.replay.
  rewrite Ring.replay_full by (by eapply ScannerProps.chunks_fit). by rewrite <- Hk.
Qed.

Lemma attach_replays_history_witness :
  exists w' s', session_run (script_demo, session0) (lit "hello world!") [3%Z] (w', s') /\
    replay_data (replay_for_attach 0 s') = lit "hello world!".
Proof.
  destruct demo_run as (w' & s' & Hr & _). exists w', s'. split; [exact Hr|].
  rewrite (attach_replays_history _ _ _ _ _ _ _ _ _ _ _ _ opened_session0 Hr
    ltac:(vm_compute; discriminate)).
  vm_compute. reflexivity.
Defined.

(** A dead session is inert: input, resize, hangup and kill succeed without
    any system call, it is never reported running, and no later drain reports an
    exit or changes the status kept. *)
Theorem dead_is_inert `{Engine, Os} s st w :
  lifecycle s = Dead st ->
  (forall input, write_input s input w = (w, Ok tt)) /\
  (forall c r, exists s', resize c r s w = (w, s', Ok tt) /\ lifecycle s' = Dead st) /\
  hangup s w = (w, Ok tt) /\ kill s w = (w, Ok tt) /\
  poll_running s w = (w, false) /\ effective_running s w = (w, false) /\
  (forall fuel w' s' out, drain fuel s w = Some (w', s', Ok out) ->
     exit out = None /\ lifecycle s' = Dead st).
Proof.
  intros Hd. unfold write_input, resize, hangup, kill, poll_running, effective_running, is_dead. cbv zeta.
  cbn [set_size lifecycle]. rewrite Hd. split_and!; try done; [by intros; eexists|].
  intros fuel w' s' out. unfold drain.
  destruct (Pty.drain _ _ _ _) as [[w1 [d|e]]|]; cbn [mbind option_bind]; try done.
  destruct (if bool_decide _ then _ else _) as [e|]; cbn [mbind option_bind]; [|done].
  unfold is_dead. cbn [set_engine lifecycle]. rewrite Hd, andb_false_r. by intros [= <- <- <-].
Qed.

Lemma dead_is_inert_witness :
  effective_running (set_lifecycle (Dead 3) session0) script_demo = (script_demo, false).
Proof.
  destruct (dead_is_inert (set_lifecycle (Dead 3) session0) 3 (script_demo : @world script_os) eq_refl)
    as (_ & _ & _ & _ & _ & H & _).
  exact H.
Defined.

(** The [running] of a live session is the engine's once the shell has shown
    a prompt mark, and before that whether another process group than the
    shell's owns the terminal; a failed query reads as idle. *)
Theorem running_merged `{Engine, Os} s w :
  lifecycle s = Live ->
  (effective_running s w).2 =
    if has_prompt_marking s then running (status s)
    else match (tcgetpgrp (master (pty s)) w).2 with
         | Ok fg => negb (fg =? child (pty s))%N
         | Err _ => false
         end.
Proof.
  intros Hl. unfold effective_running, poll_running, is_dead. rewrite Hl.
  destruct (has_prompt_marking s); [done|]. unfold foreground_busy.
  by destruct (tcgetpgrp _ w) as [w1 [fg|e]].
Qed.

Lemma running_merged_witness :
  (effective_running session0 script_demo).2 = false /\
  (effective_running session0 {| script_reads := []; script_writes := []; script_waits := [];
     foreground := 9; written := []; signals := [] |}).2 = true.
Proof.
  rewrite !running_merged by reflexivity. split; vm_compute; reflexivity.
Defined.

(** [write_input] reports success whatever part of the input the kernel
    took: there is one [write], its count is dropped, and the rest of a short
    write is never sent. *)
Theorem short_write_lost `{Engine, Os} s input w w' n :
  lifecycle s = Live -> os_write (master (pty s)) input w = (w', Ok n) ->
  write_input s input w = (w', Ok tt).
Proof.
  intros Hl E. unfold write_input, is_dead, Pty.write_input. by rewrite Hl, E.
Qed.

Definition short_write_script : Script :=
  {| script_reads := []; script_writes := [2%N]; script_waits := []; foreground := 7;
     written := []; signals := [] |}.

Lemma short_write_lost_witness :
  (write_input session0 (lit "make test") short_write_script).2 = Ok tt /\
  written (write_input session0 (lit "make test") short_write_script).1 = [(lit "make test", lit "ma")].
Proof.
  rewrite (short_write_lost session0 (lit "make test") (short_write_script : @world script_os)
    (script_write (lit "make test") short_write_script).1 2 eq_refl) by (vm_compute; reflexivity).
  split; vm_compute; reflexivity.
Defined.
