(* ===== verification/Registry.v ===== *)
(** jftermd/src/registry.rs: the session table.

    The channels and the [Notify] come from the [tokio] crate and are a
    parameter, [Tokio]: the store is the state of all channels. Each operation
    of the registry holds its mutex from the first to the last access, so an
    execution is a sequence of whole operations ([run_ops]). *)
From S2P Require Import Prelude.
From S2P Require Protocol.

(** Everything the actor needs to bind a client; [F] is [mpsc::Sender<Frame>]. *)
Record AttachRequest (F : Type) := mkAttach {
  want_chunks : usize;
  cols : u16;
  rows : u16;
  out_tx : F
}.
Arguments mkAttach {F}. Arguments want_chunks {F}. Arguments cols {F}. Arguments rows {F}.
Arguments out_tx {F}.

(** [R] is [oneshot::Sender<SessionInfo>]. *)
Inductive SessionCommand (F R : Type) :=
  | Input (bytes : list byte)
  | Resize (cols rows : u16)
  | Close (grace_ms : u32)
  | Attach (req : AttachRequest F)
  | Info (reply : R).
Arguments Input {F R}. Arguments Resize {F R}. Arguments Close {F R}.
Arguments Attach {F R}. Arguments Info {F R}.

Class Tokio := {
  store : Type;
  frame_tx : Type;
  frame_rx : Type;
  reply_tx : Type;
  reply_rx : Type;
  cmd_tx : Type;
  cmd_rx : Type;
  (** [mpsc::channel(n)] for frames and for commands. *)
  frame_channel : N -> store -> store * (frame_tx * frame_rx);
  cmd_channel : N -> store -> store * (cmd_tx * cmd_rx);
  (** [tx.try_send(frame).is_ok()]. *)
  try_send : frame_tx -> Protocol.Frame -> store -> store * bool;
  drop_tx : frame_tx -> store -> store;
  (** [tx.send(cmd).await.is_ok()]. *)
  send_cmd : cmd_tx -> SessionCommand frame_tx reply_tx -> store -> store * bool;
  (** [oneshot::channel()], and [reply.send(info)]. *)
  oneshot : store -> store * (reply_tx * reply_rx);
  reply_send : reply_tx -> Protocol.SessionInfo -> store -> store;
  notify : Type;
  notify_new : notify;
  notify_one : notify -> notify;
  (** One poll of [notified().await]: [None] while it waits. *)
  notified : notify -> option notify
}.

(** The receiving ends: one poll of [recv], or of the reply awaited, which answers
    [None] while it waits and [Some None] once every sender is gone, and the drops. *)
Class Receivers {T : Tokio} := {
  recv_cmd : cmd_rx -> store -> option (store * option (SessionCommand frame_tx reply_tx));
  recv_frame : frame_rx -> store -> option (store * option Protocol.Frame);
  recv_reply : reply_rx -> store -> option (store * option Protocol.SessionInfo);
  drop_cmd_rx : cmd_rx -> store -> store;
  drop_frame_rx : frame_rx -> store -> store;
  drop_reply_rx : reply_rx -> store -> store;
  drop_cmd_tx : cmd_tx -> store -> store
}.

(** The two ends of a command channel come from one call. *)
Definition linked `{Tokio} (tx : cmd_tx) (rx : cmd_rx) : Prop :=
  exists n st, (cmd_channel n st).2 = (tx, rx).

(** [Notify] keeps one permit: a wait that follows a [notify_one] completes and
    takes it, and a wait with no permit does not complete. *)
Class NotifyLaws {T : Tokio} := {
  notified_new : notified notify_new = None;
  notified_one n : exists n', notified (notify_one n) = Some n' /\ notified n' = None
}.

Definition MAX_SESSIONS : usize := 256.

Record Registry `{Tokio} := mkRegistry {
  sessions : gmap string cmd_tx;
  ended : notify;
  max_sessions : usize
}.

Inductive Bind `{Tokio} :=
  | Existing (tx : cmd_tx)
  | Created (tx : cmd_tx) (rx : cmd_rx)
  | Rejected.

Section registry.
Context `{Tokio}.

Definition with_max_sessions (n : usize) : Registry :=
  {| sessions := ∅; ended := notify_new; max_sessions := n |}.

Definition new : Registry := with_max_sessions MAX_SESSIONS.

Definition attach_or_create (id : string) (r : Registry) (st : store) : store * Registry * Bind :=
  match sessions r !! id with
  | Some tx => (st, r, Existing tx)
  | None =>
      if (max_sessions r <=? N.of_nat (size (sessions r)))%N then (st, r, Rejected)
      else
        let '(st, (tx, rx)) := cmd_channel 256 st in
        (st, {| sessions := <[id := tx]> (sessions r); ended := notify_one (ended r);
                max_sessions := max_sessions r |}, Created tx rx)
  end.

Definition remove (id : string) (r : Registry) : Registry :=
  {| sessions := delete id (sessions r); ended := notify_one (ended r);
     max_sessions := max_sessions r |}.

(** In the map's own order. *)
Definition handles (r : Registry) : list (string * cmd_tx) := map_to_list (sessions r).

Definition is_empty (r : Registry) : bool := bool_decide (sessions r = ∅).

(** One poll of [wait_for_change]. *)
Definition wait_for_change (r : Registry) : option Registry :=
  n ← notified (ended r);
  Some {| sessions := sessions r; ended := n; max_sessions := max_sessions r |}.
End registry.

(** * Any interleaving of the operations *)

Inductive reg_op := OpAttach (id : string) | OpRemove (id : string).

Section runs.
Context `{Tokio}.

Definition run_op (op : reg_op) (c : Registry * store) : Registry * store * option Bind :=
  match op with
  | OpAttach id => let '(st, r, b) := attach_or_create id c.1 c.2 in (r, st, Some b)
  | OpRemove id => (remove id c.1, c.2, None)
  end.

Fixpoint run_ops (ops : list reg_op) (c : Registry * store) : Registry * store * list (option Bind) :=
  match ops with
  | [] => (c, [])
  | op :: ops =>
      let '(c1, b) := run_op op c in
      let '(c2, bs) := run_ops ops c1 in (c2, b :: bs)
  end.

Lemma run_ops_app a b c :
  run_ops (a ++ b) c =
    ((run_ops b (run_ops a c).1).1, (run_ops a c).2 ++ (run_ops b (run_ops a c).1).2).
Proof.
  revert c. induction a as [|op a IH]; intros c; simpl; [by destruct (run_ops b c)|].
  destruct (run_op op c) as [c1 x]. rewrite IH. by destruct (run_ops a c1).
Qed.

Definition registry_wf (r : Registry) : Prop :=
  (N.of_nat (size (sessions r)) <= max_sessions r)%N.

Lemma run_op_wf op c :
  registry_wf c.1 -> registry_wf (run_op op c).1.1 /\
    max_sessions (run_op op c).1.1 = max_sessions c.1.
Proof.
  unfold registry_wf. intros Hw. destruct op as [id|id]; simpl.
  - unfold attach_or_create. destruct (sessions c.1 !! id) eqn:E; [done|].
    destruct (N.leb_spec (max_sessions c.1) (N.of_nat (size (sessions c.1)))); [done|].
    destruct (cmd_channel 256 c.2) as [st [tx rx]]. simpl.
    rewrite map_size_insert_None by done. split; [lia|done].
  - split; [|done]. destruct (sessions c.1 !! id) eqn:E.
    + rewrite map_size_delete_Some by eauto. lia.
    + by rewrite delete_id.
Qed.

Lemma registry_ops_wf ops c :
  registry_wf c.1 -> registry_wf (run_ops ops c).1.1 /\
    max_sessions (run_ops ops c).1.1 = max_sessions c.1.
Proof.
  revert c. induction ops as [|op ops IH]; intros c Hw; [done|]. cbn [run_ops].
  destruct (run_op_wf op c Hw) as [H1 H2]. destruct (run_op op c) as [c1 b].
  destruct (IH c1 H1) as [H3 H4]. destruct (run_ops ops c1). simpl in *. split; [done|congruence].
Qed.

Definition removes (id : string) (op : reg_op) : bool :=
  match op with OpRemove i => bool_decide (i = id) | OpAttach _ => false end.

(** An entry stays until its own id is removed. *)
Lemma run_ops_keeps id tx ops c :
  sessions c.1 !! id = Some tx -> forallb (fun op => negb (removes id op)) ops = true ->
  sessions (run_ops ops c).1.1 !! id = Some tx.
Proof.
  revert c. induction ops as [|op ops IH]; intros c Hc Hops; [done|]. cbn [forallb run_ops] in *.
  apply andb_true_iff in Hops as [Hop Hops].
  assert (Hc1 : sessions (run_op op c).1.1 !! id = Some tx).
  { destruct op as [i|i]; simpl in *.
    - unfold attach_or_create. destruct (sessions c.1 !! i) eqn:E; [done|].
      destruct (_ <=? _)%N; [done|]. destruct (cmd_channel 256 c.2) as [st [tx' rx]]. simpl.
      rewrite lookup_insert_ne by congruence. done.
    - apply negb_true_iff, bool_decide_eq_false in Hop. by rewrite lookup_delete_ne. }
  destruct (run_op op c) as [c1 b]. specialize (IH c1 Hc1 Hops). by destruct (run_ops ops c1).
Qed.

(** The channel an attach answers with is the one in the table. *)
Lemma attach_bound id c tx :
  (exists rx, (run_op (OpAttach id) c).2 = Some (Created tx rx)) \/
  (run_op (OpAttach id) c).2 = Some (Existing tx) ->
  sessions (run_op (OpAttach id) c).1.1 !! id = Some tx.
Proof.
  simpl. unfold attach_or_create. destruct (sessions c.1 !! id) as [tx0|] eqn:E.
  - intros [[rx Hx]|Hx]; simpl in *; by simplify_eq.
  - destruct (_ <=? _)%N; [intros [[rx Hx]|Hx]; done|].
    destruct (cmd_channel 256 c.2) as [st [tx1 rx1]]. simpl.
    intros [[rx [= -> _]]|Hx]; [|done]. by rewrite lookup_insert, decide_True.
Qed.
End runs.

(** Whatever attaches and removals run, the table never holds more than the
    cap, so never more than 256 shells; at the cap a new id is refused and
    nothing changes, while an id in the table still attaches. *)
Theorem session_cap `{Tokio} n ops st :
  let c := (run_ops ops (with_max_sessions n, st)).1 in
  (N.of_nat (size (sessions c.1)) <= n)%N /\
  (forall id, sessions c.1 !! id = None ->
     (attach_or_create id c.1 c.2).2 = Rejected <-> N.of_nat (size (sessions c.1)) = n) /\
  (forall id, N.of_nat (size (sessions c.1)) = n ->
     attach_or_create id c.1 c.2 =
       (c.2, c.1, match sessions c.1 !! id with Some tx => Existing tx | None => Rejected end)).
Proof.
  intros c. destruct (registry_ops_wf ops (with_max_sessions n, st)) as [Hw Hm].
  { unfold registry_wf. simpl. rewrite map_size_empty. lia. }
  fold c in Hw, Hm. unfold registry_wf in Hw. rewrite Hm in Hw. simpl in Hm, Hw.
  unfold attach_or_create. rewrite Hm. split; [done|]. split.
  - intros id ->. destruct (N.leb_spec n (N.of_nat (size (sessions c.1)))); simpl; [split; [lia|done]|].
    destruct (cmd_channel 256 c.2) as [st1 [tx rx]]. simpl. split; [done|lia].
  - intros id Hs. destruct (sessions c.1 !! id); [done|].
    by rewrite (proj2 (N.leb_le _ _)) by lia.
Qed.

(** C14: attach-or-open is race-free: of any number of attaches to one id, in any
    interleaving with the rest, the first that is not refused fixes the session,
    and until that id is removed every later one is bound to the same command
    channel and opens no second shell. *)
Theorem one_shell_per_id `{Tokio} id pre mid c tx :
  let first := run_op (OpAttach id) (run_ops pre c).1 in
  ((exists rx, first.2 = Some (Created tx rx)) \/ first.2 = Some (Existing tx)) ->
  forallb (fun op => negb (removes id op)) mid = true ->
  (run_op (OpAttach id) (run_ops (pre ++ OpAttach id :: mid) c).1).2 = Some (Existing tx).
Proof.
  intros first Hb Hmid. apply attach_bound in Hb.
  assert (E : sessions (run_ops (pre ++ OpAttach id :: mid) c).1.1 !! id = Some tx).
  { rewrite run_ops_app. cbn [run_ops fst]. fold first in Hb |- *.
    destruct first as [c1 b]. pose proof (run_ops_keeps id tx mid c1 Hb Hmid) as Hk.
    by destruct (run_ops mid c1). }
  simpl. unfold attach_or_create. by rewrite E.
Qed.

(** What the channels of frames promise: [accepted] is everything a queue ever
    took, in order, and [free] the slots left. A send is all or nothing, succeeds
    while a slot is free, and touches no other queue. *)
Class ChannelLaws {T : Tokio} := {
  accepted : store -> frame_tx -> list Protocol.Frame;
  free : store -> frame_tx -> nat;
  send_accepted tx f st st' : try_send tx f st = (st', true) ->
    accepted st' tx = accepted st tx ++ [f];
  send_refused tx f st st' : try_send tx f st = (st', false) ->
    accepted st' tx = accepted st tx;
  send_other tx f st tx' : tx' <> tx -> accepted (try_send tx f st).1 tx' = accepted st tx';
  send_free tx f st n : free st tx = S n ->
    exists st', try_send tx f st = (st', true) /\ free st' tx = n;
  drop_accepted tx st tx' : accepted (drop_tx tx st) tx' = accepted st tx';
  reply_accepted r i st tx : accepted (reply_send r i st) tx = accepted st tx
}.

(** What the command channels promise: [commands] is everything a channel ever
    took, in order. A send is all or nothing: it fails once the receiver is gone,
    and then takes nothing. A new channel is empty, sends to one channel leave
    the others alone, and creating channels of frames or of replies touches no
    command channel. *)
Class CommandLaws {T : Tokio} := {
  commands : store -> cmd_tx -> list (SessionCommand frame_tx reply_tx);
  cmd_accepted tx c st st' : send_cmd tx c st = (st', true) -> commands st' tx = commands st tx ++ [c];
  cmd_refused tx c st st' : send_cmd tx c st = (st', false) -> commands st' tx = commands st tx;
  cmd_new n st : commands (cmd_channel n st).1 (cmd_channel n st).2.1 = [];
  cmd_frame_channel n st tx : commands (frame_channel n st).1 tx = commands st tx
}.

(** An operation after which no channel has taken a command it had not. *)
Definition sends_nothing `{CommandLaws} (f : store -> store) : Prop :=
  forall st tx c, c ∈ commands (f st) tx -> c ∈ commands st tx.

(** What the receivers promise: a command that comes out of a channel was sent
    into it, a command is sent to one channel, and nothing else sends any. *)
Class ReceiveLaws {T : Tokio} {C : CommandLaws} {R : Receivers} := {
  recv_sent tx rx st st' c : linked tx rx -> recv_cmd rx st = Some (st', Some c) -> c ∈ commands st tx;
  send_only tx c st tx' x : x ∈ commands (send_cmd tx c st).1 tx' ->
    x ∈ commands st tx' \/ (tx' = tx /\ x = c);
  recv_cmd_quiet rx : sends_nothing (fun st => match recv_cmd rx st with Some (st, _) => st | None => st end);
  recv_frame_quiet rx : sends_nothing (fun st => match recv_frame rx st with Some (st, _) => st | None => st end);
  cmd_channel_quiet n : sends_nothing (fun st => (cmd_channel n st).1);
  try_send_quiet tx f : sends_nothing (fun st => (try_send tx f st).1);
  oneshot_quiet : sends_nothing (fun st => (oneshot st).1);
  reply_quiet r i : sends_nothing (reply_send r i);
  drop_tx_quiet tx : sends_nothing (drop_tx tx);
  drop_cmd_rx_quiet rx : sends_nothing (drop_cmd_rx rx);
  drop_frame_rx_quiet rx : sends_nothing (drop_frame_rx rx);
  recv_reply_quiet rx : sends_nothing (fun st => match recv_reply rx st with Some (st, _) => st | None => st end);
  drop_reply_rx_quiet rx : sends_nothing (drop_reply_rx rx);
  drop_cmd_tx_quiet tx : sends_nothing (drop_cmd_tx tx)
}.

(** The two ends of a queue of frames come from one call. *)
Definition paired `{Tokio} (tx : frame_tx) (rx : frame_rx) : Prop :=
  exists n st, (frame_channel n st).2 = (tx, rx).

(** What of the channels moves: what each queue of frames took ([accepted]) and how
    much of it came out, what each command channel took ([commands]) and how much
    of it came out, and which queues ([allocated]) and channels ([opened]) there
    are. Ends of channels can be told
    apart. *)
Class Traffic {T : Tokio} := {
  frame_tx_dec :: EqDecision frame_tx;
  frame_rx_dec :: EqDecision frame_rx;
  cmd_tx_dec :: EqDecision cmd_tx;
  popped : store -> frame_rx -> nat;
  handled : store -> cmd_tx -> nat;
  allocated : store -> frame_tx -> Prop;
  opened : store -> cmd_tx -> Prop
}.

(** An operation may move only what is named. *)
Record moves {T : Tokio} {L : ChannelLaws} {C : CommandLaws} {F : Traffic} (accepts : frame_tx -> Prop) (takes : cmd_tx -> Prop)
    (hands : cmd_tx -> Prop) (pops : frame_rx -> Prop) (st st' : store) : Prop := mkMoves {
  still_accepted tx : ~ accepts tx -> accepted st' tx = accepted st tx;
  still_commands tx : ~ takes tx -> commands st' tx = commands st tx;
  still_handled tx : ~ hands tx -> handled st' tx = handled st tx;
  still_popped rx : ~ pops rx -> popped st' rx = popped st rx;
  still_allocated tx : allocated st tx -> allocated st' tx;
  still_opened tx : opened st tx -> opened st' tx
}.

Abbreviation nothing := (fun _ => False).

(** What the channels promise about both their ends: a queue is first in, first
    out, a fresh queue is new and empty, an end belongs to one channel, and no
    operation reaches a channel it is not given. *)
Class TrafficLaws {T : Tokio} {L : ChannelLaws} {C : CommandLaws} {R : Receivers} {F : Traffic} := {
  paired_one tx tx' rx : paired tx rx -> paired tx' rx -> tx = tx';
  linked_one tx tx' rx : linked tx rx -> linked tx' rx -> tx = tx';
  flow_reply r i st : moves nothing nothing nothing nothing st (reply_send r i st);
  flow_oneshot st : moves nothing nothing nothing nothing st (oneshot st).1;
  flow_drop_tx tx st : moves nothing nothing nothing nothing st (drop_tx tx st);
  flow_drop_cmd_rx rx st : moves nothing nothing nothing nothing st (drop_cmd_rx rx st);
  flow_drop_frame_rx rx st : moves nothing nothing nothing nothing st (drop_frame_rx rx st);
  flow_recv_reply rx st st' i : recv_reply rx st = Some (st', i) -> moves nothing nothing nothing nothing st st';
  flow_drop_reply_rx rx st : moves nothing nothing nothing nothing st (drop_reply_rx rx st);
  flow_drop_cmd_tx tx st : moves nothing nothing nothing nothing st (drop_cmd_tx tx st);
  flow_try_send tx f st : moves (eq tx) nothing nothing nothing st (try_send tx f st).1;
  flow_send_cmd tx c st : moves nothing (eq tx) nothing nothing st (send_cmd tx c st).1;
  flow_recv_cmd tx rx st st' c : linked tx rx -> recv_cmd rx st = Some (st', c) ->
    moves nothing nothing (eq tx) nothing st st' /\
    match c with
    | Some c => commands st tx !! handled st tx = Some c /\ handled st' tx = S (handled st tx)
    | None => handled st' tx = handled st tx
    end;
  flow_recv_frame tx rx st st' f : paired tx rx -> recv_frame rx st = Some (st', f) ->
    moves nothing nothing nothing (eq rx) st st' /\
    match f with
    | Some f => accepted st tx !! popped st rx = Some f /\ popped st' rx = S (popped st rx)
    | None => popped st' rx = popped st rx
    end;
  flow_frame_channel n st st' tx rx : frame_channel n st = (st', (tx, rx)) ->
    moves (eq tx) nothing nothing (eq rx) st st' /\
    ~ allocated st tx /\ allocated st' tx /\ accepted st' tx = [] /\ popped st' rx = 0;
  flow_cmd_channel n st st' tx rx : cmd_channel n st = (st', (tx, rx)) ->
    moves nothing (eq tx) (eq tx) nothing st st' /\ ~ opened st tx /\ opened st' tx
}.

(** The two ends of a reply come from one call. *)
Definition twins `{Tokio} (r : reply_tx) (rx : reply_rx) : Prop := exists st, (oneshot st).2 = (r, rx).

(** What of the replies moves: which there are, and what was sent to one. *)
Class Replies {T : Tokio} := {
  issued : store -> reply_tx -> Prop;
  replied : store -> reply_rx -> Protocol.SessionInfo -> Prop
}.

(** An operation that answers nobody. *)
Definition answers_nobody `{Replies} (st st' : store) : Prop :=
  (forall r, issued st r -> issued st' r) /\ forall rx i, replied st' rx i -> replied st rx i.

(** What the replies promise: a reply asked for is new and not sent yet, its two
    ends belong together, what comes out was sent into it, and no other operation
    sends one. *)
Class ReplyLaws {T : Tokio} {R : Receivers} {P : Replies} := {
  twins_one r r' rx : twins r rx -> twins r' rx -> r = r';
  oneshot_new st st' r rx : oneshot st = (st', (r, rx)) ->
    ~ issued st r /\ issued st' r /\ (forall i, ~ replied st' rx i) /\ answers_nobody st st';
  reply_sent r i st : (forall r', issued st r' -> issued (reply_send r i st) r') /\
    forall rx j, replied (reply_send r i st) rx j -> replied st rx j \/ (twins r rx /\ j = i);
  reply_received rx st st' i : recv_reply rx st = Some (st', Some i) -> replied st rx i;
  nobody_recv_reply rx st st' i : recv_reply rx st = Some (st', i) -> answers_nobody st st';
  nobody_drop_reply_rx rx st : answers_nobody st (drop_reply_rx rx st);
  nobody_drop_tx tx st : answers_nobody st (drop_tx tx st);
  nobody_drop_cmd_rx rx st : answers_nobody st (drop_cmd_rx rx st);
  nobody_drop_frame_rx rx st : answers_nobody st (drop_frame_rx rx st);
  nobody_drop_cmd_tx tx st : answers_nobody st (drop_cmd_tx tx st);
  nobody_try_send tx f st : answers_nobody st (try_send tx f st).1;
  nobody_send_cmd tx c st : answers_nobody st (send_cmd tx c st).1;
  nobody_recv_cmd rx st st' c : recv_cmd rx st = Some (st', c) -> answers_nobody st st';
  nobody_recv_frame rx st st' f : recv_frame rx st = Some (st', f) -> answers_nobody st st';
  nobody_frame_channel n st : answers_nobody st (frame_channel n st).1;
  nobody_cmd_channel n st : answers_nobody st (cmd_channel n st).1
}.

(** Which replies will never come: their sender is gone, with nothing sent. *)
Class Losses {T : Tokio} := { lost : store -> reply_rx -> Prop }.

(** An operation that loses no reply. *)
Definition loses_none `{Losses} (st st' : store) : Prop := forall rx, lost st' rx -> lost st rx.

(** What the channels promise about the requests in them: a reply that does not
    come is lost, and a reply is lost only by the send that a channel refuses, or
    with the receiver of the channel that holds its request. *)
Class LossLaws {T : Tokio} {C : CommandLaws} {R : Receivers} {LS : Losses} := {
  lost_received rx st st' : recv_reply rx st = Some (st', None) -> lost st rx;
  lost_new st st' r rx : oneshot st = (st', (r, rx)) -> (forall tx, Info r ∉ commands st tx) -> ~ lost st' rx;
  lost_send tx c st rx : lost (send_cmd tx c st).1 rx ->
    lost st rx \/ (send_cmd tx c st).2 = false /\ exists r, c = Info r /\ twins r rx;
  lost_drop_cmd_rx tx rx0 st rx : linked tx rx0 -> lost (drop_cmd_rx rx0 st) rx ->
    lost st rx \/ exists r, twins r rx /\ Info r ∈ commands st tx;
  loses_oneshot st : loses_none st (oneshot st).1;
  loses_reply r i st : loses_none st (reply_send r i st);
  loses_recv_reply rx st st' i : recv_reply rx st = Some (st', i) -> loses_none st st';
  loses_drop_reply_rx rx st : loses_none st (drop_reply_rx rx st);
  loses_drop_tx tx st : loses_none st (drop_tx tx st);
  loses_drop_frame_rx rx st : loses_none st (drop_frame_rx rx st);
  loses_drop_cmd_tx tx st : loses_none st (drop_cmd_tx tx st);
  loses_try_send tx f st : loses_none st (try_send tx f st).1;
  loses_recv_cmd rx st st' c : recv_cmd rx st = Some (st', c) -> loses_none st st';
  loses_recv_frame rx st st' f : recv_frame rx st = Some (st', f) -> loses_none st st';
  loses_frame_channel n st : loses_none st (frame_channel n st).1;
  loses_cmd_channel n st : loses_none st (cmd_channel n st).1
}.

Section moving.
Context {T : Tokio} {L : ChannelLaws} {C : CommandLaws} {F : Traffic}.

Lemma moves_refl a t h d st : moves a t h d st st.
Proof. by split. Qed.

Lemma moves_trans a t h d st1 st2 st3 :
  moves a t h d st1 st2 -> moves a t h d st2 st3 -> moves a t h d st1 st3.
Proof.
  intros [A1 A2 A3 A4 A5 A6] [B1 B2 B3 B4 B5 B6]. split; intros.
  - by rewrite B1, A1.
  - by rewrite B2, A2.
  - by rewrite B3, A3.
  - by rewrite B4, A4.
  - by apply B5, A5.
  - by apply B6, A6.
Qed.

Lemma moves_weaken (a a' t t' h h' : _ -> Prop) (d d' : frame_rx -> Prop) st st' :
  (forall x, a x -> a' x) -> (forall x, t x -> t' x) -> (forall x, h x -> h' x) -> (forall x, d x -> d' x) ->
  moves a t h d st st' -> moves a' t' h' d' st st'.
Proof. intros Ha Ht Hh Hd [A1 A2 A3 A4 A5 A6]. split; auto. Qed.

Lemma moves_nothing a t h d st st' : moves nothing nothing nothing nothing st st' -> moves a t h d st st'.
Proof. by apply moves_weaken. Qed.
End moving.
