(* ===== verification/TokioInstance.v ===== *)
(** Concrete channels, for the witnesses.

    Not a model of the [tokio] crate: a store of bounded queues, which keep what
    they were sent, and a [Notify] that is its permit. It shows that the laws of [Registry] can
    hold; the theorems are for any [Tokio]. *)
From S2P Require Import Prelude Registry.
From S2P Require Protocol.

(** [queue] is everything the queue ever took, [taken] how much was received;
    [dropped] says that the sender is gone, [deaf] that the receiver is. *)
Record Queue := mkQueue {
  capacity : nat;
  queue : list Protocol.Frame;
  taken : nat;
  dropped : bool;
  deaf : bool
}.

Record Commands := mkCommands {
  log : list (SessionCommand nat nat);
  handed : nat;
  closed : bool
}.

Record Channels := mkChannels {
  next_id : nat;
  queues : gmap nat Queue;
  sent : gmap nat Commands;
  replies : gmap nat Protocol.SessionInfo
}.

Definition no_channels : Channels :=
  {| next_id := 0; queues := ∅; sent := ∅; replies := ∅ |}.

Definition new_queue (n : nat) : Queue :=
  {| capacity := n; queue := []; taken := 0; dropped := false; deaf := false |}.
Definition new_commands : Commands := {| log := []; handed := 0; closed := false |}.

Definition queue_of (st : Channels) (tx : nat) : Queue := default (new_queue 0) (queues st !! tx).

Definition set_queue (tx : nat) (q : Queue) (st : Channels) : Channels :=
  {| next_id := next_id st; queues := <[tx := q]> (queues st); sent := sent st; replies := replies st |}.

Definition fresh_id (st : Channels) : Channels :=
  {| next_id := S (next_id st); queues := queues st; sent := sent st; replies := replies st |}.

(** A new reply, not sent. *)
Definition fresh_reply (st : Channels) : Channels :=
  {| next_id := S (next_id st); queues := queues st; sent := sent st; replies := delete (next_id st) (replies st) |}.

Definition sent_to (st : Channels) (tx : nat) : Commands := default new_commands (sent st !! tx).

Definition set_sent (tx : nat) (cs : Commands) (st : Channels) : Channels :=
  {| next_id := next_id st; queues := queues st; sent := <[tx := cs]> (sent st); replies := replies st |}.

Definition queue_send (tx : nat) (f : Protocol.Frame) (st : Channels) : Channels * bool :=
  let q := queue_of st tx in
  if negb (deaf q) && (length (queue q) <? taken q + capacity q)
  then (set_queue tx {| capacity := capacity q; queue := queue q ++ [f]; taken := taken q;
                        dropped := dropped q; deaf := deaf q |} st, true)
  else (st, false).

Definition queue_drop (tx : nat) (st : Channels) : Channels :=
  let q := queue_of st tx in
  set_queue tx {| capacity := capacity q; queue := queue q; taken := taken q; dropped := true;
                  deaf := deaf q |} st.

Definition queue_recv (rx : nat) (st : Channels) : option (Channels * option Protocol.Frame) :=
  let q := queue_of st rx in
  match queue q !! taken q with
  | Some f => Some (set_queue rx {| capacity := capacity q; queue := queue q; taken := S (taken q);
                                    dropped := dropped q; deaf := deaf q |} st, Some f)
  | None => if dropped q then Some (st, None) else None
  end.

Definition queue_deafen (rx : nat) (st : Channels) : Channels :=
  let q := queue_of st rx in
  set_queue rx {| capacity := capacity q; queue := queue q; taken := taken q; dropped := dropped q;
                  deaf := true |} st.

Definition command_send (tx : nat) (c : SessionCommand nat nat) (st : Channels) : Channels * bool :=
  let q := sent_to st tx in
  if closed q then (st, false)
  else (set_sent tx {| log := log q ++ [c]; handed := handed q; closed := closed q |} st, true).

Definition command_recv (rx : nat) (st : Channels) : option (Channels * option (SessionCommand nat nat)) :=
  let q := sent_to st rx in
  match log q !! handed q with
  | Some c => Some (set_sent rx {| log := log q; handed := S (handed q); closed := closed q |} st, Some c)
  | None => None
  end.

Definition command_close (rx : nat) (st : Channels) : Channels :=
  let q := sent_to st rx in
  set_sent rx {| log := log q; handed := handed q; closed := true |} st.

#[export] Instance queue_tokio : Tokio :=
  {| store := Channels; frame_tx := nat; frame_rx := nat; reply_tx := nat; reply_rx := nat; cmd_tx := nat; cmd_rx := nat;
     frame_channel n st :=
       (set_queue (next_id st) (new_queue (N.to_nat n)) (fresh_id st), (next_id st, next_id st));
     cmd_channel _ st := (set_sent (next_id st) new_commands (fresh_id st), (next_id st, next_id st));
     try_send := queue_send;
     drop_tx := queue_drop;
     send_cmd := command_send;
     oneshot st := (fresh_reply st, (next_id st, next_id st));
     reply_send r i st := {| next_id := next_id st; queues := queues st; sent := sent st;
                             replies := <[r := i]> (replies st) |};
     notify := bool; notify_new := false; notify_one _ := true;
     notified n := if n then Some false else None |}.

Definition asks_for (r : nat) (c : SessionCommand nat nat) : bool :=
  match c with Info r' => r' =? r | _ => false end.

(** A request that was not taken when its receiver went. *)
Definition holds (r : nat) (q : Commands) : bool := closed q && existsb (asks_for r) (drop (handed q) (log q)).
Definition forsaken (r : nat) (st : Channels) : bool := existsb (fun p => holds r p.2) (map_to_list (sent st)).

(** The reply sent, or the end of its sender. *)
Definition reply_get (rx : nat) (st : Channels) : option (Channels * option Protocol.SessionInfo) :=
  match replies st !! rx with
  | Some i => Some (st, Some i)
  | None => if forsaken rx st then Some (st, None) else None
  end.

Lemma reply_get_cases rx st st' i :
  reply_get rx st = Some (st', i) -> st' = st /\ (replies st !! rx = i) /\ (i = None -> forsaken rx st = true).
Proof. unfold reply_get. destruct (replies st !! rx); [|destruct (forsaken rx st)]; by intros [= <- <-]. Qed.

(** The senders of a command channel are not counted: they never end. *)
#[export] Instance queue_receivers : @Receivers queue_tokio :=
  {| recv_cmd := command_recv; recv_frame := queue_recv; recv_reply := reply_get; drop_cmd_rx := command_close;
     drop_frame_rx := queue_deafen; drop_reply_rx _ st := st; drop_cmd_tx _ st := st |}.

#[export] Instance queue_notify : @NotifyLaws queue_tokio.
Proof. split; [done|]. intros n. by exists false. Qed.

Lemma queue_of_set tx q st tx' :
  queue_of (set_queue tx q st) tx' = if decide (tx = tx') then q else queue_of st tx'.
Proof. unfold queue_of, set_queue; simpl. rewrite lookup_insert. by destruct (decide _). Qed.

(** The free slots, none once the receiver is gone. *)
Definition room (st : Channels) (tx : nat) : nat :=
  let q := queue_of st tx in if deaf q then 0 else taken q + capacity q - length (queue q).

#[export] Instance queue_laws : @ChannelLaws queue_tokio.
Proof.
  refine {| accepted := fun (st : @store queue_tokio) tx => queue (queue_of st tx);
            free := fun (st : @store queue_tokio) tx => room st tx |};
    cbn [try_send drop_tx reply_send queue_tokio]; unfold queue_send, queue_drop, room; cbv zeta.
  - intros tx f st st'. destruct (_ && _); [|done]. intros [= <-].
    by rewrite queue_of_set, decide_True.
  - intros tx f st st'. destruct (_ && _); [done|]. by intros [= <-].
  - intros tx f st tx' Hne. destruct (_ && _); [|done]. cbn [fst].
    by rewrite queue_of_set, decide_False.
  - intros tx f st n. destruct (deaf (queue_of st tx)) eqn:Ed; [done|]. intros Hn.
    rewrite (proj2 (Nat.ltb_lt _ _)) by lia. eexists. split; [done|].
    rewrite queue_of_set, decide_True by done. simpl. rewrite length_app. simpl. lia.
  - intros tx st tx'. rewrite queue_of_set. case_decide; [by subst|done].
  - done.
Defined.

Lemma sent_to_set tx cs st tx' :
  sent_to (set_sent tx cs st) tx' = if decide (tx = tx') then cs else sent_to st tx'.
Proof. unfold sent_to, set_sent; simpl. rewrite lookup_insert. by destruct (decide _). Qed.

#[export] Instance queue_commands : @CommandLaws queue_tokio.
Proof.
  refine {| commands := fun (st : @store queue_tokio) (tx : @cmd_tx queue_tokio) => log (sent_to st tx) |};
    cbn [send_cmd cmd_channel frame_channel queue_tokio fst snd]; unfold command_send; cbv zeta.
  - intros tx c st st'. destruct (closed _); [done|]. intros [= <-]. by rewrite sent_to_set, decide_True.
  - intros tx c st st'. destruct (closed _); [|done]. by intros [= <-].
  - intros n st. by rewrite sent_to_set, decide_True.
  - done.
Defined.

#[export] Instance queue_receive : @ReceiveLaws queue_tokio _ _.
Proof.
  split; unfold sends_nothing;
    cbn [commands queue_commands recv_cmd recv_frame recv_reply drop_cmd_rx drop_frame_rx drop_reply_rx drop_cmd_tx queue_receivers
         send_cmd cmd_channel try_send oneshot reply_send drop_tx queue_tokio]; try done.
  - intros tx rx st st' c (n & st0 & [= <- <-]). unfold command_recv; cbv zeta.
    destruct (log _ !! _) as [c'|] eqn:E; [|done]. intros [= _ <-]. by eapply list_elem_of_lookup_2.
  - intros tx c st tx' x. unfold command_send; cbv zeta. destruct (closed _); [by left|]. cbn [fst].
    rewrite sent_to_set. case_decide as Hd; [|by left]. subst. cbn [log].
    intros [Hx|Hx%list_elem_of_singleton]%elem_of_app; [by left|by right].
  - intros rx st tx c. unfold command_recv; cbv zeta. destruct (log _ !! _); [|done].
    rewrite sent_to_set. case_decide; [by subst|done].
  - intros rx st tx c. unfold queue_recv; cbv zeta.
    destruct (queue _ !! _); [done|]. by destruct (dropped _).
  - intros n st tx c. cbn [fst]. rewrite sent_to_set. case_decide; [|done]. by intros []%elem_of_nil.
  - intros tx f st tx' c. unfold queue_send; cbv zeta. by destruct (_ && _).
  - intros rx st tx c. unfold command_close; cbv zeta. rewrite sent_to_set. case_decide; [by subst|done].
  - intros rx st tx c. cbn beta. destruct (reply_get rx st) as [[st' i]|] eqn:E; [|done].
    by apply reply_get_cases in E as (-> & _).
Qed.

#[export] Instance queue_flow : @Traffic queue_tokio :=
  {| frame_tx_dec := Nat.eq_dec : EqDecision (@frame_tx queue_tokio);
     frame_rx_dec := Nat.eq_dec : EqDecision (@frame_rx queue_tokio);
     cmd_tx_dec := Nat.eq_dec : EqDecision (@cmd_tx queue_tokio);
     popped := fun (st : @store queue_tokio) (rx : @frame_rx queue_tokio) => taken (queue_of st rx);
     handled := fun (st : @store queue_tokio) (tx : @cmd_tx queue_tokio) => handed (sent_to st tx);
     allocated := fun (st : @store queue_tokio) (tx : @frame_tx queue_tokio) => tx < next_id st;
     opened := fun (st : @store queue_tokio) (tx : @cmd_tx queue_tokio) => tx < next_id st |}.

#[local] Abbreviation qmoves := (@moves queue_tokio queue_laws queue_commands queue_flow).

Lemma set_queue_moves (a d : nat -> Prop) tx q st st1 :
  st = set_queue tx q st1 ->
  (queue q = queue (queue_of st1 tx) \/ a tx) -> (taken q = taken (queue_of st1 tx) \/ d tx) ->
  qmoves a nothing nothing d st1 st.
Proof.
  intros -> Ha Hd. split; cbn [accepted queue_laws commands queue_commands handled popped allocated opened queue_flow]; try done.
  - intros x Hx. rewrite queue_of_set. case_decide; [subst; by destruct Ha|done].
  - intros x Hx. rewrite queue_of_set. case_decide; [subst; by destruct Hd|done].
Qed.

Lemma set_sent_moves (t h : nat -> Prop) tx cs st :
  (log cs = log (sent_to st tx) \/ t tx) -> (handed cs = handed (sent_to st tx) \/ h tx) ->
  qmoves nothing t h nothing st (set_sent tx cs st).
Proof.
  intros Ht Hh. split; cbn [accepted queue_laws commands queue_commands handled popped allocated opened queue_flow]; try done.
  - intros x Hx. rewrite sent_to_set. case_decide; [subst; by destruct Ht|done].
  - intros x Hx. rewrite sent_to_set. case_decide; [subst; by destruct Hh|done].
Qed.

Lemma fresh_id_moves a t h d st : qmoves a t h d st (fresh_id st).
Proof.
  split; cbn [accepted queue_laws commands queue_commands handled popped allocated opened queue_flow]; try done.
  all: intros tx Htx; cbn [next_id fresh_id]; lia.
Qed.

Lemma fresh_reply_moves a t h d st : qmoves a t h d st (fresh_reply st).
Proof.
  split; cbn [accepted queue_laws commands queue_commands handled popped allocated opened queue_flow]; try done.
  all: intros tx Htx; cbn [next_id fresh_reply]; lia.
Qed.

#[export] Instance queue_flow_laws : @TrafficLaws queue_tokio _ _ _ _.
Proof.
  split; cbn [recv_cmd recv_frame recv_reply drop_cmd_rx drop_frame_rx drop_reply_rx drop_cmd_tx queue_receivers
      send_cmd cmd_channel try_send oneshot reply_send drop_tx frame_channel queue_tokio]; try done.
  - intros tx tx' rx (n & st & [= <- <-]) (n' & st' & [= E1 E2]). congruence.
  - intros tx tx' rx (n & st & [= <- <-]) (n' & st' & [= E1 E2]). congruence.
  - intros st. apply fresh_reply_moves.
  - intros tx st. eapply set_queue_moves; [done|by left|by left].
  - intros rx st. apply set_sent_moves; by left.
  - intros rx st. eapply set_queue_moves; [done|by left|by left].
  - intros rx st st' i (-> & _)%reply_get_cases. apply moves_refl.
  - intros tx f st. unfold queue_send; cbv zeta. destruct (_ && _); [|apply moves_refl].
    eapply set_queue_moves; [done|by right|by left].
  - intros tx c st. unfold command_send; cbv zeta. destruct (closed _); [apply moves_refl|].
    apply set_sent_moves; [by right|by left].
  - intros tx rx st st' c (n & st0 & [= <- <-]). unfold command_recv; cbv zeta.
    destruct (log _ !! _) as [x|] eqn:E; [|done]. intros [= <- <-]. split; [apply set_sent_moves; [by left|by right]|].
    split; [done|]. cbn [handled queue_flow]. by rewrite sent_to_set, decide_True.
  - intros tx rx st st' f (n & st0 & [= <- <-]). unfold queue_recv; cbv zeta.
    destruct (queue _ !! _) as [x|] eqn:E.
    + intros [= <- <-]. split; [eapply set_queue_moves; [done|by left|by right]|].
      split; [done|]. cbn [popped queue_flow]. by rewrite queue_of_set, decide_True.
    + destruct (dropped _); [|done]. intros [= <- <-]. split; [apply moves_refl|done].
  - intros n st st' tx rx [= <- <- <-]. split; [|split_and!].
    + eapply moves_trans; [apply fresh_id_moves|]. eapply set_queue_moves; [done|by right|by right].
    + cbn [allocated queue_flow]. lia.
    + cbn [allocated queue_flow set_queue fresh_id next_id]. lia.
    + cbn [accepted queue_laws]. by rewrite queue_of_set, decide_True.
    + cbn [popped queue_flow]. by rewrite queue_of_set, decide_True.
  - intros n st st' tx rx [= <- <- _]. split; [|cbn [opened queue_flow set_sent fresh_id next_id]; lia].
    eapply moves_trans; [apply fresh_id_moves|]. apply set_sent_moves; by right.
Qed.

#[export] Instance queue_replies : @Replies queue_tokio :=
  {| issued := fun (st : @store queue_tokio) (r : @reply_tx queue_tokio) => r < next_id st;
     replied := fun (st : @store queue_tokio) (rx : @reply_rx queue_tokio) i =>
       @lookup nat _ _ _ rx (replies st) = Some i |}.

Lemma nobody_of (st st' : Channels) :
  next_id st <= next_id st' -> replies st' = replies st -> @answers_nobody queue_tokio queue_replies st st'.
Proof. intros Hn Hr. split; cbn [issued replied queue_replies]; [intros r; lia|by rewrite Hr]. Qed.

#[export] Instance queue_reply_laws : @ReplyLaws queue_tokio _ _.
Proof.
  split; cbn [recv_cmd recv_frame recv_reply drop_cmd_rx drop_frame_rx drop_reply_rx drop_cmd_tx queue_receivers
      send_cmd cmd_channel try_send oneshot reply_send drop_tx frame_channel queue_tokio].
  - intros r r' rx (st & [= <- <-]) (st' & [= E1 E2]). congruence.
  - intros st st' r rx [= <- <- <-]. unfold answers_nobody. cbn [issued replied queue_replies next_id replies fresh_reply].
    split; [lia|]. split; [lia|]. split; [intros i; by rewrite lookup_delete_eq|]. split; [lia|].
    intros rx i Hi. by apply lookup_delete_Some in Hi as [_ Hi].
  - intros r i st. cbn [issued replied queue_replies next_id replies]. split; [done|]. intros rx j Hj.
    apply lookup_insert_Some in Hj as [[-> <-]|[_ Hj]]; [right|by left]. split; [|done].
    by exists {| next_id := rx; queues := ∅; sent := ∅; replies := ∅ |}.
  - intros rx st st' i (_ & Hi & _)%reply_get_cases. exact Hi.
  - intros rx st st' i (-> & _)%reply_get_cases. by apply nobody_of.
  - intros rx st. by apply nobody_of.
  - intros tx st. by apply nobody_of.
  - intros rx st. by apply nobody_of.
  - intros rx st. by apply nobody_of.
  - intros tx st. by apply nobody_of.
  - intros tx f st. unfold queue_send; cbv zeta. destruct (_ && _); by apply nobody_of.
  - intros tx c st. unfold command_send; cbv zeta. destruct (closed _); by apply nobody_of.
  - intros rx st st' c. unfold command_recv; cbv zeta. destruct (log _ !! _); [|done]. intros [= <- _]. by apply nobody_of.
  - intros rx st st' f. unfold queue_recv; cbv zeta. destruct (queue _ !! _); [intros [= <- _]; by apply nobody_of|].
    destruct (dropped _); [|done]. intros [= <- _]. by apply nobody_of.
  - intros n st. apply nobody_of; cbn; [lia|done].
  - intros n st. apply nobody_of; cbn; [lia|done].
Qed.

(** ** The replies that are lost *)

Definition dead_request (r : nat) (q : Commands) : Prop := closed q = true /\ Info r ∈ drop (handed q) (log q).

Lemma forsaken_spec r st : forsaken r st = true <-> exists tx q, sent st !! tx = Some q /\ dead_request r q.
Proof.
  unfold forsaken, dead_request. rewrite existsb_exists. split.
  - intros ([tx q] & Hin & Hh). exists tx, q. split; [by apply elem_of_map_to_list, list_elem_of_In|].
    apply andb_prop in Hh as [Hc He]. split; [done|]. apply existsb_exists in He as (c & Hc' & Hr).
    destruct c; try done. apply Nat.eqb_eq in Hr as ->. by apply list_elem_of_In.
  - intros (tx & q & Hq & Hc & Hi). exists (tx, q). split; [by apply list_elem_of_In, elem_of_map_to_list|].
    unfold holds. cbn [snd]. rewrite Hc. apply existsb_exists. exists (Info r). split; [by apply list_elem_of_In|apply Nat.eqb_refl].
Qed.

#[export] Instance queue_losses : @Losses queue_tokio :=
  {| lost := fun (st : @store queue_tokio) (rx : @reply_rx queue_tokio) => forsaken rx st = true |}.

Lemma loses_same (st st' : Channels) : sent st' = sent st -> @loses_none queue_tokio queue_losses st st'.
Proof. intros E rx. cbn [lost queue_losses]. unfold forsaken. by rewrite E. Qed.

(** A request that is lost when a channel changes was in that channel. *)
Lemma forsaken_set r tx q st :
  forsaken r (set_sent tx q st) = true -> forsaken r st = true \/ dead_request r q.
Proof.
  rewrite !forsaken_spec. intros (t & q' & Hq & Hd). cbn [sent set_sent] in Hq. apply lookup_insert_Some in Hq as [[_ <-]|[_ Hq]]; [by right|].
  left. by exists t, q'.
Qed.

Lemma dead_sent r tx st : dead_request r (sent_to st tx) -> forsaken r st = true.
Proof.
  intros Hd. apply forsaken_spec. unfold sent_to in Hd. destruct (sent st !! tx) as [q|] eqn:E; [by exists tx, q|].
  by destruct Hd as [Hc _].
Qed.

#[export] Instance queue_loss_laws : @LossLaws queue_tokio _ _ _.
Proof.
  split; cbn [lost queue_losses commands queue_commands recv_cmd recv_frame recv_reply drop_cmd_rx drop_frame_rx drop_reply_rx
      drop_cmd_tx queue_receivers send_cmd cmd_channel try_send oneshot reply_send drop_tx frame_channel queue_tokio].
  - intros rx st st' (_ & _ & Hf)%reply_get_cases. by apply Hf.
  - intros st st' r rx [= <- <- <-] Hn. rewrite forsaken_spec. intros (tx & q & Hq & _ & Hi). apply (Hn tx).
    unfold sent_to. cbn [sent fresh_reply] in Hq. rewrite Hq. eapply elem_of_sublist; [exact Hi|apply sublist_drop].
  - intros tx c st rx. unfold command_send; cbv zeta. destruct (closed (sent_to st tx)) eqn:Ec; cbn [fst snd]; [by left|].
    intros [Hf|[Hc _]]%forsaken_set; [by left|done].
  - intros tx rx0 st rx (n & st0 & [= <- <-]). unfold command_close; cbv zeta. intros [Hf|[_ Hi]]%forsaken_set; [by left|right].
    exists rx. split; [by exists {| next_id := rx; queues := ∅; sent := ∅; replies := ∅ |}|].
    eapply elem_of_sublist; [exact Hi|apply sublist_drop].
  - intros st. by apply loses_same.
  - intros r i st. by apply loses_same.
  - intros rx st st' i (-> & _)%reply_get_cases. by apply loses_same.
  - intros rx st. by apply loses_same.
  - intros tx st. by apply loses_same.
  - intros rx st. by apply loses_same.
  - intros tx st. by apply loses_same.
  - intros tx f st. unfold queue_send; cbv zeta. destruct (_ && _); by apply loses_same.
  - intros rx st st' c. unfold command_recv; cbv zeta. destruct (log _ !! _) as [c'|] eqn:El; [|done]. intros [= <- _] r.
    intros [Hf|[Hc Hi]]%forsaken_set; [done|]. apply (dead_sent _ rx). split; [exact Hc|].
    cbn [handed log] in Hi. rewrite (drop_S _ _ _ El). by right.
  - intros rx st st' f. unfold queue_recv; cbv zeta. destruct (queue _ !! _); [intros [= <- _]; by apply loses_same|].
    destruct (dropped _); [|done]. intros [= <- _]. by apply loses_same.
  - intros n st. by apply loses_same.
  - intros n st rx. intros [Hf|[Hc _]]%forsaken_set; done.
Qed.

Lemma session_cap_witness :
  let ops := [OpAttach "a"; OpAttach "b"; OpAttach "c"] in
  let c := (run_ops ops (with_max_sessions 2, no_channels : @store queue_tokio)).1 in
  (attach_or_create "c" c.1 c.2).2 = Rejected /\
  attach_or_create "a" c.1 c.2 = (c.2, c.1, Existing 0).
Proof.
  cbv zeta.
  destruct (session_cap 2 [OpAttach "a"; OpAttach "b"; OpAttach "c"] (no_channels : @store queue_tokio))
    as (_ & Hr & He).
  split.
  - apply Hr; vm_compute; reflexivity.
  - assert (Ea : sessions (run_ops [OpAttach "a"; OpAttach "b"; OpAttach "c"]
      (with_max_sessions 2, no_channels : @store queue_tokio)).1.1 !! ("a" : string) = Some (0 : @cmd_tx queue_tokio))
      by (vm_compute; reflexivity).
    rewrite He by (vm_compute; reflexivity). rewrite Ea. reflexivity.
Defined.

Lemma one_shell_per_id_witness :
  (run_op (OpAttach "a")
    (run_ops ([] ++ OpAttach "a" :: [OpRemove "b"; OpAttach "b"])
       (with_max_sessions 9, no_channels : @store queue_tokio)).1).2 = Some (Existing 0).
Proof.
  apply (one_shell_per_id "a" [] [OpRemove "b"; OpAttach "b"]
           (with_max_sessions 9, no_channels : @store queue_tokio)); [|reflexivity].
  left. exists 0. reflexivity.
Defined.
