(* ===== verification/Server.v ===== *)
(** jftermd/src/server.rs: connections, and the actor that owns a session.

    The kernel ([Os]), the channels ([Tokio]), the engine and the JSON codecs
    are parameters; instants are milliseconds. The actor's [select!] loop is a
    function of what is ready ([Ready]): [select] takes the first arm that is
    enabled and ready, in the order of the source ([biased]), and runs its
    handler. A [None] is a panic, or a drain beyond the fuel. *)
From S2P Require Import Prelude Status Engine Pty Protocol Registry.
From S2P Require Session.

Record ServerOpts := mkOpts {
  dead_grace : N;
  exit_grace : N;
  out_queue : usize;
  status_poll : N
}.

Definition default_opts : ServerOpts :=
  {| dead_grace := 30000; exit_grace := 5000; out_queue := 1024; status_poll := 300 |}.

(** ** Frames to the client *)

Section frames.
Context `{Tokio} `{!Json StatusMsg, !Json ExitMsg}.

(** [.expect("StatusMsg always serializes")]. *)
Definition status_frame (s : StatusSnapshot) : option Frame :=
  match control Status {| msg_running := running s; msg_progress := progress s |} with
  | Ok f => Some f
  | Err _ => None
  end.

Definition exit_frame (code : Z) : option Frame :=
  match control Exit {| exit_status := code |} with
  | Ok f => Some f
  | Err _ => None
  end.

Definition push_or_drop (client : option frame_tx) (frame : Frame) (st : store) :
    store * option frame_tx :=
  match client with
  | Some tx =>
      let '(st, sent) := try_send tx frame st in
      if sent then (st, client) else (drop_tx tx st, None)
  | None => (st, None)
  end.

Definition forward_data (client : option frame_tx) (data : list byte) (st : store) :
    store * option frame_tx :=
  foldl (fun '(st, client) f => push_or_drop client f st) (st, client) (frame_data data).

(** [for f in .. { let _ = tx.try_send(f); }]. *)
Definition send_all (tx : frame_tx) (fs : list Frame) (st : store) : store :=
  foldl (fun st f => (try_send tx f st).1) st fs.
End frames.

(** ** The merged status *)

Record RunningInputs := mkInputs {
  has_marking : bool;
  engine_running : bool;
  in_poll_running : bool
}.

Definition merge_running (i : RunningInputs) : bool :=
  if has_marking i then engine_running i else in_poll_running i.

Definition effective_status `{Engine} (s : Session.Session) (poll_running : bool) : StatusSnapshot :=
  let snap := Session.status s in
  {| running := merge_running {| has_marking := Session.has_prompt_marking s;
                                 engine_running := running snap;
                                 in_poll_running := poll_running |};
     progress := progress snap |}.

(** ** The actor *)

Record Actor `{Engine, Tokio} := mkActor {
  session : Session.Session;
  client : option frame_tx;
  last_status : option StatusSnapshot;
  poll_running : bool;
  grace_deadline : option N;
  closing : bool;
  kill_deadline : option N
}.

(** What is ready when the loop polls: a received command ([Some None] when
    every sender is gone), the readiness of the master, a tick, the time. *)
Record Ready `{Tokio} := mkReady {
  r_cmd : option (option (SessionCommand frame_tx reply_tx));
  r_readable : option bool;
  r_tick : bool;
  r_now : N
}.

(** The outcome of an arm: the loop goes on, or [break]s. *)
Inductive Flow `{Engine, Tokio} :=
  | Continue (a : Actor)
  | Break (a : Actor).

Section actor.
Context `{Engine, Os, Tokio} `{!Json StatusMsg, !Json ExitMsg}.

Definition Actor_new (s : Session.Session) : Actor :=
  {| session := s; client := None; last_status := None; poll_running := false;
     grace_deadline := None; closing := false; kill_deadline := None |}.

Definition set_session (s : Session.Session) (a : Actor) : Actor :=
  {| session := s; client := client a; last_status := last_status a; poll_running := poll_running a;
     grace_deadline := grace_deadline a; closing := closing a; kill_deadline := kill_deadline a |}.
Definition set_client (c : option frame_tx) (a : Actor) : Actor :=
  {| session := session a; client := c; last_status := last_status a; poll_running := poll_running a;
     grace_deadline := grace_deadline a; closing := closing a; kill_deadline := kill_deadline a |}.
Definition set_last_status (l : option StatusSnapshot) (a : Actor) : Actor :=
  {| session := session a; client := client a; last_status := l; poll_running := poll_running a;
     grace_deadline := grace_deadline a; closing := closing a; kill_deadline := kill_deadline a |}.
Definition set_poll_running (b : bool) (a : Actor) : Actor :=
  {| session := session a; client := client a; last_status := last_status a; poll_running := b;
     grace_deadline := grace_deadline a; closing := closing a; kill_deadline := kill_deadline a |}.
Definition set_grace_deadline (d : option N) (a : Actor) : Actor :=
  {| session := session a; client := client a; last_status := last_status a; poll_running := poll_running a;
     grace_deadline := d; closing := closing a; kill_deadline := kill_deadline a |}.
Definition set_closing (b : bool) (a : Actor) : Actor :=
  {| session := session a; client := client a; last_status := last_status a; poll_running := poll_running a;
     grace_deadline := grace_deadline a; closing := b; kill_deadline := kill_deadline a |}.
Definition set_kill_deadline (d : option N) (a : Actor) : Actor :=
  {| session := session a; client := client a; last_status := last_status a; poll_running := poll_running a;
     grace_deadline := grace_deadline a; closing := closing a; kill_deadline := d |}.

Definition attach_client (s : Session.Session) (c : option frame_tx) (poll : bool)
    (req : AttachRequest frame_tx) (w : world) (st : store) :
    option (world * store * Session.Session * option frame_tx) :=
  let '(w, s, _) := Session.resize (cols req) (rows req) s w in
  let replay := Session.replay_for_attach (want_chunks req) s in
  let st := send_all (out_tx req) (frame_data (Session.replay_data replay)) st in
  f ← status_frame (effective_status s poll);
  let st := (try_send (out_tx req) f st).1 in
  st ← match Session.lifecycle s with
       | Session.Dead status => f ← exit_frame status; Some (try_send (out_tx req) f st).1
       | Session.Live => Some st
       end;
  let st := match c with Some old => drop_tx old st | None => st end in
  Some (w, st, s, Some (out_tx req)).

(** The refresh of the fallback, which asks the kernel only while it counts. *)
Definition refresh_poll (a : Actor) (w : world) : world * Actor :=
  let '(w, b) := Session.poll_running (session a) w in (w, set_poll_running b a).

(** [if last_status != Some(eff) { push; last_status = Some(eff) }]. *)
Definition push_status (a : Actor) (st : store) : option (store * Actor) :=
  let eff := effective_status (session a) (poll_running a) in
  if bool_decide (last_status a = Some eff) then Some (st, a)
  else
    f ← status_frame eff;
    let '(st, c) := push_or_drop (client a) f st in
    Some (st, set_last_status (Some eff) (set_client c a)).

Definition on_close (now : N) (grace_ms : u32) (a : Actor) (w : world) (st : store) :
    option (Flow * world * store) :=
  let '(w, _) := Session.hangup (session a) w in
  let a := set_closing true a in
  let a := if (0 <? grace_ms)%N then set_kill_deadline (Some (now + grace_ms)%N) a else a in
  if Session.is_dead (session a) then
    let code := match Session.lifecycle (session a) with
                | Session.Dead status => status
                | Session.Live => 0%Z
                end in
    match client a with
    | Some tx =>
        f ← exit_frame code;
        let st := drop_tx tx (try_send tx f st).1 in
        Some (Break (set_client None a), w, st)
    | None => Some (Break a, w, st)
    end
  else Some (Continue a, w, st).

Definition on_attach (req : AttachRequest frame_tx) (a : Actor) (w : world) (st : store) :
    option (Flow * world * store) :=
  let '(w, a) := if Session.has_prompt_marking (session a) then (w, a) else refresh_poll a w in
  '(w, st, s, c) ← attach_client (session a) (client a) (poll_running a) req w st;
  let a := set_client c (set_session s a) in
  let a := set_last_status (Some (effective_status (session a) (poll_running a))) a in
  Some (if Session.is_dead (session a) then Break a else Continue a, w, st).

(** [match cmd]. *)
Definition on_cmd (now : N) (cmd : option (SessionCommand frame_tx reply_tx)) (a : Actor)
    (w : world) (st : store) : option (Flow * world * store) :=
  match cmd with
  | None => Some (Break a, w, st)
  | Some (Registry.Input bytes) =>
      let '(w, _) := Session.write_input (session a) bytes w in Some (Continue a, w, st)
  | Some (Registry.Resize c r) =>
      let '(w, s, _) := Session.resize c r (session a) w in Some (Continue (set_session s a), w, st)
  | Some (Registry.Info reply) =>
      let has_client := match client a with Some _ => true | None => false end in
      let '(w, i) := Session.info has_client (session a) w in
      Some (Continue a, w, reply_send reply i st)
  | Some (Registry.Close grace_ms) => on_close now grace_ms a w st
  | Some (Registry.Attach req) => on_attach req a w st
  end.

(** The status part of the readable arm, skipped while detached. *)
Definition drained_status (a : Actor) (w : world) (st : store) : option (world * store * Actor) :=
  match client a with
  | Some _ =>
      let '(w, a) := if negb (Session.has_prompt_marking (session a)) && negb (Session.is_dead (session a))
                     then refresh_poll a w else (w, a) in
      '(st, a) ← push_status a st;
      Some (w, st, a)
  | None => Some (w, st, a)
  end.

Definition on_readable (opts : ServerOpts) (fuel : nat) (now : N) (guard_ok : bool) (a : Actor)
    (w : world) (st : store) : option (Flow * world * store) :=
  if negb guard_ok then Some (Break a, w, st)
  else
    '(w, s, r) ← Session.drain fuel (session a) w;
    let a := set_session s a in
    match r with
    | Err _ => Some (Break a, w, st)
    | Ok outcome =>
        let '(st, c) := if bool_decide (Session.data outcome = []) then (st, client a)
                        else forward_data (client a) (Session.data outcome) st in
        '(w, st, a) ← drained_status (set_client c a) w st;
        match Session.exit outcome with
        | Some code =>
            f ← exit_frame code;
            let '(st, c) := push_or_drop (client a) f st in
            let a := set_client c a in
            if closing a then Some (Break a, w, st)
            else Some (Continue (set_grace_deadline (Some (now + dead_grace opts)%N) a), w, st)
        | None => Some (Continue a, w, st)
        end
    end.

Definition on_kill_deadline (a : Actor) (w : world) (st : store) : option (Flow * world * store) :=
  let '(w, _) := if Session.is_dead (session a) then (w, Ok tt) else Session.kill (session a) w in
  Some (Continue (set_kill_deadline None a), w, st).

Definition on_tick (a : Actor) (w : world) (st : store) : option (Flow * world * store) :=
  let '(w, a) := refresh_poll a w in
  '(st, a) ← push_status a st;
  Some (Continue a, w, st).

(** A deadline that has passed; one that is not set never does. *)
Definition passed (deadline : option N) (now : N) : bool :=
  match deadline with Some d => (d <=? now)%N | None => false end.

Definition tick_enabled (a : Actor) : bool :=
  match client a with Some _ => true | None => false end
  && negb (Session.is_dead (session a)) && negb (Session.has_prompt_marking (session a)).

(** One turn of the loop. With nothing ready the loop stays where it is. *)
Definition select (opts : ServerOpts) (fuel : nat) (ready : Ready) (a : Actor) (w : world) (st : store) :
    option (Flow * world * store) :=
  match r_cmd ready with
  | Some cmd => on_cmd (r_now ready) cmd a w st
  | None =>
      match (if Session.is_dead (session a) then None else r_readable ready) with
      | Some guard_ok => on_readable opts fuel (r_now ready) guard_ok a w st
      | None =>
          if passed (grace_deadline a) (r_now ready) then Some (Break a, w, st)
          else if passed (kill_deadline a) (r_now ready) then on_kill_deadline a w st
          else if r_tick ready && tick_enabled a then on_tick a w st
          else Some (Continue a, w, st)
      end
  end.

(** What the end of [actor_loop] drops: the client's sender, then the session with
    its PTY. *)
Definition drop_actor (a : Actor) (w : world) (st : store) : world * store :=
  let st := match client a with Some tx => drop_tx tx st | None => st end in
  let w := drop_pty (Session.pty (session a)) w in
  (w, st).

(** After the loop: the entry is removed, then the locals are dropped. *)
Definition actor_end (id : string) (a : Actor) (reg : Registry) (w : world) (st : store) :
    Registry * world * store :=
  let reg := remove id reg in
  let '(w, st) := drop_actor a w st in
  (reg, w, st).

(** The loop under a schedule of what becomes ready; [inl] while it runs. *)
Fixpoint actor_turns (opts : ServerOpts) (fuel : nat) (schedule : list Ready) (id : string) (a : Actor)
    (reg : Registry) (w : world) (st : store) :
    option ((Actor + unit) * Registry * world * store) :=
  match schedule with
  | [] => Some (inl a, reg, w, st)
  | ready :: schedule =>
      '(flow, w, st) ← select opts fuel ready a w st;
      match flow with
      | Continue a => actor_turns opts fuel schedule id a reg w st
      | Break a => let '(reg, w, st) := actor_end id a reg w st in Some (inr tt, reg, w, st)
      end
  end.

(** [actor_loop]: [registered] is the answer of [AsyncFd::with_interest]. *)
Definition actor_loop (opts : ServerOpts) (fuel : nat) (registered : bool) (schedule : list Ready)
    (id : string) (s : Session.Session) (reg : Registry) (w : world) (st : store) :
    option ((Actor + unit) * Registry * world * store) :=
  if registered then actor_turns opts fuel schedule id (Actor_new s) reg w st
  else Some (inr tt, remove id reg, drop_pty (Session.pty s) w, st).

(** [Session::open] runs on a blocking thread, where a panic is a [JoinError]. *)
Definition session_task (opts : ServerOpts) (fuel : nat) (registered : bool) (schedule : list Ready)
    (spec : AttachOrOpen) (reg : Registry) (w : world) (st : store) :
    option ((Actor + unit) * Registry * world * store) :=
  match Session.open (session_id spec) (argv spec) (cwd spec) (Protocol.cols spec) (Protocol.rows spec) w with
  | (w, Some (Ok s)) => actor_loop opts fuel registered schedule (session_id spec) s reg w st
  | (w, Some (Err _)) | (w, None) => Some (inr tt, remove (session_id spec) reg, w, st)
  end.
End actor.
