(* ===== verification/Actor.v ===== *)
(** What the session actor promises its clients and the daemon.

    A client that attaches is sent the replay, the status and then every byte the
    shell prints, without a gap, until its queue overflows and it is dropped; no
    status is sent twice in a row; CLOSE hangs up and escalates once; a dead
    session is retained for a bounded time; and the loop ends only for the
    reasons listed, leaving the registry without its entry. *)
From S2P Require Import Prelude Status Engine Pty Protocol Registry Server.
From S2P Require Import Wire.
From S2P Require Session.
From S2P Require Import OsInstance TokioInstance Vte ParserInstance.

(** A JSON codec that never fails to write: the [expect] of the two messages. *)
Class TotalJson (T : Type) `{Json T} := {
  to_vec_total v : exists bs, to_vec v = Ok bs
}.

(** The payloads of the [Data] frames, joined: what the terminal is fed. *)
Definition data_of (fs : list Frame) : list byte :=
  concat (payload <$> base.filter (fun f => ty f = Data) fs).

(** A [Data] frame is within the cap. *)
Definition data_fits (f : Frame) : Prop := ty f = Data -> frame_fits f.

Lemma frame_data_data_fits bs : Forall data_fits (frame_data bs).
Proof. eapply Forall_impl; [apply frame_data_fits|]. by intros f (_ & _ & Hf) _. Qed.

Definition statuses (fs : list Frame) : list Frame := base.filter (fun f => ty f = Status) fs.

Lemma data_of_app a b : data_of (a ++ b) = data_of a ++ data_of b.
Proof. unfold data_of. by rewrite filter_app, fmap_app, concat_app. Qed.
Lemma statuses_app a b : statuses (a ++ b) = statuses a ++ statuses b.
Proof. unfold statuses. by rewrite filter_app. Qed.

Lemma data_of_other f : ty f <> Data -> data_of [f] = [].
Proof. intros H. unfold data_of. by rewrite filter_cons_False. Qed.
Lemma data_of_frame f : ty f = Data -> data_of [f] = payload f.
Proof. intros H. unfold data_of. rewrite filter_cons_True by done. simpl. by rewrite app_nil_r. Qed.

Lemma data_of_all fs : Forall (fun f => ty f = Data) fs -> data_of fs = concat (payload <$> fs).
Proof.
  induction 1 as [|f fs Hf _ IH]; [done|].
  change (f :: fs) with ([f] ++ fs). by rewrite data_of_app, data_of_frame, IH.
Qed.

Lemma frame_data_are_data bs : Forall (fun f => ty f = Data) (frame_data bs).
Proof. eapply Forall_impl; [apply frame_data_fits|]. by intros f (? & _). Qed.

Lemma data_of_frame_data bs : data_of (frame_data bs) = bs.
Proof. rewrite data_of_all by apply frame_data_are_data. apply frame_data_concat. Qed.

Lemma statuses_of_data fs : Forall (fun f => ty f = Data) fs -> statuses fs = [].
Proof.
  induction 1 as [|f fs Hf _ IH]; [done|]. unfold statuses in *.
  rewrite filter_cons_False; [done|by rewrite Hf].
Qed.

(** * Sending to one client *)

Section sending.
Context `{ChannelLaws} `{!Json StatusMsg, !Json ExitMsg}.

Lemma status_frame_ty s f : status_frame s = Some f -> ty f = Status.
Proof. unfold status_frame, control. destruct (to_vec _); [|done]. by intros [= <-]. Qed.
Lemma exit_frame_ty c f : exit_frame c = Some f -> ty f = Exit.
Proof. unfold exit_frame, control. destruct (to_vec _); [|done]. by intros [= <-]. Qed.

(** A push is accepted whole and keeps the client, or changes nothing and
    drops it. *)
Lemma push_cases tx f st :
  (accepted (push_or_drop (Some tx) f st).1 tx = accepted st tx ++ [f] /\
   (push_or_drop (Some tx) f st).2 = Some tx) \/
  (accepted (push_or_drop (Some tx) f st).1 tx = accepted st tx /\
   (push_or_drop (Some tx) f st).2 = None).
Proof.
  unfold push_or_drop. destruct (try_send tx f st) as [st' []] eqn:E; [left|right].
  - split; [by eapply send_accepted|done].
  - split; [|done]. cbn [fst]. rewrite drop_accepted. by eapply send_refused.
Qed.

Lemma forward_detached data st : forward_data None data st = (st, None).
Proof. unfold forward_data. generalize (frame_data data). intros fs. induction fs as [|f fs IH]; [done|exact IH]. Qed.

(** Pushing frames one after another: a prefix of them is accepted, and all of
    them if the client is still there. *)
Lemma pushes_prefix tx fs st :
  exists pre suf, fs = pre ++ suf /\
    accepted (foldl (fun '(st, c) f => push_or_drop c f st) (st, Some tx) fs).1 tx = accepted st tx ++ pre /\
    (((foldl (fun '(st, c) f => push_or_drop c f st) (st, Some tx) fs).2 = Some tx /\ suf = []) \/
     (foldl (fun '(st, c) f => push_or_drop c f st) (st, Some tx) fs).2 = None).
Proof.
  revert st. induction fs as [|f fs IH]; intros st; cbn [foldl].
  { exists [], []. rewrite !app_nil_r. split; [done|]. split; [done|]. by left. }
  pose proof (push_cases tx f st) as Hp.
  destruct (push_or_drop (Some tx) f st) as [st1 c]. cbn [fst snd] in Hp.
  destruct Hp as [[Ha ->]|[Ha ->]].
  - destruct (IH st1) as (pre & suf & -> & Ep & Hc). exists (f :: pre), suf.
    split; [done|]. split; [|done]. rewrite Ep, Ha. by rewrite <- app_assoc.
  - exists [], (f :: fs). split; [done|].
    assert (En : forall l, foldl (fun '(st, c) f => push_or_drop c f st) (st1, None) l = (st1, None))
      by (intros l; induction l as [|x l IHl]; [done|exact IHl]).
    rewrite En. cbn [fst snd]. rewrite app_nil_r. split; [done|]. by right.
Qed.

Lemma forward_data_prefix tx data st :
  exists p q, data = p ++ q /\
    data_of (accepted (forward_data (Some tx) data st).1 tx) = data_of (accepted st tx) ++ p /\
    statuses (accepted (forward_data (Some tx) data st).1 tx) = statuses (accepted st tx) /\
    (Forall data_fits (accepted st tx) -> Forall data_fits (accepted (forward_data (Some tx) data st).1 tx)) /\
    (((forward_data (Some tx) data st).2 = Some tx /\ q = []) \/
     (forward_data (Some tx) data st).2 = None).
Proof.
  unfold forward_data.
  destruct (pushes_prefix tx (frame_data data) st) as (pre & suf & E & Ha & Hc).
  pose proof (frame_data_are_data data) as Hd. rewrite E in Hd. apply Forall_app in Hd as [Hpre Hsuf].
  exists (data_of pre), (data_of suf). split.
  - by rewrite <- data_of_app, <- E, data_of_frame_data.
  - rewrite Ha, data_of_app, statuses_app, (statuses_of_data pre), app_nil_r by done.
    split; [done|]. split; [done|]. split.
    { intros Hfit. apply Forall_app. split; [done|]. pose proof (frame_data_data_fits data) as Hall.
      rewrite E in Hall. by apply Forall_app in Hall as [? _]. } destruct Hc as [[-> ->]| ->]; [by left|by right].
Qed.

(** With enough free slots everything is accepted. *)
Lemma send_all_room tx fs st n :
  free st tx = length fs + n ->
  accepted (send_all tx fs st) tx = accepted st tx ++ fs /\ free (send_all tx fs st) tx = n.
Proof.
  unfold send_all. revert st. induction fs as [|f fs IH]; intros st Hn; cbn [foldl].
  { by rewrite app_nil_r. }
  destruct (send_free tx f st (length fs + n) Hn) as (st' & E & Hf). rewrite E. cbn [fst].
  destruct (IH st' Hf) as [Ha Hn']. split; [|done].
  rewrite Ha, (send_accepted _ _ _ _ E). by rewrite <- app_assoc.
Qed.

Lemma send_all_other tx fs st tx' : tx' <> tx -> accepted (send_all tx fs st) tx' = accepted st tx'.
Proof.
  intros Hne. unfold send_all. revert st. induction fs as [|f fs IH]; intros st; [done|].
  cbn [foldl]. rewrite IH. by apply send_other.
Qed.
End sending.

(** * One turn of the loop, as its client sees it *)

Definition no_repeat (l : list Frame) : Prop :=
  forall i f, l !! i = Some f -> l !! S i = Some f -> False.

Lemma no_repeat_snoc l f : no_repeat l -> last l <> Some f -> no_repeat (l ++ [f]).
Proof.
  intros Hl Hf i g H1 H2. apply lookup_app_Some in H2 as [H2|[Hi H2]].
  - apply (Hl i g); [|done]. apply lookup_lt_Some in H2. by rewrite lookup_app_l in H1 by lia.
  - destruct (S i - length l) as [|n] eqn:E; [|by destruct n]. injection H2 as ->.
    rewrite lookup_app_l in H1 by lia. apply Hf. rewrite last_lookup.
    by replace (pred (length l)) with i by lia.
Qed.

Section turns.
Context `{EngineLaws, Os, ChannelLaws} `{!Json StatusMsg, !Json ExitMsg} `{!JsonLaws StatusMsg}.

Definition reached (e : engine) : Prop := exists out, eng_feed eng_new out = Some e.

Lemma reached_feed e o e' : reached e -> eng_feed e o = Some e' -> reached e'.
Proof. intros [out Ho] He. exists (out ++ o). by rewrite <- (eng_feed_app _ _ _ Ho). Qed.

Lemma feed_trans e o1 e1 o2 e2 :
  reached e -> eng_feed e o1 = Some e1 -> eng_feed e1 o2 = Some e2 -> eng_feed e (o1 ++ o2) = Some e2.
Proof.
  intros [out Ho] E1 E2. rewrite (eng_feed_app _ _ _ Ho), app_assoc.
  rewrite (eng_feed_app _ _ _ Ho) in E1. by rewrite <- (eng_feed_app _ _ _ E1).
Qed.

(** The engine an actor's session drives. *)
Definition eng (a : Actor) : engine := Session.engine_st (session a).

(** The client is [tx], or gone. *)
Definition serves (tx : frame_tx) (a : Actor) : Prop := client a = Some tx \/ client a = None.

(** From [(a, st)] to [(a', st')] the shell printed [o] and the client was sent
    a prefix of it, all of it if it is still there. *)
Definition stream (tx : frame_tx) (a : Actor) (st : store) (a' : Actor) (st' : store) : Prop :=
  exists o p q, eng_feed (eng a) o = Some (eng a') /\ o = p ++ q /\
    data_of (accepted st' tx) = data_of (accepted st tx) ++ p /\
    ((client a = Some tx /\ client a' = Some tx /\ q = []) \/
     (client a = Some tx /\ client a' = None) \/
     (client a = None /\ client a' = None /\ p = [])).

(** No status is sent twice in a row, and no [Data] frame exceeds the cap. *)
Definition well_sent (l : list Frame) : Prop := no_repeat (statuses l) /\ Forall data_fits l.

Lemma well_sent_snoc l f :
  ty f <> Data -> (ty f = Status -> last (statuses l) <> Some f) -> well_sent l -> well_sent (l ++ [f]).
Proof.
  intros Hd Hl [Hn Hf]. split.
  - rewrite statuses_app. unfold statuses at 2. destruct (decide (ty f = Status)) as [Ht|Ht].
    + rewrite filter_cons_True by done. apply no_repeat_snoc; auto.
    + rewrite filter_cons_False by done. by rewrite app_nil_r.
  - apply Forall_app. split; [done|]. repeat constructor. by intros ?.
Qed.

(** The last status the client was sent is the recorded one. *)
Definition status_inv (tx : frame_tx) (a : Actor) (st : store) : Prop :=
  well_sent (accepted st tx) /\
  (client a = Some tx -> exists s f, last_status a = Some s /\ status_frame s = Some f /\
     last (statuses (accepted st tx)) = Some f).

Lemma status_frame_inj s1 s2 f : status_frame s1 = Some f -> status_frame s2 = Some f -> s1 = s2.
Proof.
  unfold status_frame, control. destruct (to_vec _) as [b1|] eqn:E1; [|done].
  destruct (to_vec {| msg_running := running s2; msg_progress := progress s2 |}) as [b2|] eqn:E2; [|done].
  intros [= <-] [= ->]. apply from_to_vec in E1, E2. rewrite E1 in E2.
  destruct s1, s2. simpl in E2. congruence.
Qed.

Lemma stream_trans tx a st a1 st1 a2 st2 :
  reached (eng a) -> stream tx a st a1 st1 -> stream tx a1 st1 a2 st2 -> stream tx a st a2 st2.
Proof.
  intros Hr (o1 & p1 & q1 & E1 & -> & D1 & C1) (o2 & p2 & q2 & E2 & -> & D2 & C2).
  destruct C1 as [(Ha & Hb & ->)|[(Ha & Hb)|(Ha & Hb & ->)]].
  - rewrite app_nil_r in E1. exists (p1 ++ p2 ++ q2), (p1 ++ p2), q2.
    split; [by eapply feed_trans|]. split; [by rewrite app_assoc|].
    split; [by rewrite D2, D1, app_assoc|]. rewrite Hb in C2. intuition congruence.
  - destruct C2 as [(Hc & _)|[(Hc & _)|(_ & Hc & ->)]]; try congruence.
    exists ((p1 ++ q1) ++ q2), p1, (q1 ++ q2). split; [by eapply feed_trans|].
    split; [by rewrite app_assoc|]. split; [by rewrite D2, D1, !app_nil_r|]. intuition congruence.
  - destruct C2 as [(Hc & _)|[(Hc & _)|(_ & Hc & ->)]]; try congruence.
    exists (q1 ++ q2), [], (q1 ++ q2). split; [by eapply feed_trans|]. split; [done|].
    split; [by rewrite D2, D1, !app_nil_r|]. intuition congruence.
Qed.

(** Nothing printed, nothing sent. *)
Lemma stream_refl tx a st a' st' :
  serves tx a -> eng a' = eng a -> client a' = client a -> accepted st' tx = accepted st tx ->
  stream tx a st a' st'.
Proof.
  intros Hs He Hc Ha. exists [], [], []. rewrite He, eng_feed_nil, Ha, !app_nil_r.
  split_and!; try done. rewrite Hc. destruct Hs; intuition congruence.
Qed.

(** One frame that is not [Data] pushed to the client. *)
Lemma push_stream tx a st f a' :
  serves tx a -> ty f <> Data -> eng a' = eng a ->
  client a' = (push_or_drop (client a) f st).2 ->
  stream tx a st a' (push_or_drop (client a) f st).1 /\
  (accepted (push_or_drop (client a) f st).1 tx = accepted st tx ++ [f] \/
   (accepted (push_or_drop (client a) f st).1 tx = accepted st tx /\ client a' = None)).
Proof.
  intros Hs Hf He Hc. destruct Hs as [Hs|Hs]; rewrite Hs in *.
  - destruct (push_cases tx f st) as [[Ha Hp]|[Ha Hp]]; rewrite Hp in Hc.
    + split; [|by left]. exists [], [], []. rewrite He, eng_feed_nil, Ha, data_of_app, data_of_other by done.
      split_and!; try done. by left.
    + split; [|by right]. exists [], [], []. rewrite He, eng_feed_nil, Ha, !app_nil_r.
      split_and!; try done. right. by left.
  - cbn [push_or_drop fst snd] in *. split; [|by right]. apply stream_refl; try done; [by right|congruence].
Qed.

Lemma push_status_spec tx a st st' a' :
  serves tx a -> push_status a st = Some (st', a') ->
  session a' = session a /\ grace_deadline a' = grace_deadline a /\ closing a' = closing a /\
  stream tx a st a' st' /\ (status_inv tx a st -> status_inv tx a' st').
Proof.
  intros Hs. unfold push_status. cbv zeta. case_bool_decide as Hl.
  { intros [= <- <-]. split_and!; try done. by apply stream_refl. }
  destruct (status_frame _) as [f|] eqn:Ef; cbn [mbind option_bind]; [|done].
  pose proof (status_frame_ty _ _ Ef) as Hty.
  destruct (push_stream tx a st f
    (set_last_status (Some (effective_status (session a) (poll_running a)))
       (set_client (push_or_drop (client a) f st).2 a))) as [Hst Hacc]; [done|by rewrite Hty|done|done|].
  destruct (push_or_drop (client a) f st) as [st1 c] eqn:Ep. cbn [fst snd] in *.
  intros [= <- <-]. split_and!; try done. intros [Hn Hi].
  assert (Hst' : accepted st1 tx = accepted st tx ++ [f] -> statuses (accepted st1 tx) = statuses (accepted st tx) ++ [f]).
  { intros ->. rewrite statuses_app. unfold statuses at 2. by rewrite filter_cons_True. }
  destruct Hs as [Hs|Hs].
  - destruct (Hi Hs) as (s & f0 & E1 & E2 & E3). destruct Hacc as [Hacc|[Hacc Hc]].
    + split.
      * rewrite Hacc. apply well_sent_snoc; [by rewrite Hty|intros _|done]. rewrite E3. intros [= ->].
        apply Hl. rewrite E1. f_equal. by eapply status_frame_inj.
      * intros _. eexists _, f. split; [done|]. split; [done|]. by rewrite (Hst' Hacc), last_snoc.
    + split; [by rewrite Hacc|]. simpl in *. congruence.
  - rewrite Hs in Ep. injection Ep as <- <-. done.
Qed.

(** What an operation of the session does to its engine and its lifecycle. *)
Lemma drain_session fuel s w w' s' out :
  reached (Session.engine_st s) -> Session.drain fuel s w = Some (w', s', Ok out) ->
  eng_feed (Session.engine_st s) (Session.data out) = Some (Session.engine_st s') /\
  match Session.exit out with
  | Some st => Session.lifecycle s = Session.Live /\ Session.lifecycle s' = Session.Dead st
  | None => Session.lifecycle s' = Session.lifecycle s
  end.
Proof.
  intros [o0 Ho] Hd. pose proof (Session.drain_ok fuel o0
    match Session.lifecycle s with Session.Live => [] | Session.Dead st => [st] end
    w s w' s' out (conj Ho eq_refl) Hd) as [D1 D2].
  split; [by rewrite (eng_feed_app _ _ _ Ho)|]. revert D2.
  destruct (Session.exit out), (Session.lifecycle s), (Session.lifecycle s'); simpl; intros Hx; by simplify_eq.
Qed.

Lemma resize_session c r s w :
  Session.engine_st (Session.resize c r s w).1.2 = Session.engine_st s /\
  Session.lifecycle (Session.resize c r s w).1.2 = Session.lifecycle s.
Proof.
  unfold Session.resize. cbv zeta. destruct (Session.is_dead _); [done|].
  by destruct (Pty.resize _ _ _).
Qed.

Lemma refresh_poll_keeps a w :
  session (refresh_poll a w).2 = session a /\ client (refresh_poll a w).2 = client a /\
  last_status (refresh_poll a w).2 = last_status a /\
  grace_deadline (refresh_poll a w).2 = grace_deadline a /\ closing (refresh_poll a w).2 = closing a.
Proof. unfold refresh_poll. by destruct (Session.poll_running _ w). Qed.

(** The fields a turn may keep. *)
Definition same_client (a a1 : Actor) : Prop :=
  client a1 = client a /\ last_status a1 = last_status a.

Lemma status_inv_same tx a st a1 st1 :
  same_client a a1 -> accepted st1 tx = accepted st tx -> status_inv tx a st -> status_inv tx a1 st1.
Proof. intros [E1 E2] Ha. unfold status_inv. by rewrite E1, E2, Ha. Qed.

Lemma drained_status_spec tx a w st w' st' a' :
  serves tx a -> reached (eng a) -> drained_status a w st = Some (w', st', a') ->
  session a' = session a /\ grace_deadline a' = grace_deadline a /\ closing a' = closing a /\
  stream tx a st a' st' /\ (status_inv tx a st -> status_inv tx a' st').
Proof.
  intros Hs Hr. unfold drained_status. destruct (client a) as [tx0|] eqn:Hc.
  2: { intros [= _ <- <-]. split_and!; try done. by apply stream_refl. }
  set (wa := if _ && _ then refresh_poll a w else (w, a)).
  assert (Hwa : session wa.2 = session a /\ client wa.2 = client a /\ last_status wa.2 = last_status a /\
    grace_deadline wa.2 = grace_deadline a /\ closing wa.2 = closing a).
  { unfold wa. destruct (_ && _); [apply refresh_poll_keeps|done]. }
  destruct wa as [w1 a1]. cbn [snd] in Hwa. destruct Hwa as (E1 & E2 & E3 & E4 & E5).
  destruct (push_status a1 st) as [[st2 a2]|] eqn:Ep; cbn [mbind option_bind]; [|done].
  intros [= _ <- <-].
  assert (Hs1 : serves tx a1) by (unfold serves; by rewrite E2).
  destruct (push_status_spec tx a1 st st2 a2 Hs1 Ep) as (F1 & F2 & F3 & F4 & F5).
  split_and!; try congruence.
  - eapply stream_trans; [done| |exact F4]. apply stream_refl; [done| |done|done]. unfold eng. by rewrite E1.
  - intros Hi. apply F5. by eapply status_inv_same.
Qed.

(** The data of one drain, forwarded. *)
Lemma forward_stream tx a st data a1 :
  serves tx a -> reached (eng a) -> eng_feed (eng a) data = Some (eng a1) ->
  client a1 = (if bool_decide (data = []) then (st, client a) else forward_data (client a) data st).2 ->
  last_status a1 = last_status a ->
  let st1 := (if bool_decide (data = []) then (st, client a) else forward_data (client a) data st).1 in
  stream tx a st a1 st1 /\ (status_inv tx a st -> status_inv tx a1 st1).
Proof.
  intros Hs Hr He Hc Hl. case_bool_decide as Hd; cbn [fst snd] in *.
  { subst data. rewrite eng_feed_nil in He. injection He as He. split.
    - by apply stream_refl.
    - by apply status_inv_same. }
  destruct Hs as [Hs|Hs]; rewrite Hs in *.
  - destruct (forward_data_prefix tx data st) as (p & q & Epq & Da & Sa & Fa & C).
    destruct (forward_data (Some tx) data st) as [st1 c]. cbn [fst snd] in *. split.
    + exists data, p, q. split_and!; try done. rewrite Hc. destruct C as [[-> ->]| ->]; [by left|by right; left].
    + intros [[Hn Hd'] Hi]. split; [split; [by rewrite Sa|by apply Fa]|]. rewrite Hc, Hl, Sa.
      intros Hcl. by apply Hi.
  - rewrite forward_detached in *. cbn [fst snd] in *. split.
    + exists data, [], data. rewrite !app_nil_r. split_and!; try done. right. by right.
    + intros [Hn Hi]. split; [done|]. by rewrite Hc.
Qed.

(** What a turn keeps of the retention: a live session has no deadline, a dead
    one has, or the client is being told. *)
Definition retained (a : Actor) : Prop :=
  match Session.lifecycle (session a) with
  | Session.Live => grace_deadline a = None
  | Session.Dead _ => exists d, grace_deadline a = Some d
  end.

Definition turn_ok (tx : frame_tx) (a : Actor) (st : store) (a' : Actor) (st' : store) : Prop :=
  serves tx a' /\ reached (eng a') /\ stream tx a st a' st' /\
  (status_inv tx a st -> status_inv tx a' st').

Lemma stream_serves tx a st a' st' : stream tx a st a' st' -> serves tx a'.
Proof. intros (o & p & q & _ & _ & _ & [(_ & Hc & _)|[(_ & Hc)|(_ & Hc & _)]]); [by left|by right|by right]. Qed.

Lemma stream_reached tx a st a' st' : reached (eng a) -> stream tx a st a' st' -> reached (eng a').
Proof. intros Hr (o & p & q & He & _). by eapply reached_feed. Qed.

Lemma turn_of_stream tx a st a' st' :
  reached (eng a) -> stream tx a st a' st' -> (status_inv tx a st -> status_inv tx a' st') ->
  turn_ok tx a st a' st'.
Proof.
  intros Hr Hst Hi. split; [by eapply stream_serves|]. split; [by eapply stream_reached|]. done.
Qed.

Lemma turn_same tx a st a' st' :
  serves tx a -> reached (eng a) -> eng a' = eng a -> same_client a a' ->
  accepted st' tx = accepted st tx -> turn_ok tx a st a' st'.
Proof.
  intros Hs Hr He [Hc Hl] Ha. apply turn_of_stream; [done|by apply stream_refl|by apply status_inv_same].
Qed.

Lemma readable_turn opts fuel now tx a w st a' w' st' :
  serves tx a -> reached (eng a) ->
  on_readable opts fuel now true a w st = Some (Continue a', w', st') -> turn_ok tx a st a' st'.
Proof.
  intros Hs Hr. unfold on_readable. cbn [negb].
  destruct (Session.drain fuel (session a) w) as [[[w1 s1] [out|er]]|] eqn:Ed;
    cbn [mbind option_bind]; try done.
  destruct (drain_session _ _ _ _ _ _ Hr Ed) as [He _]. change (Session.engine_st (session a)) with (eng a) in He.
  set (fw := if bool_decide _ then (st, _) else _).
  assert (Hfw : fw = if bool_decide (Session.data out = []) then (st, client a)
                     else forward_data (client a) (Session.data out) st) by done.
  destruct (forward_stream tx a st (Session.data out) (set_client fw.2 (set_session s1 a)) Hs Hr He)
    as [S1 I1]; [by rewrite Hfw|done|]. rewrite <- Hfw in S1, I1. destruct fw as [st1 c1]. cbn [fst snd] in S1, I1.
  pose proof (stream_serves _ _ _ _ _ S1) as Hs1. pose proof (stream_reached _ _ _ _ _ Hr S1) as Hr1.
  destruct (drained_status _ w1 st1) as [[[w2 st2] a2]|] eqn:Eds; cbn [mbind option_bind]; [|done].
  destruct (drained_status_spec tx _ _ _ _ _ _ Hs1 Hr1 Eds) as (_ & _ & _ & S2 & I2).
  pose proof (stream_trans _ _ _ _ _ _ _ Hr S1 S2) as S12.
  destruct (Session.exit out) as [code|].
  2: { intros [= <- <- <-]. apply turn_of_stream; [done|done|]. intros Hi. by apply I2, I1. }
  destruct (exit_frame code) as [f|] eqn:Ef; cbn [mbind option_bind]; [|done].
  pose proof (exit_frame_ty _ _ Ef) as Hty. pose proof (stream_serves _ _ _ _ _ S2) as Hs2.
  destruct (push_stream tx a2 st2 f
    (set_grace_deadline (Some (now + dead_grace opts)%N) (set_client (push_or_drop (client a2) f st2).2 a2)))
    as [S3 Hacc]; [done|by rewrite Hty|done|done|].
  destruct (push_or_drop (client a2) f st2) as [st3 c3] eqn:Ep. cbn [fst snd] in *.
  destruct (closing _); [done|]. intros [= <- <- <-].
  apply turn_of_stream; [done|by eapply stream_trans|]. intros Hi. specialize (I2 (I1 Hi)).
  assert (Est : statuses (accepted st3 tx) = statuses (accepted st2 tx)).
  { destruct Hacc as [->|[-> _]]; [|done]. rewrite statuses_app. unfold statuses at 2.
    rewrite filter_cons_False by (by rewrite Hty). by rewrite app_nil_r. }
  destruct I2 as [Hn Hl]. split.
  { destruct Hacc as [->|[-> _]]; [|done]. apply well_sent_snoc; [by rewrite Hty|by rewrite Hty|done]. }
  rewrite Est. cbn [client set_grace_deadline set_client].
  intros ->. apply Hl. destruct Hs2 as [Hs2|Hs2]; [done|]. rewrite Hs2 in Ep. done.
Qed.

Lemma turn_select opts fuel ready tx a w st a' w' st' :
  (forall req, r_cmd ready <> Some (Some (Registry.Attach req))) ->
  serves tx a -> reached (eng a) ->
  select opts fuel ready a w st = Some (Continue a', w', st') -> turn_ok tx a st a' st'.
Proof.
  intros Hna Hs Hr. unfold select. destruct (r_cmd ready) as [[cmd|]|]; [|done|].
  - destruct cmd as [input|c r|g|req|reply]; cbn [on_cmd].
    + destruct (Session.write_input _ _ w). intros [= <- <- <-]. by apply turn_same.
    + pose proof (resize_session c r (session a) w) as [He _].
      destruct (Session.resize c r (session a) w) as [[w1 s1] x]. intros [= <- <- <-].
      by apply turn_same.
    + unfold on_close. destruct (Session.hangup _ w) as [w1 x]. cbv zeta.
      set (a1 := if (0 <? g)%N then _ else _).
      assert (Ha1 : eng a1 = eng a /\ same_client a a1) by (unfold a1; by destruct (0 <? g)%N).
      destruct (Session.is_dead (session a1)).
      { destruct (client a1); [|done]. by destruct (exit_frame _). }
      destruct Ha1 as [Ha1 Ha2]. intros [= <- <- <-]. by apply turn_same.
    + by destruct (Hna req).
    + destruct (Session.info _ _ w) as [w1 i]. intros [= <- <- <-].
      apply turn_same; try done. by rewrite reply_accepted.
  - destruct (if Session.is_dead (session a) then None else r_readable ready) as [[]|].
    + by apply readable_turn.
    + done.
    + destruct (passed (grace_deadline a) _); [done|].
      destruct (passed (kill_deadline a) _).
      { unfold on_kill_deadline. destruct (if Session.is_dead _ then _ else _) as [w1 x].
        intros [= <- <- <-]. by apply turn_same. }
      destruct (_ && _); [|intros [= <- <- <-]; by apply turn_same].
      unfold on_tick. pose proof (refresh_poll_keeps a w) as (E1 & E2 & E3 & _ & _).
      destruct (refresh_poll a w) as [w1 a1]. cbn [snd] in *.
      destruct (push_status a1 st) as [[st2 a2]|] eqn:Ep; cbn [mbind option_bind]; [|done].
      intros [= <- <- <-].
      assert (Hs1 : serves tx a1) by (unfold serves; by rewrite E2).
      destruct (push_status_spec tx a1 st st2 a2 Hs1 Ep) as (_ & _ & _ & S2 & I2).
      apply turn_of_stream; [done| |].
      * eapply stream_trans; [done| |exact S2]. apply stream_refl; [done| |done|done].
        unfold eng. by rewrite E1.
      * intros Hi. apply I2. by eapply status_inv_same.
Qed.

(** Turns of the loop without an attach, between which the kernel moves and the
    other owners of channels act: they cannot touch what [tx] has accepted. *)
Inductive turns (opts : ServerOpts) (tx : frame_tx) : Actor * store -> Actor * store -> Prop :=
  | TurnsDone c : turns opts tx c c
  | TurnsOthers a st st1 c : accepted st1 tx = accepted st tx ->
      turns opts tx (a, st1) c -> turns opts tx (a, st) c
  | TurnsTurn fuel ready a w st a1 w1 st1 c :
      (forall req, r_cmd ready <> Some (Some (Registry.Attach req))) ->
      select opts fuel ready a w st = Some (Continue a1, w1, st1) ->
      turns opts tx (a1, st1) c -> turns opts tx (a, st) c.

Lemma turns_ok opts tx c c' :
  turns opts tx c c' -> serves tx c.1 -> reached (eng c.1) -> turn_ok tx c.1 c.2 c'.1 c'.2.
Proof.
  induction 1 as [c|a st st1 c Ha _ IH|fuel ready a w st a1 w1 st1 c Hna Hsel _ IH]; intros Hs Hr.
  - by apply turn_same.
  - destruct (IH Hs Hr) as (H2' & H3' & S & I). cbn [fst snd] in *. split; [done|]. split; [done|].
    assert (S0 : stream tx a st a st1) by (by apply stream_refl).
    split; [by eapply stream_trans|]. intros Hi. apply I. by eapply status_inv_same.
  - destruct (turn_select _ _ _ tx _ _ _ _ _ _ Hna Hs Hr Hsel) as (Hs1 & Hr1 & S1 & I1).
    destruct (IH Hs1 Hr1) as (Hs2 & Hr2 & S2 & I2). cbn [fst snd] in *.
    split; [done|]. split; [done|]. split; [by eapply stream_trans|]. auto.
Qed.
End turns.

(** * Attaching *)

Section attach.
Context `{EngineLaws, Os, ChannelLaws} `{!Json StatusMsg, !Json ExitMsg}.

(** The frames of the handshake. *)
Definition handshake (s : Session.Session) (poll : bool) (want : usize) (fs : list Frame) : Prop :=
  exists sf, status_frame (effective_status s poll) = Some sf /\
    match Session.lifecycle s with
    | Session.Live => fs = frame_data (Session.replay_data (Session.replay_for_attach want s)) ++ [sf]
    | Session.Dead code => exists ef, exit_frame code = Some ef /\
        fs = frame_data (Session.replay_data (Session.replay_for_attach want s)) ++ [sf; ef]
    end.

Lemma attach_client_spec s c poll req w st w' st' s' c' n :
  attach_client s c poll req w st = Some (w', st', s', c') ->
  free st (out_tx req) =
    length (frame_data (Session.replay_data (Session.replay_for_attach (want_chunks req) s))) + (2 + n) ->
  c' = Some (out_tx req) /\ Session.engine_st s' = Session.engine_st s /\
  Session.lifecycle s' = Session.lifecycle s /\
  (exists fs, handshake s poll (want_chunks req) fs /\
     accepted st' (out_tx req) = accepted st (out_tx req) ++ fs) /\
  (forall tx, tx <> out_tx req -> accepted st' tx = accepted st tx).
Proof.
  unfold attach_client. pose proof (resize_session (cols req) (rows req) s w) as [He Hl].
  destruct (Session.resize (cols req) (rows req) s w) as [[w1 s1] x]. cbn [fst snd] in He, Hl.
  assert (Hrep : Session.replay_for_attach (want_chunks req) s1 = Session.replay_for_attach (want_chunks req) s)
    by (unfold Session.replay_for_attach; by rewrite He).
  assert (Heff : effective_status s1 poll = effective_status s poll)
    by (unfold effective_status, Session.status, Session.has_prompt_marking; by rewrite He).
  rewrite Hrep, Heff, Hl. set (fs := frame_data _). intros Hat Hfree.
  destruct (send_all_room _ fs st (2 + n) Hfree) as [Ha Hf].
  pose proof (send_all_other (out_tx req) fs st) as Ho.
  generalize dependent (send_all (out_tx req) fs st). intros st1 Hat Ha Hf Ho.
  destruct (status_frame _) as [sf|] eqn:Esf; cbn [mbind option_bind] in Hat; [|done].
  destruct (send_free _ sf st1 (1 + n) Hf) as (st2 & E2 & Hf2). rewrite E2 in Hat. cbn [fst] in Hat.
  pose proof (send_accepted _ _ _ _ E2) as Ha2.
  assert (Ho2 : forall tx, tx <> out_tx req -> accepted st2 tx = accepted st tx).
  { intros tx Hne. rewrite <- Ho by done. pose proof (send_other _ sf st1 tx Hne) as Hx. by rewrite E2 in Hx. }
  assert (Hdrop : forall st tx, accepted (match c with Some old => drop_tx old st | None => st end) tx = accepted st tx).
  { intros. destruct c; [apply drop_accepted|done]. }
  unfold handshake. destruct (Session.lifecycle s) as [|code]; cbn [mbind option_bind] in Hat.
  - injection Hat as <- <- <- <-. split_and!; try done.
    + eexists. split; [by exists sf|]. rewrite Hdrop, Ha2, Ha. by rewrite app_assoc.
    + intros tx Hne. rewrite Hdrop. by apply Ho2.
  - destruct (exit_frame code) as [ef|] eqn:Eef; cbn [mbind option_bind] in Hat; [|done].
    destruct (send_free _ ef st2 n Hf2) as (st3 & E3 & _). rewrite E3 in Hat. cbn [fst] in Hat.
    injection Hat as <- <- <- <-. split_and!; try done.
    + eexists. split; [exists sf; split; [done|by exists ef]|].
      rewrite Hdrop, (send_accepted _ _ _ _ E3), Ha2, Ha, <- !app_assoc. done.
    + intros tx Hne. rewrite Hdrop. pose proof (send_other _ ef st2 tx Hne) as Hx.
      rewrite E3 in Hx. cbn [fst] in Hx. rewrite Hx. by apply Ho2.
Qed.

Lemma attach_client_total `{!TotalJson StatusMsg, !TotalJson ExitMsg} s c poll req w st :
  exists r, attach_client s c poll req w st = Some r.
Proof.
  unfold attach_client. destruct (Session.resize _ _ s w) as [[w1 s1] x].
  assert (Hs : forall sn, exists f, status_frame sn = Some f).
  { intros sn. unfold status_frame, control.
    destruct (to_vec_total {| msg_running := running sn; msg_progress := progress sn |}) as [bs ->]. eauto. }
  assert (Hx : forall code, exists f, exit_frame code = Some f).
  { intros code. unfold exit_frame, control. destruct (to_vec_total {| exit_status := code |}) as [bs ->]. eauto. }
  destruct (Hs (effective_status s1 poll)) as [sf ->]. cbn [mbind option_bind].
  destruct (Session.lifecycle s1) as [|code]; cbn [mbind option_bind]; [eauto|].
  destruct (Hx code) as [ef ->]. cbn [mbind option_bind]. eauto.
Qed.

Lemma on_attach_total `{!TotalJson StatusMsg, !TotalJson ExitMsg} req a w st :
  exists r, on_attach req a w st = Some r.
Proof.
  unfold on_attach. destruct (if Session.has_prompt_marking _ then _ else _) as [w1 a1].
  destruct (attach_client_total (session a1) (client a1) (poll_running a1) req w1 st) as [[[[w2 st2] s2] c2] ->].
  cbn [mbind option_bind]. eauto.
Qed.

(** An attach that keeps the loop running. *)
Lemma on_attach_spec req a w st flow w' st' n :
  on_attach req a w st = Some (flow, w', st') ->
  free st (out_tx req) =
    length (frame_data (Session.replay_data (Session.replay_for_attach (want_chunks req) (session a)))) + (2 + n) ->
  exists a' poll fs, flow = (if Session.is_dead (session a) then Break a' else Continue a') /\
    client a' = Some (out_tx req) /\ eng a' = eng a /\
    last_status a' = Some (effective_status (session a) poll) /\
    handshake (session a) poll (want_chunks req) fs /\
    accepted st' (out_tx req) = accepted st (out_tx req) ++ fs /\
    (forall tx, tx <> out_tx req -> accepted st' tx = accepted st tx).
Proof.
  unfold on_attach.
  set (wa := if Session.has_prompt_marking (session a) then (w, a) else refresh_poll a w).
  assert (Hwa : session wa.2 = session a) by (unfold wa; destruct (Session.has_prompt_marking _);
    [done|apply refresh_poll_keeps]).
  destruct wa as [w1 a1]. cbn [snd] in Hwa. rewrite <- Hwa.
  destruct (attach_client (session a1) (client a1) (poll_running a1) req w1 st) as [[[[w2 st2] s2] c2]|] eqn:E0;
    cbn [mbind option_bind]; [|done].
  intros [= <- <- <-] Hfree.
  destruct (attach_client_spec _ _ _ _ _ _ _ _ _ _ n E0 Hfree) as (-> & He & Hl & (fs & Hh & Ha) & Ho).
  set (a2 := set_last_status _ _).
  exists a2, (poll_running a1), fs.
  assert (Heff : effective_status s2 (poll_running a1) = effective_status (session a1) (poll_running a1))
    by (unfold effective_status, Session.status, Session.has_prompt_marking; by rewrite He).
  split; [unfold Session.is_dead; unfold a2; cbn [session set_last_status set_client set_session]; by rewrite Hl|].
  split; [done|]. split; [unfold eng; simpl; by rewrite He, Hwa|]. split; [by rewrite <- Heff|]. done.
Qed.
End attach.

(** C19: the attach handshake: into a queue with room go, in order, the replay as
    [Data] frames, the status, and for a dead session the exit with its code;
    the new client takes over, no other queue receives anything, and the loop
    ends right after if the session was dead. *)
Theorem attach_handshake `{EngineLaws, Os, ChannelLaws} `{!Json StatusMsg, !Json ExitMsg}
    req a w st flow w' st' n :
  on_attach req a w st = Some (flow, w', st') ->
  free st (out_tx req) =
    length (frame_data (Session.replay_data (Session.replay_for_attach (want_chunks req) (session a)))) + (2 + n) ->
  exists a' poll fs, flow = (if Session.is_dead (session a) then Break a' else Continue a') /\
    client a' = Some (out_tx req) /\ handshake (session a) poll (want_chunks req) fs /\
    accepted st' (out_tx req) = accepted st (out_tx req) ++ fs /\
    (forall tx, tx <> out_tx req -> accepted st' tx = accepted st tx).
Proof.
  intros E0 Hf. destruct (on_attach_spec _ _ _ _ _ _ _ n E0 Hf)
    as (a' & poll & fs & F1 & F2 & _ & _ & F3 & F4 & F5).
  exists a', poll, fs. done.
Qed.

(** A client that attaches through a fresh queue with room for the handshake is
    fed the replay and then, whatever the loop does next short of another attach,
    a prefix of what the shell prints, and all of it as long as it is there. *)
Lemma attached_client_stream `{EngineLaws, Os, ChannelLaws} `{!Json StatusMsg, !Json ExitMsg}
    `{!JsonLaws StatusMsg} opts req a w st a1 w1 st1 a2 st2 n :
  reached (eng a) -> accepted st (out_tx req) = [] ->
  free st (out_tx req) =
    length (frame_data (Session.replay_data (Session.replay_for_attach (want_chunks req) (session a)))) + (2 + n) ->
  on_attach req a w st = Some (Continue a1, w1, st1) ->
  turns opts (out_tx req) (a1, st1) (a2, st2) ->
  exists o p q, eng_feed (eng a) o = Some (eng a2) /\ o = p ++ q /\
    data_of (accepted st2 (out_tx req)) =
      Session.replay_data (Session.replay_for_attach (want_chunks req) (session a)) ++ p /\
    (client a2 = Some (out_tx req) -> q = []) /\
    well_sent (accepted st2 (out_tx req)).
Proof.
  intros Hr Hnil Hf E0 Ht. destruct (on_attach_spec _ _ _ _ _ _ _ n E0 Hf)
    as (a' & poll & fs & F1 & F2 & F3 & F4 & (sf & Hsf & Hfs) & F5 & _).
  destruct (Session.is_dead (session a)) eqn:Hd; [done|]. injection F1 as <-.
  unfold Session.is_dead in Hd. destruct (Session.lifecycle (session a)); [|done]. subst fs.
  rewrite Hnil in F5. cbn [app] in F5.
  pose proof (status_frame_ty _ _ Hsf) as Hty.
  assert (Hstat : statuses (accepted st1 (out_tx req)) = [sf]).
  { rewrite F5, statuses_app, statuses_of_data by apply frame_data_are_data.
    unfold statuses. by rewrite filter_cons_True. }
  assert (Hi : status_inv (out_tx req) a1 st1).
  { unfold status_inv. rewrite Hstat. split; [|intros _; by eexists _, sf].
    rewrite F5. apply well_sent_snoc; [by rewrite Hty| |].
    - intros _. by rewrite statuses_of_data by apply frame_data_are_data.
    - split; [|apply frame_data_data_fits].
      rewrite statuses_of_data by apply frame_data_are_data. by intros [|i] f. }
  destruct (turns_ok _ _ _ _ Ht) as (_ & _ & (o & p & q & G1 & G2 & G3 & G4) & G5).
  { by left. }
  { cbn [fst]. by rewrite F3. }
  cbn [fst snd] in *. exists o, p, q. rewrite <- F3. split; [done|]. split; [done|]. split.
  - rewrite G3, F5, data_of_app, data_of_frame_data, (data_of_other sf), app_nil_r by (by rewrite Hty). done.
  - split; [|by apply G5]. intros Hc. destruct G4 as [(_ & _ & ->)|[(_ & G4)|(_ & G4 & _)]]; congruence.
Qed.

(** * How the loop ends *)

Section endings.
Context `{EngineLaws, Os, ChannelLaws} `{!Json StatusMsg, !Json ExitMsg} `{!JsonLaws StatusMsg}.

Lemma attach_client_keeps s c poll req w st w' st' s' c' :
  attach_client s c poll req w st = Some (w', st', s', c') ->
  Session.engine_st s' = Session.engine_st s /\ Session.lifecycle s' = Session.lifecycle s.
Proof.
  unfold attach_client. pose proof (resize_session (cols req) (rows req) s w) as Hr.
  destruct (Session.resize _ _ s w) as [[w1 s1] x]. cbn [fst snd] in Hr.
  destruct (status_frame _); cbn [mbind option_bind]; [|done].
  destruct (Session.lifecycle s1) eqn:El; cbn [mbind option_bind].
  - intros [= _ _ <- _]. destruct Hr. split; congruence.
  - destruct (exit_frame _); cbn [mbind option_bind]; [|done].
    intros [= _ _ <- _]. destruct Hr. split; congruence.
Qed.

(** What the status arms leave alone. *)
Definition same_session (a a1 : Actor) : Prop :=
  session a1 = session a /\ grace_deadline a1 = grace_deadline a /\ closing a1 = closing a.

Lemma same_session_refresh a w : same_session a (refresh_poll a w).2.
Proof. by destruct (refresh_poll_keeps a w) as (? & _ & _ & ? & ?). Qed.

Lemma same_session_push a st st' a' : push_status a st = Some (st', a') -> same_session a a'.
Proof.
  unfold push_status. cbv zeta. case_bool_decide; [by intros [= _ <-]|].
  destruct (status_frame _); cbn [mbind option_bind]; [|done].
  destruct (push_or_drop _ _ _). by intros [= _ <-].
Qed.

Lemma same_session_trans a a1 a2 : same_session a a1 -> same_session a1 a2 -> same_session a a2.
Proof. intros (? & ? & ?) (? & ? & ?). split_and!; congruence. Qed.

Lemma same_session_drained a w st w' st' a' :
  drained_status a w st = Some (w', st', a') -> same_session a a'.
Proof.
  unfold drained_status. destruct (client a); [|by intros [= _ _ <-]].
  set (wa := if _ && _ then refresh_poll a w else (w, a)).
  assert (Hwa : same_session a wa.2) by (unfold wa; destruct (_ && _); [apply same_session_refresh|done]).
  destruct wa as [w1 a1]. destruct (push_status a1 st) as [[st2 a2]|] eqn:Ep; cbn [mbind option_bind]; [|done].
  intros [= _ _ <-]. eapply same_session_trans; [exact Hwa|]. by eapply same_session_push.
Qed.

(** A tick keeps the session, and never ends the loop. *)
Lemma on_tick_continues a w st flow w' st' :
  on_tick a w st = Some (flow, w', st') -> exists a', flow = Continue a' /\ same_session a a'.
Proof.
  unfold on_tick. pose proof (same_session_refresh a w) as Hwa. destruct (refresh_poll a w) as [w1 a1].
  destruct (push_status a1 st) as [[st2 a2]|] eqn:Ep; cbn [mbind option_bind]; [|done].
  intros [= <- _ _]. exists a2. split; [done|].
  eapply same_session_trans; [exact Hwa|]. by eapply same_session_push.
Qed.

(** CLOSE ends the loop exactly when the session is dead. *)
Lemma on_close_flow now g a w st flow w' st' :
  on_close now g a w st = Some (flow, w', st') ->
  exists a', session a' = session a /\ grace_deadline a' = grace_deadline a /\
    flow = if Session.is_dead (session a) then Break a' else Continue a'.
Proof.
  unfold on_close. destruct (Session.hangup _ w) as [w1 x]. cbv zeta.
  set (a1 := if (0 <? g)%N then _ else _).
  assert (E1 : session a1 = session a /\ grace_deadline a1 = grace_deadline a)
    by (unfold a1; by destruct (0 <? g)%N).
  destruct E1 as [E1 E2]. rewrite E1. destruct (Session.is_dead (session a)).
  - destruct (client a1); [|intros [= <- _ _]; by exists a1].
    destruct (exit_frame _); cbn [mbind option_bind]; [|done]. intros [= <- _ _].
    by exists (set_client None a1).
  - intros [= <- _ _]. by exists a1.
Qed.

(** So does an attach. *)
Lemma on_attach_flow req a w st flow w' st' :
  on_attach req a w st = Some (flow, w', st') ->
  exists a', eng a' = eng a /\ Session.lifecycle (session a') = Session.lifecycle (session a) /\
    grace_deadline a' = grace_deadline a /\
    flow = if Session.is_dead (session a) then Break a' else Continue a'.
Proof.
  unfold on_attach.
  set (wa := if Session.has_prompt_marking (session a) then (w, a) else refresh_poll a w).
  assert (Hwa : same_session a wa.2)
    by (unfold wa; destruct (Session.has_prompt_marking _); [done|apply same_session_refresh]).
  destruct wa as [w1 a1]. cbn [snd] in Hwa. destruct Hwa as (Hs & Hg & _).
  destruct (attach_client _ _ _ req w1 st) as [[[[w2 st2] s2] c2]|] eqn:Ea; cbn [mbind option_bind]; [|done].
  destruct (attach_client_keeps _ _ _ _ _ _ _ _ _ _ Ea) as [He Hl]. rewrite Hs in He, Hl.
  intros [= <- _ _]. set (a2 := set_last_status _ _). exists a2. split; [done|]. split; [done|].
  split; [done|]. unfold Session.is_dead. change (session a2) with s2. by rewrite Hl.
Qed.

(** The readable arm, by what the drain returned. *)
Lemma on_readable_flow opts fuel now a w st flow w' st' :
  on_readable opts fuel now true a w st = Some (flow, w', st') ->
  exists w1 s1 r, Session.drain fuel (session a) w = Some (w1, s1, r) /\
    match r with
    | Err _ => exists a', flow = Break a'
    | Ok out => exists a', session a' = s1 /\
        match Session.exit out with
        | Some _ => if closing a then flow = Break a'
                    else flow = Continue a' /\ grace_deadline a' = Some (now + dead_grace opts)%N
        | None => flow = Continue a' /\ grace_deadline a' = grace_deadline a
        end
    end.
Proof.
  unfold on_readable. cbn [negb].
  destruct (Session.drain fuel (session a) w) as [[[w1 s1] [out|er]]|] eqn:Ed; cbn [mbind option_bind]; [| |done].
  2: { intros [= <- _ _]. eexists _, _, _. split; [done|]. by eexists. }
  destruct (if bool_decide _ then (st, _) else _) as [st1 c1].
  destruct (drained_status _ w1 st1) as [[[w2 st2] a2]|] eqn:Eds; cbn [mbind option_bind]; [|done].
  destruct (same_session_drained _ _ _ _ _ _ Eds) as (Es & Eg & Ec).
  cbn [session grace_deadline closing set_client set_session] in Es, Eg, Ec.
  intros Hf. exists w1, s1, (Ok out). split; [done|]. revert Hf.
  destruct (Session.exit out) as [code|]; [|intros [= <- _ _]; by exists a2].
  destruct (exit_frame code); cbn [mbind option_bind]; [|done].
  destruct (push_or_drop _ _ st2) as [st3 c3]. change (closing (set_client c3 a2)) with (closing a2).
  rewrite Ec. destruct (closing a); intros [= <- _ _].
  - by exists (set_client c3 a2).
  - by exists (set_grace_deadline (Some (now + dead_grace opts)%N) (set_client c3 a2)).
Qed.

(** A turn keeps the engine reachable, and arms the retention of a session that
    dies. *)
Lemma select_retained opts fuel ready a w st a' w' st' :
  reached (eng a) -> retained a -> select opts fuel ready a w st = Some (Continue a', w', st') ->
  reached (eng a') /\ retained a'.
Proof.
  intros Hr Hret. unfold select.
  assert (Hsame : forall b, eng b = eng a -> Session.lifecycle (session b) = Session.lifecycle (session a) ->
    grace_deadline b = grace_deadline a -> reached (eng b) /\ retained b).
  { intros b E1 E2 E3. unfold retained. by rewrite E1, E2, E3. }
  assert (Hss : forall b, same_session a b -> reached (eng b) /\ retained b).
  { intros b (E1 & E2 & _). apply Hsame; unfold eng; by rewrite ?E1. }
  destruct (r_cmd ready) as [[[input|c r|g|req|reply]|]|]; cbn [on_cmd]; try done.
  - destruct (Session.write_input _ _ w). by intros [= <- _ _].
  - pose proof (resize_session c r (session a) w) as [He Hl].
    destruct (Session.resize c r (session a) w) as [[w1 s1] x]. intros [= <- _ _]. by apply Hsame.
  - intros (a1 & E1 & E2 & Hf)%on_close_flow. destruct (Session.is_dead _); [done|].
    injection Hf as ->. apply Hsame; unfold eng; by rewrite ?E1.
  - intros (a1 & E1 & E2 & E3 & Hf)%on_attach_flow. destruct (Session.is_dead _); [done|].
    injection Hf as ->. by apply Hsame.
  - destruct (Session.info _ _ w). by intros [= <- _ _].
  - destruct (if Session.is_dead (session a) then None else r_readable ready) as [[]|]; [|done|].
    + intros (w1 & s1 & [out|er] & Ed & Hf)%on_readable_flow; [|by destruct Hf].
      destruct (drain_session _ _ _ _ _ _ Hr Ed) as [He Hx].
      destruct Hf as (a1 & <- & Hf). split.
      { apply (reached_feed (eng a) (Session.data out)); [done|].
        destruct (Session.exit out); [destruct (closing a); [done|]|]; by destruct Hf as [[= ->] _]. }
      unfold retained in *. destruct (Session.exit out) as [code|].
      * destruct (closing a); [done|]. destruct Hf as [[= ->] Hg]. destruct Hx as [_ ->]. eauto.
      * destruct Hf as [[= ->] Hg]. by rewrite Hx, Hg.
    + destruct (passed (grace_deadline a) _); [done|]. destruct (passed (kill_deadline a) _).
      { unfold on_kill_deadline. destruct (if Session.is_dead _ then _ else _). by intros [= <- _ _]. }
      destruct (_ && _); [|by intros [= <- _ _]].
      intros (a1 & [= ->] & Hs)%on_tick_continues. by apply Hss.
Qed.

(** The states of a running actor: any turns, the kernel and the channels
    moving freely in between. *)
Inductive actor_run (opts : ServerOpts) : Actor -> Actor -> Prop :=
  | RunStart a : actor_run opts a a
  | RunTurn fuel ready a w st a1 w1 st1 a2 :
      select opts fuel ready a w st = Some (Continue a1, w1, st1) ->
      actor_run opts a1 a2 -> actor_run opts a a2.

Lemma actor_run_retained opts a a' :
  actor_run opts a a' -> reached (eng a) -> retained a -> reached (eng a') /\ retained a'.
Proof.
  induction 1 as [a|fuel ready a w st a1 w1 st1 a2 Hs _ IH]; intros Hr Hret; [done|].
  destruct (select_retained _ _ _ _ _ _ _ _ _ Hr Hret Hs). by apply IH.
Qed.
End endings.

(** C20: a session that dies while its actor runs is retained for a bounded time:
    it has a grace deadline, and once that has passed the first turn that finds
    no command ends the loop; a CLOSE ends it at once. *)
Theorem dead_session_expires `{EngineLaws, Os, ChannelLaws} `{!Json StatusMsg, !Json ExitMsg} opts s a :
  reached (Session.engine_st s) -> Session.lifecycle s = Session.Live ->
  actor_run opts (Actor_new s) a -> Session.is_dead (session a) = true ->
  exists d, grace_deadline a = Some d /\
    (forall fuel ready w st, r_cmd ready = None -> (d <= r_now ready)%N ->
       select opts fuel ready a w st = Some (Break a, w, st)) /\
    (forall now grace_ms w st flow w' st',
       on_cmd now (Some (Registry.Close grace_ms)) a w st = Some (flow, w', st') -> exists a', flow = Break a').
Proof.
  intros Hr Hl Hrun Hd. destruct (actor_run_retained _ _ _ Hrun) as [_ Hret]; [done| |].
  { unfold retained. simpl. by rewrite Hl. }
  unfold retained in Hret. unfold Session.is_dead in Hd.
  destruct (Session.lifecycle (session a)) as [|code] eqn:El; [done|].
  destruct Hret as [d Hg]. exists d. split; [done|]. split.
  - intros fuel ready w st Hc Hn. unfold select, Session.is_dead. rewrite Hc, El, Hg. cbn [passed].
    by rewrite (proj2 (N.leb_le _ _)).
  - intros now g w st flow w' st' (a1 & _ & _ & ->)%on_close_flow.
    unfold Session.is_dead. rewrite El. eauto.
Qed.

(** C21: the loop ends only when every command sender is gone, when a dead
    session is closed or attached to, when the wait for the PTY or the drain
    fails, when the shell of a closing session is reaped, or when the grace of
    a dead session has passed. A live session that is not closing goes on
    whatever its client does. *)
Theorem loop_ends_for_a_reason `{EngineLaws, Os, ChannelLaws} `{!Json StatusMsg, !Json ExitMsg}
    opts fuel ready a w st a' w' st' :
  select opts fuel ready a w st = Some (Break a', w', st') ->
  r_cmd ready = Some None \/
  (Session.is_dead (session a) = true /\
     exists c, r_cmd ready = Some (Some c) /\
       ((exists g, c = Registry.Close g) \/ (exists req, c = Registry.Attach req))) \/
  (r_cmd ready = None /\ Session.is_dead (session a) = false /\
     (r_readable ready = Some false \/
      (exists w1 s1 e, Session.drain fuel (session a) w = Some (w1, s1, Err e)) \/
      (closing a = true /\
         exists w1 s1 out code, Session.drain fuel (session a) w = Some (w1, s1, Ok out) /\
           Session.exit out = Some code))) \/
  (r_cmd ready = None /\ passed (grace_deadline a) (r_now ready) = true).
Proof.
  unfold select. destruct (r_cmd ready) as [[cmd|]|]; [| by left|].
  - intros Hb. right. left. destruct cmd as [input|c r|g|req|reply]; cbn [on_cmd] in Hb.
    + by destruct (Session.write_input _ _ w).
    + by destruct (Session.resize c r (session a) w) as [[??]?].
    + apply on_close_flow in Hb as (a1 & _ & _ & Hf). destruct (Session.is_dead (session a)); [|done].
      split; [done|]. eexists. split; [done|]. left. eauto.
    + apply on_attach_flow in Hb as (a1 & _ & _ & _ & Hf). destruct (Session.is_dead (session a)); [|done].
      split; [done|]. eexists. split; [done|]. right. eauto.
    + by destruct (Session.info _ _ w).
  - destruct (passed (grace_deadline a) (r_now ready)) eqn:Eg; [intros _; by right; right; right|].
    assert (Hrest : (if passed (kill_deadline a) (r_now ready) then on_kill_deadline a w st
                     else if r_tick ready && tick_enabled a then on_tick a w st
                     else Some (Continue a, w, st)) <> Some (Break a', w', st')).
    { destruct (passed (kill_deadline a) _).
      { unfold on_kill_deadline. by destruct (if Session.is_dead _ then _ else _). }
      destruct (_ && _); [|done]. by intros (a1 & Hf & _)%on_tick_continues. }
    destruct (Session.is_dead (session a)); [done|].
    destruct (r_readable ready) as [[]|]; [| |done].
    + intros (w1 & s1 & r & Ed & Hf)%on_readable_flow. right. right. left. split; [done|]. split; [done|].
      right. destruct r as [out|er]; [|left; eauto]. right.
      destruct Hf as (a1 & _ & Hf). destruct (Session.exit out) as [code|] eqn:Ex; [|by destruct Hf].
      destruct (closing a); [|by destruct Hf]. split; [done|]. by exists w1, s1, out, code.
    + intros _. right. right. left. split; [done|]. split; [done|]. by left.
Qed.

(** C22: CLOSE on a live session hangs up its process group at once and goes on,
    so that the entry stays until the shell is reaped; only with a positive grace
    is a kill armed, the first idle turn at the deadline kills the group, and it
    fires once: the deadline is cleared. *)
Theorem close_escalates_once `{Engine, Os, Tokio} `{!Json StatusMsg, !Json ExitMsg}
    opts fuel now grace_ms a w st ready w1 st1 :
  Session.lifecycle (session a) = Session.Live -> kill_deadline a = None -> grace_deadline a = None ->
  r_cmd ready = None -> r_readable ready = None ->
  exists a', on_close now grace_ms a w st =
      Some (Continue a', (killpg (child (Session.pty (session a))) SIGHUP w).1, st) /\
    closing a' = true /\ client a' = client a /\ session a' = session a /\
    kill_deadline a' = (if (0 <? grace_ms)%N then Some (now + grace_ms)%N else None) /\
    ((0 < grace_ms)%N -> (now + grace_ms <= r_now ready)%N ->
       select opts fuel ready a' w1 st1 =
         Some (Continue (set_kill_deadline None a'),
               (killpg (child (Session.pty (session a))) SIGKILL w1).1, st1)).
Proof.
  intros Hl Hk Hg Hc Hrd. unfold on_close, Session.hangup, Session.is_dead. rewrite Hl.
  unfold Pty.hangup. destruct (killpg _ SIGHUP w) as [w2 r2]. cbv zeta.
  set (a' := if (0 <? grace_ms)%N then _ else _).
  assert (Ha : session a' = session a /\ closing a' = true /\ client a' = client a /\
    grace_deadline a' = None /\
    kill_deadline a' = (if (0 <? grace_ms)%N then Some (now + grace_ms)%N else None)).
  { unfold a'. destruct (0 <? grace_ms)%N; by split_and!. }
  destruct Ha as (E1 & E2 & E3 & E4 & E5). rewrite E1, Hl. exists a'. split_and!; try done.
  intros Hpos Hdue. unfold select. rewrite Hc, Hrd, E4, E5, (proj2 (N.ltb_lt _ _)) by done.
  cbn [passed]. rewrite (proj2 (N.leb_le _ _)) by done.
  unfold on_kill_deadline, Session.kill, Session.is_dead. rewrite E1, Hl. unfold Pty.kill.
  by destruct (killpg _ SIGKILL w1).
Qed.

(** The two merged views of [running] disagree on a dead session: a shell
    that died while a marked command ran is never running for LIST, but the
    STATUS of an attach still says it is. *)
Theorem dead_status_still_running `{Engine, Os} s code poll w :
  Session.lifecycle s = Session.Dead code -> Session.has_prompt_marking s = true ->
  running (Session.status s) = true ->
  running (effective_status s poll) = true /\ (Session.effective_running s w).2 = false.
Proof.
  intros Hl Hm Hr. unfold effective_status, Session.effective_running, Session.is_dead, merge_running.
  simpl. by rewrite Hl, Hm, Hr.
Qed.

(** CLOSE does not stop new attaches: the actor of a closing session that is
    still alive binds the next client like any other. *)
Theorem attach_while_closing `{EngineLaws, Os, ChannelLaws} `{!Json StatusMsg, !Json ExitMsg}
    `{!TotalJson StatusMsg, !TotalJson ExitMsg} req a w st :
  closing a = true -> Session.lifecycle (session a) = Session.Live ->
  exists a' w' st', on_attach req a w st = Some (Continue a', w', st') /\
    client a' = Some (out_tx req) /\ closing a' = true.
Proof.
  intros Hc Hl. unfold on_attach.
  set (wa := if Session.has_prompt_marking (session a) then (w, a) else refresh_poll a w).
  assert (Hwa : same_session a wa.2)
    by (unfold wa; destruct (Session.has_prompt_marking _); [done|apply same_session_refresh]).
  destruct wa as [w1 a1]. cbn [snd] in Hwa. destruct Hwa as (Hs & _ & Hcl).
  destruct (attach_client_total (session a1) (client a1) (poll_running a1) req w1 st) as [[[[w2 st2] s2] c2] Ea].
  destruct (attach_client_keeps _ _ _ _ _ _ _ _ _ _ Ea) as [_ Hl2]. rewrite Ea. cbn [mbind option_bind].
  assert (Hc2 : c2 = Some (out_tx req)).
  { revert Ea. unfold attach_client. destruct (Session.resize _ _ _ w1) as [[w3 s3] x].
    destruct (status_frame _); cbn [mbind option_bind]; [|done].
    destruct (Session.lifecycle s3); cbn [mbind option_bind]; [by intros [= _ _ _ <-]|].
    destruct (exit_frame _); cbn [mbind option_bind]; [by intros [= _ _ _ <-]|done]. }
  unfold Session.is_dead. cbn [session set_last_status set_client set_session].
  rewrite Hl2, Hs, Hl. eexists _, w2, st2. split; [done|]. split; [done|]. simpl. by rewrite Hcl.
Qed.
