(* ===== verification/ActorWitness.v ===== *)
(** The theorems of the actor at concrete sessions: a scripted kernel, bounded
    queues, the reference parser, and two small codecs in place of JSON. *)
From S2P Require Import Prelude Status Engine Pty Protocol Registry Server Actor.
From S2P Require Import OsInstance TokioInstance Vte ParserInstance Scanner ScannerProps.
From S2P Require Session.

#[export] Instance status_codec : Json StatusMsg :=
  {| json_error := unit;
     to_vec v := Ok ((if msg_running v then x01 else x00) ::
                     match msg_progress v with Some p => x01 :: replicate (N.to_nat p) x00 | None => [] end);
     from_slice bs := match bs with
                      | b :: rest =>
                          Ok {| msg_running := bool_decide (b = x01);
                                msg_progress := match rest with
                                                | _ :: p => Some (N.of_nat (length p))
                                                | [] => None
                                                end |}
                      | [] => Err tt
                      end |}.
#[export] Instance exit_codec : Json ExitMsg :=
  {| json_error := unit; to_vec v := Ok (to_string (Z.to_N (exit_status v))); from_slice _ := Err tt |}.
#[export] Instance status_total : TotalJson StatusMsg.
Proof. split. intros v. by eexists. Qed.
#[export] Instance status_laws : JsonLaws StatusMsg.
Proof.
  split. intros [r p] bs [= <-]. cbn [from_slice status_codec msg_running msg_progress].
  destruct r, p as [p|]; simpl; rewrite ?length_replicate, ?N2Nat.id; reflexivity.
Qed.
#[export] Instance exit_total : TotalJson ExitMsg.
Proof. split. intros v. by eexists. Qed.

Definition actor0 : Actor := Actor_new Session.session0.
Definition store8 : @store queue_tokio := (frame_channel 8 (no_channels : @store queue_tokio)).1.
Definition request0 : AttachRequest (@frame_tx queue_tokio) := mkAttach 0 80 24 (0 : @frame_tx queue_tokio).

Lemma room8 :
  free store8 (out_tx request0) =
    length (frame_data (Session.replay_data (Session.replay_for_attach (want_chunks request0) (session actor0)))) + (2 + 6).
Proof. vm_compute. reflexivity. Qed.

Lemma fresh8 : accepted store8 (out_tx request0) = [].
Proof. vm_compute. reflexivity. Qed.

Lemma attach_handshake_witness :
  exists flow w' st' fs, on_attach request0 actor0 Session.script_demo store8 = Some (flow, w', st') /\
    accepted st' (out_tx request0) = fs /\ length fs = 1.
Proof.
  destruct (on_attach_total request0 actor0 (Session.script_demo : @world script_os) store8) as [[[flow w'] st'] E].
  destruct (attach_handshake request0 actor0 _ store8 flow w' st' 6 E room8)
    as (a' & poll & fs & _ & _ & (sf & _ & Hfs) & Ha & _).
  exists flow, w', st', fs. split; [exact E|]. split; [exact Ha|].
  cbn [session actor0 Actor_new Session.lifecycle Session.session0] in Hfs. rewrite Hfs.
  vm_compute. reflexivity.
Defined.

(** A command of the client, and what a turn makes of it. *)
Definition ready_input : Ready :=
  {| r_cmd := Some (Some (Registry.Input (lit "ls") : SessionCommand (@frame_tx queue_tokio) (@reply_tx queue_tokio)));
     r_readable := None; r_tick := false; r_now := 0 |}.

Lemma reached0 : reached (eng actor0).
Proof. exists []. apply eng_feed_nil. Qed.

(** ** The end of a session *)

Definition dying_script : Script :=
  {| script_reads := [Ok (lit "bye"); Err EIO]; script_writes := []; script_waits := [Ok (Exited 3)];
     foreground := 7; written := []; signals := [] |}.

Definition ready_readable (now : N) : Ready :=
  {| r_cmd := None; r_readable := Some true; r_tick := false; r_now := now |}.
Definition ready_none (now : N) : Ready :=
  {| r_cmd := None; r_readable := None; r_tick := false; r_now := now |}.
Definition ready_closed : Ready :=
  {| r_cmd := Some None; r_readable := None; r_tick := false; r_now := 0 |}.

(** A detached session whose shell exits starts its retention. *)
Lemma detached_exit opts fuel now a w st w1 s1 out code :
  client a = None -> closing a = false ->
  Session.drain fuel (session a) w = Some (w1, s1, Ok out) -> Session.exit out = Some code ->
  exists a', on_readable opts fuel now true a w st = Some (Continue a', w1, st) /\ session a' = s1.
Proof.
  intros Hc Hcl Hd Hx. unfold on_readable. cbn [negb]. rewrite Hd. cbn [mbind option_bind client set_session]. rewrite Hc.
  assert (Hf : (if bool_decide (Session.data out = []) then (st, None)
                else forward_data None (Session.data out) st) = (st, None)).
  { case_bool_decide; [done|]. apply forward_detached. }
  rewrite Hf. unfold drained_status. cbn [client set_client mbind option_bind]. rewrite Hx.
  destruct (to_vec_total {| exit_status := code |}) as [bs Hbs]. unfold exit_frame, control. rewrite Hbs.
  cbn [mbind option_bind push_or_drop client set_client closing set_session]. rewrite Hcl.
  eexists. split; [reflexivity|done].
Qed.

Lemma dead_session_expires_witness :
  exists a d, actor_run default_opts actor0 a /\ Session.is_dead (session a) = true /\
    grace_deadline a = Some d /\
    forall fuel w (st : @store queue_tokio),
      select default_opts fuel (ready_none d) a w st = Some (Break a, w, st).
Proof.
  destruct (eng_feed_total (lit "bye")) as [e He].
  pose proof (Session.drain_exit 9 (session actor0) dying_script _ _ {| bytes := lit "bye"; eof := true |}
    e (Some 3%Z) ltac:(vm_compute; reflexivity) eq_refl ltac:(discriminate) eq_refl He
    ltac:(vm_compute; reflexivity)) as D.
  destruct (detached_exit default_opts 9 1000 actor0 _ (no_channels : @store queue_tokio) _ _ _ 3%Z
    eq_refl eq_refl D eq_refl) as (a & Ha & Hs).
  assert (Hrun : actor_run default_opts actor0 a).
  { eapply (RunTurn default_opts 9 (ready_readable 1000) actor0 _ no_channels); [|apply RunStart]. exact Ha. }
  assert (Hd : Session.is_dead (session a) = true) by (rewrite Hs; reflexivity).
  destruct (dead_session_expires default_opts Session.session0 a reached0 eq_refl Hrun Hd)
    as (d & Hg & Hend & _).
  exists a, d. split; [exact Hrun|]. split; [exact Hd|]. split; [exact Hg|].
  intros fuel w st. apply Hend; [reflexivity|cbn [r_now ready_none]; lia].
Defined.

Lemma loop_ends_for_a_reason_witness :
  r_cmd ready_closed = Some None \/ passed (grace_deadline actor0) 0 = true.
Proof.
  destruct (loop_ends_for_a_reason default_opts 1 ready_closed actor0 (Session.script_demo : @world script_os) store8 actor0
    (Session.script_demo : @world script_os) store8 eq_refl) as [Hc|[(_ & c & Hc & _)|[(Hc & _)|(_ & Hp)]]].
  - left. exact Hc.
  - discriminate Hc.
  - discriminate Hc.
  - right. exact Hp.
Defined.

Lemma close_escalates_once_witness :
  exists a', on_close 10 1500 actor0 (Session.script_demo : @world script_os) store8 =
      Some (Continue a', (killpg 7 SIGHUP (Session.script_demo : @world script_os)).1, store8) /\
    kill_deadline a' = Some 1510%N /\
    select default_opts 1 (ready_none 1510) a' (Session.script_demo : @world script_os) store8 =
      Some (Continue (set_kill_deadline None a'),
            (killpg 7 SIGKILL (Session.script_demo : @world script_os)).1, store8).
Proof.
  destruct (close_escalates_once default_opts 1 10 1500 actor0 (Session.script_demo : @world script_os) store8 (ready_none 1510)
    (Session.script_demo : @world script_os) store8 eq_refl eq_refl eq_refl eq_refl eq_refl) as (a' & H1 & _ & _ & _ & H2 & H3).
  exists a'. split; [exact H1|]. split; [exact H2|].
  apply H3; [lia|cbn [r_now ready_none]; lia].
Defined.

Definition spec0 : Protocol.AttachOrOpen :=
  Protocol.mkAttachOrOpen "s" (lit "/") [lit "sh"] 0 80 24.

(** A session whose shell died while a marked command ran. *)
Definition died_running : Session.Session :=
  Session.set_lifecycle (Session.Dead 3)
    (Session.set_engine (mkEngine _ (run_of WATERMARK marker_demo)) Session.session0).

Lemma dead_status_still_running_witness :
  running (effective_status died_running false) = true /\
  (Session.effective_running died_running (Session.script_demo : @world script_os)).2 = false.
Proof.
  apply (dead_status_still_running died_running 3 false (Session.script_demo : @world script_os));
    vm_compute; reflexivity.
Defined.

Lemma attach_while_closing_witness :
  exists a' w' st', on_attach request0 (set_closing true actor0) (Session.script_demo : @world script_os) store8 =
      Some (Continue a', w', st') /\ client a' = Some (0 : @frame_tx queue_tokio) /\ closing a' = true.
Proof.
  exact (attach_while_closing request0 (set_closing true actor0) (Session.script_demo : @world script_os)
    store8 eq_refl eq_refl).
Defined.
