(* ===== verification/Connection.v ===== *)
(** jftermd/src/server.rs: the connections.

    The first frame of a connection decides what it is: HELLO makes it a control
    connection, ATTACH_OR_OPEN binds it to a session, and its reader turns the
    frames that follow into commands while its writer sends the queue. A socket
    is the list of the answers its reads give ([reads]: bytes, none of them at
    the end of the stream, or an error); a task whose list runs out waits. [None]
    is a panic, which [Clients] shows never happens. *)
From S2P Require Import Prelude Pty Protocol Registry Server.

(** The answers of the reads of a socket. *)
Abbreviation reads := (list (io_result (list byte))).

(** The write half of a socket. *)
Class Stream := {
  stream : Type;
  write_all : list byte -> stream -> stream * io_result unit;
  shutdown : stream -> stream
}.

(** [written] is everything the kernel took. A write takes all of its bytes, or
    fails after a prefix of them. *)
Class StreamLaws {S : Stream} := {
  written : stream -> list byte;
  write_ok bs w w' : write_all bs w = (w', Ok tt) -> written w' = written w ++ bs;
  write_err bs w w' e : write_all bs w = (w', Err e) ->
    exists p q, bs = p ++ q /\ written w' = written w ++ p;
  shutdown_written w : written (shutdown w) = written w
}.

(** ** Reading *)

(** What waits for a frame ends with: the frame, the end of the stream, an
    error, or nothing yet. *)
Inductive ReadFrame :=
  | Got (f : Frame)
  | Eof
  | Failed (e : io_error)
  | Pending.

(** [From<ProtocolError> for io::Error]. *)
Definition from_protocol (e : ProtocolError) : io_error := InvalidData.

Fixpoint read_one_frame (rs : reads) (dec : FrameDecoder) : option (FrameDecoder * reads * ReadFrame) :=
  '(dec, r) ← next_frame dec;
  match r with
  | Err e => Some (dec, rs, Failed (from_protocol e))
  | Ok (Some f) => Some (dec, rs, Got f)
  | Ok None =>
      match rs with
      | [] => Some (dec, [], Pending)
      | Err e :: rs => Some (dec, rs, Failed e)
      | Ok [] :: rs => Some (dec, rs, Eof)
      | Ok buf :: rs => dec ← push buf dec; read_one_frame rs dec
      end
  end.

(** ** The reader of a session connection *)

(** Why [reader_task] is where it is: it waits for bytes, or it broke out of its
    loop at the end of the stream or a read error, at a malformed frame, at a
    command the actor is not there to take, or after CLOSE. *)
Inductive ReaderEnd := Waiting | Disconnected | Malformed (e : ProtocolError) | ActorGone | CloseSent.

Section reader.
Context `{Tokio} `{!Json Protocol.Resize, !Json CloseMsg}.

(** One frame; [Some] leaves the loop. *)
Definition on_frame (tx : cmd_tx) (frame : Frame) (st : store) : store * option ReaderEnd :=
  match ty frame with
  | Protocol.Input =>
      let '(st, sent) := send_cmd tx (Input (payload frame)) st in
      (st, if sent then None else Some ActorGone)
  | Resize_ =>
      match json Protocol.Resize frame with
      | Ok r =>
          let '(st, sent) := send_cmd tx (Registry.Resize (resize_cols r) (resize_rows r)) st in
          (st, if sent then None else Some ActorGone)
      | Err _ => (st, None)
      end
  | Protocol.Close =>
      let grace := match json CloseMsg frame with Ok m => grace_ms m | Err _ => 0%N end in
      ((send_cmd tx (Close grace) st).1, Some CloseSent)
  | _ => (st, None)
  end.

(** The inner loop: the frames already in the buffer, at most [fuel] of them. *)
Fixpoint reader_frames (fuel : nat) (dec : FrameDecoder) (tx : cmd_tx) (st : store) :
    option (FrameDecoder * store * option ReaderEnd) :=
  match fuel with
  | O => None
  | S fuel =>
      '(dec, r) ← next_frame dec;
      match r with
      | Ok (Some frame) =>
          match on_frame tx frame st with
          | (st, Some e) => Some (dec, st, Some e)
          | (st, None) => reader_frames fuel dec tx st
          end
      | Ok None => Some (dec, st, None)
      | Err e => Some (dec, st, Some (Malformed e))
      end
  end.

(** Every frame takes five bytes of the buffer. *)
Definition frame_fuel (dec : FrameDecoder) : nat := S (length (buf dec)).

(** [have_bytes] starts as [true]: the frames behind the first one are taken
    before the socket is read. *)
Fixpoint reader_task (rs : reads) (dec : FrameDecoder) (tx : cmd_tx) (st : store) :
    option (store * ReaderEnd) :=
  '(dec, st, e) ← reader_frames (frame_fuel dec) dec tx st;
  match e with
  | Some e => Some (st, e)
  | None =>
      match rs with
      | [] => Some (st, Waiting)
      | Err _ :: _ | Ok [] :: _ => Some (st, Disconnected)
      | Ok buf :: rs => dec ← push buf dec; reader_task rs dec tx st
      end
  end.

(** One round of the loops of [reader_task]: a frame of the buffer, or a read when
    it holds none. *)
Definition reader_step (rs : reads) (dec : FrameDecoder) (tx : cmd_tx) (st : store) :
    option (reads * FrameDecoder * store * option ReaderEnd) :=
  '(dec, r) ← next_frame dec;
  match r with
  | Ok (Some frame) => let '(st, e) := on_frame tx frame st in Some (rs, dec, st, e)
  | Err e => Some (rs, dec, st, Some (Malformed e))
  | Ok None =>
      match rs with
      | [] => Some ([], dec, st, Some Waiting)
      | Err _ :: rs | Ok [] :: rs => Some (rs, dec, st, Some Disconnected)
      | Ok buf :: rs => dec ← push buf dec; Some (rs, dec, st, None)
      end
  end.
End reader.

(** ** The writer *)

(** The frames the queue hands out, written one after another: at the end of the
    queue, or at a write that fails, the write half is shut down. *)
Fixpoint writer_task `{Stream} (queue : list Frame) (wh : stream) : stream :=
  match queue with
  | [] => shutdown wh
  | frame :: queue =>
      match write_all (encode frame) wh with
      | (wh, Ok _) => writer_task queue wh
      | (wh, Err _) => shutdown wh
      end
  end.

(** ** Session connections *)

(** How far a connection got: it is over, with a result; it waits for bytes; it
    serves a control client; or it is bound to a session, and its reader and its
    writer run. [spawned] is the session task it started. *)
Inductive Conn `{Tokio} :=
  | Over (r : io_result unit)
  | Idle
  | Bound (spawned : option (AttachOrOpen * cmd_rx)) (tx : cmd_tx) (out : frame_rx) (rs : reads)
      (dec : FrameDecoder)
  | Aborted (spawned : option (AttachOrOpen * cmd_rx)).

(** [From<serde_json::Error> for io::Error]: the kind is not looked at. *)
Definition from_json : io_error := InvalidData.

Section session.
Context `{Tokio} `{!Json AttachOrOpen}.

Definition handle_session (opts : ServerOpts) (first : Frame) (rs : reads) (dec : FrameDecoder)
    (reg : Registry) (st : store) : Registry * store * Conn :=
  match json AttachOrOpen first with
  | Err _ => (reg, st, Over (Err from_json))
  | Ok req =>
      let bind (spawned : option (AttachOrOpen * cmd_rx)) (tx : cmd_tx) (st : store) :=
        let '(st, (out_tx, out_rx)) := frame_channel (out_queue opts) st in
        let attach := mkAttach (Protocol.want_chunks req) (Protocol.cols req) (Protocol.rows req) out_tx in
        match send_cmd tx (Attach attach) st with
        | (st, true) => (st, Bound spawned tx out_rx rs dec)
        | (st, false) => (st, Aborted spawned)
        end in
      match attach_or_create (session_id req) reg st with
      | (st, reg, Existing tx) => let '(st, c) := bind None tx st in (reg, st, c)
      | (st, reg, Created tx rx) => let '(st, c) := bind (Some (req, rx)) tx st in (reg, st, c)
      | (st, reg, Rejected) => (reg, st, Over (Ok tt))
      end
  end.
End session.

(** ** Control connections *)

(** How an [Info] request was answered within the deadline: by the actor, or by
    its end; [Silent] is an actor that had not answered when the deadline passed. *)
Inductive Reply := Answered (i : SessionInfo) | Gone | Silent.

(** The replies are awaited one after another, under one deadline. *)
Fixpoint collect_replies (rs : list Reply) : list SessionInfo :=
  match rs with
  | [] => []
  | Answered i :: rs => i :: collect_replies rs
  | Gone :: rs => collect_replies rs
  | Silent :: _ => []
  end.

Section control.
Context `{Tokio, Stream} `{!Json Hello, !Json (list SessionInfo)}.

(** Every request goes out before any reply is awaited; an actor that is gone is
    skipped. *)
Fixpoint request_infos (handles : list (string * cmd_tx)) (st : store) : store * list (string * reply_rx) :=
  match handles with
  | [] => (st, [])
  | (id, tx) :: handles =>
      let '(st, (reply_tx, reply_rx)) := oneshot st in
      let '(st, sent) := send_cmd tx (Info reply_tx) st in
      let '(st, rxs) := request_infos handles st in
      (st, if sent then (id, reply_rx) :: rxs else rxs)
  end.

(** [answers] is how the actors answer the requests sent. *)
Definition collect_sessions (reg : Registry) (answers : reply_rx -> Reply) (st : store) :
    store * list SessionInfo :=
  let '(st, rxs) := request_infos (handles reg) st in
  (st, collect_replies ((fun r => answers r.2) <$> rxs)).

(** The reply to LIST; [Some] is the result the connection ends with. *)
Definition reply_list (infos : list SessionInfo) (wh : stream) : stream * option (io_result unit) :=
  match control Sessions infos with
  | Err _ => (wh, Some (Err from_json))
  | Ok reply =>
      match write_all (encode reply) wh with
      | (wh, Err e) => (wh, Some (Err e))
      | (wh, Ok _) => (wh, None)
      end
  end.

(** One frame of a control connection. *)
Definition on_control_frame (f : Frame) (reg : Registry) (answers : reply_rx -> Reply) (wh : stream)
    (st : store) : store * stream * option (io_result unit) :=
  match ty f with
  | List_ =>
      let '(st, infos) := collect_sessions reg answers st in
      let '(wh, e) := reply_list infos wh in (st, wh, e)
  | _ => (st, wh, None)
  end.

Fixpoint control_loop (fuel : nat) (rs : reads) (dec : FrameDecoder) (reg : Registry)
    (answers : reply_rx -> Reply) (wh : stream) (st : store) : option (store * stream * Conn) :=
  match fuel with
  | O => None
  | S fuel =>
      '(dec, rs, r) ← read_one_frame rs dec;
      match r with
      | Eof => Some (st, wh, Over (Ok tt))
      | Failed e => Some (st, wh, Over (Err e))
      | Pending => Some (st, wh, Idle)
      | Got f =>
          match on_control_frame f reg answers wh st with
          | (st, wh, Some r) => Some (st, wh, Over r)
          | (st, wh, None) => control_loop fuel rs dec reg answers wh st
          end
      end
  end.

(** The frames a connection can still read: five bytes each. *)
Definition control_fuel (rs : reads) (dec : FrameDecoder) : nat :=
  S (length (buf dec) + sum_list ((fun r => match r with Ok bs => length bs | Err _ => 0 end) <$> rs)).

(** The handshake; [version] is [CARGO_PKG_VERSION]. *)
Definition control_hello (version : list byte) (hello_frame : Frame) (wh : stream) :
    stream * option (io_result unit) :=
  match json Hello hello_frame with
  | Err _ => (wh, Some (Err from_json))
  | Ok hello =>
      if negb (proto_version hello =? PROTO_VERSION)%N then (wh, Some (Ok tt))
      else
        match control HelloOk {| proto_version := PROTO_VERSION; daemon_version := version |} with
        | Err _ => (wh, Some (Err from_json))
        | Ok ok =>
            match write_all (encode ok) wh with
            | (wh, Err e) => (wh, Some (Err e))
            | (wh, Ok _) => (wh, None)
            end
        end
  end.

Definition handle_control (version : list byte) (hello_frame : Frame) (rs : reads) (dec : FrameDecoder)
    (reg : Registry) (answers : reply_rx -> Reply) (wh : stream) (st : store) :
    option (store * stream * Conn) :=
  match control_hello version hello_frame wh with
  | (wh, Some r) => Some (st, wh, Over r)
  | (wh, None) => control_loop (control_fuel rs dec) rs dec reg answers wh st
  end.
End control.

(** ** Dispatch *)

(** [peer] is the answer of [SO_PEERCRED], [me] the daemon's own uid. *)
Definition check_peer_uid (peer : result u32 Errno) (me : u32) : io_result unit :=
  match peer with
  | Err e => Err (Sys e)
  | Ok uid => if negb (uid =? me)%N then Err PermissionDenied else Ok tt
  end.

Section dispatch.
Context `{Tokio, Stream} `{!Json Hello, !Json (list SessionInfo), !Json AttachOrOpen}.

Definition dispatch_connection (opts : ServerOpts) (version : list byte) (peer : result u32 Errno) (me : u32)
    (rs : reads) (answers : reply_rx -> Reply) (reg : Registry) (wh : stream) (st : store) :
    option (Registry * store * stream * Conn) :=
  match check_peer_uid peer me with
  | Err e => Some (reg, st, wh, Over (Err e))
  | Ok _ =>
      '(dec, rs, r) ← read_one_frame rs FrameDecoder_new;
      match r with
      | Failed e => Some (reg, st, wh, Over (Err e))
      | Eof => Some (reg, st, wh, Over (Ok tt))
      | Pending => Some (reg, st, wh, Idle)
      | Got first =>
          match ty first with
          | Hello_ =>
              '(st, wh, c) ← handle_control version first rs dec reg answers wh st;
              Some (reg, st, wh, c)
          | AttachOrOpen_ =>
              let '(reg, st, c) := handle_session opts first rs dec reg st in Some (reg, st, wh, c)
          | _ => Some (reg, st, wh, Over (Ok tt))
          end
      end
  end.
End dispatch.
