(* ===== verification/Clients.v ===== *)
(** What a connection promises.

    [read_one_frame] and [reader_task] refine the buffer-free parser of the bytes
    received, so no frame behind the first one is lost; a session connection turns
    into an attach and the commands of its frames, in order; a control connection
    answers each LIST once; a stranger changes nothing; and the bytes the writer
    puts on the socket show the terminal exactly what the shell printed. *)
From S2P Require Import Prelude Status Engine Pty Protocol Registry Server Wire Connection Actor.
From S2P Require Session.

(** * Reading *)

(** The bytes received before the stream ends or fails. *)
Fixpoint received (rs : reads) : list byte :=
  match rs with
  | Ok (b :: bs) :: rs => (b :: bs) ++ received rs
  | _ => []
  end.

(** The stream ends or fails. *)
Fixpoint ended (rs : reads) : bool :=
  match rs with
  | [] => false
  | Ok (_ :: _) :: rs => ended rs
  | _ => true
  end.

Lemma frames_parse bs f rest :
  parse bs = Ok (Some (f, rest)) ->
  frames bs = (f :: (frames rest).1.1, (frames rest).1.2, (frames rest).2).
Proof. intros E. rewrite frames_step, E. by destruct (frames rest) as [[??]?]. Qed.

(** A frame is found in the bytes received, and nothing behind it is lost. *)
Lemma read_one_frame_spec rs dec :
  decoder_wf dec ->
  exists dec' rs' r, read_one_frame rs dec = Some (dec', rs', r) /\ decoder_wf dec' /\
    match r with
    | Got f => parse (unread dec ++ received rs) = Ok (Some (f, unread dec' ++ received rs')) /\
        ended rs' = ended rs
    | Failed _ => parse (unread dec ++ received rs) = Ok None \/
        exists e, parse (unread dec ++ received rs) = Err e
    | Eof => parse (unread dec ++ received rs) = Ok None /\ ended rs = true
    | Pending => parse (unread dec ++ received rs) = Ok None /\ ended rs = false /\ rs' = [] /\
        unread dec' = unread dec ++ received rs
    end.
Proof.
  revert dec. induction rs as [|read rs IH]; intros dec Hw; cbn [read_one_frame].
  all: pose proof (next_frame_spec dec Hw) as Hs; pose proof (parse_app (unread dec)) as Hp.
  all: destruct (parse (unread dec)) as [[[f rest]|]|e] eqn:E;
    [destruct Hs as (dec1 & -> & Hw1 & Hu1)|rewrite Hs|rewrite Hs]; cbn [mbind option_bind].
  all: try (eexists _, _, _; split; [reflexivity|]; split; [done|]; rewrite Hp; rewrite ?Hu1; by eauto).
  - eexists _, _, _. split; [reflexivity|]. split; [done|]. cbn [received]. by rewrite app_nil_r.
  - destruct read as [[|b bs]|er].
    + eexists _, _, _. split; [reflexivity|]. split; [done|]. cbn [received]. by rewrite app_nil_r.
    + destruct (push_spec dec (b :: bs) Hw) as (dec1 & -> & Hw1 & Hu1 & _). cbn [mbind option_bind].
      destruct (IH dec1 Hw1) as (dec2 & rs2 & r & -> & Hw2 & Hr).
      eexists _, _, _. split; [reflexivity|]. split; [done|]. cbn [received ended].
      by rewrite app_assoc, <- Hu1.
    + eexists _, _, _. split; [reflexivity|]. split; [done|]. cbn [received]. rewrite app_nil_r. by left.
Qed.

(** * The commands of a client *)

Section commands.
Context `{CommandLaws} `{!Json Protocol.Resize, !Json CloseMsg}.

(** What the frames ask of the actor: up to the first CLOSE, and a RESIZE that
    does not parse is skipped like a frame that does not belong here. *)
Fixpoint commands_of (fs : list Frame) : list (SessionCommand frame_tx reply_tx) :=
  match fs with
  | [] => []
  | f :: fs =>
      match ty f with
      | Protocol.Input => Input (payload f) :: commands_of fs
      | Resize_ =>
          match json Protocol.Resize f with
          | Ok r => Registry.Resize (resize_cols r) (resize_rows r) :: commands_of fs
          | Err _ => commands_of fs
          end
      | Protocol.Close => [Close match json CloseMsg f with Ok m => grace_ms m | Err _ => 0%N end]
      | _ => commands_of fs
      end
  end.

Definition closes (fs : list Frame) : bool := existsb (fun f => bool_decide (ty f = Protocol.Close)) fs.

(** What the reader ends with when the actor takes every command. *)
Definition reader_end (fs : list Frame) (e : option ProtocolError) (stream_ended : bool) : ReaderEnd :=
  if closes fs then CloseSent
  else match e with
       | Some e => Malformed e
       | None => if stream_ended then Disconnected else Waiting
       end.

(** The first of these commands was the last one tried, and found the actor gone. *)
Definition refused (tx : cmd_tx) (cs : list (SessionCommand frame_tx reply_tx)) (st' : store) : Prop :=
  exists c cs' st, cs = c :: cs' /\ send_cmd tx c st = (st', false).

(** From [st] to [st'] the channel took the commands, or a prefix of them because
    the actor was gone. *)
Definition delivered (tx : cmd_tx) (st st' : store) (cs : list (SessionCommand frame_tx reply_tx))
    (whole : Prop) : Prop :=
  exists p q, cs = p ++ q /\ commands st' tx = commands st tx ++ p /\ ((q = [] /\ whole) \/ refused tx q st').

Lemma delivered_app tx st st1 st2 p cs whole :
  commands st1 tx = commands st tx ++ p -> delivered tx st1 st2 cs whole ->
  delivered tx st st2 (p ++ cs) whole.
Proof.
  intros Hp (p' & q & -> & Hc & Hq). exists (p ++ p'), q. rewrite Hc, Hp, !app_assoc. done.
Qed.

Lemma delivered_refused tx c st st1 cs whole :
  send_cmd tx c st = (st1, false) -> delivered tx st st1 (c :: cs) whole.
Proof.
  intros Hs. exists [], (c :: cs). split; [done|]. split.
  - by rewrite (cmd_refused _ _ _ _ Hs), app_nil_r.
  - right. by exists c, cs, st.
Qed.

Lemma delivered_nil tx st (whole : Prop) : whole -> delivered tx st st [] whole.
Proof.
  intros Hw. exists [], []. split; [done|]. split; [by rewrite app_nil_r|by left].
Qed.

Lemma delivered_impl tx st st1 cs (w1 w2 : Prop) :
  (w1 -> w2) -> delivered tx st st1 cs w1 -> delivered tx st st1 cs w2.
Proof. intros Hw (p & q & ? & ? & Hq). exists p, q. intuition. Qed.

(** One frame: it leaves the loop, or it was sent and the next one follows. *)
Lemma on_frame_spec tx f fs st :
  match on_frame tx f st with
  | (st1, None) =>
      closes (f :: fs) = closes fs /\
      exists p, commands_of (f :: fs) = p ++ commands_of fs /\ commands st1 tx = commands st tx ++ p
  | (st1, Some e) =>
      delivered tx st st1 (commands_of (f :: fs)) (e = CloseSent /\ closes (f :: fs) = true)
  end.
Proof.
  unfold on_frame, closes. cbn [commands_of existsb].
  destruct (ty f) eqn:Et; try (split; [done|]; exists []; by rewrite app_nil_r).
  - destruct (send_cmd tx (Input (payload f)) st) as [st1 [|]] eqn:Es.
    + split; [done|]. eexists [_]. split; [done|]. by eapply cmd_accepted.
    + by eapply delivered_refused.
  - destruct (json Protocol.Resize f) as [r|]; [|split; [done|]; exists []; by rewrite app_nil_r].
    destruct (send_cmd tx (Registry.Resize _ _) st) as [st1 [|]] eqn:Es.
    + split; [done|]. eexists [_]. split; [done|]. by eapply cmd_accepted.
    + by eapply delivered_refused.
  - set (c := Close _). destruct (send_cmd tx c st) as [st1 [|]] eqn:Es; cbn [fst].
    + apply (delivered_app tx st st1 st1 [c] []); [by eapply cmd_accepted|]. by apply delivered_nil.
    + by eapply delivered_refused.
Qed.

(** The frames in the buffer; the reader that leaves the loop here was closed, or
    met the malformed frame, or was refused. *)
Lemma reader_frames_spec n dec tx st :
  decoder_wf dec -> length (unread dec) < n ->
  let '(fs, r, er) := frames (unread dec) in
  exists dec' st' o, reader_frames n dec tx st = Some (dec', st', o) /\
    match o with
    | None => decoder_wf dec' /\ unread dec' = r /\ er = None /\ closes fs = false /\
        commands st' tx = commands st tx ++ commands_of fs
    | Some e =>
        delivered tx st st' (commands_of fs)
          ((e = CloseSent /\ closes fs = true) \/
           (closes fs = false /\ exists pe, er = Some pe /\ e = Malformed pe))
    end.
Proof.
  revert dec st. induction n as [|n IH]; intros dec st Hw Hn; [lia|]. cbn [reader_frames].
  pose proof (next_frame_spec dec Hw) as Hs. rewrite frames_step.
  destruct (parse (unread dec)) as [[[f rest]|]|e] eqn:E.
  - destruct Hs as (dec1 & -> & Hw1 & Hu1). cbn [mbind option_bind].
    pose proof (parse_rest_length _ _ _ E) as Hl.
    pose proof (fun fs => on_frame_spec tx f fs st) as Hf.
    destruct (on_frame tx f st) as [st1 [e|]].
    + destruct (frames rest) as [[fs r] er]. eexists _, _, _. split; [reflexivity|].
      eapply delivered_impl; [|apply Hf]. tauto.
    + specialize (IH dec1 st1 Hw1). rewrite Hu1 in IH. destruct (frames rest) as [[fs r] er].
      destruct (IH ltac:(lia)) as (dec2 & st2 & o & -> & Ho).
      destruct (Hf fs) as (Hc & p & Hp & Hst). eexists _, _, _. split; [reflexivity|].
      rewrite Hc, Hp. destruct o as [e|].
      * by eapply delivered_app.
      * destruct Ho as (? & ? & ? & ? & ->). rewrite Hst, app_assoc. done.
  - rewrite Hs. cbn [mbind option_bind]. eexists _, _, _. split; [reflexivity|].
    split_and!; try done. cbn [commands_of]. by rewrite app_nil_r.
  - rewrite Hs. cbn [mbind option_bind]. eexists _, _, _. split; [reflexivity|].
    apply delivered_nil. right. split; [done|]. eauto.
Qed.

Lemma closes_app a b : closes (a ++ b) = closes a || closes b.
Proof. unfold closes. apply existsb_app. Qed.

Lemma commands_of_app a b :
  commands_of (a ++ b) = if closes a then commands_of a else commands_of a ++ commands_of b.
Proof.
  unfold closes. induction a as [|f a IH]; [done|]. cbn [app commands_of existsb].
  destruct (ty f); try exact IH; try (rewrite IH; by destruct (existsb _ a)); [|done].
  destruct (json Protocol.Resize f); [|exact IH]. rewrite IH. by destruct (existsb _ a).
Qed.

(** What the reader was sent when it left the loop stays right when more bytes
    arrive. *)
Lemma left_early tx st st1 x fs r e bs b :
  delivered tx st st1 (commands_of fs)
    ((x = CloseSent /\ closes fs = true) \/
     (closes fs = false /\ exists pe, e = Some pe /\ x = Malformed pe)) ->
  let '(fs', _, e') := match e with
                       | None => let '(fs', r', e') := frames (r ++ bs) in (fs ++ fs', r', e')
                       | Some e => (fs, r ++ bs, Some e)
                       end in
  delivered tx st st1 (commands_of fs') (x = reader_end fs' e' b).
Proof.
  intros Hd. destruct e as [e|].
  - eapply delivered_impl; [|exact Hd]. unfold reader_end.
    intros [[-> ->]|(-> & pe & [= ->] & ->)]; done.
  - destruct (frames (r ++ bs)) as [[fs' r'] e']. destruct Hd as (p & q & Hp & Hst & Hq).
    unfold reader_end. rewrite closes_app, commands_of_app.
    destruct Hq as [(-> & [[-> Hc]|(_ & pe & [=] & _)])|Hq].
    + rewrite Hc. exists p, []. split; [done|]. split; [done|]. by left.
    + destruct (closes fs); [by exists p, q; auto|]. exists p, (q ++ commands_of fs').
      rewrite Hp, <- app_assoc. split; [done|]. split; [done|]. right.
      destruct Hq as (c & q' & st0 & -> & Hs). by exists c, (q' ++ commands_of fs'), st0.
Qed.

(** The reader refines the parser of the bytes received: it is sent the commands
    of their frames, and ends for the reason the stream gives. *)
Lemma reader_task_spec rs dec tx st :
  decoder_wf dec ->
  exists st' r, reader_task rs dec tx st = Some (st', r) /\
    let '(fs, _, e) := frames (unread dec ++ received rs) in
    delivered tx st st' (commands_of fs) (r = reader_end fs e (ended rs)).
Proof.
  revert dec st. induction rs as [|read rs IH]; intros dec st Hw; cbn [reader_task].
  all: pose proof (reader_frames_spec (frame_fuel dec) dec tx st Hw) as Ho;
    pose proof (frames_app (unread dec)) as Ha; pose proof (frames_rest (unread dec)) as Hr;
    destruct (frames (unread dec)) as [[fs r] e];
    destruct Ho as (dec1 & st1 & o & -> & Ho); [unfold frame_fuel, unread; rewrite length_drop; lia|];
    cbn [mbind option_bind]; destruct o as [x|].
  1,3: eexists _, _; split; [reflexivity|];
    match goal with |- context [received ?l] =>
      pose proof (left_early tx st st1 x fs r e (received l) (ended l) Ho) as Hl;
      specialize (Ha (received l))
    end; destruct e; by rewrite Ha.
  all: destruct Ho as (Hw1 & Hu1 & -> & Hc & Hst).
  all: assert (Hstop : forall b : bool,
    let '(fs', _, e') := frames (unread dec ++ []) in
    delivered tx st st1 (commands_of fs') ((if b then Disconnected else Waiting) = reader_end fs' e' b)).
  1,3: intros b; rewrite Ha, app_nil_r, frames_step, (Hr _ _ eq_refl), app_nil_r; exists (commands_of fs), [];
    rewrite app_nil_r; split; [done|]; split; [done|]; left; unfold reader_end; by rewrite Hc.
  - eexists _, _. split; [reflexivity|]. exact (Hstop false).
  - destruct read as [[|b bs]|er]; [eexists _, _; split; [reflexivity|]; exact (Hstop true)| |
      eexists _, _; split; [reflexivity|]; exact (Hstop true)].
    destruct (push_spec dec1 (b :: bs) Hw1) as (dec2 & -> & Hw2 & Hu2 & _). cbn [mbind option_bind].
    destruct (IH dec2 st1 Hw2) as (st2 & y & -> & Hd). eexists _, _. split; [reflexivity|].
    cbn [received ended]. rewrite Ha. rewrite Hu2, Hu1, <- app_assoc in Hd.
    destruct (frames (r ++ (b :: bs) ++ received rs)) as [[fs' r'] e'].
    rewrite commands_of_app, Hc. eapply delivered_app; [exact Hst|].
    unfold reader_end in *. by rewrite closes_app, Hc.
Qed.
End commands.

(** * Control connections *)

Section control.
Context `{Tokio, StreamLaws} `{!Json Hello, !Json (list SessionInfo)}.

Definition lists (fs : list Frame) : nat := length (base.filter (fun f => ty f = List_) fs).

(** A reply to LIST: what some of the actors answered, at most one each. *)
Definition list_reply (reg : Registry) (answers : reply_rx -> Reply) (f : Frame) : Prop :=
  exists infos, control Sessions infos = Ok f /\ length infos <= size (sessions reg) /\
    Forall (fun i => exists r, answers r = Answered i) infos.

(** Neither the codec nor the socket fails. *)
Definition healthy : Prop :=
  (forall infos : list SessionInfo, exists bs, to_vec infos = Ok bs) /\
  (forall bs w, exists w', write_all bs w = (w', Ok tt)).

Lemma request_infos_length hs st : length (request_infos hs st).2 <= length hs.
Proof.
  revert st. induction hs as [|[id tx] hs IH]; intros st; [done|]. cbn [request_infos].
  destruct (oneshot st) as [st1 [r rx]]. destruct (send_cmd tx (Info r) st1) as [st2 ok].
  specialize (IH st2). destruct (request_infos hs st2) as [st3 rxs]. simpl in *.
  destruct ok; simpl; lia.
Qed.

Lemma collect_replies_spec rs :
  length (collect_replies rs) <= length rs /\ Forall (fun i => Answered i ∈ rs) (collect_replies rs).
Proof.
  induction rs as [|[i| |] rs [IH1 IH2]]; cbn [collect_replies length]; split; try lia; try constructor.
  - by left.
  - eapply Forall_impl; [exact IH2|]. intros j Hj. by right.
  - eapply Forall_impl; [exact IH2|]. intros j Hj. by right.
Qed.

Lemma collect_sessions_reply reg answers st f :
  control Sessions (collect_sessions reg answers st).2 = Ok f -> list_reply reg answers f.
Proof.
  unfold collect_sessions. pose proof (request_infos_length (handles reg) st) as Hl.
  destruct (request_infos (handles reg) st) as [st1 rxs]. cbn [snd] in *. intros Hf.
  destruct (collect_replies_spec ((fun r => answers r.2) <$> rxs)) as [H1 H2].
  eexists. split; [exact Hf|]. split.
  - rewrite length_fmap in H1. unfold handles in Hl. rewrite length_map_to_list in Hl. lia.
  - eapply Forall_impl; [exact H2|]. intros i (r & Hr & _)%list_elem_of_fmap. eauto.
Qed.

(** The loop answers every LIST among the frames received, one frame each, and
    writes nothing else. *)
Lemma control_loop_spec n rs dec reg answers wh st :
  decoder_wf dec -> length (unread dec ++ received rs) < n ->
  exists st' wh' c, control_loop n rs dec reg answers wh st = Some (st', wh', c) /\
    (healthy -> exists replies, length replies = lists (frames (unread dec ++ received rs)).1.1 /\
       Forall (list_reply reg answers) replies /\
       written wh' = written wh ++ concat (encode <$> replies)).
Proof.
  revert rs dec wh st. induction n as [|n IH]; intros rs dec wh st Hw Hn; [lia|]. cbn [control_loop].
  destruct (read_one_frame_spec rs dec Hw) as (dec1 & rs1 & r & -> & Hw1 & Hr). cbn [mbind option_bind].
  assert (Hnone : lists (frames (unread dec ++ received rs)).1.1 = 0 ->
    exists replies, length replies = lists (frames (unread dec ++ received rs)).1.1 /\
       Forall (list_reply reg answers) replies /\ written wh = written wh ++ concat (encode <$> replies)).
  { intros ->. exists []. cbn. by rewrite app_nil_r. }
  destruct r as [f| |e|].
  2-4: eexists _, _, _; split; [reflexivity|]; intros _; apply Hnone; rewrite frames_step;
    first [destruct Hr as [Hr _]|destruct Hr as [Hr|[e' Hr]]]; by rewrite Hr.
  destruct Hr as [Hp _]. pose proof (parse_rest_length _ _ _ Hp) as Hl.
  rewrite (frames_parse _ _ _ Hp). cbn [fst snd].
  assert (Hother : ty f <> List_ -> lists (f :: (frames (unread dec1 ++ received rs1)).1.1) =
    lists (frames (unread dec1 ++ received rs1)).1.1).
  { intros Hne. unfold lists. by rewrite filter_cons_False. }
  destruct (IH rs1 dec1 wh st Hw1 ltac:(lia)) as (st' & wh' & c & E & Hs).
  unfold on_control_frame. destruct (ty f) eqn:Et; try (rewrite E, Hother by done; eauto).
  pose proof (collect_sessions_reply reg answers st) as Hrep.
  destruct (collect_sessions reg answers st) as [st1 infos]. cbn [snd] in Hrep.
  unfold reply_list. destruct (control Sessions infos) as [reply|er] eqn:Ec.
  2: { eexists _, _, _. split; [reflexivity|]. intros [Hj _]. unfold control in Ec.
       by destruct (Hj infos) as [bs Hbs]; rewrite Hbs in Ec. }
  destruct (write_all (encode reply) wh) as [wh1 [[]|er]] eqn:Ew.
  2: { eexists _, _, _. split; [reflexivity|]. intros [_ Hok]. destruct (Hok (encode reply) wh); congruence. }
  destruct (IH rs1 dec1 wh1 st1 Hw1 ltac:(lia)) as (st2 & wh2 & c2 & -> & Hs2).
  eexists _, _, _. split; [reflexivity|]. intros Hh. destruct (Hs2 Hh) as (rep & H1 & H2 & H3).
  exists (reply :: rep). split; [|split].
  - unfold lists in *. rewrite filter_cons_True by done. simpl. by rewrite H1.
  - constructor; [by apply Hrep|done].
  - rewrite H3, (write_ok _ _ _ Ew), <- app_assoc. done.
Qed.

Lemma control_fuel_enough rs dec : length (unread dec ++ received rs) < control_fuel rs dec.
Proof.
  unfold control_fuel. rewrite length_app. unfold unread. rewrite length_drop.
  assert (length (received rs) <= sum_list ((fun r => match r with Ok bs => length bs | Err _ => 0 end) <$> rs)).
  { induction rs as [|[[|b bs]|e] rs IH]; cbn [received fmap list_fmap sum_list]; simpl; try lia.
    rewrite length_app. simpl in *. lia. }
  lia.
Qed.
End control.

(** * Whole connections *)

Lemma dispatch_first rs :
  exists dec rs' r, read_one_frame rs FrameDecoder_new = Some (dec, rs', r) /\ decoder_wf dec /\
    match r with
    | Got f => frames (received rs) = (f :: (frames (unread dec ++ received rs')).1.1,
                 (frames (unread dec ++ received rs')).1.2, (frames (unread dec ++ received rs')).2) /\
        ended rs' = ended rs
    | _ => (frames (received rs)).1.1 = []
    end.
Proof.
  destruct (read_one_frame_spec rs FrameDecoder_new decoder_new_wf) as (dec & rs' & r & E & Hw & Hr).
  change (unread FrameDecoder_new) with (@nil byte) in Hr. cbn [app] in Hr.
  exists dec, rs', r. split; [done|]. split; [done|]. destruct r as [f| |e|].
  - destruct Hr as [Hp He]. split; [|done]. by apply frames_parse.
  - destruct Hr as [Hr _]. by rewrite frames_step, Hr.
  - destruct Hr as [Hr|[e' Hr]]; by rewrite frames_step, Hr.
  - destruct Hr as [Hr _]. by rewrite frames_step, Hr.
Qed.

(** C28: no connection makes the daemon panic, and only a peer with the daemon's
    own uid whose first frame is HELLO or ATTACH_OR_OPEN has any effect: for any
    other, the registry, the channels and the socket stay as they were. *)
Theorem only_owner_has_effect `{Tokio, StreamLaws}
    `{!Json Hello, !Json (list SessionInfo), !Json Protocol.AttachOrOpen}
    opts version peer me rs answers reg wh st :
  exists reg' st' wh' c,
    dispatch_connection opts version peer me rs answers reg wh st = Some (reg', st', wh', c) /\
    ((reg', st', wh') = (reg, st, wh) \/
     (peer = Ok me /\ exists f fs, (frames (received rs)).1.1 = f :: fs /\
        (ty f = Hello_ \/ ty f = AttachOrOpen_))).
Proof.
  unfold dispatch_connection, check_peer_uid.
  destruct peer as [uid|e]; [|eexists _, _, _, _; split; [reflexivity|]; by left].
  destruct (N.eqb_spec uid me) as [->|Hne]; cbn [negb]; [|eexists _, _, _, _; split; [reflexivity|]; by left].
  destruct (dispatch_first rs) as (dec & rs' & r & -> & Hw & Hr). cbn [mbind option_bind].
  destruct r as [f| |e|]; try (eexists _, _, _, _; split; [reflexivity|]; by left).
  destruct Hr as [Hr _]. rewrite Hr. cbn [fst].
  assert (Hc : exists st' wh' c, handle_control version f rs' dec reg answers wh st = Some (st', wh', c)).
  { unfold handle_control. destruct (control_hello version f wh) as [wh1 [r|]]; [by eexists _, _, _|].
    destruct (control_loop_spec (control_fuel rs' dec) rs' dec reg answers wh1 st Hw
      (control_fuel_enough rs' dec)) as (st1 & wh2 & c & -> & _). by eexists _, _, _. }
  destruct (ty f) eqn:Et; try (eexists _, _, _, _; split; [reflexivity|]; by left).
  - destruct Hc as (st1 & wh1 & c & ->). eexists _, _, _, _. split; [reflexivity|]. right. eauto 8.
  - destruct (handle_session opts f rs' dec reg st) as [[reg1 st1] c].
    eexists _, _, _, _. split; [reflexivity|]. right. eauto 8.
Qed.

(** A control connection is never bound to a session. *)
Lemma handle_control_unbound `{Tokio, Stream} `{!Json Hello, !Json (list SessionInfo)}
    version f rs dec reg answers wh st st' wh' spawned tx orx rs' dec' :
  handle_control version f rs dec reg answers wh st <> Some (st', wh', Bound spawned tx orx rs' dec').
Proof.
  unfold handle_control. destruct (control_hello version f wh) as [wh1 [r|]]; [by intros [=]|].
  generalize (control_fuel rs dec) as n. intros n. revert rs dec wh1 st.
  induction n as [|n IH]; intros rs dec wh1 st; [done|]. cbn [control_loop].
  destruct (read_one_frame rs dec) as [[[dec1 rs1] [g| |er|]]|]; cbn [mbind option_bind]; try by intros [=].
  destruct (on_control_frame g reg answers wh1 st) as [[st1 wh2] [r|]]; [by intros [=]|apply IH].
Qed.

(** A bound session is in the table, and its channel took the attach. *)
Lemma handle_session_bound `{CommandLaws} `{!Json Protocol.AttachOrOpen}
    opts f rs dec reg st reg' st' spawned tx orx rs' dec' :
  handle_session opts f rs dec reg st = (reg', st', Bound spawned tx orx rs' dec') ->
  rs' = rs /\ dec' = dec /\ exists req out, json Protocol.AttachOrOpen f = Ok req /\
    sessions reg' !! Protocol.session_id req = Some tx /\
    commands st' tx = match spawned with Some _ => [] | None => commands st tx end ++
      [Attach (mkAttach (Protocol.want_chunks req) (Protocol.cols req) (Protocol.rows req) out)].
Proof.
  unfold handle_session. destruct (json Protocol.AttachOrOpen f) as [req|]; [|done]. cbv zeta.
  unfold attach_or_create. destruct (sessions reg !! Protocol.session_id req) as [tx0|] eqn:Es.
  - pose proof (cmd_frame_channel (out_queue opts) st tx0) as Hf.
    destruct (frame_channel (out_queue opts) st) as [st1 [otx orx0]]. cbn [fst] in Hf.
    destruct (send_cmd tx0 _ st1) as [st2 [|]] eqn:Ea; [|done]. intros [= <- <- <- <- <- <- <-].
    split; [done|]. split; [done|]. exists req, otx. split; [done|]. split; [done|].
    by rewrite (cmd_accepted _ _ _ _ Ea), Hf.
  - destruct (_ <=? _)%N; [done|]. pose proof (cmd_new 256 st) as Hn.
    destruct (cmd_channel 256 st) as [st0 [tx0 rx0]]. cbn [fst snd] in Hn.
    pose proof (cmd_frame_channel (out_queue opts) st0 tx0) as Hf.
    destruct (frame_channel (out_queue opts) st0) as [st1 [otx orx0]]. cbn [fst] in Hf.
    destruct (send_cmd tx0 _ st1) as [st2 [|]] eqn:Ea; [|done]. intros [= <- <- <- <- <- <- <-].
    split; [done|]. split; [done|]. exists req, otx. split; [done|].
    split; [by cbn [sessions]; rewrite lookup_insert, decide_True|].
    by rewrite (cmd_accepted _ _ _ _ Ea), Hf, Hn.
Qed.

(** A session connection asks its actor for exactly what its client sent: an
    attach with the size and history of the first frame, then the commands of
    the frames behind it, in order, whether they arrived with the first frame or
    later, however the socket cut them; all of them up to the first CLOSE or
    malformed frame, unless the actor was gone. The reader ends at CLOSE, at the
    malformed frame or with the stream. The session is the one in the table. *)
Theorem session_commands_in_order `{CommandLaws, StreamLaws}
    `{!Json Hello, !Json (list SessionInfo), !Json Protocol.AttachOrOpen, !Json Protocol.Resize, !Json CloseMsg}
    opts version peer me rs answers reg wh st reg' st' wh' spawned tx orx rs' dec :
  dispatch_connection opts version peer me rs answers reg wh st =
    Some (reg', st', wh', Bound spawned tx orx rs' dec) ->
  exists first fs rest e req out,
    frames (received rs) = (first :: fs, rest, e) /\ json Protocol.AttachOrOpen first = Ok req /\
    sessions reg' !! Protocol.session_id req = Some tx /\
    exists st2 r, reader_task rs' dec tx st' = Some (st2, r) /\
      exists p q,
        Attach (mkAttach (Protocol.want_chunks req) (Protocol.cols req) (Protocol.rows req) out)
          :: commands_of fs = p ++ q /\
        commands st2 tx = match spawned with Some _ => [] | None => commands st tx end ++ p /\
        ((q = [] /\ r = reader_end fs e (ended rs)) \/ refused tx q st2).
Proof.
  unfold dispatch_connection. destruct (check_peer_uid peer me) as [[]|er]; [|done].
  destruct (dispatch_first rs) as (dec1 & rs1 & r & -> & Hw & Hr). cbn [mbind option_bind].
  destruct r as [f| |er|]; try done. destruct Hr as [Hr He].
  destruct (ty f) eqn:Et; try done.
  - destruct (handle_control version f rs1 dec1 reg answers wh st) as [[[st1 wh1] c]|] eqn:Ec;
      cbn [mbind option_bind]; [|done]. intros [= _ _ _ ->]. exfalso. by eapply handle_control_unbound.
  - destruct (handle_session opts f rs1 dec1 reg st) as [[reg1 st1] c] eqn:Eh. intros [= <- <- _ ->].
    apply handle_session_bound in Eh as (-> & -> & req & out & Hj & Hs & Hst).
    destruct (reader_task_spec rs1 dec1 tx st1 Hw) as (st2 & y & Hrd & Hd).
    destruct (frames (unread dec1 ++ received rs1)) as [[fs rest] e]. cbn [fst snd] in Hr.
    exists f, fs, rest, e, req, out. split; [done|]. split; [done|]. split; [done|].
    exists st2, y. split; [done|]. rewrite <- He.
    destruct Hd as (p & q & -> & Hc & Hq). eexists (_ :: p), q. split; [done|]. split; [|exact Hq].
    by rewrite Hc, Hst, <- app_assoc.
Qed.

(** C29: a control client whose HELLO carries the protocol's version is answered
    HELLO_OK and then one SESSIONS frame for each LIST among the frames it sent,
    however they were cut, and nothing else; each lists at most the sessions of
    the table, and only what their actors answered. *)
Theorem control_answers_lists `{Tokio, StreamLaws}
    `{!Json Hello, !Json (list SessionInfo), !Json Protocol.AttachOrOpen}
    opts version me rs answers reg wh st first fs rest e hello ok reg' st' wh' c :
  frames (received rs) = (first :: fs, rest, e) -> ty first = Hello_ ->
  json Hello first = Ok hello -> proto_version hello = PROTO_VERSION ->
  control HelloOk {| proto_version := PROTO_VERSION; daemon_version := version |} = Ok ok ->
  healthy ->
  dispatch_connection opts version (Ok me) me rs answers reg wh st = Some (reg', st', wh', c) ->
  reg' = reg /\ exists replies, length replies = lists fs /\ Forall (list_reply reg answers) replies /\
    written wh' = written wh ++ encode ok ++ concat (encode <$> replies).
Proof.
  intros Hfr Hty Hj Hv Hok Hh. unfold dispatch_connection, check_peer_uid. rewrite N.eqb_refl. cbn [negb].
  destruct (dispatch_first rs) as (dec1 & rs1 & r & -> & Hw & Hr). cbn [mbind option_bind].
  rewrite Hfr in Hr. destruct r as [f| |er|]; try done. destruct Hr as [[= -> -> -> ->] _].
  rewrite Hty. unfold handle_control, control_hello. rewrite Hj, Hv, N.eqb_refl, Hok. cbn [negb].
  destruct (write_all (encode ok) wh) as [wh1 [[]|er]] eqn:Ew.
  2: { destruct Hh as [_ Hwr]. destruct (Hwr (encode ok) wh). congruence. }
  destruct (control_loop_spec (control_fuel rs1 dec1) rs1 dec1 reg answers wh1 st Hw
    (control_fuel_enough rs1 dec1)) as (st2 & wh2 & c2 & -> & Hs).
  cbn [mbind option_bind]. intros [= <- <- <- <-]. split; [done|].
  destruct (Hs Hh) as (rep & H1 & H2 & H3). exists rep. split; [done|]. split; [done|].
  by rewrite H3, (write_ok _ _ _ Ew), <- app_assoc.
Qed.

(** * What the terminal shows *)

(** The writer puts a prefix of the encoded queue on the socket. *)
Lemma writer_written `{StreamLaws} queue wh :
  exists p q, concat (encode <$> queue) = p ++ q /\
    written (writer_task queue wh) = written wh ++ p.
Proof.
  revert wh. induction queue as [|f queue IH]; intros wh; cbn [writer_task].
  { exists [], []. split; [done|]. by rewrite shutdown_written, app_nil_r. }
  rewrite fmap_cons. cbn [concat]. destruct (write_all (encode f) wh) as [wh1 [[]|e]] eqn:E.
  - destruct (IH wh1) as (p & q & -> & ->). exists (encode f ++ p), q.
    split; by rewrite ?(write_ok _ _ _ E), ?app_assoc.
  - destruct (write_err _ _ _ _ E) as (p & q & -> & Hw). exists p, (q ++ concat (encode <$> queue)).
    split; by rewrite ?shutdown_written, ?Hw, ?app_assoc.
Qed.

(** A prefix of encoded frames decodes to a prefix of the frames. *)
Lemma frames_prefix fs a b :
  Forall frame_fits fs -> concat (encode <$> fs) = a ++ b ->
  exists fs1 fs2 r, fs = fs1 ++ fs2 /\ frames a = (fs1, r, None).
Proof.
  intros Hf Hab. pose proof (frames_encode fs [] Hf) as He.
  change (frames []) with (@nil Frame, @nil byte, @None ProtocolError) in He. cbv iota beta in He.
  rewrite !app_nil_r, Hab in He. pose proof (frames_app a b) as Ha.
  destruct (frames a) as [[fs1 r] [e|]]; rewrite Ha in He; [done|].
  destruct (frames (r ++ b)) as [[fs2 r2] e2]. injection He as <- _ _. by exists fs1, fs2, r.
Qed.

Lemma read_all_frames reads fs r :
  frames (concat reads) = (fs, r, None) ->
  exists d, read_all FrameDecoder_new reads = Some (d, fs, None).
Proof.
  intros Hf. destruct (read_all_spec reads FrameDecoder_new decoder_new_wf eq_refl)
    as (d & fs' & rest & e & H1 & H2 & _).
  change (unread FrameDecoder_new) with (@nil byte) in H2. rewrite app_nil_l, Hf in H2.
  injection H2 as <- <- <-. by exists d.
Qed.

(** What a client decodes of a socket that was written a prefix of its queue. *)
Lemma shown_output `{EngineLaws, Os, ChannelLaws} `{!Json StatusMsg, !Json ExitMsg}
    `{!JsonLaws StatusMsg} opts req a w st a1 w1 st1 a2 st2 n creads rest :
  reached (eng a) -> accepted st (out_tx req) = [] ->
  free st (out_tx req) =
    length (frame_data (Session.replay_data (Session.replay_for_attach (want_chunks req) (session a)))) + (2 + n) ->
  on_attach req a w st = Some (Continue a1, w1, st1) ->
  turns opts (out_tx req) (a1, st1) (a2, st2) ->
  (forall f, f ∈ accepted st2 (out_tx req) -> ty f <> Data -> frame_fits f) ->
  concat creads ++ rest `prefix_of` concat (encode <$> accepted st2 (out_tx req)) ->
  exists d fs o later, read_all FrameDecoder_new creads = Some (d, fs, None) /\
    eng_feed (eng a) o = Some (eng a2) /\
    Session.replay_data (Session.replay_for_attach (want_chunks req) (session a)) ++ o = data_of fs ++ later /\
    no_repeat (statuses fs) /\
    (client a2 = Some (out_tx req) -> fs = accepted st2 (out_tx req) -> later = []).
Proof.
  intros Hr Hnil Hfree Ha Ht Hsmall [more Hx].
  destruct (attached_client_stream _ _ _ _ _ _ _ _ _ _ _ Hr Hnil Hfree Ha Ht)
    as (o & p & q & He & -> & Hd & Hall & Hn & Hfit).
  assert (Hfits : Forall frame_fits (accepted st2 (out_tx req))).
  { rewrite Forall_forall in Hfit. apply Forall_forall. intros f Hin.
    destruct (decide (ty f = Data)) as [Hty|Hty]; [by apply Hfit|by apply Hsmall]. }
  rewrite <- app_assoc in Hx.
  destruct (frames_prefix _ _ _ Hfits Hx) as (fs & fs2 & r & Hfs & Hfr).
  destruct (read_all_frames _ _ _ Hfr) as [d Hrd].
  exists d, fs, (p ++ q), (data_of fs2 ++ q). split; [done|]. split; [done|]. split; [|split].
  - by rewrite !app_assoc, <- Hd, Hfs, data_of_app.
  - rewrite Hfs, statuses_app in Hn. intros i f L1 L2. apply (Hn i f); by apply lookup_app_l_Some.
  - intros Hcl ->. rewrite (Hall Hcl), app_nil_r. rewrite <- (app_nil_r (accepted st2 _)) in Hfs at 1.
    apply app_inv_head in Hfs. by subst fs2.
Qed.

(** The terminal shows what the shell printed. A client attaches through a
    fresh queue with room for the handshake; the actor takes any turns but
    another attach; the writer sends what it was handed of the queue until the
    socket fails; the client decodes what has arrived, cut into reads anywhere.
    Then the data it decodes is a prefix of the replay followed by what the shell
    printed since the attach: nothing is lost, repeated or reordered in between,
    and no status is repeated. If it is still attached and everything queued has
    arrived, it has all of it. *)
Theorem terminal_shows_output `{EngineLaws, Os, ChannelLaws, StreamLaws} `{!Json StatusMsg, !Json ExitMsg}
    `{!JsonLaws StatusMsg} opts req a w st a1 w1 st1 a2 st2 n taken waiting wh creads rest :
  reached (eng a) -> accepted st (out_tx req) = [] ->
  free st (out_tx req) =
    length (frame_data (Session.replay_data (Session.replay_for_attach (want_chunks req) (session a)))) + (2 + n) ->
  on_attach req a w st = Some (Continue a1, w1, st1) ->
  turns opts (out_tx req) (a1, st1) (a2, st2) ->
  (forall f, f ∈ accepted st2 (out_tx req) -> ty f <> Data -> frame_fits f) ->
  accepted st2 (out_tx req) = taken ++ waiting -> written wh = [] ->
  written (writer_task taken wh) = concat creads ++ rest ->
  exists d fs o later, read_all FrameDecoder_new creads = Some (d, fs, None) /\
    eng_feed (eng a) o = Some (eng a2) /\
    Session.replay_data (Session.replay_for_attach (want_chunks req) (session a)) ++ o = data_of fs ++ later /\
    no_repeat (statuses fs) /\
    (client a2 = Some (out_tx req) -> fs = accepted st2 (out_tx req) -> later = []).
Proof.
  intros Hr Hnil Hfree Ha Ht Hsmall Hq Hw Hc.
  destruct (writer_written taken wh) as (sent & unsent & Hs1 & Hs2). rewrite Hs2, Hw in Hc. cbn [app] in Hc.
  eapply shown_output; [done..|]. rewrite Hq, fmap_app, concat_app, Hs1, <- Hc, <- app_assoc. by apply prefix_app_r.
Qed.
