(* ===== verification/ClientsWitness.v ===== *)
(** The theorems of [Clients] at concrete connections: a socket that is the list
    of the bytes written, and one-byte codecs in place of JSON. *)
From S2P Require Import Prelude Status Engine Pty Protocol Registry Server Wire Connection Actor Clients.
From S2P Require Import OsInstance TokioInstance Vte ParserInstance ActorWitness.
From S2P Require Session.

(** A socket that takes every byte. *)
#[export] Instance byte_stream : Stream :=
  {| Connection.stream := list byte; write_all bs w := (w ++ bs, Ok tt); shutdown w := w |}.
#[export] Instance byte_stream_laws : @StreamLaws byte_stream.
Proof.
  refine {| Connection.written := fun w : @Connection.stream byte_stream => w |}.
  - by intros bs w w' [= <-].
  - done.
  - done.
Defined.

#[export] Instance hello_codec : Json Hello :=
  {| json_error := unit; to_vec v := Ok (to_be_bytes (proto_version v));
     from_slice bs := match bs with
                      | [b] => Ok {| proto_version := u8 b; daemon_version := [] |}
                      | _ => Err tt
                      end |}.
#[export] Instance infos_codec : Json (list SessionInfo) :=
  {| json_error := unit; to_vec v := Ok (to_string (N.of_nat (length v))); from_slice _ := Err tt |}.
#[export] Instance open_codec : Json Protocol.AttachOrOpen :=
  {| json_error := unit; to_vec _ := Err tt;
     from_slice bs := match bs with
                      | [] => Err tt
                      | [x01] => Ok (Protocol.mkAttachOrOpen "t" (lit "/") [lit "sh"] 0 80 24)
                      | _ => Ok spec0
                      end |}.
#[export] Instance resize_codec : Json Protocol.Resize :=
  {| json_error := unit; to_vec _ := Err tt;
     from_slice bs := match bs with
                      | [c; r] => Ok {| resize_cols := u8 c; resize_rows := u8 r |}
                      | _ => Err tt
                      end |}.
#[export] Instance close_codec : Json CloseMsg :=
  {| json_error := unit; to_vec _ := Err tt; from_slice _ := Err tt |}.

(** The attach, input and a resize in one read, the close in two. *)
Definition session_reads : reads :=
  [Ok (encode (Frame_new AttachOrOpen_ [x00]) ++ encode (Frame_new Protocol.Input (lit "ls")) ++
       encode (Frame_new Resize_ [x64; x20])); Ok [x08; x00]; Ok [x00; x00; x00]].

#[local] Abbreviation reg0 := (Registry.new : @Registry.Registry queue_tokio).
#[local] Abbreviation chans0 := (no_channels : @store queue_tokio).
#[local] Abbreviation answers0 := (fun _ : @reply_rx queue_tokio => Silent).

(** The channels after the attach, and what is left to read. *)
Definition demo_store : @store queue_tokio :=
  (send_cmd (0 : @cmd_tx queue_tokio) (Attach (mkAttach 0 80 24 (1 : @frame_tx queue_tokio)))
     (frame_channel 1024 (cmd_channel 256 chans0).1).1).1.
Definition demo_reads : reads := [Ok [x08; x00]; Ok [x00; x00; x00]].
Definition demo_dec : FrameDecoder :=
  match read_one_frame session_reads FrameDecoder_new with Some (dec, _, _) => dec | None => FrameDecoder_new end.

Lemma session_demo :
  exists reg' wh',
    dispatch_connection default_opts [] (Ok 1000%N) 1000 session_reads answers0 reg0
      ([] : @Connection.stream byte_stream) chans0 =
      Some (reg', demo_store, wh', Bound (Some (spec0, 0 : @cmd_rx queue_tokio)) (0 : @cmd_tx queue_tokio)
              (1 : @frame_rx queue_tokio) demo_reads demo_dec).
Proof.
  unfold dispatch_connection. cbn [check_peer_uid N.eqb Pos.eqb negb].
  assert (E : read_one_frame session_reads FrameDecoder_new =
    Some (demo_dec, demo_reads, Got (Frame_new AttachOrOpen_ [x00]))) by (vm_compute; reflexivity).
  rewrite E. cbn [mbind option_bind ty]. eexists _, _. reflexivity.
Qed.

Lemma session_commands_in_order_witness :
  exists st2 r out,
    (exists reg' wh' sp tx orx,
       dispatch_connection default_opts [] (Ok 1000%N) 1000 session_reads answers0 reg0
         ([] : @Connection.stream byte_stream) chans0 = Some (reg', demo_store, wh', Bound sp tx orx demo_reads demo_dec)) /\
    reader_task demo_reads demo_dec (0 : @cmd_tx queue_tokio) demo_store = Some (st2, r) /\ r = CloseSent /\
    commands st2 (0 : @cmd_tx queue_tokio) =
      [Attach (mkAttach 0 80 24 out); Input (lit "ls"); Registry.Resize 100 32; Close 0].
Proof.
  destruct session_demo as (reg' & wh' & E).
  destruct (session_commands_in_order default_opts [] (Ok 1000%N) 1000 session_reads answers0 reg0
    ([] : @Connection.stream byte_stream) chans0 reg' demo_store wh' (Some (spec0, 0)) 0 1 demo_reads demo_dec E)
    as (first & fs & rest & e & req & out & Hf & Hj & _ & st2 & r & Hr & p & q & Hp & Hc & Hq).
  assert (Hfs : frames (received session_reads) =
    ([Frame_new AttachOrOpen_ [x00]; Frame_new Protocol.Input (lit "ls"); Frame_new Resize_ [x64; x20];
      Frame_new Protocol.Close []], [], None)) by (vm_compute; reflexivity).
  rewrite Hfs in Hf. injection Hf as <- <- <- <-. injection Hj as <-.
  destruct Hq as [[-> ->]|(c & cs & s0 & -> & Hx)].
  - rewrite app_nil_r in Hp. subst p. exists st2, CloseSent, out.
    split; [exists reg', wh', (Some (spec0, 0)), 0, 1; exact E|]. split; [exact Hr|]. split; [reflexivity|]. exact Hc.
  - exfalso. cbn [send_cmd queue_tokio] in Hx. unfold command_send in Hx. cbv zeta in Hx.
    destruct (closed (sent_to s0 0)) eqn:Hcl; [|discriminate Hx]. injection Hx as ->.
    assert (Hopen : match reader_task demo_reads demo_dec (0 : @cmd_tx queue_tokio) demo_store with
                    | Some (st, _) => closed (sent_to st 0) | None => false end = false)
      by (vm_compute; reflexivity).
    rewrite Hr in Hopen. congruence.
Defined.

(** HELLO and two LISTs, cut inside a header. *)
Definition control_reads : reads :=
  [Ok (encode (Frame_new Hello_ [x01]) ++ [x03; x00]);
   Ok [x00; x00; x00]; Ok (encode (Frame_new List_ [])); Ok []].

Lemma healthy0 : @healthy byte_stream infos_codec.
Proof. split; [intros infos; by eexists|intros bs w; by eexists]. Qed.

Lemma control_demo :
  exists st' wh' c,
    dispatch_connection default_opts [] (Ok 1000%N) 1000 control_reads answers0 reg0
      ([] : @Connection.stream byte_stream) chans0 = Some (reg0, st', wh', c).
Proof.
  unfold dispatch_connection. cbn [check_peer_uid N.eqb Pos.eqb negb].
  let y := eval vm_compute in (read_one_frame control_reads FrameDecoder_new) in
    assert (E : read_one_frame control_reads FrameDecoder_new = y) by (vm_compute; reflexivity).
  rewrite E. cbn [mbind option_bind ty]. eexists _, _, _. reflexivity.
Qed.

Lemma control_answers_lists_witness :
  exists wh' replies, length replies = 2 /\
    Connection.written wh' = [] ++ encode (Frame_new HelloOk [x00; x00; x00; x01]) ++ concat (encode <$> replies).
Proof.
  destruct control_demo as (st' & wh' & c & E).
  destruct (control_answers_lists default_opts [] 1000 control_reads answers0 reg0
    ([] : @Connection.stream byte_stream) chans0 (Frame_new Hello_ [x01]) [Frame_new List_ []; Frame_new List_ []]
    [] None {| proto_version := 1; daemon_version := [] |} (Frame_new HelloOk [x00; x00; x00; x01]) reg0 st' wh' c)
    as (_ & replies & H1 & _ & H3);
    [vm_compute; reflexivity|reflexivity|reflexivity|reflexivity|reflexivity|exact healthy0|exact E|].
  exists wh', replies. split; [exact H1|exact H3].
Defined.

(** ** The terminal *)

Lemma small_status poll f : status_frame (effective_status Session.session0 poll) = Some f -> frame_fits f.
Proof.
  assert (Hp : progress (effective_status Session.session0 poll) = None) by (vm_compute; reflexivity).
  destruct (effective_status Session.session0 poll) as [r p]. cbn [progress] in Hp. subst p.
  intros [= <-]. vm_compute. discriminate.
Qed.

Lemma terminal_shows_output_witness :
  exists a1 w1 st1 d fs o later,
    on_attach request0 actor0 (Session.script_demo : @world script_os) store8 = Some (Continue a1, w1, st1) /\
    read_all FrameDecoder_new [concat (encode <$> accepted st1 (out_tx request0))] = Some (d, fs, None) /\
    eng_feed (eng actor0) o = Some (eng a1) /\ [] ++ o = data_of fs ++ later.
Proof.
  destruct (on_attach_total request0 actor0 (Session.script_demo : @world script_os) store8) as [[[flow w'] st'] E].
  destruct (on_attach_spec request0 actor0 _ store8 flow w' st' 6 E room8)
    as (a' & poll & fs0 & F & _ & _ & _ & (sf & Hsf & Hfs) & Hacc & _).
  change (flow = Continue a') in F. subst flow. change (fs0 = [] ++ [sf]) in Hfs. subst fs0.
  rewrite fresh8 in Hacc. cbn [app] in Hacc.
  assert (Hsel : exists w2, select default_opts 1 ready_input a' w' st' = Some (Continue a', w2, st')).
  { unfold select. cbn [r_cmd ready_input on_cmd]. destruct (Session.write_input _ _ w') as [w2 r]. by exists w2. }
  destruct Hsel as [w2 Hsel].
  assert (Ht : turns default_opts (out_tx request0) (a', st') (a', st')).
  { eapply (TurnsTurn default_opts (out_tx request0) 1 ready_input a' w' st'); [|exact Hsel|apply TurnsDone].
    intros req. discriminate. }
  destruct (terminal_shows_output default_opts request0 actor0 _ store8 a' w' st' a' st' 6
    [sf] [] ([] : @Connection.stream byte_stream) [concat (encode <$> accepted st' (out_tx request0))] []
    reached0 fresh8 room8 E Ht) as (d & fs & o & later & H1 & H2 & H3 & _).
  - rewrite Hacc. intros f Hf _. apply list_elem_of_singleton in Hf. subst f. by apply (small_status poll).
  - rewrite Hacc. reflexivity.
  - reflexivity.
  - rewrite Hacc. cbn. by rewrite !app_nil_r.
  - exists a', w', st', d, fs, o, later. split; [exact E|]. split; [exact H1|]. split; [exact H2|exact H3].
Defined.
