(* ===== verification/Idle.v ===== *)
(** jftermd/src/server.rs: the idle watcher, [wait_until_idle].

    The watcher is a state machine over the registry: one state for each point
    where the source checks the table, waits for a change or sleeps. Connections
    and actors operate on the table, and time passes, between any two of its
    steps ([idle_run]); the operations are recorded with their instants. *)
From S2P Require Import Prelude Registry TokioInstance.

(** Where [wait_until_idle] is: at the [while] and its wait, at the [if] of the
    loop, in the sleep until a deadline, at the wait of the loop, or returned. *)
Inductive Watch := FirstCheck | FirstWait | Check_ | Sleep (deadline : N) | Wait | Return_.

Section watch.
Context `{Tokio}.

(** [None] while it waits. *)
Definition watch_step (grace now : N) (r : Registry) (w : Watch) : option (Registry * Watch) :=
  match w with
  | FirstCheck => Some (r, if is_empty r then FirstWait else Check_)
  | FirstWait => r ← wait_for_change r; Some (r, FirstCheck)
  | Check_ => Some (r, if is_empty r then Sleep (now + grace)%N else Wait)
  | Sleep deadline =>
      if (deadline <=? now)%N then Some (r, if is_empty r then Return_ else Wait) else None
  | Wait => r ← wait_for_change r; Some (r, Check_)
  | Return_ => None
  end.

Record idle_state := mkIdle { now : N; reg : Registry; watch : Watch }.

(** Runs, with the operations on the table and their instants; the channels are
    whatever they are when an operation creates one. *)
Inductive idle_run (grace : N) : idle_state -> list (N * reg_op) -> idle_state -> Prop :=
  | IdleDone s : idle_run grace s [] s
  | IdleOp s ops t r st w op : idle_run grace s ops (mkIdle t r w) ->
      idle_run grace s (ops ++ [(t, op)]) (mkIdle t (run_op op (r, st)).1.1 w)
  | IdleTime s ops t r w d : idle_run grace s ops (mkIdle t r w) ->
      idle_run grace s ops (mkIdle (t + d) r w)
  | IdleWatch s ops t r w r' w' : idle_run grace s ops (mkIdle t r w) ->
      watch_step grace t r w = Some (r', w') -> idle_run grace s ops (mkIdle t r' w').

Definition idle_start (n : usize) : idle_state := mkIdle 0 (with_max_sessions n) FirstCheck.

(** The abstract table: the ids in it, at most [n]. *)
Definition ids_step (n : usize) (ids : gset string) (op : reg_op) : gset string :=
  match op with
  | OpAttach id =>
      if decide (id ∈ ids) then ids else if (n <=? N.of_nat (size ids))%N then ids else {[id]} ∪ ids
  | OpRemove id => ids ∖ {[id]}
  end.

Definition table (n : usize) (ops : list (N * reg_op)) : gset string :=
  foldl (fun ids e => ids_step n ids e.2) ∅ ops.

(** The registry holds these ids. *)
Definition holds_ids (n : usize) (ids : gset string) (r : Registry) : Prop :=
  dom (sessions r) = ids /\ max_sessions r = n.

Lemma run_op_ids n ids op r st : holds_ids n ids r -> holds_ids n (ids_step n ids op) (run_op op (r, st)).1.1.
Proof.
  intros [Hd Hm]. subst ids n. destruct op as [id|id]; simpl.
  - unfold attach_or_create. rewrite size_dom. destruct (sessions r !! id) as [tx|] eqn:E.
    + rewrite decide_True by (by apply elem_of_dom). done.
    + rewrite decide_False by (by apply not_elem_of_dom). destruct (_ <=? _)%N; [done|].
      destruct (cmd_channel 256 st) as [st1 [tx rx]]. split; [|done]. simpl. apply dom_insert_L.
  - split; [|done]. simpl. apply dom_delete_L.
Qed.

Lemma table_snoc n ops t op : table n (ops ++ [(t, op)]) = ids_step n (table n ops) op.
Proof. unfold table. by rewrite foldl_app. Qed.

Lemma holds_empty n ids r : holds_ids n ids r -> is_empty r = bool_decide (ids = ∅).
Proof.
  intros [<- _]. unfold is_empty. apply bool_decide_ext. split; [by intros ->|]. apply dom_empty_inv_L.
Qed.

Lemma wait_sessions r r' : wait_for_change r = Some r' ->
  sessions r' = sessions r /\ max_sessions r' = max_sessions r.
Proof. unfold wait_for_change. destruct (notified _); simpl; [|done]. by intros [= <-]. Qed.

(** The watcher only looks at the table. *)
Lemma watch_sessions grace t r w r' w' : watch_step grace t r w = Some (r', w') ->
  sessions r' = sessions r /\ max_sessions r' = max_sessions r.
Proof.
  destruct w as [| | |d| |]; cbn [watch_step]; try by intros [= <- _].
  - destruct (wait_for_change r) as [r1|] eqn:E; cbn [mbind option_bind]; [|done].
    intros [= <- _]. by apply wait_sessions.
  - destruct (_ <=? _)%N; [|done]. by intros [= <- _].
  - destruct (wait_for_change r) as [r1|] eqn:E; cbn [mbind option_bind]; [|done].
    intros [= <- _]. by apply wait_sessions.
Qed.

(** It returns over an empty table. *)
Lemma watch_returns_empty grace t r w r' : watch_step grace t r w = Some (r', Return_) -> sessions r' = ∅.
Proof.
  destruct w as [| | |d| |]; cbn [watch_step]; intros Hs; try done.
  - by destruct (is_empty r).
  - by destruct (wait_for_change r).
  - by destruct (is_empty r).
  - destruct (_ <=? _)%N; [|done]. destruct (is_empty r) eqn:Ee; [|done].
    injection Hs as <-. by apply bool_decide_eq_true in Ee.
  - by destruct (wait_for_change r).
Qed.

(** The registry holds the abstract table of the operations. *)
Lemma idle_table grace n ops s :
  idle_run grace (idle_start n) ops s ->
  holds_ids n (table n ops) (reg s) /\ Forall (fun e => (e.1 <= now s)%N) ops.
Proof.
  remember (idle_start n) as s0 eqn:E0.
  induction 1 as [s|s ops t r st w op _ IH|s ops t r w d _ IH|s ops t r w r' w' _ IH Hs]; subst.
  - split; [|done]. split; [|done]. apply dom_empty_L.
  - destruct (IH eq_refl) as (Ht & Hf). cbn [now reg] in *. rewrite table_snoc.
    split; [by apply run_op_ids|]. apply Forall_app. split; [done|]. by repeat constructor.
  - destruct (IH eq_refl) as (Ht & Hf). cbn [now reg] in *. split; [done|].
    eapply Forall_impl; [exact Hf|]. intros e He. simpl in *. lia.
  - destruct (IH eq_refl) as (Ht & Hf). cbn [now reg] in *. split; [|done].
    destruct (watch_sessions _ _ _ _ _ _ Hs) as [H1 H2]. destruct Ht. split; congruence.
Qed.

(** What the watcher knows at each point. *)
Definition populated (n : usize) (ops : list (N * reg_op)) : Prop :=
  exists ops0 ops1, ops = ops0 ++ ops1 /\ table n ops0 <> ∅.

(** The table was empty at [t]: after the operations up to then. *)
Definition empty_at (n : usize) (ops : list (N * reg_op)) (t : N) : Prop :=
  exists ops0 ops1, ops = ops0 ++ ops1 /\ table n ops0 = ∅ /\
    Forall (fun e => (e.1 <= t)%N) ops0 /\ Forall (fun e => (t <= e.1)%N) ops1.

Definition watch_inv (grace : N) (n : usize) (ops : list (N * reg_op)) (s : idle_state) : Prop :=
  match watch s with
  | FirstCheck | FirstWait => True
  | Check_ | Wait => populated n ops
  | Sleep d => populated n ops /\ exists t0, d = (t0 + grace)%N /\ (t0 <= now s)%N /\ empty_at n ops t0
  | Return_ => populated n ops /\ exists t0, (t0 + grace <= now s)%N /\ empty_at n ops t0
  end.

Lemma populated_snoc n ops e : populated n ops -> populated n (ops ++ [e]).
Proof. intros (a & b & -> & Hne). exists a, (b ++ [e]). by rewrite app_assoc. Qed.

Lemma empty_at_snoc n ops t t' op :
  (t <= t')%N -> empty_at n ops t -> empty_at n (ops ++ [(t', op)]) t.
Proof.
  intros Hle (a & b & -> & He & Ha & Hb). exists a, (b ++ [(t', op)]).
  rewrite app_assoc. split_and!; try done. apply Forall_app. split; [done|]. by repeat constructor.
Qed.

Lemma watch_inv_op grace n ops t r w op r' :
  watch_inv grace n ops (mkIdle t r w) ->
  watch_inv grace n (ops ++ [(t, op)]) (mkIdle t r' w).
Proof.
  unfold watch_inv. cbn [watch now]. destruct w; try done; try apply populated_snoc.
  - intros [Hp (t0 & -> & Hle & He)]. split; [by apply populated_snoc|]. exists t0.
    split_and!; try done. by apply empty_at_snoc.
  - intros [Hp (t0 & Hle & He)]. split; [by apply populated_snoc|]. exists t0.
    split; [done|]. apply empty_at_snoc; [lia|done].
Qed.

(** A step of the watcher, on the table [ops] leave. *)
Lemma watch_inv_step grace n ops t r w r' w' :
  holds_ids n (table n ops) r -> Forall (fun e => (e.1 <= t)%N) ops ->
  watch_inv grace n ops (mkIdle t r w) -> watch_step grace t r w = Some (r', w') ->
  watch_inv grace n ops (mkIdle t r' w').
Proof.
  intros Ht Hf. unfold watch_inv. cbn [watch now].
  assert (Hpop : is_empty r = false -> populated n ops).
  { rewrite (holds_empty _ _ _ Ht). intros He%bool_decide_eq_false. exists ops, []. by rewrite app_nil_r. }
  destruct w as [| | |d| |]; cbn [watch_step]; intros Hi.
  - intros [= _ <-]. destruct (is_empty r) eqn:Ee; [done|by apply Hpop].
  - destruct (wait_for_change r); cbn [mbind option_bind]; [|done]. by intros [= _ <-].
  - intros [= _ <-]. destruct (is_empty r) eqn:Ee; [|done]. split; [done|]. exists t.
    split; [done|]. split; [lia|]. exists ops, []. rewrite app_nil_r. split_and!; try done.
    rewrite (holds_empty _ _ _ Ht) in Ee. by apply bool_decide_eq_true in Ee.
  - destruct Hi as [Hp (t0 & -> & Hle & He)]. destruct (N.leb_spec (t0 + grace) t); [|done].
    intros [= _ <-]. destruct (is_empty r); [|done]. split; [done|]. by exists t0.
  - destruct (wait_for_change r); cbn [mbind option_bind]; [|done]. by intros [= _ <-].
  - done.
Qed.

Lemma idle_inv grace n ops s :
  idle_run grace (idle_start n) ops s -> watch_inv grace n ops s.
Proof.
  remember (idle_start n) as s0 eqn:E0.
  induction 1 as [s|s ops t r st w op _ IH|s ops t r w d _ IH|s ops t r w r' w' Hr IH Hs]; subst.
  - done.
  - eapply watch_inv_op. by apply IH.
  - specialize (IH eq_refl). unfold watch_inv in *. cbn [watch now] in *. destruct w; try done.
    + destruct IH as [Hp (t0 & -> & Hle & He)]. split; [done|]. exists t0. split_and!; [done|lia|done].
    + destruct IH as [Hp (t0 & Hle & He)]. split; [done|]. exists t0. split; [lia|done].
  - destruct (idle_table _ _ _ _ Hr) as (Ht & Hf). eapply watch_inv_step; [done|done|by apply IH|done].
Qed.

(** No wake-up is lost: a watcher that waits over an empty table has a permit. *)
Definition permit_inv (s : idle_state) : Prop :=
  watch s = Wait -> sessions (reg s) = ∅ -> exists n, notified (ended (reg s)) = Some n.

Lemma permit_run `{!NotifyLaws} grace n ops s :
  idle_run grace (idle_start n) ops s -> permit_inv s.
Proof.
  remember (idle_start n) as s0 eqn:E0. unfold permit_inv.
  induction 1 as [s|s ops t r st w op _ IH|s ops t r w d _ IH|s ops t r w r' w' Hr IH Hs]; subst.
  - done.
  - cbn [watch reg] in *. intros -> He. destruct op as [id|id]; simpl in *.
    + unfold attach_or_create in *. destruct (sessions r !! id) eqn:El; [by apply IH|].
      destruct (_ <=? _)%N; [by apply IH|]. destruct (cmd_channel 256 st) as [st2 [tx rx]].
      simpl in He. by apply insert_non_empty in He.
    + destruct (notified_one (ended r)) as (x & Hx & _). by exists x.
  - by apply IH.
  - cbn [watch reg] in *. intros -> He. exfalso.
    assert (Hne : is_empty r' = false).
    { destruct w as [| | |d| |]; cbn [watch_step] in Hs.
      - by destruct (is_empty r) eqn:Ee.
      - by destruct (wait_for_change r).
      - destruct (is_empty r) eqn:Ee; [done|]. by injection Hs as <-.
      - destruct (_ <=? _)%N; [|done]. destruct (is_empty r) eqn:Ee; [done|]. by injection Hs as <-.
      - by destruct (wait_for_change r).
      - done. }
    apply bool_decide_eq_false in Hne. done.
Qed.
End watch.

(** The daemon exits only when idle: when the watcher returns, some session
    had existed, the table is empty, and it was empty a whole grace before. *)
Theorem idle_exit_safe `{Tokio} grace n ops t r w r' :
  idle_run grace (idle_start n) ops (mkIdle t r w) ->
  watch_step grace t r w = Some (r', Return_) ->
  sessions r = ∅ /\ populated n ops /\
  exists t0, (t0 + grace <= t)%N /\ empty_at n ops t0.
Proof.
  intros Hr Hs. destruct (idle_table _ _ _ _ Hr) as (Ht & Hf).
  pose proof (watch_inv_step _ _ _ _ _ _ _ _ Ht Hf (idle_inv _ _ _ _ Hr) Hs) as [Hp He].
  split; [|done]. destruct (watch_sessions _ _ _ _ _ _ Hs) as [<- _]. by eapply watch_returns_empty.
Qed.

(** C26: no wake-up is lost: once the watcher has seen a session, from any point at
    which the table is empty, and if it stays so, it returns within the grace. *)
Theorem idle_exit_live `{NotifyLaws} grace n ops t r w :
  idle_run grace (idle_start n) ops (mkIdle t r w) ->
  sessions r = ∅ -> w <> FirstCheck -> w <> FirstWait ->
  exists t' r', (t' <= t + grace)%N /\ idle_run grace (idle_start n) ops (mkIdle t' r' Return_).
Proof.
  intros Hr He H1 H2. pose proof (idle_inv _ _ _ _ Hr) as Hi. pose proof (permit_run _ _ _ _ Hr) as Hp.
  assert (Hsleep : forall r d, sessions r = ∅ -> (d <= t + grace)%N ->
    idle_run grace (idle_start n) ops (mkIdle t r (Sleep d)) ->
    exists t' r', (t' <= t + grace)%N /\ idle_run grace (idle_start n) ops (mkIdle t' r' Return_)).
  { intros r0 d He0 Hd Hr0. exists (t + (d - t))%N, r0. split; [lia|].
    eapply IdleWatch; [by apply IdleTime|]. cbn [watch_step].
    rewrite (proj2 (N.leb_le _ _)) by lia. unfold is_empty. by rewrite bool_decide_true. }
  assert (Hcheck : forall r, sessions r = ∅ ->
    idle_run grace (idle_start n) ops (mkIdle t r Check_) ->
    exists t' r', (t' <= t + grace)%N /\ idle_run grace (idle_start n) ops (mkIdle t' r' Return_)).
  { intros r0 He0 Hr0. apply (Hsleep r0 (t + grace)%N); [done|done|]. eapply IdleWatch; [done|].
    cbn [watch_step]. unfold is_empty. by rewrite bool_decide_true. }
  destruct w as [| | |d| |]; try done.
  - by apply (Hcheck r).
  - destruct Hi as [_ (t0 & -> & Hle & _)]. cbn [now] in Hle. apply (Hsleep r (t0 + grace)%N); [done|lia|done].
  - destruct (Hp eq_refl He) as [x Hx]. cbn [reg] in Hx.
    apply (Hcheck {| sessions := sessions r; ended := x; max_sessions := max_sessions r |}); [done|].
    eapply IdleWatch; [done|]. cbn [watch_step]. unfold wait_for_change. by rewrite Hx.
  - exists t, r. split; [lia|done].
Qed.

(** A first session that comes and goes between two looks of the watcher is
    missed: the table has held a session and is empty, and the watcher waits with
    no wake-up left, so that without another session the daemon never exits. *)
Theorem idle_first_session_missed `{NotifyLaws} grace n (st : store) id :
  (0 < n)%N ->
  exists r, populated n [(0%N, OpAttach id); (0%N, OpRemove id)] /\ sessions r = ∅ /\
    idle_run grace (idle_start n) [(0%N, OpAttach id); (0%N, OpRemove id)] (mkIdle 0 r FirstWait) /\
    forall t, watch_step grace t r FirstWait = None.
Proof.
  intros Hn.
  set (r1 := (run_op (OpAttach id) (with_max_sessions n, st)).1.1).
  assert (Hd : holds_ids n {[id]} r1).
  { replace {[id]} with (ids_step n ∅ (OpAttach id)); [apply run_op_ids; split; [apply dom_empty_L|done]|].
    cbn [ids_step]. rewrite decide_False, size_empty, (proj2 (N.leb_gt _ _))
      by (first [apply not_elem_of_empty|lia]). apply union_empty_r_L. }
  destruct (notified_one (ended r1)) as (x & Hx1 & Hx2).
  set (r2 := {| sessions := sessions (remove id r1); ended := x; max_sessions := max_sessions r1 |}).
  assert (He : sessions r2 = ∅).
  { apply dom_empty_inv_L. unfold r2. simpl. rewrite dom_delete_L, (proj1 Hd). apply difference_diag_L. }
  exists r2. split; [|split; [done|split]].
  - exists [(0%N, OpAttach id)], [(0%N, OpRemove id)]. split; [done|]. unfold table. cbn [foldl snd ids_step].
    rewrite decide_False, size_empty, (proj2 (N.leb_gt _ _))
      by (first [apply not_elem_of_empty|lia]). rewrite union_empty_r_L. apply non_empty_singleton_L.
  - eapply (IdleWatch _ _ _ _ r2 FirstCheck).
    + eapply (IdleWatch _ _ _ _ (remove id r1) FirstWait).
      * apply (IdleOp _ _ [(0%N, OpAttach id)] 0 r1 st FirstWait (OpRemove id)).
        apply (IdleOp _ _ [] 0 (with_max_sessions n) st FirstWait (OpAttach id)).
        eapply IdleWatch; [apply IdleDone|]. done.
      * cbn [watch_step]. unfold wait_for_change. simpl. by rewrite Hx1.
    + cbn [watch_step]. unfold is_empty. by rewrite bool_decide_true.
  - intros t. cbn [watch_step]. unfold wait_for_change. simpl. by rewrite Hx2.
Qed.

(** ** At a concrete table *)

#[local] Abbreviation chans0 := (no_channels : @store queue_tokio).
#[local] Abbreviation opened := (run_op (OpAttach "s") (with_max_sessions 4, chans0)).1.1.

(** One session comes and goes; the watcher waits in the loop. *)
Lemma idle_demo :
  idle_run 5 (idle_start 4) [(0%N, OpAttach "s"); (3%N, OpRemove "s")] (mkIdle 3 (remove "s" opened) Check_).
Proof.
  apply (IdleOp 5 _ [(0%N, OpAttach "s")] 3 opened chans0 Check_ (OpRemove "s")).
  apply (IdleTime 5 _ _ 0 opened Check_ 3).
  eapply (IdleWatch 5 _ _ 0 opened FirstCheck); [|reflexivity].
  apply (IdleOp 5 _ [] 0 (with_max_sessions 4) chans0 FirstCheck (OpAttach "s")). apply IdleDone.
Qed.

Lemma idle_exit_live_witness :
  exists t' r', (t' <= 8)%N /\
    idle_run 5 (idle_start 4) [(0%N, OpAttach "s"); (3%N, OpRemove "s")] (mkIdle t' r' Return_).
Proof.
  apply (idle_exit_live 5 4 _ 3 _ Check_ idle_demo); [reflexivity|discriminate|discriminate].
Defined.

Lemma idle_exit_safe_witness :
  exists r, sessions r = ∅ /\
    idle_run 5 (idle_start 4) [(0%N, OpAttach "s"); (3%N, OpRemove "s")] (mkIdle 8 r (Sleep 8)).
Proof.
  assert (Hr : idle_run 5 (idle_start 4) [(0%N, OpAttach "s"); (3%N, OpRemove "s")]
    (mkIdle 8 (remove "s" opened) (Sleep 8))).
  { apply (IdleTime 5 _ _ 3 _ (Sleep 8) 5). eapply IdleWatch; [apply idle_demo|reflexivity]. }
  exists (remove "s" opened). split; [|exact Hr].
  exact (proj1 (idle_exit_safe 5 4 _ 8 _ (Sleep 8) _ Hr eq_refl)).
Defined.

Lemma idle_first_session_missed_witness :
  exists r, sessions r = (∅ : gmap string (@cmd_tx queue_tokio)) /\
    idle_run 5 (idle_start 4) [(0%N, OpAttach "s"); (0%N, OpRemove "s")] (mkIdle 0 r FirstWait) /\
    watch_step 5 1000000 r FirstWait = None.
Proof.
  destruct (idle_first_session_missed 5 4 chans0 "s" ltac:(lia)) as (r & _ & H1 & H2 & H3).
  exists r. split; [exact H1|]. split; [exact H2|]. exact (H3 1000000%N).
Defined.
