(* ===== verification/Stores.v ===== *)
(** What the actor and the connections do to the channels.

    The client theorems of the daemon each follow one thing through the store of
    the channels: the commands a session was sent, or the frames a queue took. A
    [Respected] relation is one that every operation on the channels keeps, of the
    frames pushed only those to [X], of the commands only those in [Q] and of the
    replies only those in [W]; then each handler keeps it. Only the end of a session
    task drops the commands in a channel ([Forgotten]). *)
From S2P Require Import Prelude Status Engine Pty Protocol Registry Server Connection.
From S2P Require Session.

Class Respected {T : Tokio} {R : Receivers} (X : frame_tx -> Prop)
    (Q : cmd_tx -> SessionCommand frame_tx reply_tx -> Prop) (W : reply_tx -> SessionInfo -> Prop)
    (P : relation store) := {
  respected_pre :: PreOrder P;
  respects_try tx f st : X tx -> P st (try_send tx f st).1;
  respects_send tx c st : Q tx c -> P st (send_cmd tx c st).1;
  respects_frames n st : P st (frame_channel n st).1;
  respects_commands n st : P st (cmd_channel n st).1;
  respects_oneshot st : P st (oneshot st).1;
  respects_reply r i st : W r i -> P st (reply_send r i st);
  respects_drop tx st : P st (drop_tx tx st);
  respects_drop_frame_rx rx st : P st (drop_frame_rx rx st);
  respects_recv_reply rx st st' i : recv_reply rx st = Some (st', i) -> P st st';
  respects_drop_reply_rx rx st : P st (drop_reply_rx rx st);
  respects_drop_cmd_tx tx st : P st (drop_cmd_tx tx st)
}.

(** The end of a session task, which drops the commands it has not taken. *)
Class Forgotten {T : Tokio} {R : Receivers} (P : relation store) :=
  respects_drop_cmd_rx rx st : P st (drop_cmd_rx rx st).

(** The actor an arm leaves. *)
Definition flow_actor `{Engine, Tokio} (f : Flow) : Actor := match f with Continue a | Break a => a end.

(** What an actor answers to a LIST. *)
Definition described `{Engine, Os, Tokio} (a : Actor) (w : world) : SessionInfo :=
  (Session.info (match client a with Some _ => true | None => false end) (session a) w).2.

Section handlers.
Context `{Respected, Engine, Os, Stream}.
Context `{!Json StatusMsg, !Json ExitMsg, !Json Hello, !Json (list SessionInfo), !Json AttachOrOpen,
          !Json Protocol.Resize, !Json CloseMsg}.

(** The frames an actor pushes go to its client. *)
Definition client_in (c : option frame_tx) : Prop := forall tx, c = Some tx -> X tx.

Lemma respects_push c f st :
  client_in c -> P st (push_or_drop c f st).1 /\ client_in (push_or_drop c f st).2.
Proof.
  intros Hc. unfold push_or_drop. destruct c as [tx|]; [|done].
  pose proof (respects_try tx f st (Hc tx eq_refl)) as Ht.
  destruct (try_send tx f st) as [st1 []]; [done|]. split; [|done]. etrans; [exact Ht|apply respects_drop].
Qed.

Lemma respects_forward c data st :
  client_in c -> P st (forward_data c data st).1 /\ client_in (forward_data c data st).2.
Proof.
  unfold forward_data. generalize (frame_data data). intros fs. revert c st.
  induction fs as [|f fs IH]; intros c st Hc; [done|]. cbn [foldl].
  destruct (respects_push c f st Hc) as [Hp Hc1]. destruct (push_or_drop c f st) as [st1 c1].
  destruct (IH c1 st1 Hc1) as [Hr Hc2]. split; [by etrans|done].
Qed.

Lemma respects_send_all tx fs st : X tx -> P st (send_all tx fs st).
Proof.
  intros Hx. unfold send_all. revert st. induction fs as [|f fs IH]; intros st; [done|]. cbn [foldl].
  etrans; [by apply respects_try|apply IH].
Qed.

Lemma respects_status a st st' a' :
  push_status a st = Some (st', a') -> client_in (client a) -> P st st' /\ client_in (client a').
Proof.
  unfold push_status. cbv zeta. case_bool_decide; [by intros [= <- <-]|].
  destruct (status_frame _) as [f|]; cbn [mbind option_bind]; [|done]. intros Hs Hc.
  pose proof (respects_push (client a) f st Hc) as Hp. destruct (push_or_drop _ _ st). by injection Hs as <- <-.
Qed.

Lemma refresh_client a w : client (refresh_poll a w).2 = client a.
Proof. unfold refresh_poll. by destruct (Session.poll_running _ w). Qed.

Lemma respects_drained a w st w' st' a' :
  drained_status a w st = Some (w', st', a') -> client_in (client a) -> P st st' /\ client_in (client a').
Proof.
  unfold drained_status. destruct (client a) as [tx|] eqn:Ec; [|by intros [= _ <- <-]; rewrite Ec].
  set (wa := if _ && _ then refresh_poll a w else (w, a)).
  assert (Hwa : client wa.2 = client a) by (unfold wa; destruct (_ && _); [apply refresh_client|done]).
  destruct wa as [w1 a1]. cbn [snd] in Hwa.
  destruct (push_status a1 st) as [[st2 a2]|] eqn:Ep; cbn [mbind option_bind]; [|done].
  intros [= _ <- <-] Hc. eapply respects_status; [exact Ep|]. by rewrite Hwa, Ec.
Qed.

Lemma respects_attach req a w st flow w' st' :
  on_attach req a w st = Some (flow, w', st') -> X (out_tx req) ->
  P st st' /\ client_in (client (flow_actor flow)).
Proof.
  unfold on_attach. destruct (if Session.has_prompt_marking _ then _ else _) as [w1 a1]. unfold attach_client.
  destruct (Session.resize _ _ _ w1) as [[w2 s2] x].
  destruct (status_frame _) as [f|]; cbn [mbind option_bind]; [|done].
  set (st1 := (try_send _ f _).1). intros Ha Hx.
  assert (Hp : P st st1) by (etrans; [by apply respects_send_all|by apply respects_try]).
  assert (Hold : forall st2, P st st2 -> P st match client a1 with Some old => drop_tx old st2 | None => st2 end).
  { intros st2 Hp2. destruct (client a1) as [old|]; [|done]. etrans; [exact Hp2|apply respects_drop]. }
  assert (Hnew : client_in (Some (out_tx req))) by (by intros tx [= <-]).
  destruct (Session.lifecycle s2) as [|code]; cbn [mbind option_bind] in Ha.
  - injection Ha as <- _ <-. split; [by apply Hold|]. by destruct (Session.is_dead _).
  - destruct (exit_frame code) as [g|]; cbn [mbind option_bind] in Ha; [|done]. injection Ha as <- _ <-.
    split; [|by destruct (Session.is_dead _)]. apply Hold. etrans; [exact Hp|by apply respects_try].
Qed.

Lemma respects_readable opts fuel now b a w st flow w' st' :
  on_readable opts fuel now b a w st = Some (flow, w', st') -> client_in (client a) ->
  P st st' /\ client_in (client (flow_actor flow)).
Proof.
  unfold on_readable. destruct (negb b); [by intros [= <- _ <-]|].
  destruct (Session.drain fuel (session a) w) as [[[w1 s1] [out|e]]|]; cbn [mbind option_bind]; [| |done].
  2: { by intros [= <- _ <-]. }
  intros Hr Hc. set (fw := if bool_decide _ then (st, _) else _) in Hr.
  assert (Hd : P st fw.1 /\ client_in fw.2) by (unfold fw; case_bool_decide; [done|by apply respects_forward]).
  destruct fw as [st1 c]. cbn [fst snd] in Hd. destruct Hd as [Hp1 Hc1].
  destruct (drained_status _ w1 st1) as [[[w2 st2] a2]|] eqn:Es; cbn [mbind option_bind] in Hr; [|done].
  apply respects_drained in Es as [Hp2 Hc2]; [|done].
  destruct (Session.exit out) as [code|]; [|injection Hr as <- _ <-; split; [by etrans|done]].
  destruct (exit_frame code) as [f|]; cbn [mbind option_bind] in Hr; [|done].
  destruct (respects_push (client a2) f st2 Hc2) as [Hp3 Hc3]. destruct (push_or_drop _ _ st2) as [st3 c3].
  cbn [fst snd] in Hp3, Hc3. assert (Hp : P st st3) by (etrans; [exact Hp1|by etrans]).
  destruct (closing _); by injection Hr as <- _ <-.
Qed.

Lemma respects_close now g a w st flow w' st' :
  on_close now g a w st = Some (flow, w', st') -> client_in (client a) ->
  P st st' /\ client_in (client (flow_actor flow)).
Proof.
  unfold on_close. destruct (Session.hangup _ w) as [w1 x]. cbv zeta. set (a1 := if (0 <? g)%N then _ else _).
  assert (Ha : client a1 = client a) by (unfold a1; by destruct (0 <? g)%N).
  rewrite <- Ha. destruct (Session.is_dead _); [|by intros [= <- _ <-]].
  destruct (client a1) as [t|] eqn:Et; [|intros [= <- _ <-]; cbn [flow_actor]; by rewrite Et].
  destruct (exit_frame _) as [f|]; cbn [mbind option_bind]; [|done]. intros [= <- _ <-] Hc. split; [|done].
  etrans; [apply (respects_try t f); by apply Hc|apply respects_drop].
Qed.

(** A turn of an actor. *)
Lemma respects_select opts fuel ready a w st flow w' st' :
  select opts fuel ready a w st = Some (flow, w', st') -> client_in (client a) ->
  (forall req, r_cmd ready = Some (Some (Attach req)) -> X (out_tx req)) ->
  (forall reply, r_cmd ready = Some (Some (Info reply)) -> W reply (described a w)) ->
  P st st' /\ client_in (client (flow_actor flow)).
Proof.
  unfold select. intros Hs Hc Hx Hw. destruct (r_cmd ready) as [[[input|c r|g|req|reply]|]|]; cbn [on_cmd] in Hs.
  - destruct (Session.write_input _ _ w). by injection Hs as <- _ <-.
  - destruct (Session.resize c r (session a) w) as [[w1 s1] x]. by injection Hs as <- _ <-.
  - by eapply respects_close.
  - eapply respects_attach; [exact Hs|]. by apply Hx.
  - pose proof (Hw reply eq_refl) as Hi. unfold described in Hi.
    destruct (Session.info _ _ w) as [w1 i]. injection Hs as <- _ <-. split; [by apply respects_reply|done].
  - by injection Hs as <- _ <-.
  - destruct (if Session.is_dead (session a) then None else r_readable ready) as [b|].
    { by eapply respects_readable. }
    destruct (passed (grace_deadline a) _); [by injection Hs as <- _ <-|].
    destruct (passed (kill_deadline a) _).
    { unfold on_kill_deadline in Hs. destruct (if Session.is_dead _ then _ else _). by injection Hs as <- _ <-. }
    destruct (_ && _); [|by injection Hs as <- _ <-]. unfold on_tick in Hs.
    pose proof (refresh_client a w) as Ha. destruct (refresh_poll a w) as [w1 a1]. cbn [snd] in Ha.
    destruct (push_status a1 st) as [[st2 a2]|] eqn:Ep; cbn [mbind option_bind] in Hs; [|done].
    injection Hs as <- _ <-. eapply respects_status; [exact Ep|]. by rewrite Ha.
Qed.

Lemma respects_drop_actor a w st : P st (drop_actor a w st).2.
Proof. unfold drop_actor. cbn [snd]. destruct (client a); [apply respects_drop|done]. Qed.

(** ** The connections *)

Lemma respects_attach_or_create id reg st : P st (attach_or_create id reg st).1.1.
Proof.
  unfold attach_or_create. destruct (sessions reg !! _); [done|]. destruct (_ <=? _)%N; [done|].
  pose proof (respects_commands 256 st) as Hc. by destruct (cmd_channel 256 st) as [? []].
Qed.

Lemma respects_handle opts first rs dec reg st :
  (forall tx req, Q tx (Attach req)) -> P st (handle_session opts first rs dec reg st).1.2.
Proof.
  intros Hs. unfold handle_session. destruct (json AttachOrOpen first) as [req|]; [|done].
  pose proof (respects_attach_or_create (session_id req) reg st) as Ha.
  destruct (attach_or_create _ reg st) as [[st1 reg1] b]. cbn [fst] in Ha.
  pose proof (respects_frames (out_queue opts) st1) as Hf.
  destruct b as [t|t rx|]; [| |done]; destruct (frame_channel _ st1) as [st2 [otx orx]]; cbn [fst] in Hf;
    match goal with |- context [send_cmd t (Attach ?r) st2] =>
      pose proof (respects_send t (Attach r) st2 (Hs t r)) as Hsend
    end;
    destruct (send_cmd t _ st2) as [st3 []]; (etrans; [exact Ha|]); by etrans.
Qed.

Lemma respects_infos hs st :
  (forall id tx reply, (id, tx) ∈ hs -> Q tx (Info reply)) -> P st (request_infos hs st).1.
Proof.
  revert st. induction hs as [|[id t] hs IH]; intros st Hs; [done|]. cbn [request_infos].
  pose proof (respects_oneshot st) as Ho. destruct (oneshot st) as [st1 [reply rx]].
  pose proof (respects_send t (Info reply) st1 (Hs id t reply ltac:(left))) as Hsend.
  destruct (send_cmd t (Info reply) st1) as [st2 b]. specialize (IH st2 (fun i tx r Hin => Hs i tx r ltac:(by right))).
  destruct (request_infos hs st2). cbn [fst] in *. etrans; [exact Ho|]. by etrans.
Qed.

(** The wait for the replies, and its end. *)
Lemma respects_drop_replies rxs st : P st (foldl (fun st rx => drop_reply_rx rx st) st rxs).
Proof. revert st. induction rxs as [|rx rxs IH]; intros st; [done|]. cbn [foldl]. etrans; [apply respects_drop_reply_rx|apply IH]. Qed.

(** The commands of one frame of a client. *)
Lemma respects_frame t f st :
  (forall bs, Q t (Input bs)) -> (forall c r, Q t (Registry.Resize c r)) ->
  (ty f = Protocol.Close -> forall g, Q t (Close g)) -> P st (on_frame t f st).1.
Proof.
  intros Hi Hr Hc. unfold on_frame. destruct (ty f) eqn:Ef; try done.
  - pose proof (respects_send t (Input (payload f)) st (Hi _)) as Hs. by destruct (send_cmd _ _ st).
  - destruct (json Protocol.Resize f) as [r|]; [|done].
    pose proof (respects_send t (Registry.Resize (resize_cols r) (resize_rows r)) st (Hr _ _)) as Hs.
    by destruct (send_cmd _ _ st).
  - cbv zeta. cbn [fst]. by apply respects_send, Hc.
Qed.

(** One round of a reader. *)
Lemma respects_reader rs dec t st rs' dec' st' e :
  reader_step rs dec t st = Some (rs', dec', st', e) ->
  (forall bs, Q t (Input bs)) -> (forall c r, Q t (Registry.Resize c r)) ->
  (forall dec1 f, next_frame dec = Some (dec1, Ok (Some f)) -> ty f = Protocol.Close -> forall g, Q t (Close g)) ->
  P st st'.
Proof.
  intros Es Hi Hr Hc. unfold reader_step in Es.
  destruct (next_frame dec) as [[dec1 [[f|]|er]]|] eqn:En; cbn [mbind option_bind] in Es; try done.
  - pose proof (respects_frame t f st Hi Hr (Hc dec1 f eq_refl)) as Hf. destruct (on_frame t f st).
    by injection Es as _ _ <- _.
  - destruct rs as [|[[|b bs]|er] rs]; try (by injection Es as _ _ <- _).
    destruct (push (b :: bs) dec1); cbn [mbind option_bind] in Es; [|done]. by injection Es as _ _ <- _.
  - by injection Es as _ _ <- _.
Qed.
End handlers.
