(* ===== verification/Syscalls.v ===== *)
(** What the actor and its session do to the machine.

    [Spares p m R] says of a relation between worlds that every system call the
    daemon makes respects it, but for a SIGHUP or SIGKILL to a process group in
    [p] and for a write to a descriptor in [m]: what is proved of any such [R] is
    that no such call is made. [SparesCalls] leaves out the calls of a new PTY. *)
From S2P Require Import Prelude Status Engine Pty Protocol Registry Server Stores.
From S2P Require Session.

Class SparesCalls `{Os} (p : Pid -> Prop) (m : Fd -> Prop) (R : relation world) := {
  spares_pre :: PreOrder R;
  spares_killpg q s w : ~ p q \/ s = SIGWINCH -> R w (killpg q s w).1;
  spares_read fd w : R w (os_read fd w).1;
  spares_write fd bs w : ~ m fd -> R w (os_write fd bs w).1;
  spares_winsz fd z w : R w (tiocswinsz fd z w).1;
  spares_foreground fd w : R w (tcgetpgrp fd w).1;
  spares_wait q b w : R w (waitpid q b w).1;
  spares_sleep n w : R w (sleep_ms n w)
}.

Class Spares `{Os} (p : Pid -> Prop) (m : Fd -> Prop) (R : relation world) := {
  spares_calls :: SparesCalls p m R;
  spares_fork z plan w : R w (forkpty z plan w).1;
  spares_nonblocking fd w : R w (set_nonblocking fd w).1;
  spares_cloexec fd w : R w (set_cloexec fd w).1;
  spares_getpgid q w : R w (getpgid q w).1
}.

Section system.
Context `{SparesCalls}.

(** One call, then the rest. *)
Lemma spares_then (X : Type) (f : world -> world * X) w w1 w2 x :
  R w (f w).1 -> f w = (w1, x) -> R w1 w2 -> R w w2.
Proof. intros Hf E Hr. rewrite E in Hf. by etrans. Qed.

Lemma pty_drain_spares fuel q acc w w' r : Pty.drain fuel q acc w = Some (w', r) -> R w w'.
Proof.
  revert acc w. induction fuel as [|fuel IH]; intros acc w; [done|]. rewrite drain_unfold.
  destruct (os_read (master q) w) as [w1 a] eqn:E. intros Hd.
  eapply spares_then; [apply spares_read|exact E|]. destruct (drain_end acc a).
  - by injection Hd as <- _.
  - by eapply IH.
Qed.

Lemma reap_spares n q w : R w (reap_rounds n q w).1.
Proof.
  revert w. induction n as [|n IH]; intros w; [done|]. cbn [reap_rounds].
  destruct (waitpid (child q) true w) as [w1 a] eqn:E.
  eapply spares_then; [apply spares_wait|exact E|].
  destruct a as [[]|[]]; cbn [fst]; try done. etrans; [apply spares_sleep|apply IH].
Qed.

Context `{Engine}.

Lemma session_drain_spares fuel s w w' s' r :
  Session.drain fuel s w = Some (w', s', r) -> R w w' /\ Session.pty s' = Session.pty s.
Proof.
  unfold Session.drain. destruct (Pty.drain _ _ _ _) as [[w1 d]|] eqn:E; cbn [mbind option_bind]; [|done].
  apply pty_drain_spares in E. destruct d as [d|e]; [|by intros [= <- <- _]].
  destruct (if bool_decide _ then _ else _) as [e|]; cbn [mbind option_bind]; [|done].
  destruct (_ && _); [|by intros [= <- <- _]].
  unfold reap_blocking. generalize 200. intros n.
  pose proof (reap_spares n (Session.pty (Session.set_engine e s)) w1) as Hr.
  destruct (reap_rounds _ _ w1) as [w2 [o|er]]; intros [= <- <- _]; (split; [by etrans|done]).
Qed.

Lemma session_resize_spares c r s w :
  R w (Session.resize c r s w).1.1 /\ Session.pty (Session.resize c r s w).1.2 = Session.pty s.
Proof.
  unfold Session.resize. cbv zeta. destruct (Session.is_dead _); [done|].
  cbn [Session.pty Session.set_size Session.size]. unfold Pty.resize, sigwinch.
  destruct (tiocswinsz _ _ w) as [w1 [[]|e]] eqn:E1.
  - pose proof (spares_killpg (child (Session.pty s)) SIGWINCH w1 ltac:(by right)) as Hk.
    destruct (killpg _ SIGWINCH w1) as [w2 x]. split; [|done].
    eapply spares_then; [apply spares_winsz|exact E1|exact Hk].
  - split; [|done]. eapply spares_then; [apply spares_winsz|exact E1|done].
Qed.

Lemma poll_running_spares s w : R w (Session.poll_running s w).1.
Proof.
  unfold Session.poll_running, foreground_busy. destruct (Session.is_dead s); [done|].
  pose proof (spares_foreground (master (Session.pty s)) w) as Hf. by destruct (tcgetpgrp _ w) as [w1 []].
Qed.

Lemma write_input_spares s input w :
  ~ m (master (Session.pty s)) -> R w (Session.write_input s input w).1.
Proof.
  intros Hm. unfold Session.write_input, Pty.write_input. destruct (Session.is_dead s); [done|].
  pose proof (spares_write (master (Session.pty s)) input w Hm) as Hf. by destruct (os_write _ _ w) as [w1 []].
Qed.

Lemma info_spares b s w : R w (Session.info b s w).1.
Proof.
  unfold Session.info, Session.effective_running.
  pose proof (poll_running_spares s w) as Hp. destruct (Session.is_dead s); [done|].
  destruct (Session.has_prompt_marking s); [done|]. by destruct (Session.poll_running s w).
Qed.

Lemma signal_spares s sg w :
  ~ p (child (Session.pty s)) -> R w (killpg (child (Session.pty s)) sg w).1.
Proof. intros Hc. apply spares_killpg. by left. Qed.

Lemma drop_pty_spares q w : ~ p (child q) -> R w (drop_pty q w).
Proof.
  intros Hc. unfold drop_pty. etrans; [apply spares_killpg; by left|]. apply spares_wait.
Qed.

(** ** The actor *)

Context `{Tokio} `{!Json StatusMsg, !Json ExitMsg}.

(** The shell an actor owns, and the master it writes to. *)
Definition shell (a : Actor) : Pid := child (Session.pty (session a)).
Definition desk (a : Actor) : Fd := master (Session.pty (session a)).

(** Nothing has asked this actor to end its shell. *)
Definition open_ended (a : Actor) : Prop := closing a = false /\ kill_deadline a = None.

(** What a turn does to them. *)
Definition kept (a a' : Actor) : Prop :=
  Session.pty (session a') = Session.pty (session a) /\ (open_ended a -> open_ended a').

Lemma refresh_poll_spares a w : R w (refresh_poll a w).1 /\ kept a (refresh_poll a w).2.
Proof.
  unfold refresh_poll. pose proof (poll_running_spares (session a) w) as Hp.
  by destruct (Session.poll_running (session a) w).
Qed.

Lemma push_status_kept a st st' a' : push_status a st = Some (st', a') -> kept a a'.
Proof.
  unfold push_status. cbv zeta. case_bool_decide; [by intros [= _ <-]|].
  destruct (status_frame _); cbn [mbind option_bind]; [|done].
  destruct (push_or_drop _ _ _). by intros [= _ <-].
Qed.

Lemma kept_trans a b c : kept a b -> kept b c -> kept a c.
Proof. unfold kept. intuition congruence. Qed.

Lemma on_attach_spares req a w st flow w' st' :
  on_attach req a w st = Some (flow, w', st') -> R w w' /\ kept a (flow_actor flow).
Proof.
  unfold on_attach. set (wa := if Session.has_prompt_marking _ then _ else _).
  assert (Hwa : R w wa.1 /\ kept a wa.2).
  { unfold wa. destruct (Session.has_prompt_marking _); [done|apply refresh_poll_spares]. }
  destruct wa as [w1 a1]. cbn [fst snd] in Hwa. destruct Hwa as [Hr Hk].
  unfold attach_client. pose proof (session_resize_spares (cols req) (rows req) (session a1) w1) as [Hr2 Hp2].
  destruct (Session.resize _ _ _ w1) as [[w2 s2] x]. cbn [fst snd] in *.
  destruct (status_frame _); cbn [mbind option_bind]; [|done].
  destruct (match Session.lifecycle s2 with Session.Dead _ => _ | Session.Live => _ end) as [st2|];
    cbn [mbind option_bind]; [|done].
  intros [= <- <- _]. split; [by etrans|]. apply (kept_trans _ a1); [done|].
  unfold kept. destruct (Session.is_dead _); cbn [flow_actor session set_last_status set_client set_session];
    by rewrite Hp2.
Qed.

Lemma drained_status_spares a w st w' st' a' :
  drained_status a w st = Some (w', st', a') -> R w w' /\ kept a a'.
Proof.
  unfold drained_status. destruct (client a); [|by intros [= <- _ <-]].
  set (wa := if _ && _ then refresh_poll a w else (w, a)).
  assert (Hwa : R w wa.1 /\ kept a wa.2).
  { unfold wa. destruct (_ && _); [apply refresh_poll_spares|done]. }
  destruct wa as [w1 a1]. cbn [fst snd] in Hwa. destruct Hwa as [Hr Hk].
  destruct (push_status a1 st) as [[st2 a2]|] eqn:Ep; cbn [mbind option_bind]; [|done].
  intros [= <- _ <-]. split; [done|]. eapply kept_trans; [exact Hk|]. by eapply push_status_kept.
Qed.

Lemma on_readable_spares opts fuel now b a w st flow w' st' :
  on_readable opts fuel now b a w st = Some (flow, w', st') -> R w w' /\ kept a (flow_actor flow).
Proof.
  unfold on_readable. destruct (negb b); [by intros [= <- <- _]|].
  destruct (Session.drain fuel (session a) w) as [[[w1 s1] r]|] eqn:Ed; cbn [mbind option_bind]; [|done].
  apply session_drain_spares in Ed as [Hr Hp].
  assert (Hk1 : kept a (set_session s1 a)) by (unfold kept, shell; cbn [session set_session]; by rewrite Hp).
  destruct r as [out|e]; [|by intros [= <- <- _]].
  destruct (if bool_decide _ then _ else _) as [st1 c].
  destruct (drained_status _ w1 st1) as [[[w2 st2] a2]|] eqn:Es; cbn [mbind option_bind]; [|done].
  apply drained_status_spares in Es as [Hr2 Hk2].
  assert (Hk : kept a a2) by (eapply kept_trans; [exact Hk1|exact Hk2]).
  destruct (Session.exit out) as [code|]; [|intros [= <- <- _]; split; [by etrans|done]].
  destruct (exit_frame code); cbn [mbind option_bind]; [|done].
  destruct (push_or_drop _ _ _) as [st3 c3]. destruct (closing _); intros [= <- <- _];
    (split; [by etrans|]); exact Hk.
Qed.

Definition is_close (cmd : option (option (SessionCommand frame_tx reply_tx))) : bool :=
  match cmd with Some (Some (Registry.Close _)) => true | _ => false end.

Lemma on_close_spares now g a w st flow w' st' :
  ~ p (shell a) -> on_close now g a w st = Some (flow, w', st') -> R w w' /\ Session.pty (session (flow_actor flow)) = Session.pty (session a).
Proof.
  intros Hp. unfold on_close, Session.hangup, Pty.hangup.
  pose proof (signal_spares (session a) SIGHUP w Hp) as Hr.
  set (wr := if Session.is_dead (session a) then (w, Ok tt) else _).
  assert (Hw : R w wr.1) by (unfold wr; destruct (Session.is_dead _); [done|by destruct (killpg _ SIGHUP w)]).
  destruct wr as [w1 x]. cbv zeta. set (a1 := if (0 <? g)%N then _ else _).
  assert (Ha : Session.pty (session a1) = Session.pty (session a)) by (unfold a1; by destruct (0 <? g)%N).
  destruct (Session.is_dead (session a1)); [|by intros [= <- <- _]].
  destruct (client a1); [|by intros [= <- <- _]].
  destruct (exit_frame _); cbn [mbind option_bind]; [|done]. by intros [= <- <- _].
Qed.

(** A turn spares [p] if the actor owns another shell, or if nothing has asked it
    to end its own and this turn does not either; it writes input to its own
    master only. *)
Lemma select_spares opts fuel ready a w st flow w' st' :
  select opts fuel ready a w st = Some (flow, w', st') ->
  ~ p (shell a) \/ (open_ended a /\ is_close (r_cmd ready) = false) ->
  (forall input, r_cmd ready = Some (Some (Registry.Input input)) -> ~ m (desk a)) ->
  R w w' /\ Session.pty (session (flow_actor flow)) = Session.pty (session a) /\
  (open_ended a -> is_close (r_cmd ready) = false -> open_ended (flow_actor flow)).
Proof.
  unfold select. intros Hs Hp Hm.
  assert (Hdone : forall a', R w w' /\ kept a a' -> R w w' /\ Session.pty (session a') = Session.pty (session a) /\
    (open_ended a -> is_close (r_cmd ready) = false -> open_ended a')) by (unfold kept; intuition).
  destruct (r_cmd ready) as [[[input|c r|g|req|reply]|]|]; cbn [on_cmd is_close] in *.
  3: { destruct Hp as [Hp|[_ [=]]]. destruct (on_close_spares _ _ _ _ _ _ _ _ Hp Hs). by split. }
  all: apply Hdone.
  - pose proof (write_input_spares (session a) input w (Hm input eq_refl)) as Hr.
    destruct (Session.write_input _ _ w). by injection Hs as <- <- _.
  - pose proof (session_resize_spares c r (session a) w) as [Hr Hpt].
    destruct (Session.resize c r (session a) w) as [[w1 s1] x]. injection Hs as <- <- _.
    unfold kept. cbn [flow_actor session set_session fst snd] in *. by rewrite Hpt.
  - by eapply on_attach_spares.
  - pose proof (info_spares (match client a with Some _ => true | None => false end) (session a) w) as Hr.
    destruct (Session.info _ _ w). by injection Hs as <- <- _.
  - by injection Hs as <- <- _.
  - destruct (if Session.is_dead (session a) then None else r_readable ready) as [b|].
    { by eapply on_readable_spares. }
    destruct (passed (grace_deadline a) _); [by injection Hs as <- <- _|].
    destruct (passed (kill_deadline a) _) eqn:Ek.
    + assert (Hne : ~ p (shell a)).
      { destruct Hp as [Hp|[[_ Hn] _]]; [done|]. by rewrite Hn in Ek. }
      pose proof (signal_spares (session a) SIGKILL w Hne) as Hr.
      unfold on_kill_deadline, Session.kill, Pty.kill in Hs.
      destruct (Session.is_dead _), (killpg _ SIGKILL w); injection Hs as <- <- _;
        (split; [done|]); (split; [done|]); by intros [].
    + destruct (_ && _); [|by injection Hs as <- <- _]. unfold on_tick in Hs.
      pose proof (refresh_poll_spares a w) as [Hr Hk]. destruct (refresh_poll a w) as [w1 a1].
      destruct (push_status a1 st) as [[st2 a2]|] eqn:Ep; cbn [mbind option_bind] in Hs; [|done].
      injection Hs as <- <- _. split; [done|]. eapply kept_trans; [exact Hk|]. by eapply push_status_kept.
Qed.

End system.

(** ** A new PTY *)

Section opening.
Context `{Spares} `{Engine}.

Lemma await_group_spares n q w : R w (await_group n q w).
Proof.
  revert w. induction n as [|n IH]; intros w; [done|]. cbn [await_group].
  destruct (getpgid (child q) w) as [w1 r] eqn:E. eapply spares_then; [apply spares_getpgid|exact E|].
  assert (Hnext : R w1 (await_group n q (sleep_ms 1 w1))) by (etrans; [apply spares_sleep|apply IH]).
  destruct r as [g|[]]; try done. by destruct (_ =? _)%N.
Qed.

Lemma spawn_spares argv cwd z w w' r : spawn argv cwd z w = Some (w', r) -> R w w'.
Proof.
  unfold spawn. destruct (prepare _ _ _) as [[plan|e]|]; cbn [mbind option_bind]; try done; [|by intros [= <- _]].
  destruct (forkpty z plan w) as [w1 [[fd c]|e]] eqn:E1; intros Hs.
  2: { injection Hs as <- _. eapply spares_then; [apply spares_fork|exact E1|done]. }
  eapply spares_then; [apply spares_fork|exact E1|].
  destruct (set_nonblocking fd w1) as [w2 [[]|e]] eqn:E2.
  2: { injection Hs as <- _. eapply spares_then; [apply spares_nonblocking|exact E2|done]. }
  eapply spares_then; [apply spares_nonblocking|exact E2|].
  destruct (set_cloexec fd w2) as [w3 [[]|e]] eqn:E3.
  2: { injection Hs as <- _. eapply spares_then; [apply spares_cloexec|exact E3|done]. }
  revert Hs. generalize 200. intros n [= <- _].
  eapply spares_then; [apply spares_cloexec|exact E3|]. apply await_group_spares.
Qed.

(** A session task that opens its shell, which is none of [p]. *)
Lemma open_spares sid args dir c r w w' x :
  (forall w1 q, spawn args dir (winsize c r) w = Some (w1, Ok q) -> ~ p (child q)) ->
  Session.open sid args dir c r w = (w', x) -> R w w'.
Proof.
  unfold Session.open. intros Hq. destruct (spawn _ _ _ _) as [[w1 y]|] eqn:Es; [|by intros [= <- _]].
  pose proof (spawn_spares _ _ _ _ _ _ Es) as Hr. destruct y as [q|er]; [|by intros [= <- _]].
  destruct (Session.now_secs w1); intros [= <- _]; [done|].
  etrans; [exact Hr|]. apply drop_pty_spares. by eapply Hq.
Qed.
End opening.

(** The relation that every system call respects. *)
#[local] Instance any_spares `{Os} : SparesCalls (fun _ => False) (fun _ => False) (fun _ _ => True).
Proof. by split. Qed.

(** A turn serves the PTY it served. *)
Lemma select_pty `{Engine, Os, Tokio} `{!Json StatusMsg, !Json ExitMsg} opts fuel ready a w st flow w' st' :
  select opts fuel ready a w st = Some (flow, w', st') ->
  Session.pty (session (flow_actor flow)) = Session.pty (session a).
Proof.
  intros Hs. apply (select_spares (p := fun _ => False) (m := fun _ => False) (R := fun _ _ => True)) in Hs as (_ & Hp & _);
    [done|left; by intros []|by intros ? ? []].
Qed.
