(* ===== verification/TaskEnd.v ===== *)
(** The end of a session task (jftermd/src/server.rs, [session_task] and the end of
    [actor_loop]): what it does to the table, and to the shell it opened. *)
From S2P Require Import Prelude Status Engine Pty Protocol Registry Server Stores Syscalls.
From S2P Require Import OsInstance TokioInstance ParserInstance ActorWitness.
From S2P Require Session.

(** The loop leaves the table alone until it ends, and then takes its own entry
    out and drops the PTY it has served. *)
Lemma actor_turns_end `{Engine, Os, Tokio} `{!Json StatusMsg, !Json ExitMsg}
    opts fuel schedule id a reg w st r reg' w' st' :
  actor_turns opts fuel schedule id a reg w st = Some (r, reg', w', st') ->
  match r with
  | inl a' => reg' = reg /\ Session.pty (session a') = Session.pty (session a)
  | inr _ => reg' = remove id reg /\ exists w1, w' = drop_pty (Session.pty (session a)) w1
  end.
Proof.
  revert a w st. induction schedule as [|ready schedule IH]; intros a w st; cbn [actor_turns].
  { by intros [= <- <- _ _]. }
  destruct (select opts fuel ready a w st) as [[[flow w1] st1]|] eqn:Es; cbn [mbind option_bind]; [|done].
  apply select_pty in Es. destruct flow as [a1|a1]; cbn [flow_actor] in Es.
  - rewrite <- Es. apply IH.
  - unfold actor_end. intros [= <- <- <- _]. split; [done|]. exists w1. by rewrite <- Es.
Qed.

(** C23: a session task leaves the registry alone while it runs, and however it
    ends (the shell cannot be opened, the master cannot be watched, or any exit
    of the loop) the registry is left without its own entry and every other as
    it was, and the idle watcher is woken. A task that did open a shell sends
    SIGKILL to the process group of that shell and waits for it, last thing; until
    then it has kept the PTY it opened. *)
Theorem task_leaves_registry `{Engine, Os, Tokio} `{!Json StatusMsg, !Json ExitMsg}
    opts fuel registered schedule spec reg w st r reg' w' st' :
  session_task opts fuel registered schedule spec reg w st = Some (r, reg', w', st') ->
  let opens w0 s := Session.open (session_id spec) (argv spec) (cwd spec) (Protocol.cols spec) (Protocol.rows spec) w =
                      (w0, Some (Ok s)) in
  match r with
  | inl a => reg' = reg /\ forall w0 s, opens w0 s -> Session.pty (session a) = Session.pty s
  | inr _ => sessions reg' = delete (session_id spec) (sessions reg) /\
      ended reg' = notify_one (ended reg) /\
      forall w0 s, opens w0 s ->
        exists w1, w' = (waitpid (child (Session.pty s)) false (killpg (child (Session.pty s)) SIGKILL w1).1).1
  end.
Proof.
  unfold session_task. destruct (Session.open _ _ _ _ _ w) as [w0 [[s|e]|]] eqn:Eo; cbv zeta.
  - unfold actor_loop. destruct registered.
    + intros Hr%actor_turns_end. cbn [session Actor_new] in Hr. destruct r as [a|].
      { destruct Hr as [-> Hp]. split; [done|]. by intros w2 s2 [= _ <-]. }
      destruct Hr as [-> (w1 & ->)]. split; [done|]. split; [done|]. intros w2 s2 [= _ <-]. by exists w1.
    + intros [= <- <- <- _]. split; [done|]. split; [done|]. intros w2 s2 [= _ <-]. by exists w0.
  - intros [= <- <- _ _]. split; [done|]. split; [done|]. by intros.
  - intros [= <- <- _ _]. split; [done|]. split; [done|]. by intros.
Qed.

#[local] Abbreviation reg_s := (run_op (OpAttach "s") (Registry.new, no_channels : @store queue_tokio)).1.1.

Lemma task_leaves_registry_witness :
  exists reg' w' st',
    session_task default_opts 1 true [ready_closed] spec0 reg_s (Session.script_demo : @world script_os) store8 =
      Some (inr tt, reg', w', st') /\
    sessions reg' !! ("s" : string) = None /\
    exists w1, w' = (waitpid 7%N false (killpg 7%N SIGKILL w1).1).1.
Proof.
  eexists _, _, _. split.
  { unfold session_task, spec0. cbn [Protocol.session_id Protocol.argv Protocol.cwd Protocol.cols Protocol.rows].
    rewrite Session.opened_session0. reflexivity. }
  destruct (task_leaves_registry default_opts 1 true [ready_closed] spec0 reg_s
    (Session.script_demo : @world script_os) store8 (inr tt) _ _ _ ltac:(
      unfold session_task, spec0; cbn [Protocol.session_id Protocol.argv Protocol.cwd Protocol.cols Protocol.rows];
      rewrite Session.opened_session0; reflexivity)) as (Hs & _ & Hk).
  split; [rewrite Hs; reflexivity|]. exact (Hk _ _ Session.opened_session0).
Defined.
