(* ===== verification/Daemon.v ===== *)
(** jftermd/src/server.rs: the daemon as a whole, its tasks interleaved.

    The accept loop, the connections, the session tasks and the idle watcher run
    concurrently. An [event] is what one of them does between two of its waits,
    and [step] is its effect; a run is any sequence of events, in which time and
    the rest of the machine move too. Two tasks of a connection are coupled: when
    its reader or its writer ends, the other is aborted in the same step. A write
    to a socket is one step. *)
From S2P Require Import Prelude Engine Pty Protocol Registry Server Connection.
From S2P Require Session Idle.

(** A session task: it waits for [Session::open]; its actor loops; or it has left
    the registry and drops what it owns. *)
Inductive Task `{Engine, Tokio} :=
  | Opening (spec : AttachOrOpen) (rx : cmd_rx)
  | Running (id : string) (a : Actor) (rx : cmd_rx)
  | Ending (a : Actor) (rx : cmd_rx).

(** A connection: before its first frame; a control client, or one that waits for
    the replies to its LIST until a deadline; a session client with its reader
    and its writer; or over. *)
Inductive Connection `{Tokio, Stream} :=
  | Greeting (rs : reads) (dec : FrameDecoder) (wh : stream)
  | Serving (rs : reads) (dec : FrameDecoder) (wh : stream)
  | Listing (rs : reads) (dec : FrameDecoder) (wh : stream) (rxs : list reply_rx) (infos : list SessionInfo)
      (deadline : N)
  | Attached (rs : reads) (dec : FrameDecoder) (tx : cmd_tx) (out : frame_rx) (wh : stream)
  | Closed (wh : stream).

Record Daemon `{Engine, Os, Tokio, Stream} := mkDaemon {
  registry : Registry;
  chans : store;
  machine : world;
  tasks : gmap nat Task;
  conns : gmap nat Connection;
  watcher : Idle.Watch;
  clock : N;
  accept_after : N
}.

(** The fresh number of a connection or of a task is an argument of the event
    that creates one. *)
Inductive event `{Engine, Os, Tokio, Stream} :=
  | Accept (n : nat) (accepted : io_result (result u32 Errno * stream))
  | Arrive (n : nat) (r : io_result (list byte))
  | Greet (n k : nat)
  | Serve (n : nat)
  | ListTurn (n : nat)
  | ReaderTurn (n : nat)
  | WriterTurn (n : nat)
  | OpenTask (k : nat) (registered : bool)
  | ActorTurn (k fuel : nat) (readable : option bool) (tick : bool)
  | EndTask (k : nat)
  | WatchTurn
  | Elapse (d : N)
  | Outside (w : world).

Section daemon.
Context `{Engine, Os, Receivers, Stream}.
Context `{!Json StatusMsg, !Json ExitMsg, !Json Hello, !Json (list SessionInfo), !Json AttachOrOpen,
          !Json Protocol.Resize, !Json CloseMsg}.

(** [me] is the daemon's uid, [version] its [CARGO_PKG_VERSION]. *)
Context (opts : ServerOpts) (version : list byte) (me : u32).

Definition with_registry (r : Registry) (d : Daemon) : Daemon :=
  {| registry := r; chans := chans d; machine := machine d; tasks := tasks d; conns := conns d;
     watcher := watcher d; clock := clock d; accept_after := accept_after d |}.
Definition with_chans (st : store) (d : Daemon) : Daemon :=
  {| registry := registry d; chans := st; machine := machine d; tasks := tasks d; conns := conns d;
     watcher := watcher d; clock := clock d; accept_after := accept_after d |}.
Definition with_machine (w : world) (d : Daemon) : Daemon :=
  {| registry := registry d; chans := chans d; machine := w; tasks := tasks d; conns := conns d;
     watcher := watcher d; clock := clock d; accept_after := accept_after d |}.
Definition with_tasks (t : gmap nat Task) (d : Daemon) : Daemon :=
  {| registry := registry d; chans := chans d; machine := machine d; tasks := t; conns := conns d;
     watcher := watcher d; clock := clock d; accept_after := accept_after d |}.
Definition set_conn (n : nat) (c : Connection) (d : Daemon) : Daemon :=
  {| registry := registry d; chans := chans d; machine := machine d; tasks := tasks d;
     conns := <[n := c]> (conns d); watcher := watcher d; clock := clock d;
     accept_after := accept_after d |}.

Definition set_task (k : nat) (t : Task) (d : Daemon) : Daemon := with_tasks (<[k := t]> (tasks d)) d.
Definition end_task (k : nat) (d : Daemon) : Daemon := with_tasks (delete k (tasks d)) d.

(** One round of [run]: a peer of another uid is turned away by the task that was
    spawned for it; after a failure the loop sleeps 50 ms. *)
Definition accept (n : nat) (accepted : io_result (result u32 Errno * stream)) (d : Daemon) : option Daemon :=
  if (accept_after d <=? clock d)%N then
    match accepted with
    | Ok (peer, wh) =>
        match conns d !! n with
        | Some _ => None
        | None => Some (set_conn n (match check_peer_uid peer me with
                                    | Ok _ => Greeting [] FrameDecoder_new wh
                                    | Err _ => Closed wh
                                    end) d)
        end
    | Err _ =>
        Some {| registry := registry d; chans := chans d; machine := machine d; tasks := tasks d;
                conns := conns d; watcher := watcher d; clock := clock d;
                accept_after := (clock d + 50)%N |}
    end
  else None.

(** What the next read of the socket will answer. *)
Definition arrive (n : nat) (r : io_result (list byte)) (d : Daemon) : option Daemon :=
  match conns d !! n with
  | Some (Greeting rs dec wh) => Some (set_conn n (Greeting (rs ++ [r]) dec wh) d)
  | Some (Serving rs dec wh) => Some (set_conn n (Serving (rs ++ [r]) dec wh) d)
  | Some (Listing rs dec wh rxs infos deadline) =>
      Some (set_conn n (Listing (rs ++ [r]) dec wh rxs infos deadline) d)
  | Some (Attached rs dec tx out wh) => Some (set_conn n (Attached (rs ++ [r]) dec tx out wh) d)
  | _ => None
  end.

(** [tokio::spawn(session_task(..))], of the session just created. *)
Definition spawn_task (k : nat) (spawned : option (AttachOrOpen * cmd_rx)) (d : Daemon) : Daemon :=
  match spawned with Some (spec, rx) => set_task k (Opening spec rx) d | None => d end.

(** The first frame, and the handshake or the attach it asks for. *)
Definition greet (n k : nat) (d : Daemon) : option Daemon :=
  match conns d !! n, tasks d !! k with
  | Some (Greeting rs dec wh), None =>
      '(dec, rs, r) ← read_one_frame rs dec;
      match r with
      | Pending => Some (set_conn n (Greeting rs dec wh) d)
      | Eof | Failed _ => Some (set_conn n (Closed wh) d)
      | Got first =>
          match ty first with
          | Hello_ =>
              Some (set_conn n (match control_hello version first wh with
                                | (wh, None) => Serving rs dec wh
                                | (wh, Some _) => Closed wh
                                end) d)
          | AttachOrOpen_ =>
              let '(reg, st, c) := handle_session opts first rs dec (registry d) (chans d) in
              let d := with_registry reg (with_chans st d) in
              Some match c with
                   | Bound spawned tx out rs dec =>
                       spawn_task k spawned (set_conn n (Attached rs dec tx out wh) d)
                   | Aborted spawned => spawn_task k spawned (set_conn n (Closed wh) d)
                   | Over _ | Idle => set_conn n (Closed wh) d
                   end
          | _ => Some (set_conn n (Closed wh) d)
          end
      end
  | _, _ => None
  end.

(** One round of the loop of a control connection, up to the wait for the replies:
    one second, for all of them. *)
Definition serve (n : nat) (d : Daemon) : option Daemon :=
  match conns d !! n with
  | Some (Serving rs dec wh) =>
      '(dec, rs, r) ← read_one_frame rs dec;
      match r with
      | Pending => Some (set_conn n (Serving rs dec wh) d)
      | Eof | Failed _ => Some (set_conn n (Closed wh) d)
      | Got f =>
          match ty f with
          | List_ =>
              let '(st, rxs) := request_infos (handles (registry d)) (chans d) in
              Some (set_conn n (Listing rs dec wh (snd <$> rxs) [] (clock d + 1000)) (with_chans st d))
          | _ => Some (set_conn n (Serving rs dec wh) d)
          end
      end
  | _ => None
  end.

(** One poll of the replies of [collect_sessions]: the next one, or, while that one
    has not come, the deadline. *)
Definition list_turn (n : nat) (d : Daemon) : option Daemon :=
  match conns d !! n with
  | Some (Listing rs dec wh rxs infos deadline) =>
      let finish (st : store) :=
        let '(wh, e) := reply_list infos wh in
        set_conn n (match e with None => Serving rs dec wh | Some _ => Closed wh end) (with_chans st d) in
      match rxs with
      | [] => Some (finish (chans d))
      | rx :: rest =>
          match recv_reply rx (chans d) with
          | Some (st, Some i) => Some (set_conn n (Listing rs dec wh rest (infos ++ [i]) deadline) (with_chans st d))
          | Some (st, None) => Some (set_conn n (Listing rs dec wh rest infos deadline) (with_chans st d))
          | None =>
              if (deadline <=? clock d)%N
              then Some (finish (foldl (fun st rx => drop_reply_rx rx st) (chans d) rxs))
              else None
          end
      end
  | _ => None
  end.

(** The end of [handle_session]: one half is done, the other is aborted, and what
    the two own is dropped. *)
Definition hang_up (n : nat) (tx : cmd_tx) (out : frame_rx) (wh : stream) (d : Daemon) : Daemon :=
  set_conn n (Closed wh) (with_chans (drop_cmd_tx tx (drop_frame_rx out (chans d))) d).

Definition reader_turn (n : nat) (d : Daemon) : option Daemon :=
  match conns d !! n with
  | Some (Attached rs dec tx out wh) =>
      '(rs, dec, st, e) ← reader_step rs dec tx (chans d);
      let d := with_chans st d in
      Some match e with
           | None | Some Waiting => set_conn n (Attached rs dec tx out wh) d
           | Some _ => hang_up n tx out wh d
           end
  | _ => None
  end.

(** One round of [writer_task]. *)
Definition writer_turn (n : nat) (d : Daemon) : option Daemon :=
  match conns d !! n with
  | Some (Attached rs dec tx out wh) =>
      '(st, frame) ← recv_frame out (chans d);
      let d := with_chans st d in
      Some match frame with
           | None => hang_up n tx out (shutdown wh) d
           | Some f =>
               match write_all (encode f) wh with
               | (wh, Ok _) => set_conn n (Attached rs dec tx out wh) d
               | (wh, Err _) => hang_up n tx out (shutdown wh) d
               end
           end
  | _ => None
  end.

(** [session_task] up to the loop; [registered] is the answer of [AsyncFd]. *)
Definition open_task (k : nat) (registered : bool) (d : Daemon) : option Daemon :=
  match tasks d !! k with
  | Some (Opening spec rx) =>
      let id := session_id spec in
      let failed (w : world) :=
        end_task k (with_chans (drop_cmd_rx rx (chans d)) (with_machine w
          (with_registry (remove id (registry d)) d))) in
      Some match Session.open id (argv spec) (cwd spec) (Protocol.cols spec) (Protocol.rows spec) (machine d) with
           | (w, Some (Ok s)) =>
               if registered then set_task k (Running id (Actor_new s) rx) (with_machine w d)
               else set_task k (Ending (Actor_new s) rx)
                      (with_machine w (with_registry (remove id (registry d)) d))
           | (w, Some (Err _)) | (w, None) => failed w
           end
  | _ => None
  end.

(** The command the loop finds, and the channels after the look. *)
Definition poll_cmd (rx : cmd_rx) (st : store) :
    store * option (option (SessionCommand frame_tx reply_tx)) :=
  match recv_cmd rx st with Some (st, c) => (st, Some c) | None => (st, None) end.

(** One turn of the loop; the turn that leaves it removes the entry. *)
Definition actor_turn (k fuel : nat) (readable : option bool) (tick : bool) (d : Daemon) : option Daemon :=
  match tasks d !! k with
  | Some (Running id a rx) =>
      let '(st, cmd) := poll_cmd rx (chans d) in
      let ready := {| r_cmd := cmd; r_readable := readable; r_tick := tick; r_now := clock d |} in
      '(flow, w, st) ← select opts fuel ready a (machine d) st;
      let d := with_machine w (with_chans st d) in
      Some match flow with
           | Continue a => set_task k (Running id a rx) d
           | Break a => set_task k (Ending a rx) (with_registry (remove id (registry d)) d)
           end
  | _ => None
  end.

Definition finish_task (k : nat) (d : Daemon) : option Daemon :=
  match tasks d !! k with
  | Some (Ending a rx) =>
      let '(w, st) := drop_actor a (machine d) (chans d) in
      Some (end_task k (with_machine w (with_chans (drop_cmd_rx rx st) d)))
  | _ => None
  end.

Definition watch_turn (d : Daemon) : option Daemon :=
  '(reg, w) ← Idle.watch_step (exit_grace opts) (clock d) (registry d) (watcher d);
  Some {| registry := reg; chans := chans d; machine := machine d; tasks := tasks d; conns := conns d;
          watcher := w; clock := clock d; accept_after := accept_after d |}.

Definition elapse (t : N) (d : Daemon) : Daemon :=
  {| registry := registry d; chans := chans d; machine := machine d; tasks := tasks d; conns := conns d;
     watcher := watcher d; clock := (clock d + t)%N; accept_after := accept_after d |}.

Definition step (e : event) (d : Daemon) : option Daemon :=
  match e with
  | Accept n a => accept n a d
  | Arrive n r => arrive n r d
  | Greet n k => greet n k d
  | Serve n => serve n d
  | ListTurn n => list_turn n d
  | ReaderTurn n => reader_turn n d
  | WriterTurn n => writer_turn n d
  | OpenTask k registered => open_task k registered d
  | ActorTurn k fuel readable tick => actor_turn k fuel readable tick d
  | EndTask k => finish_task k d
  | WatchTurn => watch_turn d
  | Elapse t => Some (elapse t d)
  | Outside w => Some (with_machine w d)
  end.

(** ** The end *)

(** A task that is dropped with the runtime drops what it owns. A shell that was
    being opened is opened or not: the runtime waits for the blocking thread that
    has begun, and drops the session it comes back with. *)
Definition drop_task (opened : bool) (t : Task) (w : world) (st : store) : world * store :=
  match t with
  | Opening spec rx =>
      let w :=
        if opened then
          match Session.open (session_id spec) (argv spec) (cwd spec) (Protocol.cols spec) (Protocol.rows spec) w with
          | (w, Some (Ok s)) => drop_pty (Session.pty s) w
          | (w, _) => w
          end
        else w in
      (w, drop_cmd_rx rx st)
  | Running _ a rx | Ending a rx =>
      let '(w, st) := drop_actor a w st in (w, drop_cmd_rx rx st)
  end.

(** So does a connection. *)
Definition drop_conn (c : Connection) (st : store) : store :=
  match c with
  | Greeting _ _ _ | Serving _ _ _ | Closed _ => st
  | Listing _ _ _ rxs _ _ => foldl (fun st rx => drop_reply_rx rx st) st rxs
  | Attached _ _ tx out _ => drop_cmd_tx tx (drop_frame_rx out st)
  end.

(** The runtime drops its tasks in an order of its own. *)
Inductive dropping := DropTask (k : nat) (opened : bool) | DropConn (n : nat).

Definition drop_next (x : dropping) (d : Daemon) : Daemon :=
  match x with
  | DropTask k opened =>
      match tasks d !! k with
      | Some t =>
          let '(w, st) := drop_task opened t (machine d) (chans d) in
          end_task k (with_machine w (with_chans st d))
      | None => d
      end
  | DropConn n =>
      match conns d !! n with
      | Some c =>
          {| registry := registry d; chans := drop_conn c (chans d); machine := machine d; tasks := tasks d;
             conns := delete n (conns d); watcher := watcher d; clock := clock d;
             accept_after := accept_after d |}
      | None => d
      end
  end.

(** The drop of the runtime, at the end of [main]. *)
Definition shut_down (order : list dropping) (d : Daemon) : Daemon :=
  foldl (fun d x => drop_next x d) d order.

(** The daemon as [main] starts it: an empty registry, no connection, no task. *)
Definition start (max : usize) (st : store) (w : world) : Daemon :=
  {| registry := with_max_sessions max; chans := st; machine := w; tasks := ∅; conns := ∅;
     watcher := Idle.FirstCheck; clock := 0; accept_after := 0 |}.

Fixpoint run (es : list event) (d : Daemon) : option Daemon :=
  match es with
  | [] => Some d
  | e :: es => d ← step e d; run es d
  end.
End daemon.
