(* ===== verification/DaemonProps.v ===== *)
(** What holds of the whole daemon, however its tasks interleave.

    The daemon refines an abstract machine of the table alone ([spec_step]): the
    registry, the task that serves each entry, the watcher and the clock. An
    entry and its task come and go together, so the table never names a session
    nobody serves and no task serves a session the table does not name; and the
    daemon exits only when no session task is left. *)
From S2P Require Import Prelude Engine Pty Protocol Registry Server Connection Stores Daemon.
From S2P Require Import Idle.

(** The session a task serves, until it has left the registry. *)
Definition live `{Engine, Tokio} (t : Task) : option (string * cmd_rx) :=
  match t with
  | Opening spec rx => Some (session_id spec, rx)
  | Running id _ rx => Some (id, rx)
  | Ending _ _ => None
  end.

Record View `{Tokio} := mkView {
  v_reg : Registry;
  v_live : gmap nat (string * cmd_rx);
  v_watch : Watch;
  v_now : N
}.
Arguments mkView {_}.

Definition view `{Engine, Os, Tokio, Stream} (d : Daemon) : View :=
  {| v_reg := registry d; v_live := omap live (tasks d); v_watch := watcher d; v_now := clock d |}.

Section spec.
Context `{Tokio}.

(** The abstract machine: a task is spawned with the entry it serves, and ends
    with it; the watcher looks; time passes. *)
Inductive spec_step (grace : N) : View -> View -> Prop :=
  | SpecOpen r st r' st' l w t id k tx rx :
      l !! k = None -> run_op (OpAttach id) (r, st) = (r', st', Some (Created tx rx)) ->
      spec_step grace (mkView r l w t) (mkView r' (<[k := (id, rx)]> l) w t)
  | SpecEnd r l w t id k rx :
      l !! k = Some (id, rx) ->
      spec_step grace (mkView r l w t) (mkView (remove id r) (delete k l) w t)
  | SpecWatch r l w t r' w' :
      watch_step grace t r w = Some (r', w') -> spec_step grace (mkView r l w t) (mkView r' l w' t)
  | SpecTime r l w t d : spec_step grace (mkView r l w t) (mkView r l w (t + d)).

Inductive spec_run (grace : N) (v : View) : View -> Prop :=
  | SpecDone : spec_run grace v v
  | SpecMore v1 v2 : spec_run grace v v1 -> spec_step grace v1 v2 -> spec_run grace v v2.

Definition spec_start (max : usize) : View := mkView (with_max_sessions max) ∅ FirstCheck 0.

(** Entries and tasks match one to one. *)
Record matched (v : View) : Prop := mkMatched {
  entry_served id tx : sessions (v_reg v) !! id = Some tx ->
    exists k rx, v_live v !! k = Some (id, rx) /\ linked tx rx;
  task_named k id rx : v_live v !! k = Some (id, rx) ->
    exists tx, sessions (v_reg v) !! id = Some tx /\ linked tx rx;
  task_unique k1 k2 id rx1 rx2 :
    v_live v !! k1 = Some (id, rx1) -> v_live v !! k2 = Some (id, rx2) -> k1 = k2
}.

(** The attach that creates an entry. *)
Lemma created_entry id r st r' st' tx rx :
  run_op (OpAttach id) (r, st) = (r', st', Some (Created tx rx)) ->
  sessions r !! id = None /\ sessions r' = <[id := tx]> (sessions r) /\ linked tx rx.
Proof.
  simpl. unfold attach_or_create. destruct (sessions r !! id) eqn:E; [done|].
  destruct (_ <=? _)%N; [done|]. destruct (cmd_channel 256 st) as [st1 [tx1 rx1]] eqn:Ec.
  intros [= <- _ <- <-]. split; [done|]. split; [done|]. exists 256%N, st. by rewrite Ec.
Qed.

Lemma matched_step grace v v' : spec_step grace v v' -> matched v -> matched v'.
Proof.
  intros [r st r' st' l w t id k tx rx Hk Hop|r l w t id k rx Hk|r l w t r' w' Hw|r l w t d] [H1 H2 H3];
    cbn [v_reg v_live] in *.
  - apply created_entry in Hop as (Hn & Hs & Hl). split; cbn [v_reg v_live]; rewrite ?Hs.
    + intros i x [[-> ->]|[Hi Hx]]%lookup_insert_Some.
      * exists k, rx. by rewrite lookup_insert, decide_True.
      * destruct (H1 i x Hx) as (k' & rx' & Hk' & ?). exists k', rx'.
        rewrite lookup_insert_ne; [done|]. intros <-. congruence.
    + intros k' i x [[-> [= <- <-]]|[Hi Hx]]%lookup_insert_Some.
      * exists tx. by rewrite lookup_insert, decide_True.
      * destruct (H2 k' i x Hx) as (tx' & Htx & ?). exists tx'.
        rewrite lookup_insert_ne; [done|]. intros <-. congruence.
    + intros k1 k2 i x1 x2 [[<- [= <- <-]]|[Hi1 Hx1]]%lookup_insert_Some
        [[<- E2]|[Hi2 Hx2]]%lookup_insert_Some; try done; [| |by eapply H3].
      * destruct (H2 _ _ _ Hx2) as (? & ? & _). congruence.
      * injection E2 as <- <-. destruct (H2 _ _ _ Hx1) as (? & ? & _). congruence.
  - split; cbn [v_reg v_live remove sessions].
    + intros i x [Hi Hx]%lookup_delete_Some. destruct (H1 i x Hx) as (k' & rx' & Hk' & ?).
      exists k', rx'. rewrite lookup_delete_ne; [done|]. intros <-. congruence.
    + intros k' i x [Hi Hx]%lookup_delete_Some. destruct (H2 k' i x Hx) as (tx' & Htx & ?).
      exists tx'. rewrite lookup_delete_ne; [done|]. intros <-. by destruct Hi; eapply H3.
    + intros k1 k2 i x1 x2 [_ Hx1]%lookup_delete_Some [_ Hx2]%lookup_delete_Some. by eapply H3.
  - destruct (watch_sessions _ _ _ _ _ _ Hw) as [Es _]. split; cbn [v_reg v_live]; rewrite ?Es; done.
  - done.
Qed.

Lemma matched_run grace max v : spec_run grace (spec_start max) v -> matched v.
Proof. induction 1 as [|v1 v2 _ IH Hs]; [by split|by eapply matched_step]. Qed.

(** As many tasks as entries, never more than the cap. *)
Lemma sized_run (st0 : store) grace max v :
  spec_run grace (spec_start max) v ->
  size (v_live v) = size (sessions (v_reg v)) /\ registry_wf (v_reg v) /\ max_sessions (v_reg v) = max.
Proof.
  induction 1 as [|v1 v2 Hr (IH & Hwf & Hm) Hs].
  { unfold registry_wf. cbn [v_live v_reg spec_start with_max_sessions sessions max_sessions].
    rewrite !map_size_empty. split_and!; [done|lia|done]. }
  apply matched_run in Hr as [_ H2 _].
  destruct Hs as [r st r' st' l w t id k tx rx Hk Hop|r l w t id k rx Hk|r l w t r' w' Hw|r l w t d];
    cbn [v_reg v_live] in *; [| | |done].
  - pose proof (run_op_wf (OpAttach id) (r, st) Hwf) as [Hw' Hm']. rewrite Hop in Hw', Hm'.
    apply created_entry in Hop as (Hn & Hs & _). rewrite Hs, !map_size_insert_None by done.
    split_and!; [lia|exact Hw'|]. simpl in Hm'. congruence.
  - pose proof (run_op_wf (OpRemove id) (r, st0) Hwf) as [Hw' _].
    destruct (H2 k id rx Hk) as (tx & Htx & _). cbn [remove sessions max_sessions].
    rewrite !map_size_delete_Some by eauto. split_and!; [lia|exact Hw'|done].
  - destruct (watch_sessions _ _ _ _ _ _ Hw) as [Es Em]. unfold registry_wf in *. by rewrite Es, Em.
Qed.

(** The table of an abstract run, as the watcher's theorems see it. *)
Lemma spec_idle (st0 : store) grace max v :
  spec_run grace (spec_start max) v ->
  exists ops, idle_run grace (idle_start max) ops (mkIdle (v_now v) (v_reg v) (v_watch v)).
Proof.
  induction 1 as [|v1 v2 _ [ops IH] Hs]; [exists []; apply IdleDone|].
  destruct Hs as [r st r' st' l w t id k tx rx _ Hop|r l w t id k rx _|r l w t r' w' Hw|r l w t d];
    cbn [v_now v_reg v_watch] in *.
  - exists (ops ++ [(t, OpAttach id)]). replace r' with (run_op (OpAttach id) (r, st)).1.1 by (by rewrite Hop).
    by apply IdleOp.
  - exists (ops ++ [(t, OpRemove id)]).
    exact (IdleOp grace _ ops t r st0 w (OpRemove id) IH).
  - exists ops. by eapply IdleWatch.
  - exists ops. by apply IdleTime.
Qed.
End spec.

(** * The reader, one round at a time *)

Section reader.
Context `{Tokio} `{!Json Protocol.Resize, !Json CloseMsg}.
Context (tx : cmd_tx).

(** The rounds of a reader nobody interrupts, to the end it comes to. *)
Inductive reader_rounds : reads -> FrameDecoder -> store -> store -> ReaderEnd -> Prop :=
  | RoundsEnd rs dec st rs' dec' st' e :
      reader_step rs dec tx st = Some (rs', dec', st', Some e) -> reader_rounds rs dec st st' e
  | RoundsMore rs dec st rs1 dec1 st1 st' e :
      reader_step rs dec tx st = Some (rs1, dec1, st1, None) -> reader_rounds rs1 dec1 st1 st' e ->
      reader_rounds rs dec st st' e.

(** What follows when the buffer [dec] holds no whole frame. *)
Definition reads_on (rs : reads) (dec : FrameDecoder) (st st' : store) (e : ReaderEnd) : Prop :=
  match rs with
  | [] => st' = st /\ e = Waiting
  | Err _ :: _ | Ok [] :: _ => st' = st /\ e = Disconnected
  | Ok buf :: rs => exists dec', push buf dec = Some dec' /\ reader_rounds rs dec' st st' e
  end.

Lemma frames_rounds fuel rs dec st dec1 st1 o :
  reader_frames fuel dec tx st = Some (dec1, st1, o) ->
  match o with
  | Some e => reader_rounds rs dec st st1 e
  | None => forall st' e, reads_on rs dec1 st1 st' e -> reader_rounds rs dec st st' e
  end.
Proof.
  revert dec st. induction fuel as [|fuel IH]; intros dec st; [done|]. cbn [reader_frames].
  destruct (next_frame dec) as [[dec2 [[f|]|er]]|] eqn:En; cbn [mbind option_bind]; [| | |done].
  - destruct (on_frame tx f st) as [st2 [e|]] eqn:Ef.
    + intros [= <- <- <-]. eapply (RoundsEnd _ _ _ rs dec2). unfold reader_step. by rewrite En; cbn; rewrite Ef.
    + intros Hr. specialize (IH dec2 st2 Hr).
      assert (Hs : reader_step rs dec tx st = Some (rs, dec2, st2, None))
        by (unfold reader_step; rewrite En; cbn; by rewrite Ef).
      destruct o as [e|]; [by eapply RoundsMore|]. intros st' e Hon. eapply RoundsMore; [exact Hs|by apply IH].
  - intros [= <- <- <-] st' e Hon. unfold reads_on in Hon.
    destruct rs as [|[[|b bs]|er] rs].
    + destruct Hon as [-> ->]. eapply RoundsEnd. unfold reader_step. by rewrite En.
    + destruct Hon as [-> ->]. eapply RoundsEnd. unfold reader_step. by rewrite En.
    + destruct Hon as (dec3 & Hp & Hr). eapply RoundsMore; [|exact Hr].
      unfold reader_step. rewrite En. cbn [mbind option_bind]. by rewrite Hp.
    + destruct Hon as [-> ->]. eapply RoundsEnd. unfold reader_step. by rewrite En.
  - intros [= <- <- <-]. eapply RoundsEnd. unfold reader_step. by rewrite En.
Qed.
End reader.

(** The reader that is interleaved with everything else makes the rounds of
    [reader_task], the loops of the source: left alone, it sends the same commands
    and ends the same way. *)
Theorem reader_task_rounds `{Tokio} `{!Json Protocol.Resize, !Json CloseMsg} tx rs dec st st' e :
  reader_task rs dec tx st = Some (st', e) -> reader_rounds tx rs dec st st' e.
Proof.
  revert dec st. induction rs as [|r rs IH]; intros dec st; cbn [reader_task];
    (destruct (reader_frames _ dec tx st) as [[[dec1 st1] o]|] eqn:Ef; cbn [mbind option_bind]; [|done]).
  - apply (frames_rounds tx _ []) in Ef. destruct o as [x|]; intros [= <- <-]; [done|]. by apply Ef.
  - apply (frames_rounds tx _ (r :: rs)) in Ef. destruct o as [x|]; [by intros [= <- <-]|].
    intros Hr. apply Ef. cbn [reads_on]. destruct r as [[|b bs]|er]; try by injection Hr as <- <-.
    destruct (push (b :: bs) dec1) as [dec2|]; cbn [mbind option_bind] in Hr; [|done]. eauto.
Qed.

(** * The wait for the replies *)

(** A look at the replies moves the control connection and the channels. *)
Lemma list_turn_spec `{Respected, Engine, Os, Stream} `{!Json (list SessionInfo)} n d d' :
  list_turn n d = Some d' -> exists st c, d' = set_conn n c (with_chans st d) /\ P (chans d) st /\
    exists rs dec wh rxs infos deadline, conns d !! n = Some (Listing rs dec wh rxs infos deadline) /\
      match c with
      | Listing rs' dec' _ _ _ _ | Serving rs' dec' _ => rs' = rs /\ dec' = dec
      | Closed _ => True
      | _ => False
      end.
Proof.
  unfold list_turn. destruct (conns d !! n) as [[| |rs dec wh rxs infos deadline| |]|]; try done.
  assert (Hgo : forall st c d', Some (set_conn n c (with_chans st d)) = Some d' -> P (chans d) st ->
    match c with Listing rs' dec' _ _ _ _ | Serving rs' dec' _ => rs' = rs /\ dec' = dec | Closed _ => True | _ => False end ->
    exists st c, d' = set_conn n c (with_chans st d) /\ P (chans d) st /\
      exists rs0 dec0 wh0 rxs0 infos0 deadline0,
        Some (Listing rs dec wh rxs infos deadline) = Some (Listing rs0 dec0 wh0 rxs0 infos0 deadline0) /\
        match c with Listing rs' dec' _ _ _ _ | Serving rs' dec' _ => rs' = rs0 /\ dec' = dec0 | Closed _ => True | _ => False end).
  { intros st c d1 [= <-] Hp Hc. exists st, c. split; [done|]. split; [done|]. by exists rs, dec, wh, rxs, infos, deadline. }
  destruct (reply_list infos wh) as [wh' e].
  destruct rxs as [|rx rest]; [intros Hd; eapply Hgo; [exact Hd|done|by destruct e]|].
  destruct (recv_reply rx _) as [[st [i|]]|] eqn:Er.
  1,2: intros Hd; eapply Hgo; [exact Hd|by eapply respects_recv_reply|done].
  destruct (_ <=? _)%N; [|done]. intros Hd. eapply Hgo; [exact Hd| |by destruct e].
  exact (respects_drop_replies (rx :: rest) _).
Qed.

#[export] Instance any_respected `{Receivers} : Respected (fun _ => True) (fun _ _ => True) (fun _ _ => True) (fun _ _ => True).
Proof. by split. Qed.

(** * The daemon refines the abstract machine *)

Section refinement.
Context `{Engine, Os, Receivers, Stream}.
Context `{!Json StatusMsg, !Json ExitMsg, !Json Hello, !Json (list SessionInfo), !Json AttachOrOpen,
          !Json Protocol.Resize, !Json CloseMsg}.
Context (opts : ServerOpts) (version : list byte) (me : u32).

#[local] Abbreviation grace := (exit_grace opts).
#[local] Abbreviation refines d d' := (view d' = view d \/ spec_step grace (view d) (view d')).

Lemma view_eq (d d' : Daemon) :
  registry d' = registry d -> omap live (tasks d') = omap live (tasks d) ->
  watcher d' = watcher d -> clock d' = clock d -> view d' = view d.
Proof. unfold view. by intros -> -> -> ->. Qed.

Lemma live_at (d : Daemon) k t : tasks d !! k = Some t -> omap live (tasks d) !! k = live t.
Proof. intros E. by rewrite lookup_omap, E. Qed.

(** A task that goes on with the session it serves. *)
Lemma live_same (d : Daemon) k t t' :
  tasks d !! k = Some t -> is_Some (live t) -> live t' = live t ->
  omap live (<[k := t']> (tasks d)) = omap live (tasks d).
Proof.
  intros E [x Hx] Ht. rewrite (omap_insert_Some _ _ _ _ x) by congruence.
  apply insert_id. by rewrite (live_at d k t).
Qed.

(** A task that leaves the registry, whatever becomes of it. *)
Lemma refines_end (d d' : Daemon) k t id rx :
  tasks d !! k = Some t -> live t = Some (id, rx) -> registry d' = remove id (registry d) ->
  omap live (tasks d') = delete k (omap live (tasks d)) -> watcher d' = watcher d -> clock d' = clock d ->
  refines d d'.
Proof.
  intros E Ht Er El Ew Ec. right. unfold view. rewrite Er, El, Ew, Ec.
  eapply SpecEnd. by rewrite (live_at d k t).
Qed.

Lemma refines_greet n k d d' : greet opts version n k d = Some d' -> refines d d'.
Proof.
  unfold greet. destruct (conns d !! n) as [[rs dec wh| | | |]|]; try done.
  destruct (tasks d !! k) eqn:Ek; [done|].
  destruct (read_one_frame rs dec) as [[[dec' rs'] r]|]; cbn [mbind option_bind]; [|done].
  destruct r as [first| |e|]; try (intros [= <-]; by left).
  destruct (ty first); try (intros [= <-]; by left).
  unfold handle_session. destruct (json AttachOrOpen first) as [req|]; [|intros [= <-]; by left].
  destruct (attach_or_create (session_id req) (registry d) (chans d)) as [[st1 reg1] b] eqn:Ea.
  assert (Hb : match b with Created _ _ => True | _ => reg1 = registry d end).
  { revert Ea. unfold attach_or_create. destruct (sessions (registry d) !! _); [by intros [= _ <- <-]|].
    destruct (_ <=? _)%N; [by intros [= _ <- <-]|].
    destruct (cmd_channel 256 (chans d)) as [? [? ?]]. by intros [= _ _ <-]. }
  destruct b as [tx|tx rx|].
  3: { intros [= <-]. left. by subst. }
  all: destruct (frame_channel (out_queue opts) st1) as [st2 [otx orx]];
    destruct (send_cmd tx _ st2) as [st3 []]; intros [= <-].
  1,2: left; by subst.
  all: right; unfold view; cbn [spawn_task registry tasks watcher clock set_task with_tasks set_conn with_registry with_chans];
    rewrite (omap_insert_Some _ _ _ _ (session_id req, rx)) by done;
    eapply (SpecOpen grace (registry d) (chans d) reg1 st1 _ _ _ (session_id req) k tx rx);
      [by rewrite lookup_omap, Ek|cbn [run_op fst snd]; by rewrite Ea].
Qed.

Lemma refines_open k registered d d' : open_task k registered d = Some d' -> refines d d'.
Proof.
  unfold open_task. destruct (tasks d !! k) as [[spec rx|id a rx|a rx]|] eqn:Ek; try done.
  assert (Hf : forall w, refines d (end_task k (with_chans (drop_cmd_rx rx (chans d)) (with_machine w
                 (with_registry (remove (session_id spec) (registry d)) d))))).
  { intros w. eapply refines_end; [done..| |done|done]. apply omap_delete. }
  destruct (Session.open _ _ _ _ _ _) as [w [[s|e]|]]; try (intros [= <-]; apply Hf).
  destruct registered; intros [= <-].
  - left. apply view_eq; try done. by apply (live_same d k (Opening spec rx)).
  - eapply refines_end; [done..| |done|done]. by apply omap_insert_None.
Qed.

Lemma refines_turn k fuel readable tick d d' :
  actor_turn opts k fuel readable tick d = Some d' -> refines d d'.
Proof.
  unfold actor_turn. destruct (tasks d !! k) as [[spec rx|id a rx|a rx]|] eqn:Ek; try done.
  destruct (poll_cmd rx (chans d)) as [st cmd].
  destruct (select _ _ _ _ _ _) as [[[[a'|a'] w] st']|]; cbn [mbind option_bind]; try done; intros [= <-].
  - left. apply view_eq; try done. by apply (live_same d k (Running id a rx)).
  - eapply refines_end; [done..| |done|done]. by apply omap_insert_None.
Qed.

Lemma refines_finish k d d' : finish_task k d = Some d' -> refines d d'.
Proof.
  unfold finish_task. destruct (tasks d !! k) as [[spec rx|id a rx|a rx]|] eqn:Ek; try done.
  destruct (drop_actor a (machine d) (chans d)) as [w st]. intros [= <-]. left. apply view_eq; try done.
  cbn [tasks end_task with_tasks with_machine with_chans]. rewrite omap_delete. apply delete_id.
  by rewrite (live_at d k _ Ek).
Qed.

(** What only the connections own is not in the view. *)
Lemma refines_conn e d d' :
  match e with Accept _ _ | Arrive _ _ | Serve _ | ListTurn _ | ReaderTurn _ | WriterTurn _ => True | _ => False end ->
  step opts version me e d = Some d' -> view d' = view d.
Proof.
  destruct e as [n [[peer wh]|er]|n r|n k|n|n|n|n|k b|k fuel b t|k| |t|w]; try done; intros _; cbn [step].
  - unfold accept. destruct (_ <=? _)%N, (conns d !! n); try done. by intros [= <-].
  - unfold accept. destruct (_ <=? _)%N; try done. by intros [= <-].
  - unfold arrive. destruct (conns d !! n) as [[]|]; try done; by intros [= <-].
  - unfold serve. destruct (conns d !! n) as [[|rs dec wh| | |]|]; try done.
    destruct (read_one_frame rs dec) as [[[dec' rs'] [f| |e|]]|]; cbn [mbind option_bind]; try done;
      try by intros [= <-].
    destruct (request_infos _ _) as [st rxs]. destruct (ty f); by intros [= <-].
  - intros Hs. by apply (list_turn_spec (P := fun _ _ => True)) in Hs as (st & c & -> & _).
  - unfold reader_turn. destruct (conns d !! n) as [[| | |rs dec tx out wh|]|]; try done.
    destruct (reader_step rs dec tx _) as [[[[rs' dec'] st] [[]|]]|]; cbn [mbind option_bind]; try done;
      by intros [= <-].
  - unfold writer_turn. destruct (conns d !! n) as [[| | |rs dec tx out wh|]|]; try done.
    destruct (recv_frame out _) as [[st [f|]]|]; cbn [mbind option_bind]; try done; [|by intros [= <-]].
    destruct (write_all (encode f) wh) as [wh' []]; by intros [= <-].
Qed.

Lemma refines_step e d d' : step opts version me e d = Some d' -> refines d d'.
Proof.
  destruct e as [n a|n r|n k|n|n|n|n|k b|k fuel b t|k| |t|w]; intros Hs.
  1,2,4,5,6,7: left; eapply refines_conn; [|exact Hs]; done.
  - by eapply refines_greet.
  - by eapply refines_open.
  - by eapply refines_turn.
  - by eapply refines_finish.
  - cbn [step] in Hs. unfold watch_turn in Hs.
    destruct (watch_step _ _ _ _) as [[r w]|] eqn:Ew; cbn [mbind option_bind] in Hs; [|done].
    injection Hs as <-. right. by apply SpecWatch.
  - injection Hs as <-. right. apply SpecTime.
  - injection Hs as <-. by left.
Qed.

Lemma run_app es es' d : run opts version me (es ++ es') d = d1 ← run opts version me es d; run opts version me es' d1.
Proof.
  revert d. induction es as [|e es IH]; intros d; [done|]. cbn [app run].
  destruct (step opts version me e d) as [d1|]; [apply IH|done].
Qed.

Lemma run_snoc es e d : run opts version me (es ++ [e]) d = d1 ← run opts version me es d; step opts version me e d1.
Proof.
  rewrite run_app. destruct (run opts version me es d) as [d1|]; [|done].
  cbn [mbind option_bind run]. by destruct (step opts version me e d1).
Qed.

Lemma refines_run max st w es d :
  run opts version me es (start max st w) = Some d -> spec_run grace (spec_start max) (view d).
Proof.
  revert d. induction es as [|e es IH] using rev_ind; intros d; [|rewrite run_snoc].
  { intros [= <-]. unfold view, start. cbn [registry tasks watcher clock]. rewrite omap_empty. apply SpecDone. }
  destruct (run opts version me es (start max st w)) as [d1|]; cbn [mbind option_bind]; [|done].
  intros Hs. destruct (refines_step e d1 d Hs) as [->|Hv]; [by apply IH|].
  eapply SpecMore; [by apply IH|exact Hv].
Qed.
End refinement.

(** C3: however the connections, the session tasks and the watcher interleave, an
    entry of the registry and the task that serves it come and go together:
    every entry is served by exactly one task, through the channel the entry
    sends to, every task that serves a session is in the table under its id, and
    there are never more of them than the cap. So no shell is left without an
    entry to reach it, and no entry without an actor to answer. *)
Theorem one_task_per_entry `{Engine, Os, Receivers, Stream}
    `{!Json StatusMsg, !Json ExitMsg, !Json Hello, !Json (list SessionInfo), !Json AttachOrOpen,
      !Json Protocol.Resize, !Json CloseMsg} opts version me max st w es d :
  run opts version me es (start max st w) = Some d ->
  (forall id tx, sessions (registry d) !! id = Some tx ->
     exists k t rx, tasks d !! k = Some t /\ live t = Some (id, rx) /\ linked tx rx /\
       forall k' t' rx', tasks d !! k' = Some t' -> live t' = Some (id, rx') -> k' = k) /\
  (forall k t id rx, tasks d !! k = Some t -> live t = Some (id, rx) ->
     exists tx, sessions (registry d) !! id = Some tx /\ linked tx rx) /\
  (N.of_nat (size (omap live (tasks d))) <= max)%N.
Proof.
  intros Hr%refines_run. pose proof (sized_run st _ _ _ Hr) as (Hs & Hw & Hm).
  apply matched_run in Hr as [He Ht0 Hu]. cbn [view v_reg v_live] in *. split_and!.
  - intros id tx Htx. destruct (He id tx Htx) as (k & rx & Hk & Hl).
    apply lookup_omap_Some in Hk as Hk'. destruct Hk' as (t & Hlive & Ht). exists k, t, rx.
    split_and!; try done. intros k' t' rx' Ht' Hl'. eapply Hu; [|exact Hk]. by rewrite (live_at d k' t').
  - intros k t id rx Ht Hl. apply (Ht0 k). by rewrite (live_at d k t).
  - rewrite Hs, <- Hm. exact Hw.
Qed.

(** C27: the daemon exits only when nothing is left to serve: when the idle
    watcher returns, the table is empty, no session task serves a session (one
    that has left the table may still be dropping its PTY), some session had
    existed, and the table was empty a whole grace before. The
    registry, the watcher and the clock of the whole daemon move as in
    [idle_run]. *)
Theorem exit_leaves_no_session `{Engine, Os, Receivers, Stream}
    `{!Json StatusMsg, !Json ExitMsg, !Json Hello, !Json (list SessionInfo), !Json AttachOrOpen,
      !Json Protocol.Resize, !Json CloseMsg} opts version me max st w es d d' :
  run opts version me es (start max st w) = Some d ->
  step opts version me WatchTurn d = Some d' -> watcher d' = Return_ ->
  sessions (registry d') = ∅ /\ (forall k t, tasks d' !! k = Some t -> live t = None) /\
  exists ops, idle_run (exit_grace opts) (idle_start max) ops (mkIdle (clock d') (registry d') Return_) /\
    populated max ops /\
    exists t0, (t0 + exit_grace opts <= clock d')%N /\ empty_at max ops t0.
Proof.
  intros Hr Hs Hw. assert (Hr' : run opts version me (es ++ [WatchTurn]) (start max st w) = Some d').
  { by rewrite run_snoc, Hr. }
  apply refines_run in Hr'. destruct (spec_idle st _ _ _ Hr') as [ops Hi].
  apply matched_run in Hr' as [_ Ht0 _]. cbn [view v_live v_now v_reg v_watch] in *. rewrite Hw in Hi.
  assert (He : sessions (registry d') = ∅).
  { cbn [step] in Hs. unfold watch_turn in Hs.
    destruct (watch_step _ _ _ _) as [[r x]|] eqn:Ew; cbn [mbind option_bind] in Hs; [|done].
    injection Hs as <-. cbn [registry watcher] in *. subst x. by eapply watch_returns_empty. }
  split; [done|]. split.
  - intros k t Ht. destruct (live t) as [[id rx]|] eqn:El; [|done].
    destruct (Ht0 k id rx) as (tx & Htx & _); [by rewrite (live_at d' k t)|]. by rewrite He in Htx.
  - exists ops. split; [done|]. exact (idle_inv _ _ _ _ Hi).
Qed.
