(* ===== verification/Steps.v ===== *)
(** What one event of the daemon does, to the channels, to the machine and to the
    tasks it is not about.

    [step_follows] lifts a relation that every operation on the channels keeps
    ([Stores]) to an event, [step_spares] one that the system calls keep
    ([Syscalls]), and [step_task] says that a task moves in its own events only. *)
From S2P Require Import Prelude Status Engine Pty Protocol Registry Server Connection.
From S2P Require Import Stores Syscalls Daemon DaemonProps.
From S2P Require Session Idle.

Definition is_info `{Tokio} (c : SessionCommand frame_tx reply_tx) : Prop := exists reply, c = Info reply.

(** * The channels *)

Section channels.
Context {T : Tokio} {R : Receivers} {Q : cmd_tx -> SessionCommand frame_tx reply_tx -> Prop}
  {W : reply_tx -> SessionInfo -> Prop} {P : relation store} {RP : Respected (fun _ => True) Q W P}.
Context `{Engine, Os, Stream}.
Context `{!Json StatusMsg, !Json ExitMsg, !Json Hello, !Json (list SessionInfo), !Json AttachOrOpen,
          !Json Protocol.Resize, !Json CloseMsg}.
Context (opts : ServerOpts) (version : list byte) (me : u32).

(** A task ends in [e], which has [rx]. *)
Definition ends (e : event) (d : Daemon) (rx : cmd_rx) : Prop :=
  exists k, (exists b spec, e = OpenTask k b /\ tasks d !! k = Some (Opening spec rx)) \/
    (exists a, e = EndTask k /\ tasks d !! k = Some (Ending a rx)).

(** The commands the clients send are in [Q], what the actors answer in [W], and the
    looks at the receiving ends keep [P]. *)
Record follows (e : event) (d : Daemon) : Prop := mkFollows {
  follows_attach tx req : Q tx (Attach req);
  follows_input tx bs : Q tx (Input bs);
  follows_resize tx c r : Q tx (Registry.Resize c r);
  follows_close n rs dec tx out wh dec' f g : e = ReaderTurn n -> conns d !! n = Some (Attached rs dec tx out wh) ->
    next_frame dec = Some (dec', Ok (Some f)) -> ty f = Protocol.Close -> Q tx (Close g);
  follows_list n : e = Serve n -> P (chans d) (request_infos (handles (registry d)) (chans d)).1;
  follows_frame n rs dec tx out wh st f : e = WriterTurn n -> conns d !! n = Some (Attached rs dec tx out wh) ->
    recv_frame out (chans d) = Some (st, f) -> P (chans d) st;
  follows_poll k fuel b t id a rx : e = ActorTurn k fuel b t -> tasks d !! k = Some (Running id a rx) ->
    P (chans d) (poll_cmd rx (chans d)).1;
  follows_answer k fuel b t id a rx r : e = ActorTurn k fuel b t -> tasks d !! k = Some (Running id a rx) ->
    (poll_cmd rx (chans d)).2 = Some (Some (Info r)) -> W r (described a (machine d));
  follows_ended rx st : ends e d rx -> P (chans d) st -> P (chans d) (drop_cmd_rx rx st)
}.

Lemma forgets_ended {FP : Forgotten P} e d rx st : ends e d rx -> P (chans d) st -> P (chans d) (drop_cmd_rx rx st).
Proof. intros _ Hp. etrans; [exact Hp|apply respects_drop_cmd_rx]. Qed.

Lemma respects_hang_up tx out st : P st (drop_cmd_tx tx (drop_frame_rx out st)).
Proof. etrans; [apply respects_drop_frame_rx|apply respects_drop_cmd_tx]. Qed.

Lemma greet_follows n k d d' :
  follows (Greet n k) d -> greet opts version n k d = Some d' -> P (chans d) (chans d').
Proof.
  intros Hf. unfold greet. destruct (conns d !! n) as [[rs dec wh| | | |]|]; try done. destruct (tasks d !! k); [done|].
  destruct (read_one_frame rs dec) as [[[dec' rs'] [f| |e|]]|]; cbn [mbind option_bind]; try done; try by intros [= <-].
  destruct (ty f); try by intros [= <-].
  pose proof (respects_handle opts f rs' dec' (registry d) (chans d) (follows_attach _ _ Hf)) as Hh.
  destruct (handle_session _ _ _ _ _ _) as [[reg st] c]. cbn [fst snd] in Hh.
  intros [= <-]. destruct c; try exact Hh; destruct spawned as [[]|]; exact Hh.
Qed.

Lemma serve_follows n d d' : follows (Serve n) d -> serve n d = Some d' -> P (chans d) (chans d').
Proof.
  intros Hf. unfold serve. destruct (conns d !! n) as [[|rs dec wh| | |]|]; try done.
  destruct (read_one_frame rs dec) as [[[dec' rs'] [f| |e|]]|]; cbn [mbind option_bind]; try done; try by intros [= <-].
  pose proof (follows_list _ _ Hf n eq_refl) as Hl. destruct (request_infos (handles (registry d)) (chans d)) as [st rxs].
  by destruct (ty f); intros [= <-].
Qed.

Lemma reader_follows n d d' : follows (ReaderTurn n) d -> reader_turn n d = Some d' -> P (chans d) (chans d').
Proof.
  intros Hf. unfold reader_turn. destruct (conns d !! n) as [[| | |rs dec tx out wh|]|] eqn:Ec; try done.
  destruct (reader_step rs dec tx _) as [[[[rs' dec'] st] e]|] eqn:Es; cbn [mbind option_bind]; [|done].
  eapply respects_reader in Es as Hh; [|intros; by apply Hf|intros; by apply Hf|].
  2: { intros dec1 f En Ht g. by eapply (follows_close _ _ Hf n). }
  destruct e as [[]|]; intros [= <-]; try exact Hh; (etrans; [exact Hh|apply respects_hang_up]).
Qed.

Lemma writer_follows n d d' : follows (WriterTurn n) d -> writer_turn n d = Some d' -> P (chans d) (chans d').
Proof.
  intros Hf. unfold writer_turn. destruct (conns d !! n) as [[| | |rs dec tx out wh|]|] eqn:Ec; try done.
  destruct (recv_frame out (chans d)) as [[st f]|] eqn:Er; cbn [mbind option_bind]; [|done].
  pose proof (follows_frame _ _ Hf n _ _ _ _ _ _ _ eq_refl Ec Er) as Hh.
  destruct f as [f|]; [|intros [= <-]; etrans; [exact Hh|apply respects_hang_up]].
  destruct (write_all (encode f) wh) as [wh' []]; intros [= <-]; [exact Hh|etrans; [exact Hh|apply respects_hang_up]].
Qed.

Lemma open_follows k registered d d' :
  follows (OpenTask k registered) d -> open_task k registered d = Some d' -> P (chans d) (chans d').
Proof.
  intros Hf. unfold open_task. destruct (tasks d !! k) as [[spec rx|id a rx|a rx]|] eqn:Ek; try done.
  destruct (Session.open _ _ _ _ _ _) as [w [[s|e]|]]; [destruct registered|..]; intros [= <-]; try done;
    (apply (follows_ended _ _ Hf); [exists k; left; by exists registered, spec|done]).
Qed.

Lemma actor_follows k fuel b t d d' :
  follows (ActorTurn k fuel b t) d -> actor_turn opts k fuel b t d = Some d' -> P (chans d) (chans d').
Proof.
  intros Hf. unfold actor_turn. destruct (tasks d !! k) as [[spec rx|id a rx|a rx]|] eqn:Ek; try done.
  pose proof (follows_poll _ _ Hf k fuel b t id a rx eq_refl Ek) as Hp.
  pose proof (fun r => follows_answer _ _ Hf k fuel b t id a rx r eq_refl Ek) as Hw.
  destruct (poll_cmd rx (chans d)) as [st cmd]. cbn [fst snd] in *.
  destruct (select _ _ _ _ _ _) as [[[flow w] st']|] eqn:Es; cbn [mbind option_bind]; [|done].
  destruct (respects_select (X := fun _ => True) _ _ _ _ _ _ _ _ _ Es ltac:(by intros ?) ltac:(done) Hw) as [Hs _].
  destruct flow; intros [= <-]; by etrans.
Qed.

Lemma finish_follows k d d' : follows (EndTask k) d -> finish_task k d = Some d' -> P (chans d) (chans d').
Proof.
  intros Hf. unfold finish_task. destruct (tasks d !! k) as [[spec rx|id a rx|a rx]|] eqn:Ek; try done.
  pose proof (respects_drop_actor a (machine d) (chans d)) as Ha.
  destruct (drop_actor a _ _) as [w st]. cbn [snd] in Ha. intros [= <-].
  apply (follows_ended _ _ Hf); [exists k; right; by exists a|exact Ha].
Qed.

Lemma step_follows e d d' : follows e d -> step opts version me e d = Some d' -> P (chans d) (chans d').
Proof.
  intros Hf. destruct e as [n a|n r|n k|n|n|n|n|k b|k fuel b t|k| |t|w]; cbn [step].
  - unfold accept. by destruct (_ <=? _)%N, a as [[]|], (conns d !! n); try done; intros [= <-].
  - unfold arrive. by destruct (conns d !! n) as [[]|]; try done; intros [= <-].
  - by apply greet_follows.
  - by apply serve_follows.
  - intros (st & c & -> & Hh & _)%(list_turn_spec (P := P)). exact Hh.
  - by apply reader_follows.
  - by apply writer_follows.
  - by apply open_follows.
  - by apply actor_follows.
  - by apply finish_follows.
  - unfold watch_turn. by destruct (Idle.watch_step _ _ _ _) as [[r w]|]; [intros [= <-]|].
  - by intros [= <-].
  - by intros [= <-].
Qed.
End channels.

(** * The connections *)

(** The events of the connections, but the first frame, and of the watcher. *)
Definition of_conns `{Engine, Os, Tokio, Stream} (e : event) : bool :=
  match e with
  | Accept _ _ | Arrive _ _ | Serve _ | ListTurn _ | ReaderTurn _ | WriterTurn _ | WatchTurn | Elapse _ => true
  | _ => false
  end.

(** They leave the machine and the tasks alone. *)
Lemma conns_keep `{Engine, Os, Receivers, Stream}
    `{!Json StatusMsg, !Json ExitMsg, !Json Hello, !Json (list SessionInfo), !Json AttachOrOpen,
      !Json Protocol.Resize, !Json CloseMsg} opts version me e d d' :
  of_conns e = true -> step opts version me e d = Some d' -> machine d' = machine d /\ tasks d' = tasks d.
Proof.
  intros He Hs. destruct e as [n a|n r|n k'|n|n|n|n|k' b|k' fuel b i|k'| |i|w]; try done; cbn [step] in Hs.
  - unfold accept in Hs. by destruct (_ <=? _)%N, a as [[]|], (conns d !! n); try done; injection Hs as <-.
  - unfold arrive in Hs. by destruct (conns d !! n) as [[]|]; try done; injection Hs as <-.
  - unfold serve in Hs. destruct (conns d !! n) as [[|rs dec wh| | |]|]; try done.
    destruct (read_one_frame rs dec) as [[[dec' rs'] [f| |e|]]|]; cbn [mbind option_bind] in Hs; try done;
      try by injection Hs as <-.
    destruct (request_infos _ _) as [st rxs]. by destruct (ty f); injection Hs as <-.
  - apply (list_turn_spec (P := fun _ _ => True)) in Hs as (st & c & -> & _). done.
  - unfold reader_turn in Hs. destruct (conns d !! n) as [[| | |rs dec tx out wh|]|]; try done.
    destruct (reader_step rs dec tx _) as [[[[rs' dec'] st] [[]|]]|]; cbn [mbind option_bind] in Hs; try done;
      by injection Hs as <-.
  - unfold writer_turn in Hs. destruct (conns d !! n) as [[| | |rs dec tx out wh|]|]; try done.
    destruct (recv_frame out _) as [[st [f|]]|]; cbn [mbind option_bind] in Hs; try done; [|by injection Hs as <-].
    destruct (write_all (encode f) wh) as [wh' []]; by injection Hs as <-.
  - unfold watch_turn in Hs. destruct (Idle.watch_step _ _ _ _) as [[r w]|]; cbn [mbind option_bind] in Hs; [|done].
    by injection Hs as <-.
  - by injection Hs as <-.
Qed.

(** * The machine *)

Section machine.
Context `{Spares} `{Engine, Receivers, Stream}.
Context `{!Json StatusMsg, !Json ExitMsg, !Json Hello, !Json (list SessionInfo), !Json AttachOrOpen,
          !Json Protocol.Resize, !Json CloseMsg}.
Context (opts : ServerOpts) (version : list byte) (me : u32).

(** The event is of a task that owns none of the groups and descriptors, and forks
    none, or of no task. *)
Definition elsewhere (e : event) (d : Daemon) : Prop :=
  match e with
  | OpenTask k _ => forall spec rx w q, tasks d !! k = Some (Opening spec rx) ->
      spawn (argv spec) (cwd spec) (winsize (Protocol.cols spec) (Protocol.rows spec)) (machine d) = Some (w, Ok q) ->
      ~ p (child q)
  | ActorTurn k _ _ _ => forall id a rx, tasks d !! k = Some (Running id a rx) -> ~ p (shell a) /\ ~ m (desk a)
  | EndTask k => forall a rx, tasks d !! k = Some (Ending a rx) -> ~ p (shell a)
  | Outside w => R (machine d) w
  | _ => True
  end.

Lemma step_spares e d d' : elsewhere e d -> step opts version me e d = Some d' -> R (machine d) (machine d').
Proof.
  intros He Hs. destruct (of_conns e) eqn:Ec; [by destruct (conns_keep _ _ _ _ _ _ Ec Hs) as [-> _]|].
  destruct e as [n a|n r|n k|n|n|n|n|k b|k fuel b t|k| |t|w]; try done; cbn [step elsewhere] in *;
    try (injection Hs as <-; done).
  - unfold greet in Hs. destruct (conns d !! n) as [[rs dec wh| | | |]|]; try done. destruct (tasks d !! k); [done|].
    destruct (read_one_frame rs dec) as [[[dec' rs'] [f| |e|]]|]; cbn [mbind option_bind] in Hs; try done;
      try by injection Hs as <-.
    destruct (ty f); try by injection Hs as <-. destruct (handle_session _ _ _ _ _ _) as [[reg st] c].
    injection Hs as <-. destruct c; try done; by destruct spawned as [[]|].
  - unfold open_task in Hs. destruct (tasks d !! k) as [[spec rx|id a rx|a rx]|] eqn:Ek; try done.
    destruct (Session.open _ _ _ _ _ _) as [w x] eqn:Eo.
    apply open_spares in Eo; [|intros w1 q Hw; by eapply (He spec rx)].
    destruct x as [[s|er]|]; [destruct b|..]; by injection Hs as <-.
  - unfold actor_turn in Hs. destruct (tasks d !! k) as [[spec rx|id a rx|a rx]|] eqn:Ek; try done.
    destruct (He id a rx eq_refl) as [Hp Hm]. destruct (poll_cmd rx (chans d)) as [st cmd].
    destruct (select _ _ _ _ _ _) as [[[flow w] st']|] eqn:Es; cbn [mbind option_bind] in Hs; [|done].
    destruct (select_spares _ _ _ _ _ _ _ _ _ Es ltac:(by left) ltac:(done)) as [Hr _].
    by destruct flow; injection Hs as <-.
  - unfold finish_task in Hs. destruct (tasks d !! k) as [[spec rx|id a rx|a rx]|] eqn:Ek; try done.
    injection Hs as <-. cbn [machine end_task with_tasks with_machine]. apply drop_pty_spares. by eapply He.
Qed.
End machine.

(** * The tasks *)

(** The events of task [k]. *)
Definition event_of `{Engine, Os, Tokio, Stream} (k : nat) (e : event) : bool :=
  match e with OpenTask k' _ | ActorTurn k' _ _ _ | EndTask k' => bool_decide (k' = k) | _ => false end.

(** The shell a task has opened. *)
Definition task_shell `{Engine, Os, Tokio} (t : Task) : option Pid :=
  match t with Opening _ _ => None | Running _ a _ | Ending a _ => Some (shell a) end.

(** The events of other tasks leave task [k] alone, or start it. *)
Lemma step_slot `{Engine, Os, Receivers, Stream}
    `{!Json StatusMsg, !Json ExitMsg, !Json Hello, !Json (list SessionInfo), !Json AttachOrOpen,
      !Json Protocol.Resize, !Json CloseMsg} opts version me e d d' k :
  step opts version me e d = Some d' -> event_of k e = false ->
  tasks d' !! k = tasks d !! k \/ tasks d !! k = None /\ exists spec rx, tasks d' !! k = Some (Opening spec rx).
Proof.
  intros Hs He. destruct (of_conns e) eqn:Ec; [destruct (conns_keep _ _ _ _ _ _ Ec Hs) as [_ ->]; by left|].
  destruct e as [n a|n r|n k'|n|n|n|n|k' b|k' fuel b i|k'| |i|w]; try done; cbn [step event_of] in *;
    try (injection Hs as <-; by left); try apply bool_decide_eq_false in He.
  - unfold greet in Hs. destruct (conns d !! n) as [[rs dec wh| | | |]|]; try done. destruct (tasks d !! k') eqn:Ek'; [done|].
    destruct (read_one_frame rs dec) as [[[dec' rs'] [f| |e|]]|]; cbn [mbind option_bind] in Hs; try done;
      try (injection Hs as <-; by left).
    destruct (ty f); try (injection Hs as <-; by left). destruct (handle_session _ _ _ _ _ _) as [[reg st] c].
    injection Hs as <-. destruct c; try (by left); destruct spawned as [[spec rx]|]; try (by left);
      cbn [spawn_task tasks set_task with_tasks]; (destruct (decide (k' = k)) as [->|Hne];
      [right; split; [done|]; exists spec, rx; apply lookup_insert_eq|left; by apply lookup_insert_ne]).
  - unfold open_task in Hs. destruct (tasks d !! k') as [[spec rx|id a rx|a rx]|]; try done. left.
    destruct (Session.open _ _ _ _ _ _) as [w [[s|x]|]]; [destruct b|..]; injection Hs as <-; cbn;
      by rewrite ?lookup_insert_ne, ?lookup_delete_ne.
  - unfold actor_turn in Hs. destruct (tasks d !! k') as [[spec rx|id a rx|a rx]|]; try done. left.
    destruct (poll_cmd rx (chans d)). destruct (select _ _ _ _ _ _) as [[[[a'|a'] w] st']|]; cbn [mbind option_bind] in Hs; try done;
      injection Hs as <-; cbn; by rewrite lookup_insert_ne.
  - unfold finish_task in Hs. destruct (tasks d !! k') as [[spec rx|id a rx|a rx]|]; try done. left.
    destruct (drop_actor a _ _). injection Hs as <-. cbn. by rewrite lookup_delete_ne.
Qed.

Lemma step_task `{Engine, Os, Receivers, Stream}
    `{!Json StatusMsg, !Json ExitMsg, !Json Hello, !Json (list SessionInfo), !Json AttachOrOpen,
      !Json Protocol.Resize, !Json CloseMsg} opts version me e d d' k t :
  step opts version me e d = Some d' -> event_of k e = false -> tasks d !! k = Some t -> tasks d' !! k = Some t.
Proof. intros Hs He Ek. destruct (step_slot _ _ _ _ _ _ _ Hs He) as [->|[E _]]; congruence. Qed.
