(* ===== verification/Orphans.v ===== *)
(** No shell outlives the daemon.

    A shell that the daemon has forked and has not killed since belongs to one of
    its session tasks, at any moment of any run; and the end of [main], which drops
    the tasks in whatever order, kills each of them. The exceptions are the shells
    that [Pty::spawn] itself gives up, when a call behind the fork fails: [leaked]
    lists them. *)
From S2P Require Import Prelude Status Engine Pty Protocol Registry Server Stores Syscalls Connection Daemon.
From S2P Require Import Steps.
From S2P Require Session.

(** [orphan w q]: the process group [q] was forked by the daemon, and no SIGKILL was
    sent to it since. Only a fork that answers [q] makes one. *)
Class Orphans `{Os} := {
  orphan : world -> Pid -> Prop;
  orphan_calls :: SparesCalls (fun _ => False) (fun _ => False) (fun w w' => forall q, orphan w' q -> orphan w q);
  orphan_killed q w : ~ orphan (killpg q SIGKILL w).1 q;
  orphan_forked z plan w q : orphan (forkpty z plan w).1 q ->
    orphan w q \/ exists fd, (forkpty z plan w).2 = Ok (fd, q);
  orphan_nonblocking fd w q : orphan (set_nonblocking fd w).1 q -> orphan w q;
  orphan_cloexec fd w q : orphan (set_cloexec fd w).1 q -> orphan w q;
  orphan_getpgid p w q : orphan (getpgid p w).1 q -> orphan w q
}.

(** The shell that [spawn] has forked when it answers an error: an [fcntl] on its
    master has failed, and no PTY owns it. *)
Definition spawn_leak `{Os} (argv : list (list byte)) (cwd : list byte) (ws : Winsize) (w : world) : option Pid :=
  match prepare argv cwd (env_vars w) with
  | Some (Ok plan) =>
      match forkpty ws plan w with
      | (w, Ok (m, c)) =>
          match set_nonblocking m w with
          | (w, Ok _) => match (set_cloexec m w).2 with Ok _ => None | Err _ => Some c end
          | (_, Err _) => Some c
          end
      | (_, Err _) => None
      end
  | _ => None
  end.

(** It is one that the kernel forked, and an [fcntl] has failed. *)
Lemma spawn_leak_fails `{Os} argv cwd ws w q :
  spawn_leak argv cwd ws w = Some q ->
  exists plan w1 fd, prepare argv cwd (env_vars w) = Some (Ok plan) /\ forkpty ws plan w = (w1, Ok (fd, q)) /\
    exists e, (set_nonblocking fd w1).2 = Err e \/ (set_cloexec fd (set_nonblocking fd w1).1).2 = Err e.
Proof.
  unfold spawn_leak. destruct (prepare _ _ _) as [[plan|]|]; try done. destruct (forkpty ws plan w) as [w1 [[fd c]|]] eqn:Ef; [|done].
  intros Hl. exists plan, w1, fd. destruct (set_nonblocking fd w1) as [w2 [[]|e]]; cbn [fst snd].
  - destruct (set_cloexec fd w2).2 as [[]|e]; [done|]. injection Hl as <-. split_and!; [done..|]. exists e. by right.
  - injection Hl as <-. split_and!; [done..|]. exists e. by left.
Qed.

(** No new orphans. *)
Abbreviation fewer w w' := (forall q, orphan w' q -> orphan w q).

Section shells.
Context `{Orphans}.

Lemma fewer_refl w : fewer w w.
Proof. done. Qed.

Lemma drop_pty_orphans p w q : orphan (drop_pty p w) q -> orphan w q /\ q <> child p.
Proof.
  unfold drop_pty. intros Hq. pose proof (spares_wait (child p) false (killpg (child p) SIGKILL w).1 q Hq) as Hk.
  split; [exact (spares_killpg (child p) SIGKILL w ltac:(left; by intros []) q Hk)|].
  intros ->. by apply orphan_killed in Hk.
Qed.

Lemma await_group_orphans n p w : fewer w (await_group n p w).
Proof.
  revert w. induction n as [|n IH]; intros w q; [done|]. cbn [await_group].
  pose proof (orphan_getpgid (child p) w q) as Hg. destruct (getpgid (child p) w) as [w1 r]. cbn [fst] in Hg.
  assert (Hnext : orphan (await_group n p (sleep_ms 1 w1)) q -> orphan w q).
  { intros Hq. apply Hg. exact (spares_sleep 1 w1 q (IH _ _ Hq)). }
  destruct r as [g|[]]; auto. destruct (_ =? _)%N; auto.
Qed.

(** A new shell belongs to the PTY it comes with, or is given up. *)
Lemma spawn_orphans argv cwd z w w' r q :
  spawn argv cwd z w = Some (w', r) -> orphan w' q ->
  orphan w q \/ (exists p, r = Ok p /\ child p = q) \/ spawn_leak argv cwd z w = Some q.
Proof.
  unfold spawn, spawn_leak. destruct (prepare _ _ _) as [[plan|e]|]; cbn [mbind option_bind]; [|by intros [= <- _]; left|done].
  pose proof (orphan_forked z plan w q) as Hf. destruct (forkpty z plan w) as [w1 [[fd c]|e]]; cbn [fst snd] in Hf.
  2: { intros [= <- _] Hq. destruct (Hf Hq) as [|[fd [=]]]. by left. }
  pose proof (orphan_nonblocking fd w1 q) as G1. destruct (set_nonblocking fd w1) as [w2 [[]|e]]; cbn [fst snd] in G1.
  2: { intros [= <- _] Hq. destruct (Hf (G1 Hq)) as [|[fd' [= _ ->]]]; [by left|by right; right]. }
  pose proof (orphan_cloexec fd w2 q) as G2. destruct (set_cloexec fd w2) as [w3 [[]|e]]; cbn [fst snd] in G2.
  2: { intros [= <- _] Hq. destruct (Hf (G1 (G2 Hq))) as [|[fd' [= _ ->]]]; [by left|by right; right]. }
  generalize 200. intros n [= <- <-] Hq. apply await_group_orphans in Hq.
  destruct Hf as [|[fd' [= _ ->]]]; [by auto|by left|]. right. left. by eexists.
Qed.

Context `{Engine}.

Lemma open_orphans sid args dir c r w w' x q :
  Session.open sid args dir c r w = (w', x) -> orphan w' q ->
  orphan w q \/ (exists s, x = Some (Ok s) /\ child (Session.pty s) = q) \/ spawn_leak args dir (winsize c r) w = Some q.
Proof.
  unfold Session.open. destruct (spawn _ _ _ _) as [[w1 [p|e]]|] eqn:Es.
  - destruct (Session.now_secs w1); intros [= <- <-] Hq.
    + destruct (spawn_orphans _ _ _ _ _ _ _ Es Hq) as [|[(p' & [= <-] & Hp)|]]; [by left| |by right; right].
      right. left. by eexists.
    + apply drop_pty_orphans in Hq as [Hq Hne].
      destruct (spawn_orphans _ _ _ _ _ _ _ Es Hq) as [|[(p' & [= <-] & Hp)|]]; [by left|congruence|by right; right].
  - intros [= <- <-] Hq. destruct (spawn_orphans _ _ _ _ _ _ _ Es Hq) as [|[(p' & [=] & _)|]]; [by left|by right; right].
  - intros [= <- <-]. by left.
Qed.
End shells.

(** * The daemon *)

Section daemon.
Context `{Orphans} `{Receivers, Engine, Stream}.
Context `{!Json StatusMsg, !Json ExitMsg, !Json Hello, !Json (list SessionInfo), !Json AttachOrOpen,
          !Json Protocol.Resize, !Json CloseMsg}.
Context (opts : ServerOpts) (version : list byte) (me : u32).

(** The shell that an event gives up, and those of a run. *)
Definition opening_leak (d : Daemon) (k : nat) : option Pid :=
  match tasks d !! k with
  | Some (Opening spec _) =>
      spawn_leak (argv spec) (cwd spec) (winsize (Protocol.cols spec) (Protocol.rows spec)) (machine d)
  | _ => None
  end.

Definition event_leak (e : event) (d : Daemon) : option Pid :=
  match e with OpenTask k _ => opening_leak d k | _ => None end.

Fixpoint leaked (es : list event) (d : Daemon) : list Pid :=
  match es with
  | [] => []
  | e :: es => option_list (event_leak e d) ++
      match step opts version me e d with Some d1 => leaked es d1 | None => [] end
  end.

(** The rest of the machine forks no shell in the daemon's name. *)
Fixpoint tended (es : list event) (d : Daemon) : Prop :=
  match es with
  | [] => True
  | e :: es => (forall w, e = Outside w -> fewer (machine d) w) /\
      match step opts version me e d with Some d1 => tended es d1 | None => True end
  end.

(** Every shell belongs to a task, but for those in [l]. *)
Definition owned (l : list Pid) (d : Daemon) : Prop :=
  forall q, orphan (machine d) q -> (exists k t, tasks d !! k = Some t /\ task_shell t = Some q) \/ q ∈ l.

(** No new orphan, and the tasks that are there own what they did. *)
Lemma owned_more l d d' :
  fewer (machine d) (machine d') ->
  (forall k t, tasks d !! k = Some t -> exists t', tasks d' !! k = Some t' /\ task_shell t' = task_shell t) ->
  owned l d -> owned l d'.
Proof.
  intros Hf Ht Ho q Hq. destruct (Ho q (Hf q Hq)) as [(k & t & Ek & Et)|Hl]; [left|by right].
  destruct (Ht k t Ek) as (t' & Ek' & Et'). exists k, t'. split; [done|congruence].
Qed.

(** A task that ends, or another in its place, with no shell but its own. *)
Lemma owned_task l new k d d' :
  (forall k', k' <> k -> tasks d' !! k' = tasks d !! k') ->
  (forall q, orphan (machine d') q ->
     (exists t', tasks d' !! k = Some t' /\ task_shell t' = Some q) \/
     (orphan (machine d) q /\ forall t, tasks d !! k = Some t -> task_shell t <> Some q) \/ q ∈ new) ->
  owned l d -> owned (l ++ new) d'.
Proof.
  intros Et Hq Ho q Hor. rewrite elem_of_app. destruct (Hq q Hor) as [Hk|[[Hd Hk]|Hn]]; [left; by exists k| |by right; right].
  destruct (Ho q Hd) as [(k' & t & Ek & Esh)|]; [left|by right; left]. exists k', t. split; [|done]. rewrite Et; [done|].
  intros ->. by apply (Hk t).
Qed.

Lemma open_owned l k registered d d' :
  open_task k registered d = Some d' -> owned l d -> owned (l ++ option_list (opening_leak d k)) d'.
Proof.
  unfold open_task, opening_leak. destruct (tasks d !! k) as [[spec rx|id a rx|a rx]|] eqn:Ek; try done.
  assert (Hno : forall t, Some (Opening spec rx) = Some t -> forall q, task_shell t <> Some q) by (by intros t [= <-]).
  set (leak := spawn_leak _ _ _ _). destruct (Session.open _ _ _ _ _ _) as [w x] eqn:Eo.
  assert (Ho : forall q, orphan w q -> orphan (machine d) q \/
    (exists s, x = Some (Ok s) /\ child (Session.pty s) = q) \/ leak = Some q) by (intros q; by eapply open_orphans).
  assert (Hend : forall d', machine d' = w -> (forall k', k' <> k -> tasks d' !! k' = tasks d !! k') ->
    (forall s, x = Some (Ok s) -> exists t, tasks d' !! k = Some t /\ task_shell t = Some (child (Session.pty s))) ->
    owned l d -> owned (l ++ option_list leak) d').
  { intros d1 Em Et Hs. apply (owned_task _ _ k); [done|]. intros q Hq. rewrite Em in Hq.
    destruct (Ho q Hq) as [Hd|[(s & -> & <-)|Hl]]; [|left; by apply Hs|right; right; rewrite Hl; by left].
    right; left. split; [done|]. intros t Et1. rewrite Ek in Et1. by apply Hno. }
  destruct x as [[s|e]|]; [destruct registered|..]; intros [= <-]; apply Hend; try done; intros.
  - cbn [tasks set_task with_tasks with_machine]. by rewrite lookup_insert_ne.
  - simplify_eq. cbn [tasks set_task with_tasks with_machine]. rewrite lookup_insert_eq. by eexists.
  - cbn [tasks set_task with_tasks with_machine with_registry]. by rewrite lookup_insert_ne.
  - simplify_eq. cbn [tasks set_task with_tasks with_machine with_registry]. rewrite lookup_insert_eq. by eexists.
  - cbn [tasks end_task with_tasks with_machine with_registry with_chans]. by rewrite lookup_delete_ne.
  - cbn [tasks end_task with_tasks with_machine with_registry with_chans]. by rewrite lookup_delete_ne.
Qed.

Lemma turn_owned l k fuel readable tick d d' : actor_turn opts k fuel readable tick d = Some d' -> owned l d -> owned l d'.
Proof.
  unfold actor_turn. destruct (tasks d !! k) as [[spec rx|id a rx|a rx]|] eqn:Ek; try done.
  destruct (poll_cmd rx (chans d)) as [st cmd].
  destruct (select _ _ _ _ _ _) as [[[flow w] st']|] eqn:Es; cbn [mbind option_bind]; [|done].
  destruct (select_spares (p := fun _ => False) (m := fun _ => False) (R := fun w w' => fewer w w') _ _ _ _ _ _ _ _ _ Es
    ltac:(left; by intros []) ltac:(intros ? _ [])) as (Hf & Hp & _).
  assert (Hend : forall d1 a', machine d1 = w -> Session.pty (session a') = Session.pty (session a) ->
    (exists t', task_shell t' = Some (shell a') /\ tasks d1 = <[k := t']> (tasks d)) -> owned l d -> owned l d1).
  { intros d1 a' Em Ep (t' & Et & Ets). apply owned_more; [by rewrite Em|]. intros k' t Ek'.
    rewrite Ets. destruct (decide (k = k')) as [<-|Hne].
    - exists t'. rewrite lookup_insert_eq. split; [done|]. rewrite Ek in Ek'. injection Ek' as <-.
      cbn [task_shell]. unfold shell in *. congruence.
    - exists t. by rewrite lookup_insert_ne. }
  destruct flow as [a'|a']; intros [= <-]; apply (Hend _ a'); try done;
    [exists (Running id a' rx)|exists (Ending a' rx)]; done.
Qed.

(** What a task drops leaves no orphan of its own. *)
Lemma drop_actor_orphans a w st q :
  orphan (drop_actor a w st).1 q -> orphan w q /\ q <> shell a.
Proof. unfold drop_actor. cbn [fst]. apply drop_pty_orphans. Qed.

Lemma finish_owned l k d d' : finish_task k d = Some d' -> owned l d -> owned l d'.
Proof.
  unfold finish_task. destruct (tasks d !! k) as [[spec rx|id a rx|a rx]|] eqn:Ek; try done.
  pose proof (drop_actor_orphans a (machine d) (chans d)) as Hd. destruct (drop_actor a _ _) as [w st]. cbn [fst] in Hd.
  intros [= <-]. rewrite <- (app_nil_r l) at 2. apply (owned_task l [] k).
  - intros k' Hk. cbn [tasks end_task with_tasks with_machine with_chans]. by rewrite lookup_delete_ne.
  - intros q Hq. right; left. destruct (Hd q Hq) as [Hm Hne]. split; [done|].
    intros t Et. rewrite Ek in Et. injection Et as <-. cbn [task_shell]. congruence.
Qed.

Lemma step_owned l e d d' :
  (forall w, e = Outside w -> fewer (machine d) w) -> step opts version me e d = Some d' -> owned l d ->
  owned (l ++ option_list (event_leak e d)) d'.
Proof.
  intros Hout Hs Ho. assert (Hnil : event_leak e d = None -> owned l d' -> owned (l ++ option_list (event_leak e d)) d').
  { intros -> Ho'. by rewrite app_nil_r. }
  destruct (of_conns e) eqn:Ec.
  { destruct (conns_keep _ _ _ _ _ _ Ec Hs) as [Em Et]. apply Hnil; [by destruct e|]. revert Ho.
    apply owned_more; [by rewrite Em|]. intros k t. rewrite Et. by exists t. }
  destruct e as [n a|n r|n k|n|n|n|n|k b|k fuel b t|k| |t|w]; try done; cbn [step] in Hs; try (apply Hnil; [done|]).
  - assert (Em : machine d' = machine d).
    { unfold greet in Hs. destruct (conns d !! n) as [[rs dec wh| | | |]|]; try done. destruct (tasks d !! k); [done|].
      destruct (read_one_frame rs dec) as [[[dec' rs'] [f| |e|]]|]; cbn [mbind option_bind] in Hs; try done;
        try by injection Hs as <-.
      destruct (ty f); try by injection Hs as <-. destruct (handle_session _ _ _ _ _ _) as [[reg st] c].
      injection Hs as <-. destruct c; try done; by destruct spawned as [[]|]. }
    revert Ho. apply owned_more; [by rewrite Em|]. intros k' t Ek. exists t. split; [|done].
    by eapply (step_task opts version me (Greet n k)).
  - by eapply open_owned.
  - by eapply turn_owned.
  - by eapply finish_owned.
  - injection Hs as <-. revert Ho. apply owned_more; [by apply Hout|]. intros k t. by exists t.
Qed.

Lemma run_owned l es d d' : tended es d -> run opts version me es d = Some d' -> owned l d -> owned (l ++ leaked es d) d'.
Proof.
  revert l d. induction es as [|e es IH]; intros l d; cbn [tended leaked run].
  { intros _ [= <-]. by rewrite app_nil_r. }
  intros [Hout Ht]. destruct (step opts version me e d) as [d1|] eqn:Es; cbn [mbind option_bind]; [|done].
  intros Hr Ho. rewrite app_assoc. apply IH; [done..|]. by eapply step_owned.
Qed.

(** A run of the daemon alone. *)
Lemma alone_tended es d : Forall (fun e => forall w, e <> Outside w) es -> tended es d.
Proof.
  intros Hes. revert d. induction Hes as [|e es He _ IH]; intros d; cbn [tended]; [done|].
  split; [intros w ->; by destruct (He w)|]. by destruct (step opts version me e d).
Qed.

(** ** The end *)

(** The shells that the drop of the runtime gives up. *)
Definition drop_leak (x : dropping) (d : Daemon) : option Pid :=
  match x with DropTask k true => opening_leak d k | _ => None end.

Fixpoint shut_leaked (order : list dropping) (d : Daemon) : list Pid :=
  match order with
  | [] => []
  | x :: order => option_list (drop_leak x d) ++ shut_leaked order (drop_next x d)
  end.

Lemma drop_next_owned l x d : owned l d -> owned (l ++ option_list (drop_leak x d)) (drop_next x d).
Proof.
  destruct x as [k opened|n]; cbn [drop_next drop_leak].
  2: { cbn [option_list]. rewrite app_nil_r. destruct (conns d !! n) as [c|]; [|done]. apply owned_more; [done|].
       intros k t. by exists t. }
  destruct (tasks d !! k) as [t|] eqn:Ek.
  2: { unfold opening_leak. rewrite Ek. destruct opened; cbn [option_list]; by rewrite app_nil_r. }
  set (leak := if opened then opening_leak d k else None).
  assert (Hd : forall q, orphan (drop_task opened t (machine d) (chans d)).1 q ->
    (orphan (machine d) q /\ task_shell t <> Some q) \/ leak = Some q).
  { intros q. subst leak. unfold opening_leak. rewrite Ek. destruct t as [spec rx|id a rx|a rx]; cbn [drop_task task_shell fst].
    - destruct opened; [|by left]. destruct (Session.open _ _ _ _ _ _) as [w1 x] eqn:Eo. intros Hq.
      assert (Ho : orphan w1 q -> orphan (machine d) q \/ (exists s, x = Some (Ok s) /\ child (Session.pty s) = q) \/
        spawn_leak (argv spec) (cwd spec) (winsize (Protocol.cols spec) (Protocol.rows spec)) (machine d) = Some q)
        by (by eapply open_orphans).
      destruct x as [[s|e]|].
      + apply drop_pty_orphans in Hq as [Hq Hne]. destruct (Ho Hq) as [|[(s' & [= <-] & Hs)|]]; [by left|done|by right].
      + destruct (Ho Hq) as [|[(s' & [=] & _)|]]; [by left|by right].
      + destruct (Ho Hq) as [|[(s' & [=] & _)|]]; [by left|by right].
    - pose proof (drop_actor_orphans a (machine d) (chans d) q) as Hd. destruct (drop_actor a _ _) as [w1 st1]. intros Hq.
      destruct (Hd Hq). left. split; [done|congruence].
    - pose proof (drop_actor_orphans a (machine d) (chans d) q) as Hd. destruct (drop_actor a _ _) as [w1 st1]. intros Hq.
      destruct (Hd Hq). left. split; [done|congruence]. }
  replace (if opened then opening_leak d k else None) with leak by done. destruct (drop_task _ _ _ _) as [w st]. cbn [fst] in Hd.
  apply (owned_task l _ k).
  - intros k' Hk. cbn [tasks end_task with_tasks with_machine with_chans]. by rewrite lookup_delete_ne.
  - intros q Hq. right. destruct (Hd q Hq) as [[Hm Hne]|Hl]; [left|right; rewrite Hl; by left].
    split; [done|]. intros t' Et. rewrite Ek in Et. by injection Et as <-.
Qed.

(** What a drop leaves of the tasks and of the connections. *)
Lemma drop_next_left x d :
  (forall k, tasks (drop_next x d) !! k = None <-> tasks d !! k = None \/ exists o, x = DropTask k o) /\
  (forall n, conns (drop_next x d) !! n = None <-> conns d !! n = None \/ x = DropConn n).
Proof.
  destruct x as [k o|n]; cbn [drop_next].
  - destruct (tasks d !! k) as [t|] eqn:Ek.
    + destruct (drop_task _ _ _ _) as [w st]. split.
      * intros k'. cbn [tasks end_task with_tasks with_machine with_chans]. rewrite lookup_delete_None.
        split; [intros [->|Hn]; [right; by exists o|by left]|intros [Hn|[o' [= -> _]]]; [by right|by left]].
      * intros n. cbn [conns end_task with_tasks with_machine with_chans]. intuition discriminate.
    + split; [|intuition discriminate]. intros k'. split; [by left|]. by intros [Hn|[o' [= -> _]]].
  - destruct (conns d !! n) as [c|] eqn:En.
    + split; [intros k; cbn [tasks]; split; [by left|by intros [Hn|[o [=]]]]|].
      intros n'. cbn [conns]. rewrite lookup_delete_None. split; [intros [->|Hn]; [by right|by left]|].
      intros [Hn|[= ->]]; [by right|by left].
    + split; [intros k; split; [by left|by intros [Hn|[o [=]]]]|].
      intros n'. split; [by left|]. by intros [Hn|[= ->]].
Qed.

Lemma shut_down_left order d :
  (forall k, tasks (shut_down order d) !! k = None <-> tasks d !! k = None \/ exists o, DropTask k o ∈ order) /\
  (forall n, conns (shut_down order d) !! n = None <-> conns d !! n = None \/ DropConn n ∈ order).
Proof.
  unfold shut_down. revert d. induction order as [|x order IH]; intros d; cbn [foldl].
  { split; [intros k|intros n]; split; [by left| |by left|]; [intros [Hn|[o Ho]]|intros [Hn|Ho]]; try done;
      by apply elem_of_nil in Ho. }
  destruct (IH (drop_next x d)) as [It In]. destruct (drop_next_left x d) as [Ht Hn]. split.
  - intros k. rewrite It, Ht. setoid_rewrite elem_of_cons. split.
    + intros [[Hk|[o Ho]]|[o Ho]]; [by left|right; exists o; by left|right; exists o; by right].
    + intros [Hk|[o [Ho|Ho]]]; [by left; left|left; right; by exists o|right; by exists o].
  - intros n. rewrite In, Hn, elem_of_cons. intuition.
Qed.

Lemma shut_down_owned l order d : owned l d -> owned (l ++ shut_leaked order d) (shut_down order d).
Proof.
  unfold shut_down. revert l d. induction order as [|x order IH]; intros l d Ho; cbn [foldl shut_leaked].
  { by rewrite app_nil_r. }
  rewrite app_assoc. by apply IH, drop_next_owned.
Qed.
End daemon.

(** C6: no shell outlives the daemon: in any run, with any interleaving of its
    tasks, each shell that was forked and has not been sent SIGKILL is the shell
    of a session task; and when the runtime is dropped at the end of [main], with
    its tasks in any order and whether or not a shell was just being opened,
    every one of them is killed, and nothing is left of the tasks and connections.
    The only exceptions are the shells that [Pty::spawn] itself gives up, because
    [set_nonblocking] or [set_cloexec] fails behind its fork: nothing owns them,
    and they are left alone. *)
Theorem no_shell_left `{Orphans} `{Receivers, Engine, Stream}
    `{!Json StatusMsg, !Json ExitMsg, !Json Hello, !Json (list SessionInfo), !Json AttachOrOpen,
      !Json Protocol.Resize, !Json CloseMsg} opts version me max st w es d order :
  (forall q, ~ orphan w q) -> tended opts version me es (start max st w) -> run opts version me es (start max st w) = Some d ->
  (forall k, is_Some (tasks d !! k) -> exists o, DropTask k o ∈ order) ->
  (forall n, is_Some (conns d !! n) -> DropConn n ∈ order) ->
  let given_up := leaked opts version me es (start max st w) in
  (forall q, orphan (machine d) q -> (exists k t, tasks d !! k = Some t /\ task_shell t = Some q) \/ q ∈ given_up) /\
  tasks (shut_down order d) = ∅ /\ conns (shut_down order d) = ∅ /\
  forall q, orphan (machine (shut_down order d)) q -> q ∈ given_up ++ shut_leaked order d.
Proof.
  intros Hw Htd Hr Ht Hc given_up.
  assert (Ho : owned given_up d).
  { apply (run_owned opts version me [] es _ _ Htd Hr). intros q Hq. by destruct (Hw q Hq). }
  destruct (shut_down_left order d) as [Lt Lc].
  assert (Et : forall k, tasks (shut_down order d) !! k = None).
  { intros k. apply Lt. destruct (tasks d !! k) as [t|] eqn:E; [right; apply Ht; by rewrite E|by left]. }
  assert (En : forall n, conns (shut_down order d) !! n = None).
  { intros n. apply Lc. destruct (conns d !! n) as [c|] eqn:E; [right; apply Hc; by rewrite E|by left]. }
  split; [exact Ho|]. split; [by apply map_empty|]. split; [by apply map_empty|].
  intros q Hq. destruct (shut_down_owned _ order d Ho q Hq) as [(k & t & Ek & _)|]; [by rewrite Et in Ek|done].
Qed.
