(* ===== verification/OrphansWitness.v ===== *)
(** The theorem of [Orphans] at a run that opens a shell and ends. *)
From S2P Require Import Prelude Status Engine Pty Protocol Registry Server Wire Actor Connection.
From S2P Require Import TokioInstance Vte ParserInstance ActorWitness ClientsWitness.
From S2P Require Import Idle Syscalls Daemon Steps Orphans.
From S2P Require Session.

(** A machine that is the list of the groups it has forked and not killed; a
    fork is 7, with the master 3. [broken] is an [fcntl] that fails. *)
Definition ledger (broken : bool) : Os :=
  {| world := list Pid;
     env_vars _ := [];
     forkpty _ _ w := (w ++ [7%N], Ok (3, 7)%N);
     set_nonblocking _ w := (w, if broken then Err (EOther 9) else Ok tt);
     set_cloexec _ w := (w, Ok tt);
     getpgid p w := (w, Ok p);
     sleep_ms _ w := w;
     os_read _ w := (w, Err EAGAIN);
     os_write _ data w := (w, Ok (N.of_nat (length data)));
     tiocswinsz _ _ w := (w, Ok tt);
     killpg q s w := (if bool_decide (s = SIGKILL) then base.filter (fun p => p <> q) w else w, Ok tt);
     tcgetpgrp _ w := (w, Ok 7%N);
     waitpid _ _ w := (w, Ok NotTerminal);
     system_time _ := 1717286400%Z |}.

#[export] Instance ledger_orphans broken : @Orphans (ledger broken).
Proof.
  refine {| orphan := fun (w : @world (ledger broken)) q => q ∈ w |}.
  - split; try done.
    + split; [by intros w q|]. intros w1 w2 w3 H1 H2 q Hq. by apply H1, H2.
    + intros q s w _ p. cbn [killpg ledger fst]. destruct (bool_decide _); [|done].
      by intros [_ Hp]%list_elem_of_filter.
  - intros q w. cbn [killpg ledger fst]. rewrite bool_decide_eq_true_2 by done. by intros [Hne _]%list_elem_of_filter.
  - intros z plan w q. cbn [forkpty ledger fst snd]. intros [Hq|Hq]%elem_of_app; [by left|].
    apply list_elem_of_singleton in Hq as ->. right. by eexists.
  - done.
  - done.
  - done.
Defined.

Definition sound : Os := ledger false.
#[local] Existing Instance sound.
#[local] Instance sound_orphans : @Orphans sound := ledger_orphans false.

(** A client of the same user connects, opens a session, and its shell starts. *)
Definition shell_events : list event :=
  [Accept 0 (Ok (Ok 1000%N, [] : @Connection.stream byte_stream));
   Arrive 0 (Ok (encode (Frame_new AttachOrOpen_ [x00]))); Greet 0 0; OpenTask 0 true].

#[local] Abbreviation begin := (start 2 (no_channels : @store queue_tokio) ([] : @world sound)).

(** The actor of the shell. *)
Definition ledger_session : Session.Session :=
  {| Session.id := "s"; Session.argv := argv spec0; Session.cwd := cwd spec0; Session.pty := {| master := 3; child := 7 |};
     Session.engine_st := eng_new; Session.size := winsize 80 24; Session.created_at := 1717286400;
     Session.lifecycle := Session.Live |}.

Definition shell_runs : Daemon :=
  {| registry := {| sessions := <["s" := 0 : @cmd_tx queue_tokio]> ∅; ended := true; max_sessions := 2 |};
     chans := demo_store; machine := ([7%N] : @world sound);
     tasks := <[0 := Running "s" (Actor_new ledger_session) (0 : @cmd_rx queue_tokio)]> ∅;
     conns := <[0 := Attached [] {| buf := encode (Frame_new AttachOrOpen_ [x00]); pos := 6 |} (0 : @cmd_tx queue_tokio)
                       (1 : @frame_rx queue_tokio) ([] : @Connection.stream byte_stream)]> ∅;
     watcher := FirstCheck; clock := 0; accept_after := 0 |}.

Lemma ledger_open : Session.open "s" (argv spec0) (cwd spec0) 80 24 ([] : @world sound) =
  (([7%N] : @world sound), Some (Ok ledger_session)).
Proof.
  assert (E : spawn (argv spec0) (cwd spec0) (winsize 80 24) ([] : @world sound) =
    Some (([7%N] : @world sound), Ok {| master := 3; child := 7 |})) by (vm_compute; reflexivity).
  unfold Session.open. rewrite E. reflexivity.
Qed.

Lemma shell_run : run default_opts [] 1000 shell_events begin = Some shell_runs.
Proof. reflexivity. Qed.

(** No call behind the fork fails: no shell is given up. *)
Lemma nothing_leaked : leaked default_opts [] 1000 shell_events begin = [].
Proof. reflexivity. Qed.

Lemma no_shell_left_witness :
  orphan (machine shell_runs) 7%N /\
  tasks (shut_down [DropConn 0; DropTask 0 false] shell_runs) = ∅ /\
  ~ orphan (machine (shut_down [DropConn 0; DropTask 0 false] shell_runs)) 7%N.
Proof.
  split; [apply list_elem_of_singleton; reflexivity|].
  destruct (no_shell_left default_opts [] 1000 2 (no_channels : @store queue_tokio) ([] : @world sound) shell_events shell_runs
    [DropConn 0; DropTask 0 false]) as (_ & Ht & _ & Hq).
  - intros q Hq. by apply elem_of_nil in Hq.
  - apply alone_tended. repeat constructor; discriminate.
  - exact shell_run.
  - intros k [t Ht]. exists false. cbn [tasks shell_runs] in Ht. apply lookup_insert_Some in Ht as [[<- _]|[_ Ht]].
    + right; left.
    + by rewrite lookup_empty in Ht.
  - intros n [c Hc]. cbn [conns shell_runs] in Hc. apply lookup_insert_Some in Hc as [[<- _]|[_ Hc]].
    + left.
    + by rewrite lookup_empty in Hc.
  - split; [exact Ht|]. intros Hx. apply Hq in Hx. rewrite nothing_leaked in Hx. by apply elem_of_nil in Hx.
Defined.

(** Where [fcntl] fails after the fork, [spawn] answers its error, no PTY is there
    to be dropped, and the shell is left to itself. *)
Lemma failed_fcntl_leaks :
  let w' := [7%N] : @world (ledger true) in
  @spawn (ledger true) (argv spec0) (cwd spec0) (winsize 80 24) [] = Some (w', Err (Sys (EOther 9))) /\
  @spawn_leak (ledger true) (argv spec0) (cwd spec0) (winsize 80 24) [] = Some 7%N /\
  @orphan (ledger true) (ledger_orphans true) w' 7%N.
Proof. split; [vm_compute; reflexivity|]. split; [vm_compute; reflexivity|]. by apply list_elem_of_singleton. Qed.
