(* ===== verification/Delivery.v ===== *)
(** The queues of frames, from the actors to the writers.

    A queue has one owner at a time: it waits in one command channel, inside the
    attach that carries it, or it is the client of one actor ([owned]). So nothing
    but its actor's turns ever pushes to it; and the writer of a connection writes
    what came out of its queue, in order ([wired]). [evolves] and [wired_set] are
    what a step may do to the two; [Terminal] goes through the steps. *)
From S2P Require Import Prelude Engine Pty Protocol Registry Server Connection Stores Daemon.

(** * What may happen to the channels *)

Section channels.
Context {T : Tokio} {L : ChannelLaws} {C : CommandLaws} {R : Receivers} {F : Traffic} {FL : TrafficLaws}.

(** From [st] to [st'] the queues grow, only those in [X] among the ones there
    were, frames come out of those in [Y], and no new attach waits in a channel. *)
Record advances (X : frame_tx -> Prop) (Y : frame_rx -> Prop) (st st' : store) : Prop := mkAdvances {
  adv_allocated tx : allocated st tx -> allocated st' tx;
  adv_grows tx : allocated st tx -> accepted st tx `prefix_of` accepted st' tx;
  adv_same tx : allocated st tx -> ~ X tx -> accepted st' tx = accepted st tx;
  adv_popped tx rx : paired tx rx -> allocated st tx -> ~ Y rx -> popped st' rx = popped st rx;
  adv_waiting tx i req : handled st' tx <= i -> commands st' tx !! i = Some (Attach req) ->
    handled st tx <= i /\ commands st tx !! i = Some (Attach req)
}.

Definition no_attach (tx : cmd_tx) (c : SessionCommand frame_tx reply_tx) : Prop := forall req, c <> Attach req.

#[export] Instance advances_pre X Y : PreOrder (advances X Y).
Proof.
  split; [intros st; split; intros; by try split|]. intros a b c [A1 A2 A3 A4 A5] [B1 B2 B3 B4 B5]. split.
  - auto.
  - intros tx Ha. etrans; [by apply A2|by apply B2, A1].
  - intros tx Ha Hx. rewrite B3 by auto. by apply A3.
  - intros tx rx Hp Ha Hy. rewrite (B4 tx rx) by auto. by eapply A4.
  - intros tx i req Hi Hl. destruct (B5 tx i req Hi Hl). by apply A5.
Qed.

(** An operation that pushes to no queue and sends no command. *)
Lemma advances_moves X Y (h : cmd_tx -> Prop) st st' :
  moves nothing nothing h Y st st' -> (forall tx, handled st tx <= handled st' tx) -> advances X Y st st'.
Proof.
  intros [A1 A2 A3 A4 A5 A6] Hh. cbn beta in *. split; try done.
  - intros tx _. rewrite A1; [reflexivity|by intros []].
  - intros tx _ _. apply A1. by intros [].
  - intros tx rx _ _. apply A4.
  - intros tx i req Hi. rewrite A2 by (by intros []). specialize (Hh tx). split; [lia|done].
Qed.

Lemma advances_nothing X Y st st' : moves nothing nothing nothing nothing st st' -> advances X Y st st'.
Proof.
  intros Hm. apply (advances_moves X Y nothing); [by apply moves_nothing|].
  intros tx. rewrite (still_handled _ _ _ _ _ _ Hm); [done|by intros []].
Qed.

Lemma advances_try X Y tx f st : X tx -> advances X Y st (try_send tx f st).1.
Proof.
  intros Hx. pose proof (flow_try_send tx f st) as [A1 A2 A3 A4 A5 A6]. cbn beta in *. split; try done.
  - intros tx' _. destruct (decide (tx = tx')) as [<-|Hne]; [|rewrite A1 by done; reflexivity].
    destruct (try_send tx f st) as [st' []] eqn:E; cbn [fst].
    + rewrite (send_accepted _ _ _ _ E). by apply prefix_app_r.
    + rewrite (send_refused _ _ _ _ E). reflexivity.
  - intros tx' _ Hn. apply A1. by intros <-.
  - intros tx' rx _ _ _. apply A4. by intros [].
  - intros tx' i req. rewrite A3, A2 by first [by intros []|done]. done.
Qed.

Lemma send_cmd_commands tx c st :
  commands (send_cmd tx c st).1 tx = commands st tx ++ (if (send_cmd tx c st).2 then [c] else []).
Proof.
  destruct (send_cmd tx c st) as [st' []] eqn:E; cbn [fst snd].
  - by apply cmd_accepted.
  - rewrite app_nil_r. by eapply cmd_refused.
Qed.

Lemma advances_send X Y tx c st : no_attach tx c -> advances X Y st (send_cmd tx c st).1.
Proof.
  intros Hc. pose proof (flow_send_cmd tx c st) as [A1 A2 A3 A4 A5 A6]. cbn beta in *. split; try done.
  - intros tx' _. rewrite A1; [reflexivity|by intros []].
  - intros tx' _ _. apply A1. by intros [].
  - intros tx' rx _ _ _. apply A4. by intros [].
  - intros tx' i req. rewrite A3 by (by intros []). intros Hi. destruct (decide (tx = tx')) as [<-|Hne]; [|by rewrite A2].
    rewrite send_cmd_commands. intros [Hl|[_ Hl]]%lookup_app_Some; [done|].
    destruct (send_cmd tx c st).2; [|done]. apply list_lookup_singleton_Some in Hl as [_ Hl]. by destruct (Hc req).
Qed.

Lemma advances_frames X Y n st : advances X Y st (frame_channel n st).1.
Proof.
  destruct (frame_channel n st) as [st' [ntx nrx]] eqn:E.
  destruct (flow_frame_channel _ _ _ _ _ E) as ([A1 A2 A3 A4 A5 A6] & Hn & _). cbn beta in *. cbn [fst].
  assert (Hne : forall tx, allocated st tx -> ntx <> tx) by (intros tx Ha ->; done).
  split; try done.
  - intros tx Ha. rewrite A1 by auto. reflexivity.
  - intros tx Ha _. apply A1. auto.
  - intros tx rx Hp Ha _. apply A4. intros <-. apply (Hne tx Ha).
    eapply paired_one; [|exact Hp]. exists n, st. by rewrite E.
  - intros tx i req. rewrite A3, A2 by first [by intros []|done]. done.
Qed.

Lemma advances_commands X Y n st : advances X Y st (cmd_channel n st).1.
Proof.
  destruct (cmd_channel n st) as [st' [ntx nrx]] eqn:E. pose proof (cmd_new n st) as Hnew. rewrite E in Hnew.
  destruct (flow_cmd_channel _ _ _ _ _ E) as [[A1 A2 A3 A4 A5 A6] _]. cbn beta in *. cbn [fst snd] in *. split; try done.
  - intros tx _. rewrite A1; [reflexivity|by intros []].
  - intros tx _ _. apply A1. by intros [].
  - intros tx rx _ _ _. apply A4. by intros [].
  - intros tx i req. destruct (decide (ntx = tx)) as [<-|Hne]; [by rewrite Hnew|]. rewrite A3, A2 by first [by intros []|done]. done.
Qed.

#[export] Instance advances_respected X Y : Respected X no_attach (fun _ _ => True) (advances X Y).
Proof.
  split.
  - apply advances_pre.
  - intros tx f st. apply advances_try.
  - intros tx c st. apply advances_send.
  - intros n st. apply advances_frames.
  - intros n st. apply advances_commands.
  - intros st. apply advances_nothing, flow_oneshot.
  - intros r i st _. apply advances_nothing, flow_reply.
  - intros tx st. apply advances_nothing, flow_drop_tx.
  - intros rx st. apply advances_nothing, flow_drop_frame_rx.
  - intros rx st st' i E. by eapply advances_nothing, flow_recv_reply.
  - intros rx st. apply advances_nothing, flow_drop_reply_rx.
  - intros tx st. apply advances_nothing, flow_drop_cmd_tx.
Qed.

#[export] Instance advances_forgotten X Y : Forgotten (advances X Y).
Proof. intros rx st. apply advances_nothing, flow_drop_cmd_rx. Qed.

(** The look for a command. *)
Lemma advances_poll X Y tx rx st : linked tx rx -> advances X Y st (poll_cmd rx st).1.
Proof.
  intros Hl. unfold poll_cmd. destruct (recv_cmd rx st) as [[st' c]|] eqn:E; [|done]. cbn [fst].
  destruct (flow_recv_cmd _ _ _ _ _ Hl E) as [Hm Hc].
  apply (advances_moves X Y (eq tx)); [eapply moves_weaken; [..|exact Hm]; [done..|]; by intros ? []|].
  intros tx'. destruct (decide (tx = tx')) as [<-|Hne]; [destruct c; [destruct Hc|]; lia|].
  by rewrite (still_handled _ _ _ _ _ _ Hm).
Qed.

(** The attach it finds had been waiting, and waits no more. *)
Lemma poll_attach tx rx st st' req : linked tx rx ->
  poll_cmd rx st = (st', Some (Some (Attach req))) ->
  commands st tx !! handled st tx = Some (Attach req) /\ handled st' tx = S (handled st tx).
Proof.
  intros Hl. unfold poll_cmd. destruct (recv_cmd rx st) as [[st1 c]|] eqn:E; [|done]. intros [= <- ->].
  by destruct (flow_recv_cmd _ _ _ _ _ Hl E) as [_ ?].
Qed.
End channels.

(** * One owner per queue *)

(** Where the sender of a queue is: the client of the actor of a task, or inside
    the [i]th command of a channel. *)
Inductive place `{Tokio} :=
  | InTask (k : nat)
  | InQueue (tx : cmd_tx) (i : nat).

Section owners.
Context {T : Tokio} {L : ChannelLaws} {C : CommandLaws} {R : Receivers} {F : Traffic} {FL : TrafficLaws}.
Context {E : Engine}.

#[local] Abbreviation Tasks := (gmap nat Task).

Definition holds (ts : Tasks) (st : store) (ftx : frame_tx) (p : place) : Prop :=
  match p with
  | InTask k => exists id a rx, ts !! k = Some (Running id a rx) /\ client a = Some ftx
  | InQueue tx i => exists req, handled st tx <= i /\ commands st tx !! i = Some (Attach req) /\ out_tx req = ftx
  end.

(** No queue is in two places; one that still waits to be attached is empty. *)
Record owned (ts : Tasks) (st : store) : Prop := mkOwned {
  one_place ftx p1 p2 : holds ts st ftx p1 -> holds ts st ftx p2 -> p1 = p2;
  place_allocated ftx p : holds ts st ftx p -> allocated st ftx;
  queued_empty ftx tx i : holds ts st ftx (InQueue tx i) -> accepted st ftx = []
}.

(** Where what is at [p'] was before: the attach that task [k] took, if it took
    one, was at [h]; all else stays. *)
Definition from_place (k : nat) (h : option (cmd_tx * nat)) (p' p : place) : Prop :=
  match h with
  | Some (tx, i) => (p' = p /\ p <> InQueue tx i) \/ (p' = InTask k /\ p = InQueue tx i)
  | None => p' = p
  end.

Lemma from_place_inj k h p1 p2 p : from_place k h p1 p -> from_place k h p2 p -> p1 = p2.
Proof. unfold from_place. destruct h as [[tx i]|]; intuition congruence. Qed.

(** A step: queues stay where they are, but for the one that task [k] attaches and
    for fresh ones; those in [X], which are pushed to, are with [k] after it. *)
Record evolves (k : nat) (h : option (cmd_tx * nat)) (X : frame_tx -> Prop)
    (ts : Tasks) (st : store) (ts' : Tasks) (st' : store) : Prop := mkEvolves {
  ev_place ftx p' : holds ts' st' ftx p' ->
    (exists p, holds ts st ftx p /\ from_place k h p' p) \/
    (~ allocated st ftx /\ allocated st' ftx /\ accepted st' ftx = [] /\
       forall p'', holds ts' st' ftx p'' -> p'' = p');
  ev_allocated ftx : allocated st ftx -> allocated st' ftx;
  ev_same ftx : allocated st ftx -> ~ X ftx -> accepted st' ftx = accepted st ftx;
  ev_pushed ftx : X ftx -> exists p, holds ts st ftx p /\ from_place k h (InTask k) p
}.

Lemma owned_evolves k h X ts st ts' st' : evolves k h X ts st ts' st' -> owned ts st -> owned ts' st'.
Proof.
  intros [Hp Ha Hs Hx] [H1 H2 H3]. split.
  - intros ftx p1 p2 E1 E2.
    destruct (Hp ftx p1 E1) as [(q1 & Q1 & F1)|(_ & _ & _ & Hu)]; [|by symmetry; apply Hu].
    destruct (Hp ftx p2 E2) as [(q2 & Q2 & F2)|(Hn & _)]; [|by destruct Hn; eapply H2].
    rewrite (H1 ftx q1 q2 Q1 Q2) in F1. by eapply from_place_inj.
  - intros ftx p Ep. destruct (Hp ftx p Ep) as [(q & Q & _)|(_ & Hal & _)]; [by eapply Ha, H2|done].
  - intros ftx tx i Ei. destruct (Hp ftx _ Ei) as [(q & Q & Fq)|(_ & _ & Hnil & _)]; [|done].
    assert (Hq : q = InQueue tx i).
    { unfold from_place in Fq. destruct h as [[tx' i']|]; intuition congruence. }
    subst q. rewrite Hs; [by eapply H3|by eapply H2|]. intros (q & Q2 & F2)%Hx.
    rewrite <- (H1 ftx _ _ Q Q2) in F2. by pose proof (from_place_inj _ _ _ _ _ Fq F2).
Qed.

(** What holds a queue in [ts'] held it in [ts]. *)
Definition within (ts ts' : Tasks) : Prop :=
  forall k id a rx ftx, ts' !! k = Some (Running id a rx) -> client a = Some ftx -> ts !! k = Some (Running id a rx).

Lemma evolves_quiet k Y ts st ts' st' :
  advances nothing Y st st' -> within ts ts' -> evolves k None nothing ts st ts' st'.
Proof.
  intros [A1 A2 A3 A4 A5] Hw. split; [|done| |done].
  - intros ftx [j|tx i]; cbn [holds].
    + intros (id & a & rx & Ej & Hc). left. exists (InTask j). split; [|done]. exists id, a, rx. eauto.
    + intros (req & Hi & Hl & Ho). left. exists (InQueue tx i). split; [|done]. exists req.
      destruct (A5 tx i req Hi Hl). done.
  - intros ftx Hal _. by apply A3; [|intros []].
Qed.

(** The attach sent to [tx] is the one new command that waits. *)
Lemma waiting_sent tx req st st' b tx' i req' :
  send_cmd tx (Attach req) st = (st', b) ->
  handled st' tx' <= i -> commands st' tx' !! i = Some (Attach req') ->
  (handled st tx' <= i /\ commands st tx' !! i = Some (Attach req')) \/
  (tx' = tx /\ i = length (commands st tx) /\ req' = req).
Proof.
  intros Es. pose proof (send_cmd_commands tx (Attach req) st) as Hc. pose proof (flow_send_cmd tx (Attach req) st) as Hm.
  rewrite Es in Hc, Hm. cbn [fst snd] in *. rewrite (still_handled _ _ _ _ _ _ Hm) by (by intros []). intros Hi.
  destruct (decide (tx = tx')) as [<-|Hne]; [|rewrite (still_commands _ _ _ _ _ _ Hm) by done; by left].
  rewrite Hc. intros [Hl|[Hge Hl]]%lookup_app_Some; [by left|]. right. split; [done|].
  destruct b; [|done]. apply list_lookup_singleton_Some in Hl as [Hz [= <-]]. split; [lia|done].
Qed.

(** A connection makes a queue and asks for its attach. *)
Lemma evolves_bind k n Y ts ts' st st1 st2 st' tx ftx orx req b :
  owned ts st -> within ts ts' -> advances nothing Y st st1 -> frame_channel n st1 = (st2, (ftx, orx)) -> out_tx req = ftx ->
  send_cmd tx (Attach req) st2 = (st', b) -> evolves k None nothing ts st ts' st'.
Proof.
  intros Hown Hin Hadv Ef Ho Es.
  pose proof (advances_frames nothing Y n st1) as Hf. pose proof (flow_send_cmd tx (Attach req) st2) as Hm.
  destruct (flow_frame_channel _ _ _ _ _ Ef) as (_ & Hn & Hal & Hnil & _).
  rewrite Ef in Hf. rewrite Es in Hm. cbn [fst] in *.
  pose proof (transitivity Hadv Hf) as A12.
  assert (Hcase : forall f p, holds ts' st' f p -> holds ts st f p \/ (f = ftx /\ p = InQueue tx (length (commands st2 tx)))).
  { intros f [j|tx' i].
    { intros (id & a & rx & Ej & Hc). left. exists id, a, rx. eauto. }
    intros (req' & Hi & Hl & Ho').
    destruct (waiting_sent _ _ _ _ _ _ _ _ Es Hi Hl) as [[Hi2 Hl2]|(-> & -> & ->)]; [left|right; by rewrite <- Ho'].
    exists req'. destruct (adv_waiting _ _ _ _ A12 tx' i req' Hi2 Hl2). done. }
  assert (Hfresh : ~ allocated st ftx) by (intros Hx; by apply Hn, (adv_allocated _ _ _ _ Hadv)).
  split; [|intros f Hx; by apply (still_allocated _ _ _ _ _ _ Hm), (adv_allocated _ _ _ _ A12)| |done].
  - intros f p Hp. destruct (Hcase f p Hp) as [Hold|[-> ->]]; [left; by exists p|right].
    split; [done|]. split; [by apply (still_allocated _ _ _ _ _ _ Hm)|].
    split; [by rewrite (still_accepted _ _ _ _ _ _ Hm) by (by intros [])|].
    intros p Hp2. destruct (Hcase _ _ Hp2) as [Hold|[_ ->]]; [|done]. by destruct Hfresh; eapply place_allocated.
  - intros f Hx _. rewrite (still_accepted _ _ _ _ _ _ Hm) by (by intros []).
    apply (adv_same _ _ _ _ A12); [done|by intros []].
Qed.

(** What the next command of a channel asks to attach. *)
Definition polled (tx : cmd_tx) (st : store) (cmd : option (option (SessionCommand frame_tx reply_tx))) : option (cmd_tx * nat) :=
  match cmd with Some (Some (Attach _)) => Some (tx, handled st tx) | _ => None end.

(** A turn of the actor of task [k]: it looks for a command, and pushes to the
    client it has or gets. *)
Lemma evolves_turn k id a rx tx ts st st1 cmd st' ts' X Y :
  owned ts st -> ts !! k = Some (Running id a rx) -> linked tx rx ->
  poll_cmd rx st = (st1, cmd) -> advances X Y st1 st' ->
  (forall ftx, X ftx -> client a = Some ftx \/ exists req, cmd = Some (Some (Attach req)) /\ out_tx req = ftx) ->
  (forall j i b q ftx, ts' !! j = Some (Running i b q) -> client b = Some ftx ->
     (j = k /\ X ftx) \/ (j <> k /\ ts !! j = Some (Running i b q))) ->
  evolves k (polled tx st cmd) X ts st ts' st'.
Proof.
  intros Hown Ek Hl Ep Hadv HX Hts. pose proof (advances_poll X Y tx rx st Hl) as Hp. rewrite Ep in Hp. cbn [fst] in Hp.
  pose proof (transitivity Hp Hadv) as Hall.
  assert (Hpush : forall ftx, X ftx -> exists p, holds ts st ftx p /\ from_place k (polled tx st cmd) (InTask k) p).
  { intros ftx [Hc|(req & -> & Ho)]%HX.
    - exists (InTask k). split; [by exists id, a, rx|]. unfold from_place. destruct (polled tx st cmd) as [[]|]; auto.
    - destruct (poll_attach _ _ _ _ _ Hl Ep) as [Hc _]. exists (InQueue tx (handled st tx)).
      split; [by exists req|]. right. done. }
  split; [|apply Hall|intros ftx; apply Hall|done].
  intros ftx p' Hp'. left. destruct p' as [j|tx' i].
  - destruct Hp' as (i & b & q & Ej & Hc). destruct (Hts j i b q ftx Ej Hc) as [[-> Hx]|[Hne Ej']]; [by apply Hpush|].
    exists (InTask j). split; [by exists i, b, q|]. unfold from_place. destruct (polled tx st cmd) as [[]|]; auto.
  - destruct Hp' as (req & Hi & Hc & Ho). exists (InQueue tx' i).
    destruct (adv_waiting _ _ _ _ Hadv tx' i req Hi Hc) as [Hi1 Hc1].
    destruct (adv_waiting _ _ _ _ Hp tx' i req Hi1 Hc1) as [Hi0 Hc0]. split; [by exists req|].
    unfold polled. destruct cmd as [[[| | |req'|]|]|]; try done. left. split; [done|]. intros [= <- ->].
    destruct (poll_attach _ _ _ _ _ Hl Ep) as [_ Hh]. lia.
Qed.
End owners.

(** * What the writers wrote *)

Section wires.
Context {T : Tokio} {L : ChannelLaws} {C : CommandLaws} {R : Receivers} {F : Traffic} {FL : TrafficLaws}.
Context `{StreamLaws}.

(** What the connections see of the channels: queues grow, and only those in
    [pops] hand out frames. *)
Record flows (pops : frame_rx -> Prop) (st st' : store) : Prop := mkFlows {
  flow_allocated tx : allocated st tx -> allocated st' tx;
  flow_grows tx : allocated st tx -> accepted st tx `prefix_of` accepted st' tx;
  flow_popped tx rx : paired tx rx -> allocated st tx -> ~ pops rx -> popped st' rx = popped st rx
}.

Lemma flows_advances X Y st st' : advances X Y st st' -> flows Y st st'.
Proof. intros [A1 A2 A3 A4 A5]. split; [done..|]. intros tx rx Hp Ha Hy. by eapply A4. Qed.

Lemma flows_trans pops st1 st2 st3 : flows pops st1 st2 -> flows pops st2 st3 -> flows pops st1 st3.
Proof.
  intros [A1 A2 A3] [B1 B2 B3]. split; [auto| |].
  - intros tx Ha. etrans; [by apply A2|by apply B2, A1].
  - intros tx rx Hp Ha Hn. rewrite (B3 tx rx) by auto. by eapply A3.
Qed.

Lemma flows_moves (pops : frame_rx -> Prop) st st' : moves nothing nothing nothing pops st st' -> flows pops st st'.
Proof.
  intros [A1 A2 A3 A4 A5 A6]. split; [done| |auto]. intros tx _. rewrite A1; [reflexivity|by intros []].
Qed.

(** What the socket of a connection was written: nothing before its first frame,
    what came out of its queue [b] while its writer runs, and no more than went
    into it ever. *)
Definition wire (st : store) (b : option frame_tx) (c : Connection) : Prop :=
  match b, c with
  | None, Greeting _ _ wh => written wh = []
  | None, Attached _ _ _ _ _ => False
  | None, _ => True
  | Some tx, Attached _ _ _ out wh =>
      paired tx out /\ popped st out <= length (accepted st tx) /\
      written wh = concat (encode <$> take (popped st out) (accepted st tx))
  | Some tx, Closed wh => written wh `prefix_of` concat (encode <$> accepted st tx)
  | Some _, _ => False
  end.

Lemma encode_prefix fs gs : fs `prefix_of` gs -> concat (encode <$> fs) `prefix_of` concat (encode <$> gs).
Proof. intros [k ->]. rewrite fmap_app, concat_app. by apply prefix_app_r. Qed.

Lemma wire_flows (pops : frame_rx -> Prop) st st' b c :
  flows pops st st' -> (forall tx, b = Some tx -> allocated st tx) ->
  (forall tx rx, b = Some tx -> paired tx rx -> ~ pops rx) -> wire st b c -> wire st' b c.
Proof.
  intros [F1 F2 F3] Ha Hn. destruct b as [tx|]; [|done]. specialize (Ha tx eq_refl). specialize (Hn tx).
  pose proof (F2 tx Ha) as Hp. destruct c as [| | |rs dec ctx out wh|wh]; cbn [wire]; try done.
  - intros (Hpair & Hle & ->). rewrite (F3 tx out) by auto. split; [done|].
    pose proof (prefix_length _ _ Hp). split; [lia|]. destruct Hp as [more ->]. by rewrite take_app_le.
  - intros Hw. etrans; [exact Hw|by apply encode_prefix].
Qed.

(** The writer stops between two frames. *)
Lemma wire_closed st tx rs dec ctx out wh :
  wire st (Some tx) (Attached rs dec ctx out wh) -> wire st (Some tx) (Closed wh).
Proof. intros (_ & _ & Hw). cbn [wire]. rewrite Hw. apply encode_prefix. eexists. by rewrite take_drop. Qed.

(** [g] is the queue each connection was bound to: one of its own. *)
Record wired (g : gmap nat frame_tx) (cs : gmap nat Connection) (st : store) : Prop := mkWired {
  wires n c : cs !! n = Some c -> wire st (g !! n) c;
  bound_conn n tx : g !! n = Some tx -> is_Some (cs !! n) /\ allocated st tx;
  bound_once n1 n2 tx : g !! n1 = Some tx -> g !! n2 = Some tx -> n1 = n2
}.

Lemma wired_set g cs st n c pops st' :
  wired g cs st -> flows pops st st' ->
  (forall m tx rx, m <> n -> g !! m = Some tx -> paired tx rx -> ~ pops rx) ->
  wire st' (g !! n) c -> wired g (<[n := c]> cs) st'.
Proof.
  intros [W1 W2 W3] Hf Hn Hc. split; [| |done].
  - intros m x [[<- <-]|[Hne Hx]]%lookup_insert_Some; [done|].
    eapply wire_flows; [exact Hf| | |by eapply W1]; intros; [by eapply W2|by eapply Hn].
  - intros m tx Hm. destruct (W2 m tx Hm). split; [|by apply Hf].
    destruct (decide (n = m)) as [<-|Hne]; [rewrite lookup_insert, decide_True by done|rewrite lookup_insert_ne by done]; eauto.
Qed.

Lemma wired_flows g cs st st' : wired g cs st -> flows nothing st st' -> wired g cs st'.
Proof.
  intros [W1 W2 W3] Hf. split; [| |done].
  - intros m x Hx. eapply wire_flows; [exact Hf| |by intros ? ? ? ? []|by eapply W1]. intros; by eapply W2.
  - intros m tx Hm. destruct (W2 m tx Hm). split; [done|by apply Hf].
Qed.

Lemma wired_quiet g cs st n c st' :
  wired g cs st -> flows nothing st st' -> wire st' (g !! n) c -> wired g (<[n := c]> cs) st'.
Proof. intros Hw Hf. eapply wired_set; [done..|]. by intros ? ? ? ? ? ? []. Qed.

Lemma wired_bind g cs st n tx c st' :
  wired g cs st -> g !! n = None -> flows nothing st st' -> ~ allocated st tx -> allocated st' tx ->
  wire st' (Some tx) c -> wired (<[n := tx]> g) (<[n := c]> cs) st'.
Proof.
  intros Hw Hg Hf Hn Ha Hc. pose proof (wired_flows _ _ _ _ Hw Hf) as [W1 W2 W3]. destruct Hw as [_ V2 _]. split.
  - intros m x [[<- <-]|[Hne Hx]]%lookup_insert_Some; [by rewrite lookup_insert, decide_True|].
    rewrite lookup_insert_ne by done. by apply W1.
  - intros m t [[<- <-]|[Hne Hm]]%lookup_insert_Some; [by rewrite lookup_insert, decide_True|].
    rewrite lookup_insert_ne by done. by apply W2.
  - intros n1 n2 t [[<- <-]|[Hne1 Hm1]]%lookup_insert_Some [[<- E2]|[Hne2 Hm2]]%lookup_insert_Some; try done.
    + by destruct (V2 _ _ Hm2).
    + subst t. by destruct (V2 _ _ Hm1).
    + by eapply W3.
Qed.
End wires.
