(* ===== verification/Terminal.v ===== *)
(** From the shell to the terminal through the whole daemon.

    In any run of the daemon every queue has one owner and every writer writes
    what came out of its queue ([sound]). So between its attach and the next one
    only a session's actor pushes to the queue of its client, and what the
    client's socket was written is what the theorems of the actor say. *)
From S2P Require Import Prelude Status Engine Pty Protocol Registry Server Wire Actor Connection Clients.
From S2P Require Import Stores Syscalls Daemon DaemonProps Steps Delivery.
From S2P Require Session Idle.

Section steps.
Context `{EngineLaws, Os}.
Context {T : Tokio} {L : ChannelLaws} {C : CommandLaws} {R : Receivers} {F : Traffic} {FL : TrafficLaws}.
Context `{StreamLaws}.
Context `{!Json StatusMsg, !Json ExitMsg, !Json Hello, !Json (list SessionInfo), !Json AttachOrOpen,
          !Json Protocol.Resize, !Json CloseMsg} `{!JsonLaws StatusMsg}.
Context (opts : ServerOpts) (version : list byte) (me : u32).

(** An event that pushes to no queue. *)
Definition calm (g : gmap nat frame_tx) (d d' : Daemon) : Prop :=
  (forall k, evolves k None nothing (tasks d) (chans d) (tasks d') (chans d')) /\
  exists g', g ⊆ g' /\ wired g' (conns d') (chans d').

Lemma calm_of Y g d d' :
  advances nothing Y (chans d) (chans d') -> within (tasks d) (tasks d') -> wired g (conns d') (chans d') -> calm g d d'.
Proof. intros Ha Hw Hg. split; [intros k; by eapply evolves_quiet|by exists g]. Qed.

Lemma within_refl ts : within ts ts.
Proof. by intros k id a rx ftx Ek _. Qed.
#[local] Hint Resolve within_refl : core.

(** The connection moves on; the channels too. *)
Lemma calm_conn g d n c st :
  wired g (conns d) (chans d) -> advances nothing nothing (chans d) st -> wire st (g !! n) c ->
  calm g d (set_conn n c (with_chans st d)).
Proof. intros Hw Ha Hc. apply (calm_of nothing); [done|done|]. eapply wired_quiet; [exact Hw|by eapply flows_advances|done]. Qed.

Lemma calm_stay g d n c : wired g (conns d) (chans d) -> wire (chans d) (g !! n) c -> calm g d (set_conn n c d).
Proof. intros Hw Hc. apply (calm_of nothing); [done|done|]. by eapply wired_quiet; [|by apply (flows_advances nothing)|]. Qed.

Lemma closed_unbound (st : store) wh : wire st None (Closed wh).
Proof. done. Qed.

(** A connection that is not bound has no queue, one that is has. *)
Lemma unbound g d n c :
  wired g (conns d) (chans d) -> conns d !! n = Some c ->
  match c with Greeting _ _ _ | Serving _ _ _ | Listing _ _ _ _ _ _ => True | _ => False end -> g !! n = None.
Proof. intros Hw Hc Hm. pose proof (wires _ _ _ Hw n c Hc) as Hx. by destruct (g !! n), c. Qed.

Lemma bound g d n rs dec tx out wh :
  wired g (conns d) (chans d) -> conns d !! n = Some (Attached rs dec tx out wh) ->
  exists ftx, g !! n = Some ftx /\ wire (chans d) (Some ftx) (Attached rs dec tx out wh).
Proof. intros Hw Hc. pose proof (wires _ _ _ Hw n _ Hc) as Hx. destruct (g !! n) as [ftx|]; [|done]. by exists ftx. Qed.

(** The peer of a new socket has been written nothing. *)
Definition fresh_event (e : event) : Prop :=
  match e with Accept _ (Ok (_, wh)) => written wh = [] | _ => True end.

Lemma accept_calm g n a d d' :
  wired g (conns d) (chans d) -> fresh_event (Accept n a) -> accept me n a d = Some d' -> calm g d d'.
Proof.
  intros Hw Hf. unfold accept. destruct (_ <=? _)%N; [|done]. destruct a as [[peer wh]|er].
  - destruct (conns d !! n) eqn:Ec; [done|]. intros [= <-]. apply calm_stay; [done|].
    destruct (g !! n) as [tx|] eqn:Eg; [destruct (bound_conn _ _ _ Hw _ _ Eg) as [[x Hx] _]; congruence|].
    by destruct (check_peer_uid peer me).
  - intros [= <-]. by apply (calm_of nothing).
Qed.

Lemma arrive_calm g n r d d' : wired g (conns d) (chans d) -> arrive n r d = Some d' -> calm g d d'.
Proof.
  intros Hw. unfold arrive. destruct (conns d !! n) as [c|] eqn:Ec; [|done].
  pose proof (wires _ _ _ Hw n c Ec) as Hc. destruct c; try done; intros [= <-]; by apply calm_stay.
Qed.

(** What [handle_session] does to the channels. *)
Lemma handle_session_cases first rs dec reg st reg' st' c :
  handle_session opts first rs dec reg st = (reg', st', c) ->
  (st' = st /\ exists r, c = Over r) \/
  exists st1 st2 ftx orx tx req b spawned, advances nothing nothing st st1 /\
    frame_channel (out_queue opts) st1 = (st2, (ftx, orx)) /\ out_tx req = ftx /\
    send_cmd tx (Attach req) st2 = (st', b) /\ c = if b then Bound spawned tx orx rs dec else Aborted spawned.
Proof.
  unfold handle_session. destruct (json AttachOrOpen first) as [req|e]; [|intros [= _ <- <-]; left; eauto].
  pose proof (respects_attach_or_create (Q := no_attach) (P := advances nothing nothing) (session_id req) reg st) as Ha.
  assert (Hr : (attach_or_create (session_id req) reg st).2 = Rejected -> (attach_or_create (session_id req) reg st).1.1 = st).
  { unfold attach_or_create. destruct (sessions reg !! _); [done|]. destruct (_ <=? _)%N; [done|].
    by destruct (cmd_channel 256 st) as [? []]. }
  destruct (attach_or_create _ reg st) as [[st1 reg1] b]. cbn [fst snd] in *.
  destruct b as [t|t rx|]; [| |intros [= _ <- <-]; left; split; [by apply Hr|eauto]];
    (destruct (frame_channel _ st1) as [st2 [ftx orx]] eqn:Ef;
     match goal with |- context [send_cmd t (Attach ?r) st2] => set (q := r) end;
     destruct (send_cmd t (Attach q) st2) as [st3 b] eqn:Es; intros Hx; right;
     exists st1, st2, ftx, orx, t, q, b; eexists; split_and!; [done|done|done| |]; destruct b; by injection Hx as _ <- <-).
Qed.

(** A connection is bound to a session, or turned away by an actor that is gone. *)
Lemma bind_calm g n k d reg st1 st2 st tx ftx orx req b spawned rs dec wh :
  owned (tasks d) (chans d) -> wired g (conns d) (chans d) -> g !! n = None -> tasks d !! k = None ->
  written wh = [] -> advances nothing nothing (chans d) st1 ->
  frame_channel (out_queue opts) st1 = (st2, (ftx, orx)) -> out_tx req = ftx ->
  send_cmd tx (Attach req) st2 = (st, b) ->
  calm g d (spawn_task k spawned (set_conn n (if b then Attached rs dec tx orx wh else Closed wh)
              (with_registry reg (with_chans st d)))).
Proof.
  intros Hown Hw Hg Ek Hwh Ha Ef Ho Es. set (c := if b then _ else _).
  set (d' := spawn_task k spawned _). assert (Hch : chans d' = st) by (by unfold d'; destruct spawned as [[]|]).
  assert (Hcs : conns d' = <[n := c]> (conns d)) by (by unfold d'; destruct spawned as [[]|]).
  assert (Hin : within (tasks d) (tasks d')).
  { intros j id a rx t. unfold d'. destruct spawned as [[spec x]|]; cbn [spawn_task]; [|done].
    cbn [tasks set_task with_tasks]. by intros [[_ ?]|[_ ?]]%lookup_insert_Some. }
  pose proof (advances_frames nothing nothing (out_queue opts) st1) as Hf. rewrite Ef in Hf. cbn [fst] in Hf.
  pose proof (flow_send_cmd tx (Attach req) st2) as Hm. rewrite Es in Hm. cbn [fst] in Hm.
  destruct (flow_frame_channel _ _ _ _ _ Ef) as (_ & Hn & Hal & Hnil & Hpop).
  assert (Hst : flows nothing (chans d) st).
  { eapply flows_trans; [by eapply flows_advances; etrans|]. destruct Hm as [M1 M2 M3 M4 M5 M6]. split; [done| |].
    - intros t _. rewrite M1 by (by intros []). reflexivity.
    - intros t x _ _ _. apply M4. by intros []. }
  split; [intros j; rewrite Hch; by eapply evolves_bind|]. rewrite Hch, Hcs. unfold c. destruct b.
  - exists (<[n := ftx]> g). split; [by apply insert_subseteq|]. eapply wired_bind; [done..| | |].
    + intros Hx. by apply Hn, (adv_allocated _ _ _ _ Ha).
    + by apply (still_allocated _ _ _ _ _ _ Hm).
    + cbn [wire]. split; [exists (out_queue opts), st1; by rewrite Ef|].
      rewrite (still_accepted _ _ _ _ _ _ Hm), (still_popped _ _ _ _ _ _ Hm), Hnil, Hpop by (by intros []). done.
  - exists g. split; [done|]. eapply wired_quiet; [done..|]. by rewrite Hg.
Qed.

Lemma greet_calm g n k d d' :
  owned (tasks d) (chans d) -> wired g (conns d) (chans d) -> greet opts version n k d = Some d' -> calm g d d'.
Proof.
  intros Hown Hw. unfold greet. destruct (conns d !! n) as [[rs dec wh| | | |]|] eqn:Ec; try done.
  destruct (tasks d !! k) eqn:Ek; [done|].
  pose proof (unbound _ _ _ _ Hw Ec I) as Hg. pose proof (wires _ _ _ Hw _ _ Ec) as Hwh. rewrite Hg in Hwh.
  assert (Hstay : forall c, wire (chans d) None c -> calm g d (set_conn n c d)) by (intros; apply calm_stay; [done|by rewrite Hg]).
  destruct (read_one_frame rs dec) as [[[dec' rs'] r]|]; cbn [mbind option_bind]; [|done].
  destruct r as [first| |e|]; try (intros [= <-]; by apply Hstay).
  destruct (ty first); try (intros [= <-]; by apply Hstay).
  { destruct (control_hello version first wh) as [wh1 [x|]]; intros [= <-]; by apply Hstay. }
  destruct (handle_session opts first rs' dec' (registry d) (chans d)) as [[reg st] c] eqn:Eh.
  destruct (handle_session_cases _ _ _ _ _ _ _ _ Eh) as
    [[-> [x ->]]|(st1 & st2 & ftx & orx & tx & req & b & spawned & Ha & Ef & Ho & Es & ->)]; intros [= <-].
  - split; [intros j; by apply (evolves_quiet _ nothing)|]. exists g. split; [done|].
    by apply (wired_quiet g _ (chans d)); [|by apply (flows_advances nothing)|rewrite Hg].
  - pose proof (bind_calm g n k d reg st1 st2 st tx ftx orx req b spawned rs' dec' wh Hown Hw Hg Ek Hwh Ha Ef Ho Es) as Hb.
    by destruct b.
Qed.

(** A bound connection is over. *)
Lemma hang_up_calm Y g n tx out wh d d1 :
  wired g (conns d) (chans d) -> tasks d1 = tasks d -> conns d1 = conns d -> advances nothing Y (chans d) (chans d1) ->
  (forall m t rx, m <> n -> g !! m = Some t -> paired t rx -> ~ Y rx) ->
  wire (chans d1) (g !! n) (Closed wh) -> calm g d (hang_up n tx out wh d1).
Proof.
  intros Hw Et Ec Ha Hy Hc. unfold hang_up. set (st := drop_cmd_tx tx (drop_frame_rx out (chans d1))).
  assert (Hd : forall Z, advances nothing Z (chans d1) st).
  { intros Z. etrans; [exact (respects_drop_frame_rx (Q := no_attach) out _)|exact (respects_drop_cmd_tx (Q := no_attach) tx _)]. }
  assert (Hall : advances nothing Y (chans d) st) by (etrans; [exact Ha|apply Hd]).
  apply (calm_of Y); cbn [tasks chans conns set_conn with_chans]; [done|by rewrite Et|]. rewrite Ec.
  eapply wired_set; [exact Hw|by eapply flows_advances|done|].
  apply (wire_flows nothing (chans d1)); [eapply flows_advances, Hd| |by intros ? ? ? ? []|done].
  intros t Ht. destruct (bound_conn _ _ _ Hw n t Ht). by eapply adv_allocated.
Qed.

Lemma serve_calm g n d d' : wired g (conns d) (chans d) -> serve n d = Some d' -> calm g d d'.
Proof.
  intros Hw. unfold serve. destruct (conns d !! n) as [[|rs dec wh| | |]|] eqn:Ec; try done.
  pose proof (unbound _ _ _ _ Hw Ec I) as Hg.
  destruct (read_one_frame rs dec) as [[[dec' rs'] [f| |e|]]|]; cbn [mbind option_bind]; try done;
    try (intros [= <-]; apply calm_stay; [done|by rewrite Hg]).
  pose proof (respects_infos (Q := no_attach) (P := advances nothing nothing) (handles (registry d)) (chans d) ltac:(done)) as Ha.
  destruct (request_infos _ _) as [st rxs].
  destruct (ty f); intros [= <-]; first [by apply calm_stay; [|rewrite Hg]|by apply calm_conn; [| |rewrite Hg]].
Qed.

Lemma list_calm g n d d' : wired g (conns d) (chans d) -> list_turn n d = Some d' -> calm g d d'.
Proof.
  intros Hw (st & c & -> & Ha & rs & dec & wh & rxs & infos & t & Ec & Hc)%(list_turn_spec (Q := no_attach) (P := advances nothing nothing)).
  pose proof (unbound _ _ _ _ Hw Ec I) as Hg. apply calm_conn; [done|done|]. rewrite Hg. by destruct c.
Qed.

Lemma reader_calm g n d d' : wired g (conns d) (chans d) -> reader_turn n d = Some d' -> calm g d d'.
Proof.
  intros Hw. unfold reader_turn. destruct (conns d !! n) as [[| | |rs dec tx out wh|]|] eqn:Ec; try done.
  destruct (bound _ _ _ _ _ _ _ _ Hw Ec) as (ftx & Hg & Hb).
  destruct (reader_step rs dec tx (chans d)) as [[[[rs' dec'] st] e]|] eqn:Es; cbn [mbind option_bind]; [|done].
  assert (Ha : advances nothing nothing (chans d) st).
  { eapply (respects_reader (Q := no_attach) (P := advances nothing nothing)); [exact Es|..]; done. }
  assert (Hst : wire st (Some ftx) (Attached rs dec tx out wh)).
  { apply (wire_flows nothing (chans d)); [by eapply flows_advances| |by intros ? ? ? ? []|done].
    intros t [= <-]. by destruct (bound_conn _ _ _ Hw n ftx Hg). }
  assert (Hc : calm g d (set_conn n (Attached rs' dec' tx out wh) (with_chans st d))).
  { apply calm_conn; [done|done|]. by rewrite Hg. }
  assert (Hh : calm g d (hang_up n tx out wh (with_chans st d))).
  { apply (hang_up_calm nothing); [done|done|done|done|by intros ? ? ? ? ? ? []|]. rewrite Hg. by eapply wire_closed. }
  destruct e as [[]|]; by intros [= <-].
Qed.

(** The writer takes the next frame of its own queue. *)
Lemma writer_calm g n d d' : wired g (conns d) (chans d) -> writer_turn n d = Some d' -> calm g d d'.
Proof.
  intros Hw. unfold writer_turn. destruct (conns d !! n) as [[| | |rs dec tx out wh|]|] eqn:Ec; try done.
  destruct (bound _ _ _ _ _ _ _ _ Hw Ec) as (ftx & Hg & Hpair & Hle & Hwr).
  destruct (recv_frame out (chans d)) as [[st f]|] eqn:Er; cbn [mbind option_bind]; [|done].
  destruct (flow_recv_frame _ _ _ _ _ Hpair Er) as [Hm Hf].
  assert (Ha : advances nothing (eq out) (chans d) st).
  { apply (advances_moves _ _ nothing); [done|]. intros t. by rewrite (still_handled _ _ _ _ _ _ Hm) by (by intros []). }
  assert (Hacc : accepted st ftx = accepted (chans d) ftx) by (apply (still_accepted _ _ _ _ _ _ Hm); by intros []).
  assert (Hy : forall m t rx, m <> n -> g !! m = Some t -> paired t rx -> out <> rx).
  { intros m t rx Hne Hm' Hp <-. apply Hne. eapply (bound_once _ _ _ Hw); [exact Hm'|].
    by rewrite (paired_one _ _ _ Hp Hpair). }
  assert (Hstop : forall wh', written wh' `prefix_of` concat (encode <$> accepted st ftx) ->
    calm g d (hang_up n tx out wh' (with_chans st d))).
  { intros wh' Hwh'. apply (hang_up_calm (eq out)); try done. by rewrite Hg. }
  destruct f as [f|].
  2: { intros [= <-]. apply Hstop. rewrite shutdown_written, Hacc, Hwr. apply encode_prefix. eexists. by rewrite take_drop. }
  destruct Hf as [Hl Hp].
  assert (Hnext : written wh ++ encode f = concat (encode <$> take (popped st out) (accepted st ftx))).
  { rewrite Hp, Hacc, Hwr. erewrite take_S_r by exact Hl. rewrite fmap_app, concat_app. cbn. by rewrite app_nil_r. }
  assert (Hpre : written wh ++ encode f `prefix_of` concat (encode <$> accepted st ftx)).
  { rewrite Hnext. apply encode_prefix. eexists. by rewrite take_drop. }
  destruct (write_all (encode f) wh) as [wh' [[]|e]] eqn:Ew; intros [= <-].
  - apply (calm_of (eq out)); [done|done|]. eapply wired_set; [exact Hw|by eapply flows_advances|done|].
    rewrite Hg. split; [done|]. apply lookup_lt_Some in Hl. cbn [chans conns set_conn with_chans].
    split; [rewrite Hp, Hacc; lia|]. by rewrite (write_ok _ _ _ Ew), Hnext.
  - apply Hstop. destruct (write_err _ _ _ _ Ew) as (p & q & Hpq & Hw'). rewrite shutdown_written, Hw'.
    etrans; [|exact Hpre]. rewrite Hpq. apply prefix_app. by apply prefix_app_r.
Qed.

Lemma open_calm g k registered d d' : wired g (conns d) (chans d) -> open_task k registered d = Some d' -> calm g d d'.
Proof.
  intros Hw. unfold open_task. destruct (tasks d !! k) as [[spec rx|id a rx|a rx]|] eqn:Ek; try done.
  assert (Hf : forall w, calm g d (end_task k (with_chans (drop_cmd_rx rx (chans d)) (with_machine w
                (with_registry (remove (session_id spec) (registry d)) d))))).
  { intros w. pose proof (respects_drop_cmd_rx (P := advances nothing nothing) rx (chans d)) as Ha.
    apply (calm_of nothing); [exact Ha| |by eapply wired_flows; [exact Hw|eapply flows_advances]].
    intros j i a r t. cbn [tasks end_task with_tasks with_chans with_machine with_registry]. by intros [_ ?]%lookup_delete_Some. }
  destruct (Session.open _ _ _ _ _ _) as [w [[s|e]|]]; try (intros [= <-]; apply Hf).
  destruct registered; intros [= <-]; (apply (calm_of nothing); [done| |done]); intros j i a r t;
    cbn [tasks set_task with_tasks with_machine with_registry].
  - intros [[_ [= <- <- <-]]|[_ ?]]%lookup_insert_Some; done.
  - by intros [[_ ?]|[_ ?]]%lookup_insert_Some.
Qed.

Lemma finish_calm g k d d' : wired g (conns d) (chans d) -> finish_task k d = Some d' -> calm g d d'.
Proof.
  intros Hw. unfold finish_task. destruct (tasks d !! k) as [[spec rx|id a rx|a rx]|] eqn:Ek; try done.
  pose proof (respects_drop_actor (Q := no_attach) (P := advances nothing nothing) a (machine d) (chans d)) as Ha.
  destruct (drop_actor a (machine d) (chans d)) as [w st]. intros [= <-]. cbn [snd] in Ha.
  assert (Hall : advances nothing nothing (chans d) (drop_cmd_rx rx st)).
  { etrans; [exact Ha|exact (respects_drop_cmd_rx rx st)]. }
  apply (calm_of nothing); [exact Hall| |by eapply wired_flows; [exact Hw|eapply flows_advances]].
  intros j i b r t. cbn [tasks end_task with_tasks with_chans with_machine]. by intros [_ ?]%lookup_delete_Some.
Qed.

(** ** A turn of an actor *)

Lemma turn_evolves g k fuel readable tick d d' id a rx tx :
  owned (tasks d) (chans d) -> wired g (conns d) (chans d) ->
  tasks d !! k = Some (Running id a rx) -> linked tx rx -> actor_turn opts k fuel readable tick d = Some d' ->
  (exists h X, evolves k h X (tasks d) (chans d) (tasks d') (chans d')) /\ wired g (conns d') (chans d').
Proof.
  intros Hown Hw Ek Hl. unfold actor_turn. rewrite Ek. destruct (poll_cmd rx (chans d)) as [st cmd] eqn:Ep.
  destruct (select _ _ _ _ _ _) as [[[flow w] st']|] eqn:Es; cbn [mbind option_bind]; [|done].
  set (X := fun t => client a = Some t \/ exists req, cmd = Some (Some (Attach req)) /\ out_tx req = t).
  destruct (respects_select (X := X) (Q := no_attach) (P := advances X nothing) _ _ _ _ _ _ _ _ _ Es) as [Ha Hc].
  { intros t Ht. by left. }
  { intros req Hr. right. by exists req. }
  { done. }
  pose proof (advances_poll X nothing tx rx (chans d) Hl) as Hp. rewrite Ep in Hp. cbn [fst] in Hp.
  assert (Hf : flows nothing (chans d) st') by (eapply (flows_advances X); by etrans).
  assert (Hev : forall ts', (forall j i b q t, ts' !! j = Some (Running i b q) -> client b = Some t ->
     (j = k /\ X t) \/ (j <> k /\ tasks d !! j = Some (Running i b q))) ->
     exists h X, evolves k h X (tasks d) (chans d) ts' st').
  { intros ts' Hts. exists (polled tx (chans d) cmd), X. by eapply evolves_turn. }
  destruct flow as [a'|a']; intros [= <-]; (split; [|by eapply wired_flows]); apply Hev; intros j i b q t;
    cbn [tasks set_task with_tasks with_machine with_chans with_registry flow_actor] in *;
    intros [[-> Hx]|[Hne Hx]]%lookup_insert_Some Ht; try (by right).
  injection Hx as <- <- <-. left. split; [done|]. by apply Hc.
Qed.

(** ** The invariant *)

(** The engine of a running actor is one its shell's output reached. *)
Definition engines (ts : gmap nat Task) : Prop :=
  forall k id a rx, ts !! k = Some (Running id a rx) -> reached (eng a) /\ retained a.

Definition running_at (ts : gmap nat Task) (k : nat) : option (string * Actor * cmd_rx) :=
  match ts !! k with Some (Running id a rx) => Some (id, a, rx) | _ => None end.

(** The task map an event leaves, but for an actor's turn. *)
Inductive tasks_after (ts : gmap nat Task) : gmap nat Task -> Prop :=
  | TasksSame : tasks_after ts ts
  | TasksIdle k t : running_at ts k = None -> (forall id a rx, t <> Some (Running id a rx)) ->
      tasks_after ts (partial_alter (fun _ => t) k ts)
  | TasksOpen k id s rx : running_at ts k = None -> Session.engine_st s = eng_new -> Session.lifecycle s = Session.Live ->
      Session.id s = id ->
      tasks_after ts (<[k := Running id (Actor_new s) rx]> ts).

Lemma open_new sid args dir c r w w' s :
  Session.open sid args dir c r w = (w', Some (Ok s)) ->
  Session.engine_st s = eng_new /\ Session.lifecycle s = Session.Live /\ Session.id s = sid.
Proof.
  unfold Session.open. destruct (spawn _ _ _ _) as [[w1 [q|er]]|]; [|done..].
  destruct (Session.now_secs w1); [|done]. by intros [= _ <-].
Qed.

Lemma step_tasks e d d' :
  step opts version me e d = Some d' -> (forall k fuel r t, e <> ActorTurn k fuel r t) -> tasks_after (tasks d) (tasks d').
Proof.
  intros Hs Ht. destruct (of_conns e) eqn:Ec.
  { destruct (conns_keep _ _ _ _ _ _ Ec Hs) as [_ ->]. apply TasksSame. }
  destruct e as [n a|n r|n k|n|n|n|n|k b|k fuel b t|k| |t|w]; try done; cbn [step] in Hs.
  - unfold greet in Hs. destruct (conns d !! n) as [[rs dec wh| | | |]|]; try done.
    destruct (tasks d !! k) eqn:Ek; [done|].
    destruct (read_one_frame rs dec) as [[[dec' rs'] [first| |x|]]|]; cbn [mbind option_bind] in Hs; try done;
      try (injection Hs as <-; apply TasksSame).
    assert (Hspawn : forall spawned d1, tasks d1 = tasks d -> tasks_after (tasks d) (tasks (spawn_task k spawned d1))).
    { intros spawned d1 Ed. destruct spawned as [[spec x]|]; cbn [spawn_task tasks set_task with_tasks]; rewrite Ed;
        [|apply TasksSame]. apply TasksIdle; [|done]. unfold running_at. by rewrite Ek. }
    destruct (ty first); try (injection Hs as <-; apply TasksSame).
    destruct (handle_session _ _ _ _ _ _) as [[reg st] c]. injection Hs as <-.
    destruct c; try apply TasksSame; by apply Hspawn.
  - unfold open_task in Hs. destruct (tasks d !! k) as [[spec rx|id a rx|a rx]|] eqn:Ek; try done.
    assert (Hr : running_at (tasks d) k = None) by (unfold running_at; by rewrite Ek).
    destruct (Session.open _ _ _ _ _ _) as [w [[s|x]|]] eqn:Eo; try (injection Hs as <-; by apply TasksIdle).
    apply open_new in Eo as (? & ? & ?). destruct b; injection Hs as <-; [by apply TasksOpen|by apply TasksIdle].
  - by destruct (Ht k fuel b t).
  - unfold finish_task in Hs. destruct (tasks d !! k) as [[spec rx|id a rx|a rx]|] eqn:Ek; try done.
    assert (Hr : running_at (tasks d) k = None) by (unfold running_at; by rewrite Ek).
    destruct (drop_actor a _ _) as [w st]. injection Hs as <-. by apply TasksIdle.
  - injection Hs as <-. apply TasksSame.
Qed.

(** A running task that is not at its turn goes on as it is. *)
Lemma running_after ts ts' k id a rx :
  tasks_after ts ts' -> ts !! k = Some (Running id a rx) -> ts' !! k = Some (Running id a rx).
Proof.
  intros Ht Ek. assert (Hne : forall j, running_at ts j = None -> j <> k) by (intros j Hj ->; unfold running_at in Hj; by rewrite Ek in Hj).
  destruct Ht as [|j t Hj _|j i s x Hj _ _ _]; [done|by rewrite lookup_partial_alter_ne by auto|by rewrite lookup_insert_ne by auto].
Qed.

Lemma engines_after ts ts' : tasks_after ts ts' -> engines ts -> engines ts'.
Proof.
  intros Ht He. destruct Ht as [|j t Hj Hn|j i s x Hj Hs Hl _]; [done| |]; intros k id a rx.
  - destruct (decide (j = k)) as [->|Hne]; [|rewrite lookup_partial_alter_ne by done; apply He].
    rewrite lookup_partial_alter_eq. intros Hk. by destruct (Hn _ _ _ Hk).
  - intros [[_ [= _ <- _]]|[_ Hk]]%lookup_insert_Some; [|by eapply He]. split.
    + exists []. unfold eng. cbn [session Actor_new]. rewrite Hs. apply eng_feed_nil.
    + unfold retained. cbn [session Actor_new]. by rewrite Hl.
Qed.

(** The invariant of a run. *)
Record sound (g : gmap nat frame_tx) (d : Daemon) : Prop := mkSound {
  sound_owned : owned (tasks d) (chans d);
  sound_wired : wired g (conns d) (chans d);
  sound_engines : engines (tasks d);
  sound_matched : matched (view d)
}.

Lemma sound_linked g d k id a rx :
  sound g d -> tasks d !! k = Some (Running id a rx) -> exists tx, linked tx rx.
Proof.
  intros Hs Hk. destruct (task_named _ (sound_matched _ _ Hs) k id rx) as (tx & _ & Hl); [by apply (live_at d k _ Hk)|by exists tx].
Qed.

(** What an event does to the queues. *)
Definition effect (e : event) (d d' : Daemon) : Prop :=
  match e with
  | ActorTurn k _ _ _ => exists h X, evolves k h X (tasks d) (chans d) (tasks d') (chans d')
  | _ => forall k, evolves k None nothing (tasks d) (chans d) (tasks d') (chans d')
  end.

Lemma step_effect g e d d' :
  sound g d -> fresh_event e -> step opts version me e d = Some d' ->
  effect e d d' /\ exists g', g ⊆ g' /\ wired g' (conns d') (chans d').
Proof.
  intros Hs Hf. destruct (Hs) as [Ho Hw _ _].
  destruct e as [n a|n r|n k|n|n|n|n|k b|k fuel b t|k| |t|w]; cbn [step]; intros E0.
  - by eapply accept_calm.
  - by eapply arrive_calm.
  - by eapply greet_calm.
  - by eapply serve_calm.
  - by eapply list_calm.
  - by eapply reader_calm.
  - by eapply writer_calm.
  - by eapply open_calm.
  - destruct (tasks d !! k) as [[spec rx|id a rx|a rx]|] eqn:Ek; try (unfold actor_turn in E0; by rewrite Ek in E0).
    destruct (sound_linked _ _ _ _ _ _ Hs Ek) as [tx Hl].
    destruct (turn_evolves _ _ _ _ _ _ _ _ _ _ _ Ho Hw Ek Hl E0) as [He Hw']. split; [done|by exists g].
  - by eapply finish_calm.
  - unfold watch_turn in E0. destruct (Idle.watch_step _ _ _ _) as [[r w]|]; cbn [mbind option_bind] in E0; [|done].
    injection E0 as <-. by apply (calm_of nothing).
  - injection E0 as <-. by apply (calm_of nothing).
  - injection E0 as <-. by apply (calm_of nothing).
Qed.

Lemma turn_engines k fuel b t d d' :
  engines (tasks d) -> actor_turn opts k fuel b t d = Some d' -> engines (tasks d').
Proof.
  intros He. unfold actor_turn. destruct (tasks d !! k) as [[spec rx|id a rx|a rx]|] eqn:Ek; try done.
  destruct (poll_cmd rx (chans d)) as [st cmd]. destruct (He _ _ _ _ Ek) as [Hr Hret].
  destruct (select _ _ _ _ _ _) as [[[flow w] st']|] eqn:Es; cbn [mbind option_bind]; [|done].
  destruct flow as [a'|a']; intros [= <-] j i x q; cbn [tasks set_task with_tasks with_machine with_chans with_registry];
    intros [[_ Hj]|[_ Hj]]%lookup_insert_Some; try (by apply (He j i x q)).
  injection Hj as _ <- _. by eapply select_retained.
Qed.

Lemma engines_step e d d' :
  engines (tasks d) -> step opts version me e d = Some d' -> engines (tasks d').
Proof.
  intros He E0. destruct e; try (eapply engines_after; [eapply step_tasks; [exact E0|done]|exact He]).
  eapply turn_engines; [exact He|exact E0].
Qed.

Lemma engines_run es d d' : engines (tasks d) -> run opts version me es d = Some d' -> engines (tasks d').
Proof.
  revert d. induction es as [|e es IH]; intros d He; cbn [run]; [by intros [= <-]|].
  destruct (step opts version me e d) as [d1|] eqn:Es; cbn [mbind option_bind]; [|done]. apply IH. by eapply engines_step.
Qed.

Lemma sound_step g e d d' :
  sound g d -> fresh_event e -> step opts version me e d = Some d' ->
  effect e d d' /\ exists g', g ⊆ g' /\ sound g' d'.
Proof.
  intros Hs Hf E0. destruct (step_effect _ _ _ _ Hs Hf E0) as [He (g' & Hg & Hw)]. split; [done|].
  exists g'. split; [done|]. split; [|done| |].
  - destruct e; cbn [effect] in He; try (eapply owned_evolves; [apply (He 0)|apply Hs]).
    destruct He as (h & X & He). eapply owned_evolves; [exact He|apply Hs].
  - eapply engines_step; [apply Hs|exact E0].
  - destruct (refines_step _ _ _ _ _ _ E0) as [->|Hv]; [apply Hs|]. eapply matched_step; [exact Hv|apply Hs].
Qed.

Lemma sound_start max st w : (forall tx, commands st tx = []) -> sound ∅ (start max st w).
Proof.
  intros Hst. split; cbn [start tasks conns chans].
  - assert (Hno : forall ftx p, ~ holds ∅ st ftx p).
    { intros ftx [k|tx i]; [by intros (? & ? & ? & ? & _)|]. intros (req & _ & Hl & _). by rewrite Hst in Hl. }
    split; intros; exfalso; by eapply Hno.
  - by split.
  - by intros ?.
  - unfold view, start. cbn [registry tasks watcher clock]. rewrite omap_empty. by split.
Qed.

Lemma sound_run max st w es d :
  (forall tx, commands st tx = []) -> Forall fresh_event es ->
  run opts version me es (start max st w) = Some d -> exists g, sound g d.
Proof.
  intros Hst. revert d. induction es as [|e es IH] using rev_ind; intros d; [intros _ [= <-]; eexists; by apply sound_start|].
  intros [Hes He]%Forall_app. rewrite Forall_singleton in He. rewrite run_snoc.
  destruct (run opts version me es (start max st w)) as [d1|]; cbn [mbind option_bind]; [|done]. intros E0.
  destruct (IH d1 Hes eq_refl) as [g Hg]. destruct (sound_step _ _ _ _ Hg He E0) as (_ & g' & _ & Hs). by exists g'.
Qed.

(** ** Between two attaches *)

(** The task takes no attach. *)
Definition no_takeover (k : nat) (e : event) (d : Daemon) : Prop :=
  match e with
  | ActorTurn k' _ _ _ => k' = k -> forall id a rx req, tasks d !! k = Some (Running id a rx) ->
      (poll_cmd rx (chans d)).2 <> Some (Some (Attach req))
  | _ => True
  end.

(** Any events, while task [k] goes on with the client it has. *)
Inductive undisturbed (k : nat) (d : Daemon) : Daemon -> Prop :=
  | Undisturbed0 : undisturbed k d d
  | UndisturbedMore e d1 d2 id a rx : undisturbed k d d1 -> fresh_event e -> no_takeover k e d1 ->
      step opts version me e d1 = Some d2 -> tasks d2 !! k = Some (Running id a rx) -> undisturbed k d d2.

(** Nobody but task [k] can push to the queue. *)
Definition only (k : nat) (ftx : frame_tx) (d : Daemon) : Prop :=
  allocated (chans d) ftx /\ forall p, holds (tasks d) (chans d) ftx p -> p = InTask k.

Lemma only_evolves k ftx k0 h X d d' :
  only k ftx d -> evolves k0 h X (tasks d) (chans d) (tasks d') (chans d') ->
  only k ftx d' /\ (k0 <> k -> accepted (chans d') ftx = accepted (chans d) ftx).
Proof.
  intros [Ha Ho] [E1 E2 E3 E4]. split; [split; [by apply E2|]|].
  - intros p' Hp'. destruct (E1 ftx p' Hp') as [(p & Hp & Hf)|[Hn _]]; [|done].
    rewrite (Ho p Hp) in Hf. unfold from_place in Hf. destruct h as [[tx i]|]; intuition congruence.
  - intros Hk. apply E3; [done|]. intros (p & Hp & Hf)%E4. rewrite (Ho p Hp) in Hf.
    unfold from_place in Hf. destruct h as [[tx i]|]; intuition congruence.
Qed.

Lemma turns_snoc tx c a st fuel ready w a1 w1 st1 :
  turns opts tx c (a, st) -> (forall req, r_cmd ready <> Some (Some (Attach req))) ->
  select opts fuel ready a w st = Some (Continue a1, w1, st1) -> turns opts tx c (a1, st1).
Proof.
  intros Ht Hna Hs. remember (a, st) as c2 eqn:Hc.
  induction Ht as [c0|x y z c0 Hz _ IH|f r x v y x1 v1 y1 c0 Hn Hsel _ IH]; subst;
    [|by eapply TurnsOthers; [exact Hz|apply IH]|by eapply TurnsTurn; [exact Hn|exact Hsel|apply IH]].
  eapply TurnsTurn; [done..|apply TurnsDone].
Qed.

Lemma turns_others tx c a st st1 :
  turns opts tx c (a, st) -> accepted st1 tx = accepted st tx -> turns opts tx c (a, st1).
Proof.
  intros Ht Ha. remember (a, st) as c2 eqn:Hc.
  induction Ht as [c0|x y z c0 Hz _ IH|f r x v y x1 v1 y1 c0 Hn Hsel _ IH]; subst;
    [|by eapply TurnsOthers; [exact Hz|apply IH]|by eapply TurnsTurn; [exact Hn|exact Hsel|apply IH]].
  eapply TurnsOthers; [done|apply TurnsDone].
Qed.

(** What holds of connection [n] and task [k] since the attach. *)
Definition following (n k : nat) (ftx : frame_tx) (c : Actor * store) (d : Daemon) : Prop :=
  (exists g, sound g d /\ g !! n = Some ftx) /\ only k ftx d /\
  exists id a rx, tasks d !! k = Some (Running id a rx) /\ turns opts ftx c (a, chans d).

Lemma turn_elsewhere k1 k fuel b t d d' :
  actor_turn opts k1 fuel b t d = Some d' -> k1 <> k -> tasks d' !! k = tasks d !! k.
Proof.
  unfold actor_turn. destruct (tasks d !! k1) as [[spec rx|id a rx|a rx]|]; try done.
  destruct (poll_cmd rx (chans d)) as [st cmd].
  destruct (select _ _ _ _ _ _) as [[[[a'|a'] w] st']|]; cbn [mbind option_bind]; try done; intros [= <-] Hne;
    cbn [tasks set_task with_tasks with_machine with_chans with_registry]; by rewrite lookup_insert_ne.
Qed.

Lemma on_attach_client req a w st a1 w1 st1 :
  on_attach req a w st = Some (Continue a1, w1, st1) -> client a1 = Some (out_tx req).
Proof.
  unfold on_attach. destruct (if Session.has_prompt_marking _ then _ else _) as [w0 a0]. unfold attach_client.
  destruct (Session.resize _ _ _ w0) as [[w2 s2] x]. destruct (status_frame _); cbn [mbind option_bind]; [|done].
  destruct (Session.lifecycle s2) as [|code]; cbn [mbind option_bind];
    [|destruct (exit_frame code); cbn [mbind option_bind]; [|done]];
    (case_match; [done|]; by intros [= <- _ _]).
Qed.

Lemma turn_follows k fuel b t d d' tx id a rx id' a' rx' :
  tasks d !! k = Some (Running id a rx) -> linked tx rx -> no_takeover k (ActorTurn k fuel b t) d ->
  actor_turn opts k fuel b t d = Some d' -> tasks d' !! k = Some (Running id' a' rx') ->
  forall ftx c, allocated (chans d) ftx -> turns opts ftx c (a, chans d) -> turns opts ftx c (a', chans d').
Proof.
  intros Ek Hl Hno E0 Ek' ftx c Hal Ht. pose proof (fun req => Hno eq_refl id a rx req Ek) as Hna. unfold actor_turn in E0. rewrite Ek in E0.
  pose proof (advances_poll nothing nothing tx rx (chans d) Hl) as Hp.
  destruct (poll_cmd rx (chans d)) as [st cmd]. cbn [fst snd] in *.
  destruct (select _ _ _ _ _ _) as [[[flow w] st']|] eqn:Es; cbn [mbind option_bind] in E0; [|done].
  destruct flow as [a2|a2]; injection E0 as <-; cbn [tasks set_task with_tasks with_machine with_chans with_registry] in Ek';
    rewrite lookup_insert, decide_True in Ek' by done; [|done].
  injection Ek' as _ -> _. cbn [chans set_task with_tasks with_machine with_chans].
  eapply turns_snoc; [eapply turns_others; [exact Ht|]| |exact Es].
  - apply (adv_same _ _ _ _ Hp); [done|by intros []].
  - exact Hna.
Qed.

Lemma following_step n k ftx c e d d' id a rx :
  following n k ftx c d -> fresh_event e -> no_takeover k e d -> step opts version me e d = Some d' ->
  tasks d' !! k = Some (Running id a rx) -> following n k ftx c d'.
Proof.
  intros ((g & Hs & Hg) & Ho & id0 & a0 & rx0 & Ek0 & Ht) Hf Hno E0 Ek.
  destruct (sound_step _ _ _ _ Hs Hf E0) as (He & g' & Hgg & Hs').
  split; [exists g'; split; [done|by eapply lookup_weaken]|].
  assert (Hother : (forall fuel b t, e <> ActorTurn k fuel b t) -> only k ftx d' /\
    exists id a rx, tasks d' !! k = Some (Running id a rx) /\ turns opts ftx c (a, chans d')).
  { intros Hne. assert (Hev : exists k0 h X, k0 <> k /\ evolves k0 h X (tasks d) (chans d) (tasks d') (chans d')).
    { destruct e as [| | | | | | | |k0 fuel b t| | | |]; try (exists (S k), None, nothing; split; [lia|apply He]).
      destruct He as (h & X & He). exists k0, h, X. split; [by intros ->; eapply Hne|done]. }
    destruct Hev as (k0 & h & X & Hk & Hev). destruct (only_evolves _ _ _ _ _ _ _ Ho Hev) as [Ho' Ha]. split; [done|].
    assert (Hrun : tasks d' !! k = Some (Running id0 a0 rx0)).
    { destruct e as [| | | | | | | |k1 fuel b t| | | |]; try (eapply running_after; [eapply step_tasks; [exact E0|done]|done]).
      cbn [step] in E0. assert (k1 <> k) by (intros ->; by eapply Hne). rewrite <- Ek0. by eapply turn_elsewhere. }
    exists id0, a0, rx0. split; [done|]. eapply turns_others; [exact Ht|by apply Ha]. }
  destruct e as [| | | | | | | |k1 fuel b t| | | |]; try (by apply Hother).
  destruct (decide (k1 = k)) as [->|Hne]; [|apply Hother; congruence].
  destruct He as (h & X & He). destruct (only_evolves _ _ _ _ _ _ _ Ho He) as [Ho' _]. split; [done|].
  destruct (sound_linked _ _ _ _ _ _ Hs Ek0) as [tx Hl]. exists id, a, rx. split; [done|].
  eapply turn_follows; [exact Ek0|exact Hl|exact Hno|exact E0|exact Ek|apply Ho|exact Ht].
Qed.

Lemma following_run n k ftx c d d' : following n k ftx c d -> undisturbed k d d' -> following n k ftx c d'.
Proof. intros Hf Hu. induction Hu as [|e d1 d2 id a rx _ IH He Hno E0 Ek]; [done|]. by eapply following_step. Qed.

(** The attach of connection [n] by task [k]. *)
Lemma following_attach g n k d d1 rs dec ctx out wh id a rx req fuel b t a1 :
  sound g d -> conns d !! n = Some (Attached rs dec ctx out wh) -> paired (out_tx req) out ->
  tasks d !! k = Some (Running id a rx) -> (poll_cmd rx (chans d)).2 = Some (Some (Attach req)) ->
  step opts version me (ActorTurn k fuel b t) d = Some d1 -> tasks d1 !! k = Some (Running id a1 rx) ->
  let st := (poll_cmd rx (chans d)).1 in
  reached (eng a) /\ accepted st (out_tx req) = [] /\
  exists w1, on_attach req a (machine d) st = Some (Continue a1, w1, chans d1) /\
    following n k (out_tx req) (a1, chans d1) d1.
Proof.
  intros Hs Ec Hpair Ek Hpoll E0 Ek1. cbv zeta. destruct (sound_linked _ _ _ _ _ _ Hs Ek) as [tx Hl].
  destruct (bound _ _ _ _ _ _ _ _ (sound_wired _ _ Hs) Ec) as (ftx & Hg & Hp & _).
  rewrite (paired_one _ _ _ Hp Hpair) in Hg. clear ftx Hp.
  destruct (sound_step _ (ActorTurn k fuel b t) _ _ Hs I E0) as (_ & g' & Hgg & Hs1).
  pose proof (advances_poll nothing nothing tx rx (chans d) Hl) as Hadv.
  cbn [step] in E0. unfold actor_turn in E0. rewrite Ek in E0.
  destruct (poll_cmd rx (chans d)) as [st cmd] eqn:Ep. cbn [fst snd] in *. subst cmd.
  destruct (poll_attach _ _ _ _ _ Hl Ep) as [Hq _].
  assert (Hin : holds (tasks d) (chans d) (out_tx req) (InQueue tx (handled (chans d) tx))) by (by exists req).
  destruct (sound_owned _ _ Hs) as [_ Ha0 Hq0].
  split; [by destruct (sound_engines _ _ Hs _ _ _ _ Ek)|].
  split; [rewrite (adv_same _ _ _ _ Hadv); [by eapply Hq0|by eapply Ha0|by intros []]|].
  unfold select in E0. cbn [r_cmd on_cmd] in E0.
  destruct (on_attach req a (machine d) st) as [[[flow w] st']|] eqn:Ea; cbn [mbind option_bind] in E0; [|done].
  destruct flow as [a2|a2]; injection E0 as <-; cbn [tasks chans set_task with_tasks with_machine with_chans with_registry] in *;
    rewrite lookup_insert, decide_True in Ek1 by done; [|done]. injection Ek1 as ->.
  exists w. split; [done|]. split; [exists g'; split; [done|by eapply lookup_weaken]|].
  assert (Hk : holds (<[k:=Running id a1 rx]> (tasks d)) st' (out_tx req) (InTask k)).
  { exists id, a1, rx. rewrite lookup_insert, decide_True by done. split; [done|]. by eapply on_attach_client. }
  destruct (sound_owned _ _ Hs1) as [Hone Hal _]. split.
  - split; [by eapply Hal|]. intros p Hp. by eapply Hone.
  - exists id, a1, rx. cbn [tasks set_task with_tasks]. rewrite lookup_insert, decide_True by done. split; [done|apply TurnsDone].
Qed.
End steps.

(** The write half of a connection. *)
Definition socket `{Tokio, Stream} (c : Connection) : stream :=
  match c with Greeting _ _ wh | Serving _ _ wh | Listing _ _ wh _ _ _ | Attached _ _ _ _ wh | Closed wh => wh end.

(** C1: the terminal shows what the shell printed, through the whole daemon. In
    any run, a task takes the attach of a connection, whose queue has room for
    the handshake; then anything may happen, on this connection and on every
    other, while the task goes on and takes no other attach. What has been
    written to the socket of the connection, read in pieces cut anywhere, decodes
    to frames whose data is a prefix of the replay followed by what the shell
    printed since the attach: nothing is lost, repeated, reordered or mixed with
    another session's output, and no status is repeated. If the client is still
    attached and all that was queued has been written, it has all of it. *)
Theorem daemon_shows_output `{EngineLaws, Os} {T : Tokio} {L : ChannelLaws} {C : CommandLaws} {R : Receivers}
    {F : Traffic} {FL : TrafficLaws} `{StreamLaws}
    `{!Json StatusMsg, !Json ExitMsg, !Json Hello, !Json (list SessionInfo), !Json AttachOrOpen,
      !Json Protocol.Resize, !Json CloseMsg} `{!JsonLaws StatusMsg}
    opts version me max st0 w0 es d n rs dec ctx out wh k id a rx req room fuel b t d1 a1 d2 id2 a2 rx2 c creads rest :
  (forall tx, commands st0 tx = []) -> Forall fresh_event es ->
  run opts version me es (start max st0 w0) = Some d ->
  conns d !! n = Some (Attached rs dec ctx out wh) -> paired (out_tx req) out ->
  tasks d !! k = Some (Running id a rx) -> (poll_cmd rx (chans d)).2 = Some (Some (Attach req)) ->
  free (poll_cmd rx (chans d)).1 (out_tx req) =
    length (frame_data (Session.replay_data (Session.replay_for_attach (want_chunks req) (session a)))) + (2 + room) ->
  step opts version me (ActorTurn k fuel b t) d = Some d1 -> tasks d1 !! k = Some (Running id a1 rx) ->
  undisturbed opts version me k d1 d2 -> tasks d2 !! k = Some (Running id2 a2 rx2) ->
  (forall f, f ∈ accepted (chans d2) (out_tx req) -> ty f <> Data -> frame_fits f) ->
  conns d2 !! n = Some c -> concat creads ++ rest = written (socket c) ->
  exists dec' fs o later, read_all FrameDecoder_new creads = Some (dec', fs, None) /\
    eng_feed (eng a) o = Some (eng a2) /\
    Session.replay_data (Session.replay_for_attach (want_chunks req) (session a)) ++ o = data_of fs ++ later /\
    no_repeat (statuses fs) /\
    (client a2 = Some (out_tx req) -> fs = accepted (chans d2) (out_tx req) -> later = []).
Proof.
  intros Hst Hes Hrun Ec Hpair Ek Hpoll Hfree E1 Ek1 Hun Ek2 Hsmall Ec2 Hcut.
  destruct (sound_run _ _ _ _ _ _ _ _ Hst Hes Hrun) as [g Hs].
  destruct (following_attach _ _ _ _ _ _ _ _ _ _ _ _ _ _ _ _ _ _ _ _ _ Hs Ec Hpair Ek Hpoll E1 Ek1)
    as (Hr & Hnil & w1 & Ha & Hf).
  destruct (following_run _ _ _ _ _ _ _ _ _ Hf Hun) as ((g2 & Hs2 & Hg2) & _ & i & x & y & Ek3 & Ht).
  rewrite Ek2 in Ek3. injection Ek3 as <- <- <-.
  eapply shown_output; [exact Hr|exact Hnil|exact Hfree|exact Ha|exact Ht|exact Hsmall|].
  rewrite Hcut. pose proof (wires _ _ _ (sound_wired _ _ Hs2) _ _ Ec2) as Hw. rewrite Hg2 in Hw.
  destruct c; try done. by eapply wire_closed.
Qed.
