(* ===== verification/Detach.v ===== *)
(** Detaching never kills a shell (jftermd/src/server.rs, [handle_session]: "only
    an explicit CLOSE frame kills the shell").

    A shell [p] is spared when nothing hangs it up or kills it: every relation
    between worlds that all the system calls keep but for a SIGHUP or SIGKILL to
    the process group of [p] ([Syscalls]) holds along the run. The two ways a shell
    is killed without a CLOSE are a loop that ends, which drops the PTY, and another
    session's PTY of the same pid; both are shown not to happen here. *)
From S2P Require Import Prelude Status Engine Pty Protocol Registry Server Actor Connection Wire Stores Syscalls.
From S2P Require Import Daemon DaemonProps Steps Terminal.
From S2P Require Session.

#[local] Abbreviation Sparing p R := (Spares (eq p) (fun _ => False) R).

(** * What a session was sent *)

Section sends.
Context `{ReceiveLaws}.
Context (tx : cmd_tx).

(** Nobody has asked the session behind [tx] to close. *)
Definition unclosed (st : store) : Prop := forall g, Registry.Close g ∉ commands st tx.

Definition stays_unclosed (st st' : store) : Prop := unclosed st -> unclosed st'.

(** Any command but a CLOSE of this session. *)
Definition spares_tx (tx' : cmd_tx) (c : SessionCommand frame_tx reply_tx) : Prop :=
  tx' <> tx \/ forall g, c <> Registry.Close g.

Lemma unclosed_quiet f : sends_nothing f -> forall st, stays_unclosed st (f st).
Proof. intros Hf st Hu g Hg. by apply (Hu g), Hf. Qed.

#[export] Instance stays_unclosed_respected : Respected (fun _ => True) spares_tx (fun _ _ => True) stays_unclosed.
Proof.
  split.
  - split; [by intros st Hu|]. intros a b c Hab Hbc Ha. by apply Hbc, Hab.
  - intros t f st _. exact (unclosed_quiet _ (try_send_quiet t f) st).
  - intros t c st Hc Hu g [Hg|[Ht Hg]]%send_only; [by apply (Hu g)|].
    destruct Hc as [Hc|Hc]; [by apply Hc|]. by apply (Hc g).
  - intros n st Hu g. rewrite cmd_frame_channel. apply Hu.
  - intros n. exact (unclosed_quiet _ (cmd_channel_quiet n)).
  - exact (unclosed_quiet _ oneshot_quiet).
  - intros r i st _. exact (unclosed_quiet _ (reply_quiet r i) st).
  - intros t. exact (unclosed_quiet _ (drop_tx_quiet t)).
  - intros rx. exact (unclosed_quiet _ (drop_frame_rx_quiet rx)).
  - intros rx st st' i E Hu. pose proof (unclosed_quiet _ (recv_reply_quiet rx) st Hu) as Hq. cbn beta in Hq. by rewrite E in Hq.
  - intros rx. exact (unclosed_quiet _ (drop_reply_rx_quiet rx)).
  - intros t. exact (unclosed_quiet _ (drop_cmd_tx_quiet t)).
Qed.

#[export] Instance stays_unclosed_forgotten : Forgotten stays_unclosed.
Proof. intros rx. exact (unclosed_quiet _ (drop_cmd_rx_quiet rx)). Qed.

Lemma unclosed_recv out st st' f : recv_frame out st = Some (st', f) -> stays_unclosed st st'.
Proof.
  intros E Hu. pose proof (unclosed_quiet _ (recv_frame_quiet out) st Hu) as Hq. cbn beta in Hq. by rewrite E in Hq.
Qed.
Lemma unclosed_poll rx st : stays_unclosed st (poll_cmd rx st).1.
Proof.
  intros Hu. pose proof (unclosed_quiet _ (recv_cmd_quiet rx) st Hu) as Hq. cbn beta in Hq.
  unfold poll_cmd. by destruct (recv_cmd rx st) as [[]|].
Qed.
End sends.

(** * A turn *)

Section turn.
Context `{EngineLaws, Os, Tokio} `{!Json StatusMsg, !Json ExitMsg}.

(** The shell runs, and nothing has asked the actor to stop. *)
Definition undisputed (a : Actor) : Prop :=
  Session.lifecycle (session a) = Session.Live /\ open_ended a /\ grace_deadline a = None.

(** A drain of the session finds its terminal open. *)
Definition drains_on (fuel : nat) (s : Session.Session) (w : world) : Prop :=
  forall w' s' r, Session.drain fuel s w = Some (w', s', r) -> exists out, r = Ok out /\ Session.exit out = None.

(** The loop goes on with the session, whatever its client does. *)
Lemma turn_goes_on opts fuel ready a w st flow w' st' :
  select opts fuel ready a w st = Some (flow, w', st') -> reached (eng a) -> undisputed a ->
  r_cmd ready <> Some None -> is_close (r_cmd ready) = false -> r_readable ready <> Some false ->
  (r_readable ready = Some true -> drains_on fuel (session a) w) ->
  exists a', flow = Continue a' /\ Session.lifecycle (session a') = Session.Live /\ grace_deadline a' = None.
Proof.
  unfold select. intros Hs Hr (Hl & [Hcl Hkd] & Hg) Hnone Hnc Hrd Hd.
  assert (Hdead : Session.is_dead (session a) = false) by (unfold Session.is_dead; by rewrite Hl).
  destruct (r_cmd ready) as [[[input|c r|g|req|reply]|]|]; cbn [on_cmd is_close] in *; try done.
  - destruct (Session.write_input _ _ w). injection Hs as <- _ _. by exists a.
  - pose proof (resize_session c r (session a) w) as [_ Hl1].
    destruct (Session.resize c r (session a) w) as [[w1 s1] x]. injection Hs as <- _ _.
    exists (set_session s1 a). split; [done|]. split; [by rewrite <- Hl|done].
  - apply on_attach_flow in Hs as (a1 & _ & E2 & E3 & ->). rewrite Hdead. exists a1. by rewrite E2, E3.
  - destruct (Session.info _ _ w). injection Hs as <- _ _. by exists a.
  - rewrite Hdead, Hg, Hkd in Hs. cbn [passed] in Hs. destruct (r_readable ready) as [[]|]; try done.
    + apply on_readable_flow in Hs as (w1 & s1 & r & Ed & Hf). destruct (Hd eq_refl _ _ _ Ed) as (out & -> & Hx).
      destruct (drain_session _ _ _ _ _ _ Hr Ed) as [_ Hl1]. rewrite Hx in Hl1.
      destruct Hf as (a1 & <- & Hf). rewrite Hx in Hf. destruct Hf as [-> Hg1]. exists a1. by rewrite Hl1, Hg1.
    + destruct (_ && _); [|injection Hs as <- _ _; by exists a].
      apply on_tick_continues in Hs as (a1 & -> & E1 & E2 & _). exists a1. by rewrite E1, E2.
Qed.
End turn.

(** * The daemon *)

Section detach.
Context `{EngineLaws} `{O : Os} {p : Pid} {R : relation world} {S : Sparing p R} `{ReceiveLaws, Stream}.
Context `{!Json StatusMsg, !Json ExitMsg, !Json Hello, !Json (list SessionInfo), !Json AttachOrOpen,
          !Json Protocol.Resize, !Json CloseMsg}.
Context (opts : ServerOpts) (version : list byte) (me : u32).
Context (k : nat) (tx : cmd_tx).

(** No other task holds the pid. *)
Definition sole_owner (d : Daemon) : Prop :=
  forall k' t, tasks d !! k' = Some t -> k' <> k -> task_shell t <> Some p.

(** What is asked of an event. Of the clients: those of this session send no
    CLOSE. Of the machine: a fork does not give a pid that is in use; the terminal
    of the shell stays open; what goes on outside spares the shell. Of the channel:
    it is not closed to its receiver while the table holds a sender. The end of a
    task, this one too, is not left out. *)
Definition harmless (e : event) (d : Daemon) : Prop :=
  match e with
  | OpenTask k' _ => forall spec rx w q, tasks d !! k' = Some (Opening spec rx) ->
      spawn (argv spec) (cwd spec) (winsize (Protocol.cols spec) (Protocol.rows spec)) (machine d) = Some (w, Ok q) ->
      p <> child q
  | ReaderTurn n =>
      forall rs dec out wh dec' f, conns d !! n = Some (Attached rs dec tx out wh) ->
        next_frame dec = Some (dec', Ok (Some f)) -> ty f <> Protocol.Close
  | ActorTurn k' fuel readable _ => forall id a rx, k' = k -> tasks d !! k = Some (Running id a rx) ->
      readable <> Some false /\ (readable = Some true -> drains_on fuel (session a) (machine d)) /\
      (sessions (registry d) !! id = Some tx -> forall st, recv_cmd rx (chans d) <> Some (st, None))
  | Outside w => R (machine d) w
  | _ => True
  end.

Inductive unclosed_run (d : Daemon) : Daemon -> Prop :=
  | UnclosedDone : unclosed_run d d
  | UnclosedMore e d1 d2 : unclosed_run d d1 -> harmless e d1 ->
      step opts version me e d1 = Some d2 -> unclosed_run d d2.

(** The task runs the session [id] on the shell [p]. *)
Definition runs_shell (id : string) (d : Daemon) : Prop :=
  exists a rx, tasks d !! k = Some (Running id a rx) /\ shell a = p /\ undisputed a.

Record serving (id : string) (d : Daemon) : Prop := mkServing {
  serving_shell : runs_shell id d;
  serving_sole : sole_owner d;
  serving_entry : sessions (registry d) !! id = Some tx;
  serving_unclosed : unclosed tx (chans d);
  serving_engines : engines (tasks d);
  serving_matched : matched (view d)
}.

(** The entry and the channel of the task. *)
Lemma serving_linked id d a rx :
  serving id d -> tasks d !! k = Some (Running id a rx) -> linked tx rx.
Proof.
  intros [_ _ He _ _ Hm] Ek. destruct (task_named _ Hm k id rx) as (tx' & Htx & Hl); [by apply (live_at d k _ Ek)|].
  cbn [view v_reg] in Htx. by replace tx with tx' by congruence.
Qed.

Lemma detach_follows e d : harmless e d ->
  follows (Q := spares_tx tx) (W := fun _ _ => True) (P := stays_unclosed tx) e d.
Proof.
  intros Hh. split; try (intros; by right).
  - intros n rs dec t out wh dec' f g -> Hc Hn Hf. left. intros ->. by eapply Hh.
  - intros n _. apply (respects_infos (Q := spares_tx tx)). intros; by right.
  - intros n rs dec t out wh st f _ _. apply unclosed_recv.
  - intros. apply unclosed_poll.
  - done.
  - apply forgets_ended.
Qed.

(** The turn of the task itself. *)
Lemma turn_serves id fuel readable tick d d' :
  serving id d -> harmless (ActorTurn k fuel readable tick) d -> actor_turn opts k fuel readable tick d = Some d' ->
  R (machine d) (machine d') /\ runs_shell id d'.
Proof.
  intros Hd Hh. destruct (serving_shell _ _ Hd) as (a & rx & Ek & Hp & Ha). pose proof (serving_linked _ _ _ _ Hd Ek) as Hl.
  destruct (Hh id a rx eq_refl Ek) as (Hrd & Hdr & Hk). specialize (Hk (serving_entry _ _ Hd)).
  destruct (serving_engines _ _ Hd _ _ _ _ Ek) as [Hr _]. unfold actor_turn. rewrite Ek.
  assert (Hcl : is_close (poll_cmd rx (chans d)).2 = false /\ (poll_cmd rx (chans d)).2 <> Some None).
  { unfold poll_cmd. destruct (recv_cmd rx (chans d)) as [[st [c|]]|] eqn:Er; [|by destruct (Hk st)|done].
    split; [|done]. destruct c as [| |g| |]; try done. exfalso. apply (serving_unclosed _ _ Hd g). by eapply recv_sent. }
  destruct (poll_cmd rx (chans d)) as [st cmd]. cbn [snd] in Hcl. destruct Hcl as [Hcl Hn].
  destruct (select _ _ _ _ _ _) as [[[flow w] st']|] eqn:Es; cbn [mbind option_bind]; [|done].
  destruct (turn_goes_on _ _ _ _ _ _ _ _ _ Es Hr Ha Hn Hcl Hrd Hdr) as (a' & -> & Hl' & Hg'). destruct Ha as (_ & Ho & _).
  destruct (select_spares _ _ _ _ _ _ _ _ _ Es ltac:(by right) ltac:(by intros ? ? [])) as (HR & Hsh & Hop).
  intros [= <-]. split; [exact HR|]. exists a', rx.
  cbn [tasks set_task with_tasks with_machine with_chans flow_actor] in *. rewrite lookup_insert_eq.
  split; [done|]. split; [unfold shell in *; congruence|]. split; [done|]. split; [by apply Hop|done].
Qed.

(** A session that is opened is of the shell that was forked. *)
Lemma open_forked sid args dir c r w w' s :
  Session.open sid args dir c r w = (w', Some (Ok s)) ->
  exists w1, spawn args dir (winsize c r) w = Some (w1, Ok (Session.pty s)).
Proof.
  unfold Session.open. destruct (spawn _ _ _ _) as [[w1 [q|er]]|]; [|done..].
  destruct (Session.now_secs w1); [|done]. intros [= _ <-]. by exists w1.
Qed.

(** No other task comes by the pid. *)
Lemma sole_step e d d' : sole_owner d -> harmless e d -> step opts version me e d = Some d' -> sole_owner d'.
Proof.
  intros Hso Hh Hs k' t Ek Hne Hsh. destruct (event_of k' e) eqn:Ev.
  2: { destruct (step_slot _ _ _ _ _ _ k' Hs Ev) as [Esl|[_ (spec & rx & Esl)]]; rewrite Esl in Ek; [by eapply Hso|].
       by injection Ek as <-. }
  destruct e as [| | | | | | |j b|j fuel b i|j| | |]; try done; apply bool_decide_eq_true in Ev as ->; cbn [step] in Hs.
  - unfold open_task in Hs. destruct (tasks d !! k') as [[spec rx|id a rx|a rx]|] eqn:Ek'; try done.
    destruct (Session.open _ _ _ _ _ _) as [w [[s|x]|]] eqn:Eo; [|injection Hs as <-; cbn in Ek; by rewrite lookup_delete_eq in Ek..].
    apply open_forked in Eo as [w1 Ef]. apply (Hh spec rx w1 (Session.pty s) Ek' Ef).
    destruct b; injection Hs as <-; cbn [tasks set_task with_tasks with_machine with_registry] in Ek;
      rewrite lookup_insert_eq in Ek; injection Ek as <-; by injection Hsh as <-.
  - unfold actor_turn in Hs. destruct (tasks d !! k') as [[spec rx|id a rx|a rx]|] eqn:Ek'; try done.
    destruct (poll_cmd rx (chans d)) as [st cmd].
    destruct (select _ _ _ _ _ _) as [[[flow w] st']|] eqn:Es; cbn [mbind option_bind] in Hs; [|done].
    apply select_pty in Es as Hp.
    apply (Hso k' _ Ek' Hne). destruct flow as [a'|a']; injection Hs as <-;
      cbn [tasks set_task with_tasks with_machine with_chans with_registry flow_actor] in *;
      rewrite lookup_insert_eq in Ek; injection Ek as <-; cbn [task_shell] in *; unfold shell in *; congruence.
  - unfold finish_task in Hs. destruct (tasks d !! k') as [[spec rx|id a rx|a rx]|]; try done.
    destruct (drop_actor a _ _). injection Hs as <-. cbn in Ek. by rewrite lookup_delete_eq in Ek.
Qed.

(** The entry of a task that runs on stays. *)
Lemma entry_step id e d d' a rx :
  serving id d -> step opts version me e d = Some d' -> tasks d' !! k = Some (Running id a rx) ->
  sessions (registry d') !! id = Some tx.
Proof.
  intros Hd Hs Ek'. destruct (serving_shell _ _ Hd) as (a0 & rx0 & Ek & _). apply (live_at d) in Ek. apply (live_at d') in Ek'.
  pose proof (serving_entry _ _ Hd) as He. destruct (serving_matched _ _ Hd) as [_ _ Hu]. cbn [view v_live v_reg] in *.
  destruct (refines_step _ _ _ _ _ _ Hs) as [Hv|Hv]; [by injection Hv as ->|].
  unfold view in Hv. inversion Hv as [? ? ? ? ? ? ? i j ? ? _ Hop|? ? ? ? i j x Hj|? ? ? ? ? ? Hw|]; subst.
  - apply created_entry in Hop as (Hn & -> & _). rewrite lookup_insert_ne; [done|congruence].
  - assert (Hne : j <> k).
    { intros ->. match goal with Hx : delete k _ = _ |- _ => rewrite <- Hx in Ek' end. by rewrite lookup_delete_eq in Ek'. }
    cbn [sessions remove]. rewrite lookup_delete_ne; [done|]. intros ->. apply Hne. by eapply Hu.
  - destruct (Idle.watch_sessions _ _ _ _ _ _ Hw) as [-> _]. done.
  - done.
Qed.

Lemma step_serves id e d d' :
  serving id d -> harmless e d -> step opts version me e d = Some d' -> R (machine d) (machine d') /\ serving id d'.
Proof.
  intros Hd Hh Hs.
  assert (Hrun : R (machine d) (machine d') /\ runs_shell id d').
  { destruct (serving_shell _ _ Hd) as (a & rx & Ek & Hx). destruct (event_of k e) eqn:Ev.
    - destruct e as [| | | | | | |k' b|k' fuel b t|k'| | |]; try done; apply bool_decide_eq_true in Ev as ->; cbn [step] in Hs.
      + unfold open_task in Hs. by rewrite Ek in Hs.
      + by eapply turn_serves.
      + unfold finish_task in Hs. by rewrite Ek in Hs.
    - split; [|exists a, rx; split; [by eapply step_task|done]]. eapply step_spares; [|exact Hs].
      destruct e as [| | | | | | |k' b|k' fuel b t|k'| | |w]; try done; cbn [elsewhere event_of] in *;
        apply bool_decide_eq_false in Ev.
      + intros i a1 rx1 Ek1. split; [|by intros []]. intros Hp.
        apply (serving_sole _ _ Hd k' _ Ek1 Ev). cbn [task_shell]. by rewrite Hp.
      + intros a1 rx1 Ek1 Hp. apply (serving_sole _ _ Hd k' _ Ek1 Ev). cbn [task_shell]. by rewrite Hp. }
  destruct Hrun as [Hr Hsh]. split; [done|]. split; [done| | | | |].
  - eapply sole_step; [apply Hd|done|done].
  - destruct Hsh as (a & rx & Ek & _). by eapply entry_step.
  - exact (step_follows _ _ _ _ _ _ (detach_follows e d Hh) Hs (serving_unclosed _ _ Hd)).
  - eapply engines_step; [apply Hd|exact Hs].
  - destruct (refines_step _ _ _ _ _ _ Hs) as [->|Hv]; [apply Hd|]. eapply matched_step; [exact Hv|apply Hd].
Qed.
End detach.

(** C5: detaching never kills: whatever its clients do short of a CLOSE frame
    (attach, take over, disconnect, send malformed frames, stop reading), and
    whatever the other connections and sessions do, a CLOSE of another session and
    the end of its task included, the loop of a session whose shell runs does not
    end, and its shell is sent neither SIGHUP nor SIGKILL: every relation [R]
    between worlds that all the system calls respect but those two holds from [d]
    to the end of the run. The pid is the session's own at [d] ([sole_owner]: a
    dead session may still hold a pid that the kernel has given again, see
    [recycled_pid_killed]); the terminal stays open and the machine spares the shell
    ([harmless]). *)
Theorem detach_never_kills `{EngineLaws} `{O : Os} {p : Pid} {R : relation world} {S : Sparing p R} `{ReceiveLaws, Stream}
    `{!Json StatusMsg, !Json ExitMsg, !Json Hello, !Json (list SessionInfo), !Json AttachOrOpen,
      !Json Protocol.Resize, !Json CloseMsg} opts version me max st0 w0 es k tx rx id a d d' :
  run opts version me es (start max st0 w0) = Some d ->
  tasks d !! k = Some (Running id a rx) -> sessions (registry d) !! id = Some tx -> shell a = p ->
  Session.lifecycle (session a) = Session.Live -> open_ended a -> sole_owner (p := p) k d ->
  unclosed tx (chans d) -> unclosed_run (p := p) (R := R) opts version me k tx d d' ->
  R (machine d) (machine d') /\
  exists a' rx', tasks d' !! k = Some (Running id a' rx') /\ shell a' = p /\
    Session.lifecycle (session a') = Session.Live /\ sessions (registry d') !! id = Some tx.
Proof.
  intros Hr Ek He Hp Hl Ho Hso Hu Hrun.
  assert (Heng : engines (tasks d)) by (eapply engines_run; [|exact Hr]; by intros j i b r).
  assert (Hd : serving (p := p) k tx id d).
  { destruct (Heng _ _ _ _ Ek) as [_ Hret]. unfold retained in Hret. rewrite Hl in Hret.
    split; try done; [by exists a, rx|]. by eapply matched_run, refines_run. }
  assert (Hend : R (machine d) (machine d') /\ serving (p := p) k tx id d').
  { clear Hr Ek He Hp Hl Ho Hso Hu Heng. induction Hrun as [|e d1 d2 _ [Hr Hd1] Hh Hs]; [done|].
    destruct (step_serves _ _ _ _ _ _ _ _ _ Hd1 Hh Hs). split; [by etrans|done]. }
  destruct Hend as [HR [(a' & rx' & Ek' & Hp' & Hl' & _) _ He' _ _ _]]. split; [done|]. by exists a', rx'.
Qed.

(** C25: what [sole_owner] is needed for: a shell can be killed by the end of another
    session. A session whose shell has been reaped keeps its pid for the grace; when
    the kernel has given that pid to the shell of a second session meanwhile, then
    the grace of the dead session passes and its task ends: [Drop for Pty] sends
    SIGKILL to the process group of the second session's shell, whose client has
    asked for nothing, and whose task goes on as if nothing had happened. *)
Theorem recycled_pid_killed `{EngineLaws, Os, Receivers, Stream}
    `{!Json StatusMsg, !Json ExitMsg, !Json Hello, !Json (list SessionInfo), !Json AttachOrOpen,
      !Json Protocol.Resize, !Json CloseMsg} opts version me max st0 w0 es fuel d k1 id1 a1 rx1 k2 id2 a2 rx2 :
  run opts version me es (start max st0 w0) = Some d ->
  tasks d !! k1 = Some (Running id1 a1 rx1) -> Session.is_dead (session a1) = true ->
  tasks d !! k2 = Some (Running id2 a2 rx2) -> Session.lifecycle (session a2) = Session.Live ->
  shell a1 = shell a2 ->
  exists t, grace_deadline a1 = Some t /\
    ((t <= clock d)%N -> recv_cmd rx1 (chans d) = None ->
     exists d', run opts version me [ActorTurn k1 fuel None false; EndTask k1] d = Some d' /\
       machine d' = (waitpid (shell a2) false (killpg (shell a2) SIGKILL (machine d)).1).1 /\
       tasks d' !! k2 = Some (Running id2 a2 rx2) /\
       sessions (registry d') = delete id1 (sessions (registry d))).
Proof.
  intros Hr Ek1 Hd1 Ek2 Hl2 Hsh.
  assert (Heng : engines (tasks d)) by (eapply engines_run; [|exact Hr]; by intros j i b r).
  destruct (Heng _ _ _ _ Ek1) as [_ Hret]. unfold retained in Hret. unfold Session.is_dead in Hd1.
  destruct (Session.lifecycle (session a1)) as [|code] eqn:El1; [done|]. destruct Hret as [t Hg]. exists t. split; [done|].
  intros Ht Hrecv. assert (Hne : k1 <> k2) by congruence. cbn [run step]. unfold actor_turn. rewrite Ek1.
  unfold poll_cmd. rewrite Hrecv. unfold select. cbn [r_cmd r_readable r_now]. unfold Session.is_dead. rewrite El1, Hg.
  cbn [passed]. rewrite (proj2 (N.leb_le _ _)) by done. cbn [mbind option_bind]. unfold finish_task.
  cbn [tasks set_task with_tasks with_registry with_machine with_chans]. rewrite lookup_insert_eq. eexists. split; [reflexivity|].
  split; [cbn; unfold drop_pty; unfold shell in *; by rewrite Hsh|]. split; [|done].
  cbn [tasks end_task set_task with_tasks with_registry with_machine with_chans]. by rewrite lookup_delete_ne, lookup_insert_ne.
Qed.
