(* ===== verification/Intake.v ===== *)
(** What a connection has read of its socket, at any moment of a run.

    [heard] is every answer the reads of a connection were given, from the events
    of the run. [reading h rs dec fs] says that of [h] the connection has taken
    the frames [fs], and that nothing is lost of the rest: it is in the buffer of
    the decoder or in the reads to come. *)
From S2P Require Import Prelude Engine Pty Protocol Registry Server Wire Connection Clients Daemon.
From S2P Require Session.

(** * Bytes taken frame by frame *)

(** The parser takes the frames [fs] off the front of [bs] and leaves [rest]. *)
Inductive consumed (bs : list byte) : list Frame -> list byte -> Prop :=
  | ConsumedNone : consumed bs [] bs
  | ConsumedMore fs rest f rest' :
      consumed bs fs rest -> parse rest = Ok (Some (f, rest')) -> consumed bs (fs ++ [f]) rest'.

Lemma consumed_app bs fs rest more : consumed bs fs rest -> consumed (bs ++ more) fs (rest ++ more).
Proof.
  induction 1 as [|fs rest f rest' _ IH Hp]; [constructor|]. econstructor; [exact IH|].
  pose proof (parse_app rest more) as Ha. by rewrite Hp in Ha.
Qed.

Lemma consumed_frames bs fs rest :
  consumed bs fs rest ->
  frames bs = (fs ++ (frames rest).1.1, (frames rest).1.2, (frames rest).2).
Proof.
  induction 1 as [|fs rest f rest' _ -> Hp]; [by destruct (frames bs) as [[]]|].
  by rewrite (frames_parse _ _ _ Hp), <- app_assoc.
Qed.

Lemma received_snoc rs r : received (rs ++ [r]) = received rs ++ (if ended rs then [] else received [r]).
Proof.
  induction rs as [|[[|b bs]|e] rs IH]; cbn [app received ended]; [done..| |done].
  by rewrite IH, app_assoc.
Qed.

Lemma ended_snoc rs r : ended (rs ++ [r]) = ended rs || ended [r].
Proof. induction rs as [|[[|b bs]|e] rs IH]; cbn [app ended orb]; done. Qed.

(** * A connection that reads *)

Record reading (h rs : reads) (dec : FrameDecoder) (fs : list Frame) : Prop := mkReading {
  reading_wf : decoder_wf dec;
  reading_ended : ended h = ended rs;
  reading_bytes : consumed (received h) fs (unread dec ++ received rs)
}.

Lemma reading_new : reading [] [] FrameDecoder_new [].
Proof. split; [apply decoder_new_wf|done|constructor]. Qed.

Lemma reading_arrive h rs dec fs r : reading h rs dec fs -> reading (h ++ [r]) (rs ++ [r]) dec fs.
Proof.
  intros [Hw He Hb]. split; [done|by rewrite !ended_snoc, He|].
  rewrite !received_snoc, He, app_assoc. by apply consumed_app.
Qed.

(** What is left to take is what the parser makes of the rest. *)
Lemma reading_frames h rs dec fs :
  reading h rs dec fs -> exists fs' r e,
    frames (unread dec ++ received rs) = (fs', r, e) /\ frames (received h) = (fs ++ fs', r, e).
Proof.
  intros [_ _ Hb]. destruct (frames (unread dec ++ received rs)) as [[fs' r] e] eqn:E.
  exists fs', r, e. split; [done|]. by rewrite (consumed_frames _ _ _ Hb), E.
Qed.

Lemma reading_one h rs dec fs :
  reading h rs dec fs -> exists dec' rs' r, read_one_frame rs dec = Some (dec', rs', r) /\
    match r with
    | Got f => reading h rs' dec' (fs ++ [f])
    | Pending => reading h rs' dec' fs
    | _ => True
    end.
Proof.
  intros [Hw He Hb]. destruct (read_one_frame_spec rs dec Hw) as (dec' & rs' & r & -> & Hw' & Hr).
  exists dec', rs', r. split; [done|]. destruct r as [f| |e|]; try done.
  - destruct Hr as [Hp Hr]. split; [done|congruence|]. by econstructor.
  - destruct Hr as (_ & Hr & -> & Hu). split; [done|by rewrite He|]. cbn [received]. by rewrite app_nil_r, Hu.
Qed.

(** A round of the reader of a session connection. *)
Lemma reading_step `{Tokio} `{!Json Protocol.Resize, !Json CloseMsg} h rs dec fs tx st :
  reading h rs dec fs -> exists rs' dec' st' e, reader_step rs dec tx st = Some (rs', dec', st', e) /\
    ((exists f, (st', e) = on_frame tx f st /\ reading h rs' dec' (fs ++ [f])) \/
     (st' = st /\ (e = None \/ e = Some Waiting) /\ reading h rs' dec' fs) \/
     (st' = st /\ exists x, e = Some x /\ x <> Waiting /\ exists rest, consumed (received h) fs rest)).
Proof.
  intros [Hw He Hb]. unfold reader_step.
  pose proof (next_frame_spec dec Hw) as Hn. pose proof (parse_app (unread dec) (received rs)) as Hp.
  destruct (parse (unread dec)) as [[[f rest]|]|e] eqn:E.
  - destruct Hn as (dec1 & -> & Hw1 & Hu1). cbn [mbind option_bind].
    destruct (on_frame tx f st) as [st1 e] eqn:Ef. eexists _, _, _, _. split; [reflexivity|]. left. exists f.
    split; [done|]. split; [done|done|]. econstructor; [exact Hb|]. by rewrite Hp, Hu1.
  - rewrite Hn. cbn [mbind option_bind]. destruct rs as [|[[|b bs]|er] rs].
    + eexists _, _, _, _. split; [reflexivity|]. right. left. split_and!; [done|by right|done].
    + eexists _, _, _, _. split; [reflexivity|]. right. right. split; [done|]. eexists. split_and!; [done|done|eauto].
    + destruct (push_spec dec (b :: bs) Hw) as (dec1 & -> & Hw1 & Hu1 & _). cbn [mbind option_bind].
      eexists _, _, _, _. split; [reflexivity|]. right. left. split; [done|]. split; [by left|].
      split; [done|done|]. cbn [received] in Hb. by rewrite Hu1, <- app_assoc.
    + eexists _, _, _, _. split; [reflexivity|]. right. right. split; [done|]. eexists. split_and!; [done|done|eauto].
  - rewrite Hn. cbn [mbind option_bind]. eexists _, _, _, _. split; [reflexivity|]. right. right.
    split; [done|]. eexists. split_and!; [done|done|eauto].
Qed.

(** * What a connection heard *)

(** The answers its reads were given, from the events of a run. *)
Fixpoint heard `{Engine, Os, Tokio, Stream} (n : nat) (es : list event) : reads :=
  match es with
  | [] => []
  | e :: es =>
      match e with
      | Arrive m r => if decide (m = n) then r :: heard n es else heard n es
      | _ => heard n es
      end
  end.

Lemma heard_snoc `{Engine, Os, Tokio, Stream} n es e :
  heard n (es ++ [e]) = heard n es ++ match e with Arrive m r => if decide (m = n) then [r] else [] | _ => [] end.
Proof.
  induction es as [|e0 es IH]; cbn [app heard]; [by destruct e|]. rewrite IH. destruct e0; try done.
  by destruct (decide _).
Qed.
