(* ===== verification/Senders.v ===== *)
(** From the terminals to the sessions through the whole daemon.

    Several connections may write to the channel of one session: the client, the
    one it took over from, and those that ask for the LIST. In any run, what a
    channel took can be tagged with the connection that sent it ([tracked]), and
    the share of a client is its attach and then the commands of the frames it
    has taken, in their order. *)
From S2P Require Import Prelude Status Engine Pty Protocol Registry Server Wire Connection Clients.
From S2P Require Import Stores Syscalls Daemon DaemonProps Steps Intake.
From S2P Require Session Idle.

(** * Channels that only grow *)

Section growth.
Context {T : Tokio} {L : ChannelLaws} {C : CommandLaws} {R : Receivers} {F : Traffic} {FL : TrafficLaws}.

#[local] Abbreviation Command := (SessionCommand frame_tx reply_tx).

(** A channel that was not opened took nothing. *)
Definition fine (st : store) : Prop := forall tx, opened st tx \/ commands st tx = [].

(** From [st] to [st'] the channels that are open stay so, and take more commands,
    of those in [Q]. *)
Record adds (Q : cmd_tx -> Command -> Prop) (st st' : store) : Prop := mkAdds {
  adds_opened tx : opened st tx -> opened st' tx;
  adds_fine : fine st';
  adds_new tx : exists new, commands st' tx = commands st tx ++ new /\ Forall (Q tx) new
}.

(** The same, for an operation that runs behind [base]. *)
Definition adds_since (base : store) (Q : cmd_tx -> Command -> Prop) (st st' : store) : Prop :=
  (forall tx, opened base tx -> opened st tx) -> fine st -> adds Q st st'.

Lemma adds_refl Q st : fine st -> adds Q st st.
Proof. intros Hf. split; [done|done|]. intros tx. exists []. by rewrite app_nil_r. Qed.

Lemma adds_trans Q st1 st2 st3 : adds Q st1 st2 -> adds Q st2 st3 -> adds Q st1 st3.
Proof.
  intros [A1 A2 A3] [B1 B2 B3]. split; [auto|done|]. intros tx.
  destruct (A3 tx) as (n1 & E1 & F1), (B3 tx) as (n2 & E2 & F2). exists (n1 ++ n2).
  rewrite E2, E1, app_assoc. split; [done|]. by apply Forall_app.
Qed.

(** An operation that sends nothing. *)
Lemma adds_moves Q (a : frame_tx -> Prop) h d st st' : moves a nothing h d st st' -> fine st -> adds Q st st'.
Proof.
  intros [A1 A2 A3 A4 A5 A6] Hf. cbn beta in *. split; [done| |].
  - intros tx. rewrite A2 by (by intros []). destruct (Hf tx); [left; auto|by right].
  - intros tx. exists []. rewrite A2, app_nil_r by (by intros []). done.
Qed.

Lemma adds_send (Q : cmd_tx -> Command -> Prop) tx c st :
  opened st tx -> Q tx c -> fine st -> adds Q st (send_cmd tx c st).1.
Proof.
  intros Ho Hq Hf. destruct (flow_send_cmd tx c st) as [A1 A2 A3 A4 A5 A6].
  assert (Hn : exists new, commands (send_cmd tx c st).1 tx = commands st tx ++ new /\ Forall (Q tx) new).
  { destruct (send_cmd tx c st) as [st' []] eqn:E; cbn [fst].
    - exists [c]. split; [by apply cmd_accepted|]. by repeat constructor.
    - exists []. rewrite app_nil_r. split; [by eapply cmd_refused|done]. }
  split; [done| |].
  - intros tx'. destruct (decide (tx = tx')) as [<-|Hne]; [by left; apply A6|].
    rewrite A2 by done. destruct (Hf tx'); [left; auto|by right].
  - intros tx'. destruct (decide (tx = tx')) as [<-|Hne]; [done|].
    exists []. rewrite A2, app_nil_r by done. done.
Qed.

(** A fresh channel is one that had not been opened. *)
Lemma adds_channel Q n st : fine st -> adds Q st (cmd_channel n st).1.
Proof.
  intros Hf. destruct (cmd_channel n st) as [st' [ntx nrx]] eqn:E. pose proof (cmd_new n st) as Hnew. rewrite E in Hnew.
  destruct (flow_cmd_channel _ _ _ _ _ E) as ([A1 A2 A3 A4 A5 A6] & Hn & Ho). cbn [fst snd] in *.
  assert (Hc : forall tx, commands st' tx = commands st tx).
  { intros tx. destruct (decide (ntx = tx)) as [<-|Hne]; [|by apply A2]. rewrite Hnew. by destruct (Hf ntx) as [Hx | ->]. }
  split; [done| |].
  - intros tx. rewrite Hc. destruct (Hf tx); [left; auto|by right].
  - intros tx. exists []. rewrite Hc, app_nil_r. done.
Qed.

#[export] Instance adds_respected base Q :
  Respected (fun _ => True) (fun tx c => opened base tx /\ Q tx c) (fun _ _ => True) (adds_since base Q).
Proof.
  split.
  - split; [intros st _; apply adds_refl|]. intros a b c Hab Hbc Hb Hf.
    pose proof (Hab Hb Hf) as Ha. eapply adds_trans; [exact Ha|]. apply Hbc; [|apply Ha]. intros tx Hx. by apply Ha, Hb.
  - intros tx f st _ _. by eapply adds_moves, flow_try_send.
  - intros tx c st [Ho Hq] Hb. apply adds_send; auto.
  - intros n st _. destruct (frame_channel n st) as [st' [tx rx]] eqn:E. by eapply adds_moves, flow_frame_channel.
  - intros n st _. apply adds_channel.
  - intros st _. by eapply adds_moves, flow_oneshot.
  - intros r i st _ _. by eapply adds_moves, flow_reply.
  - intros tx st _. by eapply adds_moves, flow_drop_tx.
  - intros rx st _. by eapply adds_moves, flow_drop_frame_rx.
  - intros rx st st' i E _. by eapply adds_moves, flow_recv_reply.
  - intros rx st _. by eapply adds_moves, flow_drop_reply_rx.
  - intros tx st _. by eapply adds_moves, flow_drop_cmd_tx.
Qed.

(** What a channel took in between. *)
Definition newly (st st' : store) (tx : cmd_tx) : list Command := drop (length (commands st tx)) (commands st' tx).

Lemma newly_app st st' tx new : commands st' tx = commands st tx ++ new -> newly st st' tx = new.
Proof. intros E. unfold newly. by rewrite E, drop_app_length. Qed.

Lemma adds_newly Q st st' tx : adds Q st st' ->
  commands st' tx = commands st tx ++ newly st st' tx /\ Forall (Q tx) (newly st st' tx).
Proof. intros [_ _ Hn]. destruct (Hn tx) as (new & E & Hq). rewrite (newly_app _ _ _ _ E). done. Qed.

Lemma adds_nothing st st' tx : adds (fun _ _ => False) st st' -> newly st st' tx = [].
Proof. intros Ha. destruct (adds_newly _ _ _ tx Ha) as [_ Hn]. by destruct (newly st st' tx); inversion Hn. Qed.

Lemma adds_same st st' tx : adds (fun _ _ => False) st st' -> commands st' tx = commands st tx.
Proof. intros Ha. destruct (adds_newly _ _ _ tx Ha) as [-> _]. by rewrite (adds_nothing _ _ tx Ha), app_nil_r. Qed.

Lemma adds_weaken (Q Q' : cmd_tx -> Command -> Prop) st st' :
  (forall tx c, Q tx c -> Q' tx c) -> adds Q st st' -> adds Q' st st'.
Proof.
  intros Hq [A1 A2 A3]. split; [done|done|]. intros tx. destruct (A3 tx) as (new & E & Hn).
  exists new. split; [done|]. eapply Forall_impl; [exact Hn|]. auto.
Qed.

(** A connection makes a queue and asks for its attach. *)
Lemma bind_sends tx n req st st1 st2 o orx st3 b :
  adds (fun _ _ => False) st st1 -> opened st1 tx -> frame_channel n st1 = (st2, (o, orx)) ->
  send_cmd tx (Attach req) st2 = (st3, b) ->
  paired o orx /\ adds (fun tx' _ => tx' = tx) st st3 /\ newly st st3 tx = if b then [Attach req] else [].
Proof.
  intros Ha Ho Ef Es. split; [by exists n, st1; rewrite Ef|].
  pose proof (adds_moves (fun _ _ => False) _ _ _ _ _ (proj1 (flow_frame_channel _ _ _ _ _ Ef)) (adds_fine _ _ _ Ha)) as Hb.
  pose proof (adds_trans _ _ _ _ Ha Hb) as Hab.
  pose proof (adds_send (fun tx' _ => tx' = tx) tx (Attach req) st2 (adds_opened _ _ _ Hb _ Ho) eq_refl (adds_fine _ _ _ Hb)) as Hs.
  rewrite Es in Hs. cbn [fst] in Hs. split; [eapply adds_trans; [by eapply adds_weaken; [|exact Hab]|exact Hs]|].
  apply newly_app. rewrite <- (adds_same _ _ tx Hab).
  destruct b; [by apply cmd_accepted|]. rewrite app_nil_r. by eapply cmd_refused.
Qed.

(** * Commands with their senders *)

Definition share (n : nat) (l : list (nat * Command)) : list Command := (base.filter (fun p => p.1 = n) l).*2.

Lemma share_app n l1 l2 : share n (l1 ++ l2) = share n l1 ++ share n l2.
Proof. unfold share. by rewrite filter_app, fmap_app. Qed.

Lemma share_own n new : share n ((n,.) <$> new) = new.
Proof.
  induction new as [|c new IH]; [done|]. unfold share in *. cbn [fmap list_fmap].
  rewrite filter_cons_True by done. cbn [fmap list_fmap snd]. by rewrite IH.
Qed.

Lemma share_other n m new : m <> n -> share m ((n,.) <$> new) = [].
Proof.
  intros Hne. induction new as [|c new IH]; [done|]. unfold share in *. cbn [fmap list_fmap].
  by rewrite filter_cons_False by (simpl; congruence).
Qed.

(** The new commands are of connection [n]. *)
Definition retag (n : nat) (log : cmd_tx -> list (nat * Command)) (st st' : store) (tx : cmd_tx) : list (nat * Command) :=
  log tx ++ ((n,.) <$> newly st st' tx).

Lemma retag_own n log st st' tx : share n (retag n log st st' tx) = share n (log tx) ++ newly st st' tx.
Proof. unfold retag. by rewrite share_app, share_own. Qed.

Lemma retag_other n m log st st' tx : m <> n -> share m (retag n log st st' tx) = share m (log tx).
Proof. intros Hne. unfold retag. by rewrite share_app, share_other, app_nil_r. Qed.

Lemma retag_nothing n log st st' tx : newly st st' tx = [] -> retag n log st st' tx = log tx.
Proof. intros E. unfold retag. by rewrite E, app_nil_r. Qed.
End growth.

(** * The steps of the daemon *)

Section tracking.
Context `{Engine, Os}.
Context {T : Tokio} {L : ChannelLaws} {C : CommandLaws} {R : Receivers} {F : Traffic} {FL : TrafficLaws}.
Context `{Stream}.
Context `{!Json StatusMsg, !Json ExitMsg, !Json Hello, !Json (list SessionInfo), !Json AttachOrOpen,
          !Json Protocol.Resize, !Json CloseMsg}.
Context (opts : ServerOpts) (version : list byte) (me : u32).

#[local] Abbreviation Command := (SessionCommand frame_tx reply_tx).
#[local] Abbreviation Log := (cmd_tx -> list (nat * Command)).
#[local] Abbreviation none := (fun _ _ => False).

(** What a client asks: the attach of its first frame, with its queue [o], then
    the commands of the others. *)
Definition asks (o : frame_tx) (first : Frame) (fs : list Frame) (cs : list Command) : Prop :=
  exists req, json AttachOrOpen first = Ok req /\
    cs = Attach (mkAttach (Protocol.want_chunks req) (Protocol.cols req) (Protocol.rows req) o) :: commands_of fs.

(** A connection that read [h] has sent [sh]: nothing before its first frame; the
    requests of a LIST; all that the frames it has taken ask, or, once it is over,
    a part of it up to some frame. *)
Definition said (h : reads) (sh : cmd_tx -> list Command) (c : Connection) : Prop :=
  match c with
  | Greeting rs dec _ => reading h rs dec [] /\ forall tx, sh tx = []
  | Serving rs dec _ | Listing rs dec _ _ _ _ => (exists fs, reading h rs dec fs) /\ forall tx, Forall is_info (sh tx)
  | Attached rs dec tx out _ =>
      exists first fs o, reading h rs dec (first :: fs) /\ closes fs = false /\ paired o out /\
        asks o first fs (sh tx) /\ forall tx', tx' <> tx -> sh tx' = []
  | Closed _ =>
      (forall tx, Forall is_info (sh tx)) \/
      exists tx o first fs rest cs, consumed (received h) (first :: fs) rest /\ asks o first fs cs /\
        sh tx `prefix_of` cs /\ forall tx', tx' <> tx -> sh tx' = []
  end.

(** The channels of the table are open. *)
Definition entries (reg : Registry) (st : store) : Prop := forall id tx, sessions reg !! id = Some tx -> opened st tx.

Record tracked (h : nat -> reads) (log : Log) (d : Daemon) : Prop := mkTracked {
  tracked_fine : fine (chans d);
  tracked_entries : entries (registry d) (chans d);
  tracked_log tx : (log tx).*2 = commands (chans d) tx;
  tracked_conn n c : conns d !! n = Some c -> said (h n) (fun tx => share n (log tx)) c;
  tracked_new n : conns d !! n = None -> h n = [] /\ forall tx, share n (log tx) = []
}.

(** Connection [n] moves on. *)
Lemma tracked_move Q h h' log d d' n c :
  tracked h log d -> adds Q (chans d) (chans d') -> entries (registry d') (chans d') ->
  conns d' = <[n := c]> (conns d) -> (forall m, m <> n -> h' m = h m) ->
  (forall sh, (forall tx, sh tx = share n (log tx) ++ newly (chans d) (chans d') tx) -> said (h' n) sh c) ->
  tracked h' (retag n log (chans d) (chans d')) d'.
Proof.
  intros [T1 T2 T3 T4 T5] Ha He Hc Hh Hs.
  assert (Hext : forall m c', m <> n -> said (h m) (fun tx => share m (log tx)) c' ->
    said (h' m) (fun tx => share m (retag n log (chans d) (chans d') tx)) c').
  { intros m c' Hne Hx. rewrite Hh by done.
    assert (Hsh : forall tx, share m (retag n log (chans d) (chans d') tx) = share m (log tx)) by (intros; by apply retag_other).
    destruct c'; cbn [said] in *; setoid_rewrite Hsh; done. }
  split; [apply Ha|done| | |].
  - intros tx. unfold retag. rewrite fmap_app, T3.
    replace (((n,.) <$> newly (chans d) (chans d') tx).*2) with (newly (chans d) (chans d') tx)
      by (rewrite <- list_fmap_compose; by rewrite list_fmap_id).
    symmetry. by apply (adds_newly Q).
  - intros m c'. rewrite Hc. intros [[<- <-]|[Hne Hx]]%lookup_insert_Some; [|by apply Hext, T4].
    apply Hs. intros tx. apply retag_own.
  - intros m. rewrite Hc. intros [Hm Hne]%lookup_insert_None. destruct (T5 m Hm) as [E1 E2].
    rewrite Hh by done. split; [done|]. intros tx. rewrite retag_other by done. apply E2.
Qed.

(** Nothing is sent. *)
Lemma tracked_still h log d d' :
  tracked h log d -> adds none (chans d) (chans d') -> entries (registry d') (chans d') -> conns d' = conns d ->
  tracked h log d'.
Proof.
  intros [T1 T2 T3 T4 T5] Ha He Hc. split; [apply Ha|done| |by rewrite Hc|by rewrite Hc].
  intros tx. by rewrite T3, (adds_same _ _ tx Ha).
Qed.

Lemma entries_adds Q reg st st' : entries reg st -> adds Q st st' -> entries reg st'.
Proof. intros He Ha id tx Hx. eapply adds_opened; [exact Ha|by eapply He]. Qed.

Lemma entries_remove id reg st : entries reg st -> entries (remove id reg) st.
Proof. intros He i tx. cbn [remove sessions]. intros [_ Hx]%lookup_delete_Some. by eapply He. Qed.

(** A connection that sends nothing moves on. *)
Lemma tracked_silent h h' log d d' n c0 c :
  tracked h log d -> conns d !! n = Some c0 -> adds none (chans d) (chans d') -> registry d' = registry d ->
  conns d' = <[n := c]> (conns d) -> (forall m, m <> n -> h' m = h m) ->
  (forall sh, said (h n) sh c0 -> said (h' n) sh c) -> exists log', tracked h' log' d'.
Proof.
  intros Ht Ec Ha Hr Hc Hh Hs. eexists. eapply (tracked_move none); [done|done| |done|done|].
  { rewrite Hr. eapply entries_adds; [apply Ht|done]. }
  intros sh Hsh. apply Hs. pose proof (tracked_conn _ _ _ Ht n c0 Ec) as Hx.
  assert (E : forall tx, sh tx = share n (log tx)) by (intros tx; by rewrite Hsh, (adds_nothing _ _ tx Ha), app_nil_r).
  destruct c0; cbn [said] in *; setoid_rewrite E; done.
Qed.

(** Whatever a connection was, it can be over. *)
Lemma said_closed h sh wh c : said h sh c -> said h sh (Closed wh).
Proof.
  destruct c as [rs dec w|rs dec w|rs dec w rxs infos t|rs dec tx out w|w]; cbn [said]; [| | | |done].
  - intros [_ Hs]. left. intros tx. rewrite Hs. constructor.
  - intros [_ Hs]. by left.
  - intros [_ Hs]. by left.
  - intros (first & fs & o & [_ _ Hb] & _ & _ & Ha & Ho). right. eexists tx, o, first, fs, _, _.
    split; [exact Hb|]. split; [exact Ha|]. by split.
Qed.

Lemma accept_tracked h log n a d d' :
  tracked h log d -> accept me n a d = Some d' -> exists log', tracked h log' d'.
Proof.
  intros Ht. unfold accept. destruct (_ <=? _)%N; [|done]. destruct a as [[peer wh]|er].
  2: { intros [= <-]. exists log. by apply tracked_still with (d := d); [|apply adds_refl, Ht|apply Ht|]. }
  destruct (conns d !! n) eqn:Ec; [done|]. intros [= <-]. destruct (tracked_new _ _ _ Ht n Ec) as [Hh Hs].
  eexists. eapply (tracked_move none); [done|by apply adds_refl, Ht|apply Ht|done|done|].
  intros sh Hsh. assert (E : forall tx, sh tx = []).
  { intros tx. rewrite Hsh, Hs, (adds_nothing _ _ tx); [done|]. apply adds_refl, Ht. }
  rewrite Hh. destruct (check_peer_uid peer me); cbn [said].
  - split; [apply reading_new|done].
  - left. intros tx. rewrite E. constructor.
Qed.

Lemma arrive_tracked h log n r d d' :
  tracked h log d -> arrive n r d = Some d' ->
  exists log', tracked (fun m => h m ++ if decide (n = m) then [r] else []) log' d'.
Proof.
  intros Ht. unfold arrive. destruct (conns d !! n) as [c|] eqn:Ec; [|done].
  assert (Hgo : forall c', (forall sh, said (h n) sh c -> said (h n ++ [r]) sh c') ->
    exists log', tracked (fun m => h m ++ if decide (n = m) then [r] else []) log' (set_conn n c' d)).
  { intros c' Hc'. eapply (tracked_silent h); [done|done|by apply adds_refl, Ht|done|done| |].
    - intros m Hne. by rewrite decide_False, app_nil_r.
    - intros sh Hx. rewrite decide_True by done. by apply Hc'. }
  destruct c as [rs dec w|rs dec w|rs dec w rxs infos t|rs dec tx out w|w]; try done; intros [= <-]; apply Hgo;
    intros sh; cbn [said].
  - intros [Hr Hs]. split; [by apply reading_arrive|done].
  - intros [[fs Hr] Hs]. split; [exists fs; by apply reading_arrive|done].
  - intros [[fs Hr] Hs]. split; [exists fs; by apply reading_arrive|done].
  - intros (first & fs & o & Hr & ?). exists first, fs, o. split; [by apply reading_arrive|done].
Qed.

(** The entry that an attach finds or makes. *)
Lemma attach_entry id reg st :
  fine st -> entries reg st ->
  match attach_or_create id reg st with
  | (st1, reg1, Existing tx) | (st1, reg1, Created tx _) => adds none st st1 /\ entries reg1 st1 /\ opened st1 tx
  | (st1, reg1, Rejected) => st1 = st /\ reg1 = reg
  end.
Proof.
  intros Hf He. unfold attach_or_create. destruct (sessions reg !! id) as [tx|] eqn:Es.
  { split; [by apply adds_refl|]. split; [done|by eapply He]. }
  destruct (_ <=? _)%N; [done|]. pose proof (adds_channel none 256 st Hf) as Ha.
  destruct (cmd_channel 256 st) as [st1 [tx rx]] eqn:Ec. cbn [fst] in Ha.
  destruct (flow_cmd_channel _ _ _ _ _ Ec) as (_ & _ & Ho). split; [done|]. split; [|done].
  intros i t. cbn [sessions]. intros [[_ <-]|[_ Hx]]%lookup_insert_Some; [done|]. eapply adds_opened; [exact Ha|by eapply He].
Qed.

(** What [handle_session] does to the table and to the channels. *)
Lemma handle_session_sends first rs dec reg st reg' st' c :
  handle_session opts first rs dec reg st = (reg', st', c) -> fine st -> entries reg st ->
  (reg' = reg /\ st' = st /\ exists r, c = Over r) \/
  exists tx o orx (b : bool) spawned, paired o orx /\ entries reg' st' /\ adds (fun tx' _ => tx' = tx) st st' /\
    c = (if b then Bound spawned tx orx rs dec else Aborted spawned) /\
    (if b then asks o first [] (newly st st' tx) else newly st st' tx = []).
Proof.
  unfold handle_session. destruct (json AttachOrOpen first) as [req|e] eqn:Ej; [|intros [= <- <- <-]; left; eauto].
  intros Hh Hf He. pose proof (attach_entry (session_id req) reg st Hf He) as Hb.
  destruct (attach_or_create _ reg st) as [[st1 reg1] [tx|tx rx|]]; [| |destruct Hb as [-> ->]; injection Hh as <- <- <-; left; eauto].
  all: destruct Hb as (Ha & He1 & Ho); destruct (frame_channel _ st1) as [st2 [o orx]] eqn:Ef;
    destruct (send_cmd tx _ st2) as [st3 b] eqn:Es; destruct (bind_sends _ _ _ _ _ _ _ _ _ _ Ha Ho Ef Es) as (Hp & Hall & Hn);
    assert (He3 : entries reg1 st3) by
      (pose proof (flow_frame_channel _ _ _ _ _ Ef) as [Hm _]; intros i t Hx;
       assert (Hs : opened (send_cmd tx (Attach (mkAttach (Protocol.want_chunks req) (Protocol.cols req) (Protocol.rows req) o)) st2).1 t)
         by (eapply still_opened; [apply flow_send_cmd|]; eapply still_opened; [exact Hm|by eapply He1]);
       by rewrite Es in Hs);
    right; exists tx, o, orx, b; destruct b; injection Hh as <- <- <-; eexists;
    (split_and!; [done|done|done|done|]; first [done|exists req; rewrite Hn; done]).
Qed.

(** The connection sends what it sends and stays, or is over. *)
Lemma send_tracked Q h log n c st d :
  tracked h log d -> adds Q (chans d) st ->
  (forall sh, (forall tx, sh tx = share n (log tx) ++ newly (chans d) st tx) -> said (h n) sh c) ->
  exists log', tracked h log' (set_conn n c (with_chans st d)).
Proof.
  intros Ht Ha Hs. eexists. eapply (tracked_move Q); [done|done| |done|done|done]. eapply entries_adds; [apply Ht|done].
Qed.

Lemma hang_up_tracked Q h log n t out wh st d :
  tracked h log d -> adds Q (chans d) st ->
  (forall sh, (forall tx, sh tx = share n (log tx) ++ newly (chans d) st tx) -> said (h n) sh (Closed wh)) ->
  exists log', tracked h log' (hang_up n t out wh (with_chans st d)).
Proof.
  intros Ht Ha Hs. unfold hang_up. cbn [chans with_chans]. set (st' := drop_cmd_tx t (drop_frame_rx out st)).
  assert (Hd : adds none st st').
  { eapply adds_trans; [eapply adds_moves; [apply flow_drop_frame_rx|apply Ha]|].
    eapply adds_moves; [apply flow_drop_cmd_tx|]. eapply (adds_fine none), adds_moves; [apply flow_drop_frame_rx|apply Ha]. }
  apply (send_tracked Q h log n (Closed wh) st' d); [done|eapply adds_trans; [done|by eapply adds_weaken; [|exact Hd]]|].
  intros sh Hsh. apply Hs. intros tx. rewrite Hsh. unfold newly. by rewrite (adds_same _ _ tx Hd).
Qed.

Lemma greet_tracked h log n k d d' :
  tracked h log d -> greet opts version n k d = Some d' -> exists log', tracked h log' d'.
Proof.
  intros Ht. unfold greet. destruct (conns d !! n) as [c|] eqn:Ec; [|done].
  pose proof (tracked_conn _ _ _ Ht n c Ec) as Hc. destruct c as [rs dec wh| | | |]; try done.
  destruct (tasks d !! k); [done|]. destruct Hc as [Hr Hs].
  destruct (reading_one _ _ _ _ Hr) as (dec' & rs' & r & -> & Hr'). cbn [mbind option_bind].
  assert (Hgo : forall c, (forall sh, (forall tx, sh tx = []) -> said (h n) sh c) -> exists log', tracked h log' (set_conn n c d)).
  { intros c Hx. destruct (send_tracked none h log n c (chans d) d Ht (adds_refl _ _ (tracked_fine _ _ _ Ht))) as [log' Hl].
    - intros sh Hsh. apply Hx. intros tx. rewrite Hsh, Hs, (adds_nothing _ _ tx); [done|]. apply adds_refl, Ht.
    - exists log'. by destruct d. }
  assert (Hover : forall wh sh, (forall tx, sh tx = []) -> said (h n) sh (Closed wh)).
  { intros wh' sh Hsh. left. intros tx. rewrite Hsh. constructor. }
  destruct r as [first| |e|]; try (intros [= <-]; apply Hgo; by apply Hover).
  2: { intros [= <-]. apply Hgo. intros sh Hsh. by split. }
  destruct (ty first); try (intros [= <-]; apply Hgo; by apply Hover).
  { intros [= <-]. apply Hgo. intros sh Hsh. destruct (control_hello version first wh) as [wh1 [x|]]; [by apply Hover|].
    cbn [said]. split; [eauto|]. intros tx. rewrite Hsh. constructor. }
  destruct (handle_session opts first rs' dec' (registry d) (chans d)) as [[reg st] c] eqn:Eh.
  destruct (handle_session_sends _ _ _ _ _ _ _ _ Eh (tracked_fine _ _ _ Ht) (tracked_entries _ _ _ Ht)) as
    [(-> & -> & x & ->)|(tx & o & orx & b & spawned & Hp & He & Ha & -> & Hn)].
  { intros [= <-]. destruct (Hgo (Closed wh) (Hover wh)) as [log' Hl]. exists log'. by destruct d. }
  assert (Hother : forall tx', tx' <> tx -> newly (chans d) st tx' = []).
  { intros tx' Hne. destruct (adds_newly _ _ _ tx' Ha) as [_ Hx]. by destruct (newly (chans d) st tx'); inversion Hx. }
  assert (Hfin : forall c d1, chans d1 = st -> registry d1 = reg -> conns d1 = <[n := c]> (conns d) ->
    (forall sh, (forall tx', sh tx' = newly (chans d) st tx') -> said (h n) sh c) -> exists log', tracked h log' d1).
  { intros c d1 E1 E2 E3 Hx. subst. eexists. eapply (tracked_move (fun tx' _ => tx' = tx)); [done|done|done|done|done|].
    intros sh Hsh. apply Hx. intros tx'. by rewrite Hsh, Hs. }
  intros Hd'. destruct b; injection Hd' as <-.
  - apply (Hfin (Attached rs' dec' tx orx wh)); try (by destruct spawned as [[]|]). intros sh Hsh. cbn [said].
    exists first, [], o. split; [exact Hr'|]. split; [done|]. split; [done|]. rewrite Hsh. split; [done|].
    intros tx' Hne. by rewrite Hsh, Hother.
  - apply (Hfin (Closed wh)); try (by destruct spawned as [[]|]). intros sh Hsh. apply Hover. intros tx'. rewrite Hsh.
    destruct (decide (tx' = tx)) as [->|Hne]; [done|by apply Hother].
Qed.

Lemma serve_tracked h log n d d' :
  tracked h log d -> serve n d = Some d' -> exists log', tracked h log' d'.
Proof.
  intros Ht. unfold serve. destruct (conns d !! n) as [c|] eqn:Ec; [|done].
  pose proof (tracked_conn _ _ _ Ht n c Ec) as Hc. destruct c as [|rs dec wh| | |]; try done. destruct Hc as [[fs Hr] Hs].
  destruct (reading_one _ _ _ _ Hr) as (dec' & rs' & r & -> & Hr'). cbn [mbind option_bind].
  assert (Hgo : forall c st, adds (fun _ => is_info) (chans d) st ->
    (forall sh, (forall tx, Forall is_info (sh tx)) -> said (h n) sh c) -> exists log', tracked h log' (set_conn n c (with_chans st d))).
  { intros c st Ha Hx. eapply (send_tracked (fun _ => is_info)); [done|done|]. intros sh Hsh. apply Hx. intros tx. rewrite Hsh.
    apply Forall_app. split; [apply Hs|]. by apply (adds_newly (fun _ => is_info)). }
  assert (Hstay : forall c, (forall sh, (forall tx, Forall is_info (sh tx)) -> said (h n) sh c) ->
    exists log', tracked h log' (set_conn n c d)).
  { intros c Hx. destruct (Hgo c (chans d) (adds_refl _ _ (tracked_fine _ _ _ Ht)) Hx) as [log' Hl]. exists log'. by destruct d. }
  destruct r as [f| |e|]; try (intros [= <-]; apply Hstay; by left).
  2: { intros [= <-]. apply Hstay. intros sh Hsh. cbn [said]. eauto. }
  pose proof (respects_infos (P := adds_since (chans d) (fun _ => is_info)) (handles (registry d)) (chans d)) as Ha.
  destruct (request_infos _ _) as [st rxs]. cbn [fst] in Ha.
  destruct (ty f); intros [= <-];
    first [apply Hstay; intros sh Hsh; cbn [said]; by eauto|apply Hgo; [|intros sh Hsh; cbn [said]; by eauto]].
  apply Ha; [|done|apply Ht]. intros id tx reply Hin. split; [|by exists reply].
  apply (tracked_entries _ _ _ Ht id). by apply elem_of_map_to_list.
Qed.

Lemma list_tracked h log n d d' :
  tracked h log d -> list_turn n d = Some d' -> exists log', tracked h log' d'.
Proof.
  intros Ht (st & c & -> & Ha & rs & dec & wh & rxs & infos & t & Ec & Hc)%(list_turn_spec (P := adds_since (chans d) none)).
  specialize (Ha (fun _ Ho => Ho) (tracked_fine _ _ _ Ht)).
  eapply (tracked_silent h); [done|done|exact Ha|done|done|done|]. intros sh Hs.
  destruct c; try done; [by destruct Hc as [-> ->]..|]. by eapply said_closed.
Qed.

Lemma on_frame_end tx f st : (on_frame tx f st).2 <> Some Waiting.
Proof.
  unfold on_frame. destruct (ty f); try done.
  - by destruct (send_cmd _ _ st) as [? []].
  - destruct (json Protocol.Resize f); [|done]. by destruct (send_cmd _ _ st) as [? []].
Qed.

(** What a frame makes the reader send is what it asks, or a part of it. *)
Lemma on_frame_sends tx f st st' e :
  on_frame tx f st = (st', e) ->
  match e with
  | None => closes [f] = false /\ newly st st' tx = commands_of [f]
  | Some _ => newly st st' tx `prefix_of` commands_of [f]
  end.
Proof.
  intros Ef. pose proof (on_frame_spec tx f [] st) as Hs. rewrite Ef in Hs. destruct e as [e|].
  - destruct Hs as (p & q & -> & Hc & _). rewrite (newly_app _ _ _ _ Hc). by apply prefix_app_r.
  - destruct Hs as (Hcl & p & Hp & Hc). rewrite (newly_app _ _ _ _ Hc), Hp, app_nil_r. done.
Qed.

Lemma reader_tracked h log n d d' :
  tracked h log d -> reader_turn n d = Some d' -> exists log', tracked h log' d'.
Proof.
  intros Ht. unfold reader_turn. destruct (conns d !! n) as [c|] eqn:Ec; [|done].
  pose proof (tracked_conn _ _ _ Ht n c Ec) as Hc. destruct c as [| | |rs dec tx out wh|]; try done.
  destruct Hc as (first & fs & o & Hr & Hcl & Hp & (req & Hj & Hask) & Hoth).
  assert (Hopen : opened (chans d) tx).
  { destruct (tracked_fine _ _ _ Ht tx) as [|E]; [done|]. exfalso. revert Hask.
    rewrite <- (tracked_log _ _ _ Ht) in E. apply fmap_nil_inv in E. by rewrite E. }
  destruct (reading_step _ _ _ _ tx (chans d) Hr) as (rs' & dec' & st & e & Es & Hcase). rewrite Es. cbn [mbind option_bind].
  assert (Ha : adds (fun tx' _ => tx' = tx) (chans d) st).
  { eapply (respects_reader (P := adds_since (chans d) (fun tx' _ => tx' = tx))); [exact Es|done..|apply Ht]. }
  assert (Hnew : forall sh tx', (forall t, sh t = share n (log t) ++ newly (chans d) st t) -> tx' <> tx -> sh tx' = []).
  { intros sh tx' Hsh Hne. rewrite Hsh, Hoth by done. destruct (adds_newly _ _ _ tx' Ha) as [_ Hx].
    by destruct (newly (chans d) st tx'); inversion Hx. }
  assert (Hsame : st = chans d -> forall sh tx', (forall t, sh t = share n (log t) ++ newly (chans d) st t) -> sh tx' = share n (log tx')).
  { intros -> sh tx' Hsh. rewrite Hsh, (adds_nothing _ _ tx'), app_nil_r; [done|]. apply adds_refl, Ht. }
  destruct Hcase as [(f & Ef & Hr')|[(-> & He & Hr')|(-> & x & -> & Hx & _)]].
  - symmetry in Ef. pose proof (on_frame_sends _ _ _ _ _ Ef) as Hn. pose proof (on_frame_end tx f (chans d)) as Hw.
    rewrite Ef in Hw. cbn [snd] in Hw.
    assert (Hall : commands_of (fs ++ [f]) = commands_of fs ++ commands_of [f]) by (by rewrite commands_of_app, Hcl).
    destruct e as [e|].
    + assert (Hc : exists log', tracked h log' (hang_up n tx out wh (with_chans st d))).
      { eapply hang_up_tracked; [done|exact Ha|]. intros sh Hsh. right. destruct Hr' as [_ _ Hb].
        eexists tx, o, first, (fs ++ [f]), _, _. split; [exact Hb|]. split; [exists req; split; [done|reflexivity]|].
        split; [|intros tx' Hne; by eapply Hnew]. rewrite Hsh, Hask, Hall. cbn [app]. apply prefix_cons. by apply prefix_app. }
      destruct e; intros [= <-]; done.
    + intros [= <-]. eapply send_tracked; [done|exact Ha|]. intros sh Hsh. destruct Hn as [Hf Hn].
      exists first, (fs ++ [f]), o. split; [exact Hr'|]. split; [by rewrite closes_app, Hcl, Hf|]. split; [done|].
      split; [|intros tx' Hne; by eapply Hnew]. exists req. split; [done|]. by rewrite Hsh, Hask, Hall, Hn.
  - assert (Hc : exists log', tracked h log' (set_conn n (Attached rs' dec' tx out wh) (with_chans (chans d) d))).
    { eapply send_tracked; [done|exact Ha|]. intros sh Hsh. exists first, fs, o. split; [done|]. split; [done|]. split; [done|].
      split; [exists req; split; [done|]; by rewrite (Hsame eq_refl sh tx Hsh)|]. intros tx' Hne. by eapply Hnew. }
    destruct He as [-> | ->]; intros [= <-]; done.
  - assert (Hc : exists log', tracked h log' (hang_up n tx out wh (with_chans (chans d) d))).
    { eapply hang_up_tracked; [done|exact Ha|]. intros sh Hsh. apply (said_closed _ _ _ (Attached rs dec tx out wh)). exists first, fs, o.
      split; [exact Hr|]. split; [done|]. split; [done|]. split; [exists req; split; [done|]; by rewrite (Hsame eq_refl sh tx Hsh)|].
      intros tx' Hne. by eapply Hnew. }
    destruct x; intros [= <-]; done.
Qed.

(** What the writer does, nobody hears. *)
Lemma writer_tracked h log n d d' :
  tracked h log d -> writer_turn n d = Some d' -> exists log', tracked h log' d'.
Proof.
  intros Ht. unfold writer_turn. destruct (conns d !! n) as [c|] eqn:Ec; [|done].
  pose proof (tracked_conn _ _ _ Ht n c Ec) as Hc. destruct c as [| | |rs dec tx out wh|]; try done.
  assert (Hpair : exists o, paired o out) by (destruct Hc as (_ & _ & o & _ & _ & Hp & _); by exists o).
  destruct Hpair as [o Hp]. destruct (recv_frame out (chans d)) as [[st f]|] eqn:Er; cbn [mbind option_bind]; [|done].
  pose proof (adds_moves none _ _ _ _ _ (proj1 (flow_recv_frame _ _ _ _ _ Hp Er)) (tracked_fine _ _ _ Ht)) as Ha.
  assert (Hsame : forall sh, (forall t, sh t = share n (log t) ++ newly (chans d) st t) ->
    said (h n) sh (Attached rs dec tx out wh)).
  { intros sh Hsh. assert (E : forall t, sh t = share n (log t)) by (intros t; by rewrite Hsh, (adds_nothing _ _ t Ha), app_nil_r).
    cbn [said] in *. setoid_rewrite E. exact Hc. }
  assert (Hover : forall wh', exists log', tracked h log' (hang_up n tx out wh' (with_chans st d))).
  { intros wh'. eapply hang_up_tracked; [done|exact Ha|]. intros sh Hsh. eapply said_closed, Hsame, Hsh. }
  destruct f as [f|]; [|intros [= <-]; apply Hover].
  destruct (write_all (encode f) wh) as [wh' [x|x]]; intros [= <-]; [|apply Hover].
  eapply send_tracked; [done|exact Ha|]. exact Hsame.
Qed.

(** ** The session tasks *)

Lemma open_tracked h log k registered d d' :
  tracked h log d -> open_task k registered d = Some d' -> tracked h log d'.
Proof.
  intros Ht. unfold open_task. destruct (tasks d !! k) as [[spec rx|id a rx|a rx]|]; try done.
  assert (Hd : adds none (chans d) (drop_cmd_rx rx (chans d))) by (eapply adds_moves; [apply flow_drop_cmd_rx|apply Ht]).
  assert (Hf : forall w, tracked h log (end_task k (with_chans (drop_cmd_rx rx (chans d)) (with_machine w
                (with_registry (remove (session_id spec) (registry d)) d))))).
  { intros w. eapply tracked_still; [done|exact Hd| |done]. apply entries_remove. eapply entries_adds; [apply Ht|exact Hd]. }
  destruct (Session.open _ _ _ _ _ _) as [w [[s|e]|]]; try (intros [= <-]; apply Hf).
  destruct registered; intros [= <-]; (eapply tracked_still; [done|by apply adds_refl, Ht| |done]); [apply Ht|].
  apply entries_remove, Ht.
Qed.

Lemma turn_tracked h log k fuel readable tick d d' :
  matched (view d) -> tracked h log d -> actor_turn opts k fuel readable tick d = Some d' -> tracked h log d'.
Proof.
  intros Hm Ht. unfold actor_turn. destruct (tasks d !! k) as [[spec rx|id a rx|a rx]|] eqn:Ek; try done.
  destruct (task_named _ Hm k id rx) as (tx & _ & Hl); [by apply (live_at d k _ Ek)|].
  destruct (poll_cmd rx (chans d)) as [st cmd] eqn:Ep.
  assert (Hp : adds none (chans d) st).
  { unfold poll_cmd in Ep. destruct (recv_cmd rx (chans d)) as [[st1 c]|] eqn:Er; [|injection Ep as <- _; by apply adds_refl, Ht].
    injection Ep as <- _. eapply adds_moves; [apply (flow_recv_cmd _ _ _ _ _ Hl Er)|apply Ht]. }
  destruct (select _ _ _ _ _ _) as [[[flow w] st']|] eqn:Es; cbn [mbind option_bind]; [|done].
  destruct (respects_select (X := fun _ => True) (P := adds_since (chans d) none) _ _ _ _ _ _ _ _ _ Es
    ltac:(by intros ?) ltac:(done) ltac:(done)) as [Hs _].
  assert (Ha : adds none (chans d) st').
  { eapply adds_trans; [exact Hp|]. apply Hs; [apply Hp|apply Hp]. }
  pose proof (entries_adds _ _ _ _ (tracked_entries _ _ _ Ht) Ha) as He.
  destruct flow; intros [= <-]; (eapply tracked_still; [done|exact Ha| |done]); [exact He|by apply entries_remove].
Qed.

Lemma finish_tracked h log k d d' : tracked h log d -> finish_task k d = Some d' -> tracked h log d'.
Proof.
  intros Ht. unfold finish_task. destruct (tasks d !! k) as [[spec rx|id a rx|a rx]|]; try done.
  pose proof (respects_drop_actor (P := adds_since (chans d) none) a (machine d) (chans d) (fun _ Ho => Ho) (tracked_fine _ _ _ Ht)) as Ha.
  destruct (drop_actor a _ _) as [w st]. cbn [snd] in Ha. intros [= <-].
  assert (Hall : adds none (chans d) (drop_cmd_rx rx st)) by (eapply adds_trans; [exact Ha|eapply adds_moves; [apply flow_drop_cmd_rx|apply Ha]]).
  eapply tracked_still; [done|exact Hall| |done]. eapply entries_adds; [apply Ht|exact Hall].
Qed.

(** ** Any run *)

Lemma tracked_ext h h' log d : (forall n, h' n = h n) -> tracked h log d -> tracked h' log d.
Proof.
  intros Hh [T1 T2 T3 T4 T5]. split; [done|done|done| |].
  - intros n c Hc. rewrite Hh. by apply T4.
  - intros n Hn. rewrite Hh. by apply T5.
Qed.

Lemma tracked_step h log e d d' :
  matched (view d) -> tracked h log d -> step opts version me e d = Some d' ->
  exists log', tracked (fun m => h m ++ match e with Arrive n r => if decide (n = m) then [r] else [] | _ => [] end) log' d'.
Proof.
  intros Hm Ht Hs.
  assert (Hq : (forall n r, e <> Arrive n r) -> (exists log', tracked h log' d') ->
    exists log', tracked (fun m => h m ++ match e with Arrive n r => if decide (n = m) then [r] else [] | _ => [] end) log' d').
  { intros Hne [log' Hl]. exists log'. eapply tracked_ext; [|exact Hl]. intros n. destruct e; try by rewrite app_nil_r.
    by destruct (Hne n0 r). }
  assert (Hsame : chans d' = chans d -> sessions (registry d') = sessions (registry d) -> conns d' = conns d ->
    exists log', tracked h log' d').
  { intros E1 E2 E3. exists log. eapply tracked_still; [done| | |done]; rewrite E1; [apply adds_refl, Ht|].
    intros id tx. rewrite E2. apply Ht. }
  destruct e as [n a|n r|n k|n|n|n|n|k b|k fuel b t|k| |t|w]; cbn [step] in Hs.
  2: by eapply arrive_tracked.
  all: apply Hq; [done|].
  - by eapply accept_tracked.
  - by eapply greet_tracked.
  - by eapply serve_tracked.
  - by eapply list_tracked.
  - by eapply reader_tracked.
  - by eapply writer_tracked.
  - exists log. by eapply open_tracked.
  - exists log. by eapply turn_tracked.
  - exists log. by eapply finish_tracked.
  - unfold watch_turn in Hs. destruct (Idle.watch_step _ _ _ _) as [[r w]|] eqn:Ew; cbn [mbind option_bind] in Hs; [|done].
    injection Hs as <-. apply Idle.watch_sessions in Ew as [Ew _]. by apply Hsame.
  - injection Hs as <-. by apply Hsame.
  - injection Hs as <-. by apply Hsame.
Qed.

Lemma tracked_run max st w es d :
  (forall tx, commands st tx = []) -> run opts version me es (start max st w) = Some d ->
  exists log, tracked (fun n => heard n es) log d.
Proof.
  intros Hst. revert d. induction es as [|e es IH] using rev_ind; intros d.
  { intros [= <-]. exists (fun _ => []). split; [|done| |done|done].
    - intros tx. right. apply Hst.
    - intros tx. cbn [chans start]. by rewrite Hst. }
  rewrite run_snoc. destruct (run opts version me es (start max st w)) as [d1|] eqn:Er; cbn [mbind option_bind]; [|done].
  intros Hs. destruct (IH d1 eq_refl) as [log Ht].
  destruct (tracked_step _ _ _ _ _ (matched_run _ _ _ (refines_run _ _ _ _ _ _ _ _ Er)) Ht Hs) as [log' Hl].
  exists log'. eapply tracked_ext; [|exact Hl]. intros n. apply heard_snoc.
Qed.
End tracking.

(** C9: what the clients type reaches their sessions, through the whole daemon. In
    any run, every command a session's channel took has a sender, and the share of
    a client is the attach with the size, the history and the queue of its own
    connection, and then the commands of the frames it has sent, in their order,
    each once and to this session only, however its reads were cut and whatever
    the other connections send in between: all those of the frames the reader has
    taken, the rest being in its buffer or unread. A connection that is over has
    sent a part of it, up to some command, or, if it asked for no session,
    requests for the LIST at most. *)
Theorem clients_interleave `{Engine, Os} {T : Tokio} {L : ChannelLaws} {C : CommandLaws} {R : Receivers}
    {F : Traffic} {FL : TrafficLaws} `{Stream}
    `{!Json StatusMsg, !Json ExitMsg, !Json Hello, !Json (list SessionInfo), !Json AttachOrOpen,
      !Json Protocol.Resize, !Json CloseMsg} opts version me max st w es d :
  (forall tx, commands st tx = []) -> run opts version me es (start max st w) = Some d ->
  exists log : cmd_tx -> list (nat * SessionCommand frame_tx reply_tx),
    (forall tx, (log tx).*2 = commands (chans d) tx) /\
    (forall n rs dec tx out wh, conns d !! n = Some (Attached rs dec tx out wh) ->
       exists o first taken left_ rest e, paired o out /\
         frames (received (heard n es)) = (first :: taken ++ left_, rest, e) /\
         frames (unread dec ++ received rs) = (left_, rest, e) /\ closes taken = false /\
         asks o first taken (share n (log tx)) /\ forall tx', tx' <> tx -> share n (log tx') = []) /\
    (forall n wh, conns d !! n = Some (Closed wh) ->
       (forall tx, Forall is_info (share n (log tx))) \/
       exists tx o first fs rest e cs, frames (received (heard n es)) = (first :: fs, rest, e) /\
         asks o first fs cs /\ share n (log tx) `prefix_of` cs /\
         forall tx', tx' <> tx -> share n (log tx') = []).
Proof.
  intros Hst Hr. destruct (tracked_run _ _ _ _ _ _ _ _ Hst Hr) as [log Ht]. exists log. split; [apply Ht|]. split.
  - intros n rs dec tx out wh Hc. apply (tracked_conn _ _ _ Ht) in Hc as (first & fs & o & Hrd & Hcl & Hp & Ha & Ho).
    destruct (reading_frames _ _ _ _ Hrd) as (fs' & r & e & E1 & E2). exists o, first, fs, fs', r, e. done.
  - intros n wh Hc. apply (tracked_conn _ _ _ Ht) in Hc as [Hi|(tx & o & first & fs & rest & cs & Hb & (req & Hj & ->) & Hp & Ho)];
      [by left|right]. pose proof (consumed_frames _ _ _ Hb) as E. destruct (frames rest) as [[fs' r] e]. cbn [fst snd] in E.
    eexists tx, o, first, (fs ++ fs'), r, e, _. split; [exact E|]. split; [by exists req|]. split; [|done].
    etrans; [exact Hp|]. apply prefix_cons. rewrite commands_of_app. destruct (closes fs); [done|by apply prefix_app_r].
Qed.
