(* ===== verification/Requests.v ===== *)
(** The requests of a LIST, through any event of the daemon.

    The replies of the sessions travel through their own channels while the rest
    of the daemon goes on. [hush] follows them: which requests there are, and what
    each was answered; [spares_reply] says which are not lost. [settled] collects what
    holds at any moment of a run. *)
From S2P Require Import Prelude Status Engine Pty Protocol Registry Server Actor Connection.
From S2P Require Import Stores Syscalls Daemon DaemonProps Steps Terminal Intake Senders.
From S2P Require Session Idle.

(** * The replies, through one operation *)

Section replies.
Context {T : Tokio} {L : ChannelLaws} {C : CommandLaws} {R : Receivers} {F : Traffic} {FL : TrafficLaws}.
Context {P : Replies} {PL : ReplyLaws}.

(** The requests sent in between are new, and what is answered in between is in [Y]. *)
Record hush (Y : reply_rx -> SessionInfo -> Prop) (st st' : store) : Prop := mkHush {
  hush_asked tx r : Info r ∈ commands st' tx -> Info r ∈ commands st tx \/ (~ issued st r /\ issued st' r);
  hush_issued r : issued st r -> issued st' r;
  hush_opened tx : opened st tx -> opened st' tx;
  hush_replied rx i : replied st' rx i -> replied st rx i \/ Y rx i
}.

#[export] Instance hush_pre Y : PreOrder (hush Y).
Proof.
  split; [intros st; split; auto|]. intros a b c [A1 A2 A3 A4] [B1 B2 B3 B4]. split; [|auto..|].
  - intros tx r [Hb|[Hn Hi]]%B1; [destruct (A1 _ _ Hb) as [|[? ?]]; auto|right; auto].
  - intros rx i [Hb|?]%B4; auto.
Qed.

Lemma hush_moves Y (a : frame_tx -> Prop) h d st st' : moves a nothing h d st st' -> answers_nobody st st' -> hush Y st st'.
Proof.
  intros [A1 A2 A3 A4 A5 A6] [B1 B2]. split; [|done|done|auto].
  intros tx r. rewrite A2 by (by intros []). auto.
Qed.

(** Any command: a request is one that was not issued. *)
Lemma hush_send Y base tx c st :
  (forall r, c = Info r -> ~ issued base r /\ issued st r) -> hush Y base st -> hush Y base (send_cmd tx c st).1.
Proof.
  intros Hc [A1 A2 A3 A4]. pose proof (nobody_send_cmd tx c st) as [B1 B2].
  destruct (flow_send_cmd tx c st) as [_ Hcm _ _ _ Ho]. split; [|auto..].
  - intros tx' r Hin. assert (Hx : Info r ∈ commands st tx' \/ c = Info r).
    { destruct (decide (tx = tx')) as [<-|Hne]; [|left; by rewrite Hcm in Hin].
      destruct (send_cmd tx c st) as [st' []] eqn:Es; cbn [fst] in Hin.
      - rewrite (cmd_accepted _ _ _ _ Es) in Hin. apply elem_of_app in Hin as [|Hin%list_elem_of_singleton]; auto.
      - left. by rewrite <- (cmd_refused _ _ _ _ Es). }
    destruct Hx as [Hx|Hx]; [destruct (A1 _ _ Hx) as [|[? ?]]; auto|]. destruct (Hc r Hx). right. auto.
Qed.

Lemma hush_oneshot Y st : hush Y st (oneshot st).1.
Proof.
  destruct (oneshot st) as [st' [r rx]] eqn:E. destruct (oneshot_new _ _ _ _ E) as (_ & _ & _ & Ha).
  eapply hush_moves; [|exact Ha]. pose proof (flow_oneshot st) as Hm. rewrite E in Hm. exact Hm.
Qed.

Lemma hush_channel Y n st : hush Y st (cmd_channel n st).1.
Proof.
  pose proof (nobody_cmd_channel n st) as [B1 B2]. pose proof (cmd_new n st) as Hn.
  destruct (cmd_channel n st) as [st' [tx rx]] eqn:E. destruct (flow_cmd_channel _ _ _ _ _ E) as ([_ Hcm _ _ _ Ho] & _).
  cbn [fst snd] in *. split; [|auto..]. intros tx' r Hin. left.
  destruct (decide (tx = tx')) as [<-|Hne]; [rewrite Hn in Hin; by apply elem_of_nil in Hin|by rewrite Hcm in Hin].
Qed.

#[export] Instance hush_respected Y :
  Respected (fun _ => True) (fun _ c => ~ is_info c) (fun r i => forall rx, twins r rx -> Y rx i) (hush Y).
Proof.
  split.
  - apply hush_pre.
  - intros tx f st _. eapply hush_moves; [apply flow_try_send|apply nobody_try_send].
  - intros tx c st Hc. apply hush_send; [|done]. intros r ->. destruct Hc. by exists r.
  - intros n st. pose proof (nobody_frame_channel n st) as Hn. destruct (frame_channel n st) as [st' [tx rx]] eqn:E.
    by eapply hush_moves; [eapply flow_frame_channel|].
  - intros n st. apply hush_channel.
  - intros st. apply hush_oneshot.
  - intros r i st Hi. destruct (reply_sent r i st) as [B1 B2]. destruct (flow_reply r i st) as [_ Hcm _ _ _ Ho].
    split; [|auto..]; [intros tx x; rewrite Hcm by (by intros []); auto|].
    intros rx j [|[Ht ->]]%B2; auto.
  - intros tx st. eapply hush_moves; [apply flow_drop_tx|apply nobody_drop_tx].
  - intros rx st. eapply hush_moves; [apply flow_drop_frame_rx|apply nobody_drop_frame_rx].
  - intros rx st st' i E. eapply hush_moves; [by eapply flow_recv_reply|by eapply nobody_recv_reply].
  - intros rx st. eapply hush_moves; [apply flow_drop_reply_rx|apply nobody_drop_reply_rx].
  - intros tx st. eapply hush_moves; [apply flow_drop_cmd_tx|apply nobody_drop_cmd_tx].
Qed.

#[export] Instance hush_forgotten Y : Forgotten (hush Y).
Proof. intros rx st. eapply hush_moves; [apply flow_drop_cmd_rx|apply nobody_drop_cmd_rx]. Qed.

(** A reply [rx] that session [id], behind [tx], was asked for, and nobody else. *)
Record asked (tx : cmd_tx) (rx : reply_rx) (r : reply_tx) (st : store) : Prop := mkAsked {
  asked_twins : twins r rx;
  asked_issued : issued st r;
  asked_only tx' : Info r ∈ commands st tx' -> tx' = tx
}.

Lemma asked_hush Y tx rx r st st' : asked tx rx r st -> hush Y st st' -> asked tx rx r st'.
Proof. intros [A1 A2 A3] [B1 B2 B3 B4]. split; [done|auto|]. intros tx' [Hi|[Hn _]]%B1; [auto|done]. Qed.

(** Every request in a channel is one that was issued. *)
Definition known (st : store) : Prop := forall tx r, Info r ∈ commands st tx -> issued st r.

Lemma known_hush Y st st' : known st -> hush Y st st' -> known st'.
Proof. intros Hk [B1 B2 B3 B4] tx r [Hi|[_ Hi]]%B1; [by eapply B2, Hk|done]. Qed.

(** One request of a LIST. *)
Lemma request_one tx st st1 r rx :
  known st -> oneshot st = (st1, (r, rx)) ->
  let st2 := (send_cmd tx (Info r) st1).1 in
  hush (fun _ _ => False) st st2 /\ asked tx rx r st2 /\ ~ issued st r /\ forall i, ~ replied st2 rx i.
Proof.
  intros Hk Eo. destruct (oneshot_new _ _ _ _ Eo) as (Hn & Hi & Hr & _).
  pose proof (hush_oneshot (fun _ _ => False) st) as Ho. rewrite Eo in Ho. cbn [fst] in Ho. cbv zeta.
  destruct (nobody_send_cmd tx (Info r) st1) as [B1 B2]. split; [|split_and!; [|done|by intros i Hx%B2; apply (Hr i)]].
  - apply hush_send; [|done]. by intros r' [= <-].
  - split; [by exists st; rewrite Eo|auto|]. intros tx' Hin. destruct (decide (tx = tx')) as [|Hne]; [done|].
    rewrite (still_commands _ _ _ _ _ _ (flow_send_cmd tx (Info r) st1)) in Hin by done. destruct Hn.
    pose proof (flow_oneshot st) as Hm. rewrite Eo in Hm. rewrite (still_commands _ _ _ _ _ _ Hm) in Hin by (by intros []).
    by eapply Hk.
Qed.

Context {LS : Losses} {LL : LossLaws}.

(** The reply [rx] that [r] sends is not lost in between. *)
Definition spares_reply (r : reply_tx) (rx : reply_rx) (st st' : store) : Prop :=
  hush (fun _ _ => True) st st' /\ (issued st r -> lost st' rx -> lost st rx).

Lemma spares_none r rx st st' : hush (fun _ _ => True) st st' -> loses_none st st' -> spares_reply r rx st st'.
Proof. intros Hh Hl. split; [done|]. intros _. apply Hl. Qed.

#[export] Instance spares_reply_pre r rx : PreOrder (spares_reply r rx).
Proof.
  split; [intros st; split; [done|auto]|]. intros a b c [A1 A2] [B1 B2]. split; [by etrans|].
  intros Hi Hl. apply A2, B2; [done| |done]. by apply (hush_issued _ _ _ A1).
Qed.

#[export] Instance spares_reply_respected r rx :
  Respected (fun _ => True) (fun _ c => ~ is_info c) (fun _ _ => True) (spares_reply r rx).
Proof.
  split.
  - apply spares_reply_pre.
  - intros tx f st _. apply spares_none; [by apply (respects_try (P := hush _))|apply loses_try_send].
  - intros tx c st Hc. split; [by apply (respects_send (P := hush _))|].
    intros _ [Hl|(_ & r' & -> & _)]%lost_send; [done|]. destruct Hc. by exists r'.
  - intros n st. apply spares_none; [apply (respects_frames (P := hush _))|apply loses_frame_channel].
  - intros n st. apply spares_none; [apply (respects_commands (P := hush _))|apply loses_cmd_channel].
  - intros st. apply spares_none; [apply (respects_oneshot (P := hush _))|apply loses_oneshot].
  - intros r' i st _. apply spares_none; [by apply (respects_reply (P := hush _))|apply loses_reply].
  - intros tx st. apply spares_none; [apply (respects_drop (P := hush _))|apply loses_drop_tx].
  - intros rx' st. apply spares_none; [apply (respects_drop_frame_rx (P := hush _))|apply loses_drop_frame_rx].
  - intros rx' st st' i E. apply spares_none; [by eapply (respects_recv_reply (P := hush _))|by eapply loses_recv_reply].
  - intros rx' st. apply spares_none; [apply (respects_drop_reply_rx (P := hush _))|apply loses_drop_reply_rx].
  - intros tx st. apply spares_none; [apply (respects_drop_cmd_tx (P := hush _))|apply loses_drop_cmd_tx].
Qed.

(** A request that the end of a task may lose was in the channel of that task. *)
Lemma spares_drop_cmd_rx r rx tx rx0 st :
  twins r rx -> linked tx rx0 -> Info r ∉ commands st tx -> spares_reply r rx st (drop_cmd_rx rx0 st).
Proof.
  intros Ht Hl Hn. split; [apply (respects_drop_cmd_rx (P := hush _))|]. intros _ Hx.
  destruct (lost_drop_cmd_rx _ _ _ _ Hl Hx) as [|(r' & Ht' & Hi)]; [done|]. by rewrite (twins_one _ _ _ Ht' Ht) in Hi.
Qed.

(** One request: it loses no other. *)
Lemma request_spares tx st st1 r rx r' rx' :
  known st -> oneshot st = (st1, (r, rx)) -> issued st r' -> twins r' rx' -> lost (send_cmd tx (Info r) st1).1 rx' -> lost st rx'.
Proof.
  intros Hk Eo Hi Ht Hl. apply lost_send in Hl as [Hl|(_ & r2 & [= <-] & Ht2)].
  - pose proof (loses_oneshot st) as Ho. rewrite Eo in Ho. by apply Ho.
  - rewrite (twins_one _ _ _ Ht2 Ht) in Eo. by destruct (oneshot_new _ _ _ _ Eo) as [Hn _].
Qed.

Lemma request_kept tx st st1 r rx :
  known st -> oneshot st = (st1, (r, rx)) -> (send_cmd tx (Info r) st1).2 = true -> ~ lost (send_cmd tx (Info r) st1).1 rx.
Proof.
  intros Hk Eo Hs [Hl|(Hf & _)]%lost_send; [|congruence]. destruct (oneshot_new _ _ _ _ Eo) as [Hn _].
  apply (lost_new _ _ _ _ Eo) in Hl; [done|]. intros tx' Hi. by apply Hn, (Hk tx').
Qed.

Lemma request_infos_keep hs st r rx :
  known st -> issued st r -> twins r rx -> lost (request_infos hs st).1 rx -> lost st rx.
Proof.
  revert st. induction hs as [|[id tx] hs IH]; intros st Hk Hi Ht; [done|]. cbn [request_infos].
  destruct (oneshot st) as [st1 [r1 rx1]] eqn:Eo. destruct (request_one tx st st1 r1 rx1 Hk Eo) as (Hh & _).
  pose proof (request_spares tx _ _ _ _ _ _ Hk Eo Hi Ht) as Hs. destruct (send_cmd tx (Info r1) st1) as [st2 b].
  cbn [fst] in *. specialize (IH st2 (known_hush _ _ _ Hk Hh) (hush_issued _ _ _ Hh _ Hi) Ht).
  destruct (request_infos hs st2) as [st3 rxs3]. intros Hl. by apply Hs, IH.
Qed.

Lemma request_infos_others hs st tx : tx ∉ hs.*2 -> commands (request_infos hs st).1 tx = commands st tx.
Proof.
  revert st. induction hs as [|[id t] hs IH]; intros st Hn; [done|]. cbn [request_infos].
  apply not_elem_of_cons in Hn as [Hne Hn]. destruct (oneshot st) as [st1 [r rx]] eqn:Eo.
  pose proof (flow_oneshot st) as Ho. rewrite Eo in Ho.
  pose proof (still_commands _ _ _ _ _ _ (flow_send_cmd t (Info r) st1) tx ltac:(intros E; by apply Hne)) as Hs.
  destruct (send_cmd t (Info r) st1) as [st2 b]. specialize (IH st2 Hn). destruct (request_infos hs st2) as [st3 rxs].
  cbn [fst] in *. rewrite IH, Hs. apply (still_commands _ _ _ _ _ _ Ho). by intros [].
Qed.

(** A reply that was asked for, of [tx], and has neither come nor been lost. *)
Definition pending (tx : cmd_tx) (rx : reply_rx) (st : store) : Prop :=
  exists r, asked tx rx r st /\ (forall i, ~ replied st rx i) /\ ~ lost st rx.

Lemma request_infos_hush hs st : known st -> hush (fun _ _ => False) st (request_infos hs st).1.
Proof.
  revert st. induction hs as [|[id t] hs IH]; intros st Hk; [done|]. cbn [request_infos].
  destruct (oneshot st) as [st1 [r1 rx1]] eqn:Eo. destruct (request_one t st st1 r1 rx1 Hk Eo) as (Hh & _).
  destruct (send_cmd t (Info r1) st1) as [st2 b]. cbn [fst] in *. specialize (IH st2 (known_hush _ _ _ Hk Hh)).
  destruct (request_infos hs st2) as [st3 rxs3]. by etrans.
Qed.

Lemma pending_keep tx rx hs st : known st -> pending tx rx st -> pending tx rx (request_infos hs st).1.
Proof.
  intros Hk (r & Ha & Hr & Hl). pose proof (request_infos_hush hs st Hk) as Hh.
  exists r. split; [by eapply asked_hush|]. split; [by intros i [Hi|[]]%(hush_replied _ _ _ Hh); apply (Hr i)|].
  intros Hx. by apply Hl, (request_infos_keep hs _ r), Hx; [|apply Ha..].
Qed.

(** The requests of a LIST: one to each session at most, each new, and one to each
    session whose channel takes it. *)
Lemma request_infos_spec hs st st' rxs :
  known st -> request_infos hs st = (st', rxs) ->
  exists ws : list (string * cmd_tx), sublist ws hs /\ Forall2 (fun q p => q.1 = p.1 /\ pending q.2 p.2 st') ws rxs /\
    (NoDup hs.*2 -> forall q, q ∈ hs -> commands st' q.2 <> commands st q.2 -> q ∈ ws).
Proof.
  revert st st' rxs. induction hs as [|[id tx] hs IH]; intros st st' rxs Hk.
  { intros [= <- <-]. exists []. split; [done|]. split; [constructor|]. by intros _ q Hq%elem_of_nil. }
  cbn [request_infos].
  destruct (oneshot st) as [st1 [r rx]] eqn:Eo. destruct (request_one tx st st1 r rx Hk Eo) as (Hh & Ha & _ & Hr).
  pose proof (request_kept tx st st1 r rx Hk Eo) as Hkept.
  pose proof (flow_oneshot st) as Ho. rewrite Eo in Ho. pose proof (flow_send_cmd tx (Info r) st1) as Hs.
  destruct (send_cmd tx (Info r) st1) as [st2 b] eqn:Es. cbn [fst snd] in *. pose proof (known_hush _ _ _ Hk Hh) as Hk2.
  pose proof (pending_keep tx rx hs st2 Hk2) as Hp. pose proof (request_infos_others hs st2) as Hoth.
  destruct (request_infos hs st2) as [st3 rxs3] eqn:Er. cbn [fst] in *. intros [= <- <-].
  destruct (IH _ _ _ Hk2 Er) as (ws & Hsub & Hall & Hin).
  assert (Hold : NoDup (tx :: hs.*2) -> forall q, q ∈ hs -> commands st3 q.2 <> commands st q.2 -> q ∈ ws).
  { intros [Hn Hd]%NoDup_cons q Hq Hne. apply Hin; [done..|]. intros E. apply Hne. rewrite E.
    rewrite (still_commands _ _ _ _ _ _ Hs); [apply (still_commands _ _ _ _ _ _ Ho); by intros []|].
    intros E2. apply Hn. rewrite E2. by apply list_elem_of_fmap_2. }
  destruct b.
  - exists ((id, tx) :: ws). split; [by apply sublist_skip|]. split.
    + constructor; [|done]. split; [done|]. apply Hp. exists r. split; [done|]. split; [done|]. by apply Hkept.
    + intros Hd q [->|Hq]%elem_of_cons Hne; [by left|right; by apply Hold].
  - exists ws. split; [by apply sublist_cons|]. split; [done|].
    intros Hd q [->|Hq]%elem_of_cons Hne; [|by apply Hold]. destruct Hne. cbn [snd] in *.
    rewrite Hoth by (by apply NoDup_cons in Hd as [Hn _]). rewrite (cmd_refused _ _ _ _ Es).
    apply (still_commands _ _ _ _ _ _ Ho). by intros [].
Qed.
End replies.

(** * The replies, through one event *)

Section events.
Context `{Engine, Os}.
Context {T : Tokio} {L : ChannelLaws} {C : CommandLaws} {R : Receivers} {F : Traffic} {FL : TrafficLaws}.
Context {P : Replies} {PL : ReplyLaws}.
Context `{Stream}.
Context `{!Json StatusMsg, !Json ExitMsg, !Json Hello, !Json (list SessionInfo), !Json AttachOrOpen,
          !Json Protocol.Resize, !Json CloseMsg}.
Context (opts : ServerOpts) (version : list byte) (me : u32).

(** What is answered in the event [e] is in [Y]. *)
Definition answering (Y : reply_rx -> SessionInfo -> Prop) (e : event) (d : Daemon) : Prop :=
  forall k fuel b t id a rx r, e = ActorTurn k fuel b t -> tasks d !! k = Some (Running id a rx) ->
    (poll_cmd rx (chans d)).2 = Some (Some (Info r)) -> forall rx', twins r rx' -> Y rx' (described a (machine d)).

Lemma step_hush Y h lg e d d' :
  tracked h lg d -> matched (view d) -> known (chans d) -> answering Y e d -> step opts version me e d = Some d' ->
  hush Y (chans d) (chans d').
Proof.
  intros Ht Hm Hk Ha. apply (step_follows (P := hush Y)). split; try by intros; intros [].
  - intros n _. destruct (request_infos_hush (handles (registry d)) _ Hk) as [A1 A2 A3 A4]. split; [done..|].
    intros rx i Hi. destruct (A4 rx i Hi) as [|[]]; by left.
  - intros n rs dec tx out wh st f _ Hc Hr. destruct (tracked_conn _ _ _ Ht n _ Hc) as (_ & _ & o & _ & _ & Hp & _).
    eapply hush_moves; [apply (flow_recv_frame _ _ _ _ _ Hp Hr)|by eapply nobody_recv_frame].
  - intros k fuel b t id a rx _ Ek. destruct (task_named _ Hm k id rx) as (tx & _ & Hl); [by apply (live_at d k _ Ek)|].
    unfold poll_cmd. destruct (recv_cmd rx (chans d)) as [[st1 c]|] eqn:Er; [|done].
    eapply hush_moves; [apply (flow_recv_cmd _ _ _ _ _ Hl Er)|by eapply nobody_recv_cmd].
  - intros k fuel b t id a rx r He Ek Hp rx'. by eapply Ha.
  - apply forgets_ended.
Qed.

(** ** The table *)

(** An entry of the table is an old one, or a new one, with a new channel. *)
Definition newer (st : store) (m m' : gmap string cmd_tx) : Prop :=
  exists x, forall id tx, m' !! id = Some tx -> m !! id = Some tx \/ (x = Some id /\ ~ opened st tx).

Lemma newer_same st m : newer st m m.
Proof. exists None. auto. Qed.

Lemma newer_remove st id r : newer st (sessions r) (sessions (remove id r)).
Proof. exists None. intros i tx. cbn [remove sessions]. intros [_ Hx]%lookup_delete_Some. by left. Qed.

Lemma handle_newer first rs dec reg st :
  newer st (sessions reg) (sessions (handle_session opts first rs dec reg st).1.1).
Proof.
  unfold handle_session. destruct (json AttachOrOpen first) as [req|]; [|apply newer_same].
  assert (Ha : newer st (sessions reg) (sessions (attach_or_create (session_id req) reg st).1.2)).
  { unfold attach_or_create. destruct (sessions reg !! _) eqn:Er; [apply newer_same|]. destruct (_ <=? _)%N; [apply newer_same|].
    destruct (cmd_channel 256 st) as [st' [tx rx]] eqn:Ec. destruct (flow_cmd_channel _ _ _ _ _ Ec) as (_ & Hn & _).
    exists (Some (session_id req)). intros i t. cbn [fst snd sessions].
    intros [[<- <-]|[_ Hx]]%lookup_insert_Some; [by right|by left]. }
  destruct (attach_or_create _ reg st) as [[st1 reg1] b]. cbn [fst snd] in Ha.
  destruct b as [t|t rx|]; [| |exact Ha]; destruct (frame_channel _ st1) as [st2 [otx orx]];
    destruct (send_cmd t _ st2) as [st3 []]; exact Ha.
Qed.

Lemma greet_newer n k d d' :
  greet opts version n k d = Some d' -> newer (chans d) (sessions (registry d)) (sessions (registry d')).
Proof.
  unfold greet. destruct (conns d !! n) as [[rs dec wh| | | |]|]; try done. destruct (tasks d !! k); [done|].
  destruct (read_one_frame rs dec) as [[[dec' rs'] [f| |e|]]|]; cbn [mbind option_bind]; try done;
    try (intros [= <-]; apply newer_same).
  destruct (ty f); try (intros [= <-]; apply newer_same).
  pose proof (handle_newer f rs' dec' (registry d) (chans d)) as Hh.
  destruct (handle_session _ _ _ _ _ _) as [[reg st] c]. cbn [fst snd] in Hh.
  intros [= <-]. destruct c; try exact Hh; destruct spawned as [[]|]; exact Hh.
Qed.

Lemma step_newer e d d' :
  step opts version me e d = Some d' -> newer (chans d) (sessions (registry d)) (sessions (registry d')).
Proof.
  intros Hs. assert (Hc : view d' = view d -> newer (chans d) (sessions (registry d)) (sessions (registry d'))).
  { intros [= -> _ _ _]. apply newer_same. }
  destruct e as [n a|n r|n k|n|n|n|n|k b|k fuel b t|k| |t|w]; try (apply Hc; eapply refines_conn; [|exact Hs]; done);
    cbn [step] in Hs.
  - by eapply greet_newer.
  - unfold open_task in Hs. destruct (tasks d !! k) as [[spec rx|id a rx|a rx]|]; try done.
    destruct (Session.open _ _ _ _ _ _) as [w [[s|e]|]]; [destruct b|..]; injection Hs as <-;
      first [apply newer_same|apply newer_remove].
  - unfold actor_turn in Hs. destruct (tasks d !! k) as [[spec rx|id a rx|a rx]|]; try done.
    destruct (poll_cmd rx (chans d)). destruct (select _ _ _ _ _ _) as [[[[a'|a'] w] st']|]; cbn [mbind option_bind] in Hs; try done;
      injection Hs as <-; [apply newer_same|apply newer_remove].
  - unfold finish_task in Hs. destruct (tasks d !! k) as [[spec rx|id a rx|a rx]|]; try done.
    destruct (drop_actor a _ _). injection Hs as <-. apply newer_same.
  - unfold watch_turn in Hs. destruct (Idle.watch_step _ _ _ _) as [[r w]|] eqn:Ew; cbn [mbind option_bind] in Hs; [|done].
    injection Hs as <-. apply Idle.watch_sessions in Ew as [Ew _]. cbn [registry]. rewrite Ew. apply newer_same.
  - injection Hs as <-. apply newer_same.
  - injection Hs as <-. apply newer_same.
Qed.

(** No two entries of the table share a channel. *)
Definition apart (m : gmap string cmd_tx) : Prop :=
  forall id id' tx, m !! id = Some tx -> m !! id' = Some tx -> id = id'.

Lemma apart_newer reg st m' : apart (sessions reg) -> entries reg st -> newer st (sessions reg) m' -> apart m'.
Proof.
  intros Hm He [x Hx] id id' tx [Hi|[Hi Hn]]%Hx [Hj|[Hj Hn']]%Hx; [by eapply Hm|..|congruence].
  - destruct Hn'. by eapply He.
  - destruct Hn. by eapply He.
Qed.

(** ** The tasks that end *)

(** A task that ends has ended before, or its entry goes with it. *)
Lemma step_ending e d d' k a rx :
  step opts version me e d = Some d' -> tasks d' !! k = Some (Ending a rx) ->
  tasks d !! k = Some (Ending a rx) \/
  exists id t, tasks d !! k = Some t /\ live t = Some (id, rx) /\ registry d' = remove id (registry d).
Proof.
  intros Hs Hk. destruct (event_of k e) eqn:Ev.
  - destruct e as [| | | | | | |k' b|k' fuel b t|k'| | |]; try done; apply bool_decide_eq_true in Ev as ->; cbn [step] in Hs.
    + unfold open_task in Hs. destruct (tasks d !! k) as [[spec x|id a0 x|a0 x]|]; try done.
      destruct (Session.open _ _ _ _ _ _) as [w [[s|y]|]]; [destruct b|..]; injection Hs as <-;
        cbn [tasks set_task end_task with_tasks with_machine with_registry with_chans] in Hk;
        rewrite ?lookup_insert_eq, ?lookup_delete_eq in Hk; try done.
      injection Hk as _ <-. right. by exists (session_id spec), (Opening spec x).
    + unfold actor_turn in Hs. destruct (tasks d !! k) as [[spec x|id a0 x|a0 x]|]; try done.
      destruct (poll_cmd x (chans d)). destruct (select _ _ _ _ _ _) as [[[[a'|a'] w] st']|]; cbn [mbind option_bind] in Hs; try done;
        injection Hs as <-; cbn [tasks set_task with_tasks with_machine with_registry with_chans] in Hk;
        rewrite lookup_insert_eq in Hk; [done|]. injection Hk as _ <-. right. by exists id, (Running id a0 x).
    + unfold finish_task in Hs. destruct (tasks d !! k) as [[spec x|id a0 x|a0 x]|]; try done.
      destruct (drop_actor a0 _ _). injection Hs as <-. cbn [tasks end_task with_tasks with_machine with_chans] in Hk.
      by rewrite lookup_delete_eq in Hk.
  - left. destruct (step_slot _ _ _ _ _ _ _ Hs Ev) as [E|(_ & spec & x & E)]; congruence.
Qed.

(** ** The identity of a session *)

Lemma session_drain_id fuel s w w' s' r : Session.drain fuel s w = Some (w', s', r) -> Session.id s' = Session.id s.
Proof.
  unfold Session.drain. destruct (Pty.drain _ _ _ _) as [[w1 [d|e]]|]; cbn [mbind option_bind]; [|by intros [= _ <- _]|done].
  destruct (if bool_decide _ then _ else _) as [e|]; cbn [mbind option_bind]; [|done].
  destruct (_ && _); [|by intros [= _ <- _]]. unfold reap_blocking. generalize 200. intros n.
  destruct (reap_rounds _ _ w1) as [w2 [o|er]]; by intros [= _ <- _].
Qed.

Lemma session_resize_id c r s w : Session.id (Session.resize c r s w).1.2 = Session.id s.
Proof. unfold Session.resize. cbv zeta. destruct (Session.is_dead _); [done|]. by destruct (Pty.resize _ _ w). Qed.

Definition title (a : Actor) : string := Session.id (session a).

Lemma on_attach_title req a w st flow w' st' :
  on_attach req a w st = Some (flow, w', st') -> title (flow_actor flow) = title a.
Proof.
  unfold on_attach. set (wa := if Session.has_prompt_marking (session a) then (w, a) else refresh_poll a w).
  assert (Hwa : same_session a wa.2)
    by (unfold wa; destruct (Session.has_prompt_marking _); [done|apply same_session_refresh]).
  destruct wa as [w1 a1]. cbn [snd] in Hwa. destruct Hwa as (Hs & _ & _). unfold attach_client.
  pose proof (session_resize_id (cols req) (rows req) (session a1) w1) as Hr.
  destruct (Session.resize _ _ _ w1) as [[w2 s2] x]. cbn [fst snd] in Hr. rewrite Hs in Hr.
  destruct (status_frame _); cbn [mbind option_bind]; [|done].
  destruct (match Session.lifecycle s2 with Session.Dead _ => _ | Session.Live => _ end); cbn [mbind option_bind]; [|done].
  intros [= <- _ _]. by destruct (Session.is_dead _).
Qed.

Lemma on_readable_title fuel now b a w st flow w' st' :
  on_readable opts fuel now b a w st = Some (flow, w', st') -> title (flow_actor flow) = title a.
Proof.
  destruct b; [|by intros [= <- _ _]]. unfold on_readable. cbn [negb].
  destruct (Session.drain fuel (session a) w) as [[[w1 s1] [out|er]]|] eqn:Ed; cbn [mbind option_bind]; [| |done];
    apply session_drain_id in Ed; [|by intros [= <- _ _]].
  destruct (if bool_decide _ then (st, _) else _) as [st1 c1].
  destruct (drained_status _ w1 st1) as [[[w2 st2] a2]|] eqn:Eds; cbn [mbind option_bind]; [|done].
  destruct (same_session_drained _ _ _ _ _ _ Eds) as (Es & _ & _). cbn [session set_client set_session] in Es.
  assert (Ht : title a2 = title a) by (unfold title; by rewrite Es).
  destruct (Session.exit out) as [code|]; [|by intros [= <- _ _]].
  destruct (exit_frame code); cbn [mbind option_bind]; [|done].
  destruct (push_or_drop _ _ st2) as [st3 c3]. destruct (closing _); intros [= <- _ _]; exact Ht.
Qed.

Lemma on_close_title now g a w st flow w' st' :
  on_close now g a w st = Some (flow, w', st') -> title (flow_actor flow) = title a.
Proof.
  unfold on_close. destruct (Session.hangup _ w) as [w1 x]. cbv zeta. set (a1 := if (0 <? g)%N then _ else _).
  assert (Ha : title a1 = title a) by (unfold a1; by destruct (0 <? g)%N).
  destruct (Session.is_dead _); [|by intros [= <- _ _]]. destruct (client a1); [|by intros [= <- _ _]].
  destruct (exit_frame _); cbn [mbind option_bind]; [|done]. by intros [= <- _ _].
Qed.

(** A turn serves the session it served. *)
Lemma select_title fuel ready a w st flow w' st' :
  select opts fuel ready a w st = Some (flow, w', st') -> title (flow_actor flow) = title a.
Proof.
  unfold select. destruct (r_cmd ready) as [[[input|c r|g|req|reply]|]|]; cbn [on_cmd].
  - destruct (Session.write_input _ _ w). by intros [= <- _ _].
  - pose proof (session_resize_id c r (session a) w) as Hr.
    destruct (Session.resize c r (session a) w) as [[w1 s1] x]. by intros [= <- _ _].
  - apply on_close_title.
  - apply on_attach_title.
  - destruct (Session.info _ _ w). by intros [= <- _ _].
  - by intros [= <- _ _].
  - destruct (if Session.is_dead (session a) then None else r_readable ready) as [b|]; [apply on_readable_title|].
    destruct (passed (grace_deadline a) _); [by intros [= <- _ _]|]. destruct (passed (kill_deadline a) _).
    { unfold on_kill_deadline. destruct (if Session.is_dead _ then _ else _). by intros [= <- _ _]. }
    destruct (_ && _); [|by intros [= <- _ _]]. intros (a' & -> & Hs & _)%on_tick_continues. cbn [flow_actor]. unfold title. by rewrite Hs.
Qed.

(** A task serves the session of its entry. *)
Definition titled (ts : gmap nat Task) : Prop :=
  forall k id a rx, ts !! k = Some (Running id a rx) -> title a = id.
End events.

(** * A run *)

Section runs.
Context `{EngineLaws, Os}.
Context {T : Tokio} {L : ChannelLaws} {C : CommandLaws} {R : Receivers} {F : Traffic} {FL : TrafficLaws}.
Context {P : Replies} {PL : ReplyLaws}.
Context `{Stream}.
Context `{!Json StatusMsg, !Json ExitMsg, !Json Hello, !Json (list SessionInfo), !Json AttachOrOpen,
          !Json Protocol.Resize, !Json CloseMsg} `{!JsonLaws StatusMsg}.
Context (opts : ServerOpts) (version : list byte) (me : u32).

Lemma titled_after ts ts' : tasks_after ts ts' -> titled ts -> titled ts'.
Proof.
  intros Ht Hi. destruct Ht as [|j t Hj Hn|j i s x Hj _ _ Hs]; [done| |]; intros k id a rx.
  - destruct (decide (j = k)) as [->|Hne]; [|rewrite lookup_partial_alter_ne by done; apply Hi].
    rewrite lookup_partial_alter_eq. intros Hk. by destruct (Hn _ _ _ Hk).
  - intros [[_ [= <- <- _]]|[_ Hk]]%lookup_insert_Some; [done|by eapply Hi].
Qed.

Lemma turn_titled k fuel b t d d' :
  titled (tasks d) -> actor_turn opts k fuel b t d = Some d' -> titled (tasks d').
Proof.
  intros Hi. unfold actor_turn. destruct (tasks d !! k) as [[spec rx|id a rx|a rx]|] eqn:Ek; try done.
  destruct (poll_cmd rx (chans d)) as [st cmd].
  destruct (select _ _ _ _ _ _) as [[[flow w] st']|] eqn:Es; cbn [mbind option_bind]; [|done].
  apply select_title in Es. destruct flow as [a'|a']; intros [= <-] j i x q;
    cbn [tasks set_task with_tasks with_machine with_chans with_registry flow_actor] in *;
    intros [[_ Hj]|[_ Hj]]%lookup_insert_Some; try (by apply (Hi j i x q)).
  injection Hj as <- <- _. rewrite Es. by eapply Hi.
Qed.

(** No entry leads to a task that ends. *)
Definition departed (d : Daemon) : Prop :=
  forall k a rx, tasks d !! k = Some (Ending a rx) ->
    exists tx, linked tx rx /\ opened (chans d) tx /\ forall id, sessions (registry d) !! id <> Some tx.

Lemma departed_step Y e d d' :
  matched (view d) -> entries (registry d) (chans d) -> apart (sessions (registry d)) -> departed d ->
  hush Y (chans d) (chans d') -> step opts version me e d = Some d' -> departed d'.
Proof.
  intros Hm He Ha Hd Hh Hs k a rx Ek. destruct (step_ending _ _ _ _ _ _ _ _ _ Hs Ek) as [Ek0|(id & t & Ek0 & Hv & Er)].
  - destruct (Hd _ _ _ Ek0) as (tx & Hl & Ho & Hn). exists tx. split; [done|]. split; [by eapply hush_opened|]. intros id Hx.
    destruct (step_newer _ _ _ _ _ _ Hs) as [x Hnew]. destruct (Hnew _ _ Hx) as [Hy|[_ Hy]]; [by apply (Hn id)|done].
  - destruct (task_named _ Hm k id rx) as (tx & Htx & Hl); [cbn [view v_live]; by rewrite (live_at d k _ Ek0)|].
    exists tx. cbn [view v_reg] in Htx. split; [done|]. split; [eapply hush_opened; [exact Hh|by eapply He]|].
    intros id' Hx. rewrite Er in Hx. cbn [remove sessions] in Hx. apply lookup_delete_Some in Hx as [Hne Hx].
    apply Hne. by eapply Ha.
Qed.

(** What holds at any moment of a run. *)
Record settled (d : Daemon) : Prop := mkSettled {
  settled_tracked : exists h lg, tracked h lg d;
  settled_matched : matched (view d);
  settled_known : known (chans d);
  settled_apart : apart (sessions (registry d));
  settled_titled : titled (tasks d);
  settled_departed : departed d
}.

(** The answers of an event. *)
Definition answer (e : event) (d : Daemon) (rx' : reply_rx) (i : SessionInfo) : Prop :=
  exists k fuel b t id a rx r, e = ActorTurn k fuel b t /\ tasks d !! k = Some (Running id a rx) /\
    (poll_cmd rx (chans d)).2 = Some (Some (Info r)) /\ twins r rx' /\ i = described a (machine d).

Lemma settled_hush e d d' : settled d -> step opts version me e d = Some d' -> hush (answer e d) (chans d) (chans d').
Proof.
  intros [(h & lg & Ht) Hm Hk Ha Hi _] Hs. eapply step_hush; try done.
  intros k fuel b t id a rx r He Hx Hp rx' Hr. by exists k, fuel, b, t, id, a, rx, r.
Qed.

Lemma settled_step e d d' : settled d -> step opts version me e d = Some d' -> settled d'.
Proof.
  intros Hd Hs. pose proof (settled_hush _ _ _ Hd Hs) as Hh. destruct Hd as [(h & lg & Ht) Hm Hk Ha Hi He]. split.
  - destruct (tracked_step _ _ _ _ _ _ _ _ Hm Ht Hs) as [lg' Hl]. eauto.
  - destruct (refines_step _ _ _ _ _ _ Hs) as [->|Hv]; [done|]. by eapply matched_step.
  - by eapply known_hush.
  - eapply apart_newer; [exact Ha|apply Ht|by eapply step_newer].
  - destruct e; try (eapply titled_after; [eapply step_tasks; [exact Hs|done]|done]). by eapply turn_titled.
  - eapply departed_step; [done|apply Ht|done..].
Qed.

Lemma settled_more es d d' : settled d -> run opts version me es d = Some d' -> settled d'.
Proof.
  intros Hd. revert d'. induction es as [|e es IH] using rev_ind; intros d' Hr; [by injection Hr as <-|].
  rewrite run_snoc in Hr. destruct (run opts version me es d) as [d1|]; cbn [mbind option_bind] in Hr; [|done].
  eapply settled_step; [by apply IH|exact Hr].
Qed.

Lemma settled_run max st w es d :
  (forall tx, commands st tx = []) -> run opts version me es (start max st w) = Some d -> settled d.
Proof.
  intros Hst Hr. eapply settled_more; [|exact Hr]. split.
  - destruct (tracked_run opts version me max st w [] _ Hst eq_refl) as [lg Ht]. eauto.
  - exact (matched_run _ _ _ (refines_run opts version me max st w [] _ eq_refl)).
  - intros tx r. cbn [chans start]. rewrite Hst. by intros ?%elem_of_nil.
  - intros id id' tx Hx. cbn [registry sessions start with_max_sessions] in Hx. by apply lookup_empty_Some in Hx.
  - intros k id a rx Hx. cbn [tasks start] in Hx. by apply lookup_empty_Some in Hx.
  - intros k a rx Hx. cbn [tasks start] in Hx. by apply lookup_empty_Some in Hx.
Qed.
(** ** A request is lost with its session *)

Context {LS : Losses} {LL : LossLaws}.

(** An event that opens no session. *)
Lemma spares_step e d d' tx rx r id :
  settled d -> asked tx rx r (chans d) -> sessions (registry d) !! id = Some tx -> (forall k b, e <> OpenTask k b) ->
  step opts version me e d = Some d' -> spares_reply r rx (chans d) (chans d').
Proof.
  intros Hd Ha Hid He. destruct (settled_tracked _ Hd) as (h & lg & Ht). pose proof (settled_known _ Hd) as Hk.
  apply (step_follows (P := spares_reply r rx)). split; try by intros; intros [].
  - intros n _. destruct (request_infos_hush (handles (registry d)) _ Hk) as [A1 A2 A3 A4]. split.
    + split; [done..|]. by right.
    + intros Hi Hl. apply (request_infos_keep (handles (registry d)) _ r); [done|done|apply Ha|exact Hl].
  - intros n rs dec t out wh st f _ Hc Hr. destruct (tracked_conn _ _ _ Ht n _ Hc) as (_ & _ & o & _ & _ & Hp & _).
    apply spares_none; [|by eapply loses_recv_frame].
    eapply hush_moves; [apply (flow_recv_frame _ _ _ _ _ Hp Hr)|by eapply nobody_recv_frame].
  - intros k fuel b t id' a rx' _ Ek.
    destruct (task_named _ (settled_matched _ Hd) k id' rx') as (tx' & _ & Hl); [by apply (live_at d k _ Ek)|].
    unfold poll_cmd. destruct (recv_cmd rx' (chans d)) as [[st1 c]|] eqn:Er; [|done].
    apply spares_none; [|by eapply loses_recv_cmd].
    eapply hush_moves; [apply (flow_recv_cmd _ _ _ _ _ Hl Er)|by eapply nobody_recv_cmd].
  - done.
  - intros rx0 st (k & [(b & spec & -> & _)|(a & -> & Ek)]) Hst; [by destruct (He k b)|].
    destruct (settled_departed _ Hd _ _ _ Ek) as (tx0 & Hl & _ & Hn).
    etrans; [exact Hst|]. apply (spares_drop_cmd_rx _ _ tx0); [apply Ha|done|]. intros Hi.
    destruct (hush_asked _ _ _ (proj1 Hst) _ _ Hi) as [Hx|[Hx _]]; [|by destruct Hx; apply Ha].
    apply (asked_only _ _ _ _ Ha) in Hx as ->. by apply (Hn id).
Qed.

(** While the entry of a session is there, its reply is not lost. *)
Lemma lost_step e d d' tx rx r id :
  settled d -> asked tx rx r (chans d) -> sessions (registry d) !! id = Some tx ->
  step opts version me e d = Some d' -> sessions (registry d') !! id = Some tx ->
  lost (chans d') rx -> lost (chans d) rx.
Proof.
  intros Hd Ha Hid Hs Hid'. assert (Hoth : (forall k b, e <> OpenTask k b) -> lost (chans d') rx -> lost (chans d) rx).
  { intros He. destruct (spares_step _ _ _ _ _ _ _ Hd Ha Hid He Hs) as [_ Hl]. apply Hl, Ha. }
  destruct e as [| | | | | | |k b| | | | |]; try by apply Hoth. clear Hoth. cbn [step] in Hs.
  unfold open_task in Hs. destruct (tasks d !! k) as [[spec rx0|id0 a rx0|a rx0]|] eqn:Ek; try done.
  assert (Hfail : sessions (remove (session_id spec) (registry d)) !! id = Some tx ->
    lost (drop_cmd_rx rx0 (chans d)) rx -> lost (chans d) rx).
  { cbn [remove sessions]. intros [Hne _]%lookup_delete_Some.
    destruct (task_named _ (settled_matched _ Hd) k (session_id spec) rx0) as (tx0 & Htx & Hl); [by apply (live_at d k _ Ek)|].
    cbn [view v_reg] in Htx. intros Hx. destruct (lost_drop_cmd_rx _ _ _ _ Hl Hx) as [|(r' & Hr & Hi)]; [done|].
    rewrite (twins_one _ _ _ Hr (asked_twins _ _ _ _ Ha)) in Hi. apply (asked_only _ _ _ _ Ha) in Hi as ->.
    destruct Hne. by eapply (settled_apart _ Hd). }
  destruct (Session.open _ _ _ _ _ _) as [w [[s|x]|]]; [destruct b|..]; injection Hs as <-;
    [done|done|by apply Hfail|by apply Hfail].
Qed.
End runs.
