(* ===== verification/Listing.v ===== *)
(** What a LIST answers, through the whole daemon. *)
From S2P Require Import Prelude Status Engine Pty Protocol Registry Server Actor Connection.
From S2P Require Import Stores Syscalls Daemon DaemonProps Steps Terminal Intake Senders Requests.
From S2P Require Session Idle.

Section runs.
Context `{EngineLaws, Os}.
Context {T : Tokio} {L : ChannelLaws} {C : CommandLaws} {R : Receivers} {F : Traffic} {FL : TrafficLaws}.
Context {P : Replies} {PL : ReplyLaws} {LS : Losses} {LL : LossLaws}.
Context `{Stream}.
Context `{!Json StatusMsg, !Json ExitMsg, !Json Hello, !Json (list SessionInfo), !Json AttachOrOpen,
          !Json Protocol.Resize, !Json CloseMsg} `{!JsonLaws StatusMsg}.
Context (opts : ServerOpts) (version : list byte) (me : u32).

(** * One LIST *)

(** Session [id] described itself in a turn of its own, in the run of [es]. *)
Definition reported (es : list event) (d1 : Daemon) (id : string) (i : SessionInfo) : Prop :=
  exists esa k fuel b t esb d a rx, es = esa ++ ActorTurn k fuel b t :: esb /\
    run opts version me esa d1 = Some d /\ tasks d !! k = Some (Running id a rx) /\ i = described a (machine d).

Lemma reported_snoc es d1 id i e : reported es d1 id i -> reported (es ++ [e]) d1 id i.
Proof.
  intros (esa & k & fuel & b & t & esb & d & a & rx & -> & Hr & Hk & ->).
  exists esa, k, fuel, b, t, (esb ++ [e]), d, a, rx. by rewrite <- app_assoc.
Qed.

Lemma reported_id es d1 id i : settled d1 -> reported es d1 id i -> info_session_id i = id.
Proof.
  intros Hd (esa & k & fuel & b & t & esb & d & a & rx & _ & Hr & Hk & ->).
  rewrite <- (settled_titled _ (settled_more _ _ _ _ _ _ Hd Hr) _ _ _ _ Hk). unfold described, Session.info.
  by destruct (Session.effective_running _ _).
Qed.

Lemma reported_names es d1 (told : list (string * cmd_tx)) infos :
  settled d1 -> Forall2 (fun q => reported es d1 q.1) told infos -> info_session_id <$> infos = told.*1.
Proof.
  intros Hd. induction 1 as [|q i told infos Hi _ IH]; [done|]. cbn [fmap list_fmap]. rewrite IH. f_equal.
  by eapply reported_id.
Qed.

(** A reply that is still awaited: of the session of entry [q] and of no other, and
    not lost while the entry is there. *)
Definition awaits (G : SessionInfo -> Prop) (d : Daemon) (q : string * cmd_tx) (rx : reply_rx) : Prop :=
  exists r, asked q.2 rx r (chans d) /\ opened (chans d) q.2 /\
    (forall id', sessions (registry d) !! id' = Some q.2 -> id' = q.1) /\ (forall i, replied (chans d) rx i -> G i) /\
    (sessions (registry d) !! q.1 = Some q.2 -> ~ lost (chans d) rx).

(** An entry that is there was there before. *)
Lemma entry_before e d d' id tx :
  step opts version me e d = Some d' -> opened (chans d) tx ->
  sessions (registry d') !! id = Some tx -> sessions (registry d) !! id = Some tx.
Proof. intros Hs Ho Hx. destruct (step_newer _ _ _ _ _ _ Hs) as [x Hn]. by destruct (Hn _ _ Hx) as [|[_ ?]]. Qed.

Lemma awaits_step es d1 d e d' q rx :
  settled d -> run opts version me es d1 = Some d -> step opts version me e d = Some d' ->
  awaits (reported es d1 q.1) d q rx -> awaits (reported (es ++ [e]) d1 q.1) d' q rx.
Proof.
  intros Hd Hr Hs (r & Ha & Ho & Hid & Hg & Hl). pose proof (settled_hush _ _ _ _ _ _ Hd Hs) as Hh.
  exists r. split; [by eapply asked_hush|]. split; [by eapply hush_opened|].
  split; [intros id' Hx; eapply Hid, entry_before; done|]. split.
  2: { intros Hx Hlost. pose proof (entry_before _ _ _ _ _ Hs Ho Hx) as Hx0. by apply Hl, (lost_step _ _ _ _ _ _ _ _ _ _ Hd Ha Hx0 Hs Hx). }
  intros i [Hi|Hi]%(hush_replied _ _ _ Hh); [by apply reported_snoc, Hg|].
  destruct Hi as (k & fuel & b & t & id' & a & rx' & r' & -> & Hk & Hp & Ht & ->).
  assert (r' = r) as -> by (eapply twins_one; [exact Ht|apply Ha]).
  destruct (task_named _ (settled_matched _ Hd) k id' rx') as (tx' & Htx & Hlk); [by apply (live_at d k _ Hk)|].
  unfold poll_cmd in Hp. destruct (recv_cmd rx' (chans d)) as [[st c]|] eqn:Er; [|done]. cbn [snd] in Hp. injection Hp as ->.
  destruct (flow_recv_cmd _ _ _ _ _ Hlk Er) as (_ & Hc & _). apply list_elem_of_lookup_2 in Hc.
  apply (asked_only _ _ _ _ Ha) in Hc as ->. cbn [view v_reg] in Htx. apply Hid in Htx as ->.
  by exists es, k, fuel, b, t, [], d, a, rx'.
Qed.

(** The LIST so far: the entries that answered, those awaited, of [hs], each once;
    and the entries in [must] are among them, unless they are gone. *)
Record collected (hs : list (string * cmd_tx)) (must : string * cmd_tx -> Prop) (es : list event) (d1 d : Daemon)
    (told waited : list (string * cmd_tx)) (rxs : list reply_rx) (infos : list SessionInfo) : Prop := mkCollected {
  col_once : NoDup (told ++ waited).*1;
  col_table q : q ∈ told ++ waited -> q ∈ hs;
  col_told : Forall2 (fun q => reported es d1 q.1) told infos;
  col_waited : Forall2 (fun q => awaits (reported es d1 q.1) d q) waited rxs;
  col_opened q : must q -> opened (chans d) q.2;
  col_must q : must q -> sessions (registry d) !! q.1 = Some q.2 -> q ∈ told ++ waited
}.

Lemma collected_step hs must es d1 d e d' told waited rxs infos :
  settled d -> run opts version me es d1 = Some d -> step opts version me e d = Some d' ->
  collected hs must es d1 d told waited rxs infos -> collected hs must (es ++ [e]) d1 d' told waited rxs infos.
Proof.
  intros Hd Hr Hs [Hn Hi Ht Hw Ho Hm]. split; [done..| | | |].
  - eapply Forall2_impl; [exact Ht|]. intros q i. apply reported_snoc.
  - eapply Forall2_impl; [exact Hw|]. intros q rx. by apply awaits_step.
  - intros q Hq. eapply hush_opened; [by eapply settled_hush|by apply Ho].
  - intros q Hq Hx. apply Hm; [done|]. eapply entry_before; [exact Hs|by apply Ho|exact Hx].
Qed.

(** A look at the first reply. *)
Lemma collected_look hs must es d1 d told waited rx rxs infos st i :
  collected hs must es d1 d told waited (rx :: rxs) infos -> recv_reply rx (chans d) = Some (st, i) ->
  exists told' waited', collected hs must es d1 d told' waited' rxs (infos ++ option_list i).
Proof.
  intros [Hn Hi Ht Hw Ho Hm] Hr. inversion Hw as [|q ? waited' ? (r & _ & _ & _ & Hg & Hl) Hw']; subst.
  destruct i as [i|]; cbn [option_list].
  - exists (told ++ [q]), waited'. split; rewrite <- ?app_assoc; [done..| |done|done|done].
    apply Forall2_app; [done|]. constructor; [|constructor]. by eapply Hg, reply_received.
  - exists told, waited'. rewrite app_nil_r.
    assert (Hs : sublist (told ++ waited') (told ++ q :: waited')) by (by apply sublist_app; [|apply sublist_cons]).
    split; [|intros q' Hx; apply Hi; by eapply elem_of_sublist|done..|].
    + eapply sublist_NoDup; [exact Hn|exact (fmap_sublist fst _ _ Hs)].
    + intros q' Hq Hx. specialize (Hm q' Hq Hx). apply elem_of_app in Hm as [Hm|[->|Hm]%elem_of_cons]; apply elem_of_app; [by left| |by right].
      destruct (Hl Hx). by eapply lost_received.
Qed.

Definition waits (c : Connection) : Prop := match c with Listing _ _ _ _ _ _ => True | _ => False end.

(** An event moves one connection at most, and only a LIST makes one wait. *)
Lemma step_conns e d d' :
  step opts version me e d = Some d' ->
  conns d' = conns d \/ exists m c, conns d' = <[m := c]> (conns d) /\
    (~ waits c \/ e = Serve m \/ e = ListTurn m \/ exists r, e = Arrive m r).
Proof.
  intros Hs. assert (Hset : forall m c d1 d2, d2 = set_conn m c d1 -> conns d1 = conns d ->
    (~ waits c \/ e = Serve m \/ e = ListTurn m \/ exists r, e = Arrive m r) ->
    conns d2 = conns d \/ exists m c, conns d2 = <[m := c]> (conns d) /\
      (~ waits c \/ e = Serve m \/ e = ListTurn m \/ exists r, e = Arrive m r)).
  { intros m c d1 d2 -> E0 Hc. right. exists m, c. cbn [conns set_conn]. by rewrite E0. }
  destruct e as [n a|n r|n k|n|n|n|n|k b|k fuel b t|k| |t|w]; cbn [step] in Hs; try (injection Hs as <-; by left).
  - unfold accept in Hs. destruct (_ <=? _)%N, a as [[peer wh]|], (conns d !! n); try done; injection Hs as <-; [|by left..].
    eapply Hset; [done..|]. left. destruct (check_peer_uid _ _); by intros [].
  - unfold arrive in Hs. destruct (conns d !! n) as [[]|]; try done; injection Hs as <-; (eapply Hset; [done..|]; eauto 6).
  - unfold greet in Hs. destruct (conns d !! n) as [[rs dec wh| | | |]|]; try done. destruct (tasks d !! k); [done|].
    destruct (read_one_frame rs dec) as [[[dec' rs'] [f| |x|]]|]; cbn [mbind option_bind] in Hs; try done;
      try (injection Hs as <-; eapply Hset; [done..|]; left; by intros []).
    destruct (ty f); try (injection Hs as <-; eapply Hset; [done..|]; left;
      first [by intros []|destruct (control_hello _ _ _) as [? []]; by intros []]).
    destruct (handle_session _ _ _ _ _ _) as [[reg st] c]. injection Hs as <-.
    right. destruct c; try destruct spawned as [[]|]; eexists n, _; (split; [reflexivity|]); left; by intros [].
  - unfold serve in Hs. destruct (conns d !! n) as [[|rs dec wh| | |]|]; try done.
    destruct (read_one_frame rs dec) as [[[dec' rs'] [f| |x|]]|]; cbn [mbind option_bind] in Hs; try done;
      try (injection Hs as <-; eapply Hset; [done..|]; by right; left).
    destruct (request_infos _ _) as [st rxs]. destruct (ty f); injection Hs as <-; (eapply Hset; [reflexivity|done|]; by right; left).
  - apply (list_turn_spec (P := fun _ _ => True)) in Hs as (st & c & -> & _). eapply Hset; [reflexivity|done|]. by right; right; left.
  - unfold reader_turn in Hs. destruct (conns d !! n) as [[| | |rs dec tx out wh|]|]; try done.
    destruct (reader_step rs dec tx _) as [[[[rs' dec'] st] [[]|]]|]; cbn [mbind option_bind] in Hs; try done;
      injection Hs as <-; (eapply Hset; [reflexivity|done|]; left; by intros []).
  - unfold writer_turn in Hs. destruct (conns d !! n) as [[| | |rs dec tx out wh|]|]; try done.
    destruct (recv_frame out _) as [[st [f|]]|]; cbn [mbind option_bind] in Hs; try done;
      [destruct (write_all (encode f) wh) as [wh' []]|]; injection Hs as <-; (eapply Hset; [reflexivity|done|]; left; by intros []).
  - unfold open_task in Hs. destruct (tasks d !! k) as [[spec rx|id a rx|a rx]|]; try done.
    destruct (Session.open _ _ _ _ _ _) as [w [[s|x]|]]; [destruct b|..]; injection Hs as <-; by left.
  - unfold actor_turn in Hs. destruct (tasks d !! k) as [[spec rx|id a rx|a rx]|]; try done.
    destruct (poll_cmd rx (chans d)). destruct (select _ _ _ _ _ _) as [[[[a'|a'] w] st']|]; cbn [mbind option_bind] in Hs; try done;
      injection Hs as <-; by left.
  - unfold finish_task in Hs. destruct (tasks d !! k) as [[spec rx|id a rx|a rx]|]; try done.
    destruct (drop_actor a _ _). injection Hs as <-. by left.
  - unfold watch_turn in Hs. destruct (Idle.watch_step _ _ _ _) as [[r w]|]; cbn [mbind option_bind] in Hs; [|done].
    injection Hs as <-. by left.
Qed.

(** The look of a connection that goes on waiting, and of one that is done. *)
Lemma list_turn_cases n d d' c :
  list_turn n d = Some d' -> conns d' !! n = Some c ->
  exists rs dec wh rxs infos t, conns d !! n = Some (Listing rs dec wh rxs infos t) /\
    ((exists rx rest st i, rxs = rx :: rest /\ recv_reply rx (chans d) = Some (st, i) /\
        c = Listing rs dec wh rest (infos ++ option_list i) t) \/
     ((rxs = [] \/ (t <= clock d)%N) /\
      c = match reply_list infos wh with (wh', None) => Serving rs dec wh' | (wh', Some _) => Closed wh' end)).
Proof.
  unfold list_turn. destruct (conns d !! n) as [[| |rs dec wh rxs infos t| |]|]; try done. intros Hs Hc.
  exists rs, dec, wh, rxs, infos, t. split; [done|]. revert Hs.
  assert (Hfin : forall st d', Some (let '(wh, e) := reply_list infos wh in
      set_conn n (match e with None => Serving rs dec wh | Some _ => Closed wh end) (with_chans st d)) = Some d' ->
    conns d' !! n = Some (match reply_list infos wh with (wh', None) => Serving rs dec wh' | (wh', Some _) => Closed wh' end)).
  { intros st d1 [= <-]. destruct (reply_list infos wh) as [wh' []]; cbn [conns set_conn]; by rewrite lookup_insert_eq. }
  destruct rxs as [|rx rest].
  { intros Hx%Hfin. right. split; [by left|congruence]. }
  destruct (recv_reply rx (chans d)) as [[st i]|] eqn:Er.
  - intros Hd. left. exists rx, rest, st, i. split; [done|]. split; [done|].
    destruct i; injection Hd as <-; cbn [conns set_conn] in Hc; rewrite lookup_insert_eq in Hc; injection Hc as <-; [done|].
    cbn [option_list]. by rewrite app_nil_r.
  - destruct (N.leb_spec t (clock d)); [|done]. intros Hx%Hfin. right. split; [by right|congruence].
Qed.

(** A session that does not answer hides those behind it, even those that have
    answered: at the deadline the LIST is what came before it. *)
Theorem silent_hides_answered n d rs dec wh rx rest infos t :
  conns d !! n = Some (Listing rs dec wh (rx :: rest) infos t) -> recv_reply rx (chans d) = None ->
  ((clock d < t)%N -> list_turn n d = None) /\
  ((t <= clock d)%N -> exists d', list_turn n d = Some d' /\
     conns d' !! n = Some (match reply_list infos wh with (wh', None) => Serving rs dec wh' | (wh', Some _) => Closed wh' end)).
Proof.
  intros Hc Hr. unfold list_turn. rewrite Hc, Hr. split; intros Ht.
  - by rewrite (proj2 (N.leb_gt _ _) Ht).
  - rewrite (proj2 (N.leb_le _ _) Ht). destruct (reply_list infos wh) as [wh' []]; (eexists; split; [reflexivity|]);
      cbn [conns set_conn]; by rewrite lookup_insert_eq.
Qed.

(** The connection waits for the replies to the same LIST, or has looked at one. *)
Lemma listing_step n e d d' rs' dec' wh' rxs' infos' t' :
  step opts version me e d = Some d' -> e <> Serve n -> conns d' !! n = Some (Listing rs' dec' wh' rxs' infos' t') ->
  exists rs dec rxs infos, conns d !! n = Some (Listing rs dec wh' rxs infos t') /\
    ((rxs' = rxs /\ infos' = infos) \/
     exists rx st i, rxs = rx :: rxs' /\ recv_reply rx (chans d) = Some (st, i) /\ infos' = infos ++ option_list i).
Proof.
  intros Hs He Hc. destruct (step_conns _ _ _ Hs) as [E0|(m & c & E0 & Hm)].
  { rewrite E0 in Hc. eexists _, _, _, _. split; [exact Hc|by left]. }
  pose proof Hc as Hc0. rewrite E0 in Hc. apply lookup_insert_Some in Hc as [[-> ->]|[_ Hc]].
  2: { eexists _, _, _, _. split; [exact Hc|by left]. }
  destruct Hm as [Hm|[->|[->|[r ->]]]]; [by destruct Hm|done|..]; cbn [step] in Hs.
  - destruct (list_turn_cases _ _ _ _ Hs Hc0) as (rs & dec & wh & rxs & infos & t & E1 & [(rx & rest & st & i & -> & Er & Hx)|[_ Hx]]).
    + injection Hx as -> -> -> -> -> ->. exists rs, dec, (rx :: rest), infos. split; [done|]. right. by exists rx, st, i.
    + destruct (reply_list infos wh) as [w []]; done.
  - unfold arrive in Hs. destruct (conns d !! n) as [[]|]; try done; injection Hs as <-;
      cbn [conns set_conn] in Hc0; rewrite lookup_insert_eq in Hc0; try done.
    injection Hc0 as _ <- <- <- <- <-. eexists _, _, _, _. split; [done|by left].
Qed.

(** The channel of the entry has taken a request. *)
Definition took (d0 d1 : Daemon) (q : string * cmd_tx) : Prop :=
  sessions (registry d0) !! q.1 = Some q.2 /\ commands (chans d1) q.2 <> commands (chans d0) q.2.

(** The LIST that begins: every session of the table may be asked. *)
Lemma collected_serve n d d' rs dec wh rxs infos t :
  settled d -> serve n d = Some d' -> conns d' !! n = Some (Listing rs dec wh rxs infos t) ->
  (exists told waited, collected (handles (registry d)) (took d d') [] d' d' told waited rxs infos) /\ t = (clock d + 1000)%N.
Proof.
  intros Hd Hs Hc. unfold serve in Hs. destruct (conns d !! n) as [[|rs0 dec0 wh0| | |]|]; try done.
  destruct (read_one_frame rs0 dec0) as [[[dec1 rs1] [f| |x|]]|]; cbn [mbind option_bind] in Hs; try done;
    try (injection Hs as <-; cbn [conns set_conn] in Hc; by rewrite lookup_insert_eq in Hc).
  pose proof (request_infos_hush (handles (registry d)) _ (settled_known _ Hd)) as Hh.
  destruct (request_infos (handles (registry d)) (chans d)) as [st rxs0] eqn:Er. cbn [fst] in Hh.
  destruct (request_infos_spec _ _ _ _ (settled_known _ Hd) Er) as (ws & Hsub & Hall & Hmust).
  destruct (ty f); injection Hs as <-; cbn [conns set_conn] in Hc; rewrite lookup_insert_eq in Hc; try done.
  injection Hc as <- <- <- <- <- <-. split; [|done]. destruct (settled_tracked _ Hd) as (h & lg & Ht).
  assert (Hop : forall id tx, sessions (registry d) !! id = Some tx -> opened st tx).
  { intros id tx Hx. eapply hush_opened; [exact Hh|]. by eapply (tracked_entries _ _ _ Ht). }
  assert (Hin : Forall (fun q => sessions (registry d) !! q.1 = Some q.2) ws).
  { apply Forall_forall. intros [id tx] Hq. by apply elem_of_map_to_list, (elem_of_sublist _ _ _ Hq Hsub). }
  exists [], ws. cbn [app]. split; cbn [app chans registry set_conn with_chans].
  - exact (sublist_NoDup _ _ (NoDup_fst_map_to_list (sessions (registry d))) (fmap_sublist fst _ _ Hsub)).
  - intros q Hq. by eapply elem_of_sublist.
  - constructor.
  - apply Forall2_fmap_r. eapply Forall2_impl_l; [exact Hin|exact Hall|].
    intros [id tx] [id' rx] Hq [_ (r & Ha & Hr & Hl)]. exists r. cbn [fst snd chans registry set_conn with_chans] in *.
    split; [done|]. split; [by eapply Hop|]. split; [by intros id2 Hx; eapply (settled_apart _ Hd)|]. split; [|done].
    intros i Hi. by destruct (Hr i).
  - intros q [Hq _]. by eapply Hop.
  - intros q [Hq Hne] _. apply Hmust; [|destruct q; by apply elem_of_map_to_list|exact Hne].
    apply NoDup_fmap_2_strong; [|apply NoDup_map_to_list]. intros [i1 t1] [i2 t2] H1' H2' E'. cbn [snd] in E'. subst t2.
    apply elem_of_map_to_list in H1', H2'. by rewrite (settled_apart _ Hd _ _ _ H1' H2').
Qed.

Lemma collected_run n d0 d1 es d rs dec wh rxs infos t :
  settled d0 -> serve n d0 = Some d1 -> Forall (fun e => e <> Serve n) es -> run opts version me es d1 = Some d ->
  conns d !! n = Some (Listing rs dec wh rxs infos t) ->
  settled d /\ (exists told waited, collected (handles (registry d0)) (took d0 d1) es d1 d told waited rxs infos) /\
  t = (clock d0 + 1000)%N.
Proof.
  intros Hd Hs. assert (Hd1 : settled d1) by (by eapply (settled_step opts version me (Serve n))).
  revert d rs dec wh rxs infos t. induction es as [|e es IH] using rev_ind; intros d rs dec wh rxs infos t.
  { intros _ [= <-] Hc. split; [done|]. by eapply collected_serve. }
  intros [Hes He]%Forall_app. rewrite Forall_singleton in He. rewrite run_snoc.
  destruct (run opts version me es d1) as [d2|] eqn:Er; cbn [mbind option_bind]; [|done]. intros Hst Hc.
  destruct (listing_step _ _ _ _ _ _ _ _ _ _ Hst He Hc) as (rs2 & dec2 & rxs2 & infos2 & Hc2 & Hcase).
  destruct (IH _ _ _ _ _ _ _ Hes eq_refl Hc2) as (Hd2 & (told & waited & Hcol) & ->). split; [by eapply settled_step|]. split; [|done].
  destruct Hcase as [[-> ->]|(rx & st & i & -> & Hrx & ->)]; [exists told, waited; by eapply collected_step|].
  destruct (collected_look _ _ _ _ _ _ _ _ _ _ _ _ Hcol Hrx) as (told' & waited' & Hcol').
  exists told', waited'. by eapply collected_step.
Qed.

End runs.

(** C30: what a LIST answers, through the whole daemon. When a control client's LIST
    comes and the reply is written, whatever ran in between, the reply lists each
    session once at most, and only sessions that were in the table when the LIST
    came; each is described under its own name, as it was in a turn of its own
    task after the LIST came, never before. Only a full second may leave a reply
    out that could still come; otherwise every session is listed whose channel
    took the request and whose entry is still there. *)
Theorem list_is_current `{EngineLaws, Os} {T : Tokio} {L : ChannelLaws} {C : CommandLaws} {R : Receivers}
    {F : Traffic} {FL : TrafficLaws} {P : Replies} {PL : ReplyLaws} {LS : Losses} {LL : LossLaws} `{Stream}
    `{!Json StatusMsg, !Json ExitMsg, !Json Hello, !Json (list SessionInfo), !Json AttachOrOpen,
      !Json Protocol.Resize, !Json CloseMsg} `{!JsonLaws StatusMsg} opts version me max st w es0 es n d0 d1 d2 d3
    rs dec wh rxs infos t rs' dec' wh' :
  (forall tx, commands st tx = []) ->
  run opts version me es0 (start max st w) = Some d0 -> step opts version me (Serve n) d0 = Some d1 ->
  Forall (fun e => e <> Serve n) es -> run opts version me es d1 = Some d2 ->
  conns d2 !! n = Some (Listing rs dec wh rxs infos t) ->
  step opts version me (ListTurn n) d2 = Some d3 -> conns d3 !! n = Some (Serving rs' dec' wh') ->
  reply_list infos wh = (wh', None) /\ (rxs = [] \/ (clock d0 + 1000 <= clock d2)%N) /\
  NoDup (info_session_id <$> infos) /\
  Forall (fun i => is_Some (sessions (registry d0) !! info_session_id i) /\
    exists esa k fuel readable tick esb d a rx, es = esa ++ ActorTurn k fuel readable tick :: esb /\
      run opts version me esa d1 = Some d /\ tasks d !! k = Some (Running (info_session_id i) a rx) /\
      i = described a (machine d)) infos /\
  (rxs = [] -> forall id tx, sessions (registry d0) !! id = Some tx -> commands (chans d1) tx <> commands (chans d0) tx ->
     sessions (registry d2) !! id = Some tx -> id ∈ info_session_id <$> infos).
Proof.
  intros Hst Hr0 Hs Hes Hr Hc Hl Hc3. pose proof (settled_run _ _ _ _ _ _ _ _ Hst Hr0) as Hd0.
  assert (Hd1 : settled d1) by (by eapply settled_step).
  destruct (collected_run _ _ _ _ _ _ _ _ _ _ _ _ _ _ Hd0 Hs Hes Hr Hc) as (_ & (told & waited & [Hn Hi Ht Hw _ Hm]) & ->).
  destruct (list_turn_cases _ _ _ _ Hl Hc3) as (rs2 & dec2 & wh2 & rxs2 & infos2 & t2 & E2 & Hcase).
  rewrite Hc in E2. injection E2 as <- <- <- <- <- <-.
  destruct Hcase as [(? & ? & ? & ? & _ & _ & [=])|[Hend Hw']].
  destruct (reply_list infos wh) as [w3 [x|]]; [done|]. injection Hw' as _ _ ->. split; [done|]. split; [done|].
  rewrite (reported_names _ _ _ _ _ _ _ Hd1 Ht). rewrite fmap_app in Hn. split; [by apply NoDup_app in Hn as [? _]|]. split.
  - apply Forall_lookup. intros j i Hj. destruct (Forall2_lookup_r _ _ _ _ _ Ht Hj) as ([id tx] & Hid & Hrep).
    cbn [fst] in Hrep. rewrite (reported_id _ _ _ _ _ _ _ Hd1 Hrep). split; [|exact Hrep]. exists tx.
    apply elem_of_map_to_list, Hi, elem_of_app. left. by eapply list_elem_of_lookup_2.
  - intros -> id tx Hx Hne Hx2. apply Forall2_nil_inv_r in Hw as ->. rewrite app_nil_r in Hm.
    exact (list_elem_of_fmap_2 fst _ _ (Hm (id, tx) (conj Hx Hne) Hx2)).
Qed.
