(* ===== verification/Keyboard.v ===== *)
(** From the commands of a session to its shell, through the whole daemon.

    [Senders] ends at the channel of a session; here the commands the actor takes
    out of it reach the master of its PTY. [Keyboard fd] is the log of the write
    calls to a master: the buffer each was given and what the kernel took of it;
    nothing but a write to it adds to it. *)
From S2P Require Import Prelude Status Engine Pty Protocol Registry Server Actor Connection.
From S2P Require Import Stores Syscalls Daemon DaemonProps Steps Terminal Intake Senders Requests Listing.
From S2P Require Session Idle.

Class Keyboard {O : Os} (fd : Fd) := {
  writes : world -> list (list byte * list byte);
  writes_quiet :: Spares (fun _ => False) (eq fd) (fun w w' => writes w' = writes w);
  writes_write bs w w' r : os_write fd bs w = (w', r) ->
    writes w' = writes w ++ [(bs, match r with Ok n => take (N.to_nat n) bs | Err _ => [] end)]
}.

(** The kernel takes a buffer from the front. *)
Definition taken_of (wr : list byte * list byte) : Prop := wr.2 `prefix_of` wr.1.

(** The payloads of the INPUTs among some commands. *)
Definition inputs `{Tokio} (cs : list (SessionCommand frame_tx reply_tx)) : list (list byte) :=
  omap (fun c => match c with Input bs => Some bs | _ => None end) cs.

Lemma inputs_app `{Tokio} cs1 cs2 : inputs (cs1 ++ cs2) = inputs cs1 ++ inputs cs2.
Proof. apply omap_app. Qed.

(** * One channel *)

Section channel.
Context {T : Tokio} {L : ChannelLaws} {C : CommandLaws} {R : Receivers} {F : Traffic} {FL : TrafficLaws}.
Context (tx : cmd_tx).

(** The channel takes more commands, and gives none. *)
Definition fills (st st' : store) : Prop :=
  opened st tx -> opened st' tx /\ handled st' tx = handled st tx /\ commands st tx `prefix_of` commands st' tx.

#[export] Instance fills_pre : PreOrder fills.
Proof.
  split; [intros st Ho; by split_and!|]. intros a b c Hab Hbc Ho. destruct (Hab Ho) as (H1 & E1 & P1).
  destruct (Hbc H1) as (H2 & E2 & P2). split_and!; [done|congruence|by etrans].
Qed.

Lemma fills_moves (a : frame_tx -> Prop) t h d st st' :
  moves a t h d st st' -> ~ h tx -> commands st tx `prefix_of` commands st' tx -> fills st st'.
Proof. intros Hm Hh Hc Ho. split_and!; [by eapply still_opened|by eapply still_handled|done]. Qed.

Lemma fills_quiet (a : frame_tx -> Prop) h d st st' : moves a nothing h d st st' -> ~ h tx -> fills st st'.
Proof.
  intros Hm Hh. eapply fills_moves; [exact Hm|done|]. rewrite (still_commands _ _ _ _ _ _ Hm) by (by intros []). done.
Qed.

#[export] Instance fills_respected : Respected (fun _ => True) (fun _ _ => True) (fun _ _ => True) fills.
Proof.
  split.
  - apply fills_pre.
  - intros t f st _. eapply fills_quiet; [apply flow_try_send|by intros []].
  - intros t c st _. eapply fills_moves; [apply flow_send_cmd|by intros []|].
    destruct (decide (t = tx)) as [->|Hne].
    + destruct (send_cmd tx c st) as [st' []] eqn:Es; cbn [fst]; [|by rewrite (cmd_refused _ _ _ _ Es)].
      rewrite (cmd_accepted _ _ _ _ Es). by apply prefix_app_r.
    + by rewrite (still_commands _ _ _ _ _ _ (flow_send_cmd t c st)).
  - intros n st. destruct (frame_channel n st) as [st' [t r]] eqn:Ec. eapply fills_quiet; [by eapply flow_frame_channel|by intros []].
  - intros n st. destruct (cmd_channel n st) as [st' [t r]] eqn:Ec. destruct (flow_cmd_channel _ _ _ _ _ Ec) as (Hm & Hn & _).
    intros Ho. assert (Hne : t <> tx) by (by intros ->). revert Ho. eapply fills_moves; [exact Hm|done|].
    cbn [fst]. by rewrite (still_commands _ _ _ _ _ _ Hm).
  - intros st. eapply fills_quiet; [apply flow_oneshot|by intros []].
  - intros r i st _. eapply fills_quiet; [apply flow_reply|by intros []].
  - intros t st. eapply fills_quiet; [apply flow_drop_tx|by intros []].
  - intros rx st. eapply fills_quiet; [apply flow_drop_frame_rx|by intros []].
  - intros rx st st' i Er. eapply fills_quiet; [by eapply flow_recv_reply|by intros []].
  - intros rx st. eapply fills_quiet; [apply flow_drop_reply_rx|by intros []].
  - intros t st. eapply fills_quiet; [apply flow_drop_cmd_tx|by intros []].
Qed.

#[export] Instance fills_forgotten : Forgotten fills.
Proof. intros rx st. eapply fills_quiet; [apply flow_drop_cmd_rx|by intros []]. Qed.
End channel.

(** What was taken out of a channel between two moments. *)
Definition window {A} (h0 h : nat) (cs : list A) : list A := drop h0 (take h cs).

Lemma window_prefix {A} h0 h (cs cs' : list A) :
  cs `prefix_of` cs' -> h = h0 \/ h <= length cs -> window h0 h cs' = window h0 h cs.
Proof.
  intros [more ->] [-> |Hh]; unfold window; [|by rewrite take_app_le].
  by rewrite !drop_ge by (rewrite length_take; lia).
Qed.

Lemma window_snoc {A} h0 h (cs : list A) c : h0 <= h -> cs !! h = Some c -> window h0 (S h) cs = window h0 h cs ++ [c].
Proof.
  intros Hh Hc. unfold window. rewrite (take_S_r _ _ _ Hc). apply drop_app_le.
  apply lookup_lt_Some in Hc. rewrite length_take. lia.
Qed.

(** * One turn *)

Section turn.
Context {T : Tokio} {L : ChannelLaws} {C : CommandLaws} {R : Receivers} {F : Traffic} {FL : TrafficLaws}.
Context {O : Os} {fd : Fd} {K : Keyboard fd}.
Context `{Engine} `{!Json StatusMsg, !Json ExitMsg}.

(** The look for a command gives the next one. *)
Lemma poll_next tx rx st : linked tx rx -> opened st tx ->
  let '(st', cmd) := poll_cmd rx st in
  opened st' tx /\ commands st' tx = commands st tx /\
  match cmd with
  | Some (Some c) => commands st tx !! handled st tx = Some c /\ handled st' tx = S (handled st tx)
  | _ => handled st' tx = handled st tx
  end.
Proof.
  intros Hl Ho. unfold poll_cmd. destruct (recv_cmd rx st) as [[st' c]|] eqn:Er; [|done].
  destruct (flow_recv_cmd _ _ _ _ _ Hl Er) as [Hm Hc].
  split; [by eapply still_opened|]. split; [apply (still_commands _ _ _ _ _ _ Hm); by intros []|]. by destruct c.
Qed.

(** The input a turn finds. *)
Definition input_of (cmd : option (option (SessionCommand frame_tx reply_tx))) : list (list byte) :=
  match cmd with Some (Some (Input bs)) => [bs] | _ => [] end.

(** A turn that takes a command moves the window over it. *)
Lemma turn_window h0 h h' (cs cs' : list (SessionCommand frame_tx reply_tx)) cmd :
  h0 <= h -> h = h0 \/ h <= length cs ->
  match cmd with Some (Some c) => cs !! h = Some c /\ h' = S h | _ => h' = h end -> cs `prefix_of` cs' ->
  h0 <= h' /\ (h' = h0 \/ h' <= length cs') /\ inputs (window h0 h' cs') = inputs (window h0 h cs) ++ input_of cmd.
Proof.
  intros Hle Hlen Hn Hc. pose proof (prefix_length _ _ Hc) as Hcl.
  assert (Hsame : h' = h -> input_of cmd = [] ->
    h0 <= h' /\ (h' = h0 \/ h' <= length cs') /\ inputs (window h0 h' cs') = inputs (window h0 h cs) ++ input_of cmd).
  { intros -> ->. rewrite (window_prefix _ _ _ _ Hc Hlen), app_nil_r. split_and!; [done|lia|done]. }
  destruct cmd as [[c|]|]; [|by apply Hsame..]. destruct Hn as [Hx ->]. pose proof (lookup_lt_Some _ _ _ Hx) as Hlt.
  split; [lia|]. split; [right; lia|].
  rewrite (window_prefix _ _ cs cs' Hc) by (right; lia). rewrite (window_snoc _ _ _ c) by done.
  rewrite inputs_app. by destruct c.
Qed.

(** A live session makes one write of the whole input, a dead one none. *)
Lemma write_input_writes s bs w w' x :
  Session.write_input s bs w = (w', x) -> master (Session.pty s) = fd ->
  exists new, writes w' = writes w ++ new /\ Forall taken_of new /\ new.*1 = if Session.is_dead s then [] else [bs].
Proof.
  unfold Session.write_input, Pty.write_input. destruct (Session.is_dead s).
  { intros [= <- _] _. exists []. by rewrite app_nil_r. }
  intros Hs Hm. rewrite Hm in Hs. destruct (os_write fd bs w) as [w1 r] eqn:Ew. apply writes_write in Ew.
  destruct r as [n|er]; cbn [sys] in Hs; injection Hs as <- _; eexists; (split; [exact Ew|]);
    (split; [constructor; [|done]; cbn; [apply prefix_take||apply prefix_nil]|done]).
Qed.

(** A turn writes the input it takes, or nothing. *)
Lemma select_writes opts fuel ready a w st flow w' st' :
  select opts fuel ready a w st = Some (flow, w', st') -> desk a = fd ->
  desk (flow_actor flow) = fd /\
  exists new, writes w' = writes w ++ new /\ Forall taken_of new /\
    new.*1 = if Session.is_dead (session a) then [] else input_of (r_cmd ready).
Proof.
  intros Hs Hd. assert (Hq : (forall bs, r_cmd ready <> Some (Some (Input bs))) -> desk (flow_actor flow) = fd /\
    exists new, writes w' = writes w ++ new /\ Forall taken_of new /\
      new.*1 = if Session.is_dead (session a) then [] else input_of (r_cmd ready)).
  { intros Hn. destruct (select_spares (p := fun _ => False) (m := eq fd) (R := fun w w' => writes w' = writes w) _ _ _ _ _ _ _ _ _ Hs
      ltac:(left; by intros []) ltac:(by intros bs Hb; destruct (Hn bs))) as (Hr & Hp & _).
    split; [unfold desk; by rewrite Hp|]. exists []. rewrite app_nil_r. split; [done|]. split; [done|].
    destruct (Session.is_dead _); [done|]. unfold input_of.
    destruct (r_cmd ready) as [[[bs| | | |]|]|]; try done. by destruct (Hn bs). }
  destruct (r_cmd ready) as [[[bs|c r|g|req|reply]|]|] eqn:Ec; try by apply Hq.
  unfold select in Hs. rewrite Ec in Hs. cbn [on_cmd] in Hs.
  destruct (Session.write_input (session a) bs w) as [w1 x] eqn:Ew. injection Hs as <- <- _.
  split; [done|]. by eapply write_input_writes.
Qed.

(** The dead stay dead. *)
Lemma select_dead opts fuel ready a w st a' w' st' :
  select opts fuel ready a w st = Some (Continue a', w', st') ->
  Session.is_dead (session a) = true -> Session.is_dead (session a') = true.
Proof.
  unfold select. intros Hs Hd. destruct (r_cmd ready) as [[[input|c r|g|req|reply]|]|]; cbn [on_cmd] in Hs; try done.
  - destruct (Session.write_input _ _ w). by injection Hs as <- _ _.
  - pose proof (resize_session c r (session a) w) as [_ Hl].
    destruct (Session.resize c r (session a) w) as [[w1 s1] x]. injection Hs as <- _ _. revert Hd. unfold Session.is_dead.
    cbn [session set_session fst snd] in *. by rewrite Hl.
  - apply on_close_flow in Hs as (a1 & _ & _ & Hf). by rewrite Hd in Hf.
  - apply on_attach_flow in Hs as (a1 & _ & _ & _ & Hf). by rewrite Hd in Hf.
  - destruct (Session.info _ _ w). by injection Hs as <- _ _.
  - rewrite Hd in Hs. destruct (passed (grace_deadline a) _); [done|]. destruct (passed (kill_deadline a) _).
    { unfold on_kill_deadline in Hs. destruct (if Session.is_dead _ then _ else _). by injection Hs as <- _ _. }
    destruct (_ && _); [|by injection Hs as <- _ _].
    apply on_tick_continues in Hs as (a1 & [= ->] & E1 & _). by rewrite E1.
Qed.
End turn.

(** * A run *)

Section runs.
Context `{EngineLaws}.
Context {T : Tokio} {L : ChannelLaws} {C : CommandLaws} {R : Receivers} {F : Traffic} {FL : TrafficLaws}.
Context {P : Replies} {PL : ReplyLaws} {O : Os} {fd : Fd} {K : Keyboard fd}.
Context `{Stream}.
Context `{!Json StatusMsg, !Json ExitMsg, !Json Hello, !Json (list SessionInfo), !Json AttachOrOpen,
          !Json Protocol.Resize, !Json CloseMsg} `{!JsonLaws StatusMsg}.
Context (opts : ServerOpts) (version : list byte) (me : u32) (k : nat).

(** The master is of task [k] only. *)
Definition sole_desk (d : Daemon) : Prop :=
  forall k' id a rx, tasks d !! k' = Some (Running id a rx) -> k' <> k -> desk a <> fd.

(** Any events, while the task runs, its master is its own, and nothing else types. *)
Inductive keyed (d : Daemon) : Daemon -> Prop :=
  | Keyed0 : keyed d d
  | KeyedMore e d1 d2 id a rx : keyed d d1 -> sole_desk d1 ->
      (forall w, e = Outside w -> writes w = writes (machine d1)) ->
      step opts version me e d1 = Some d2 -> tasks d2 !! k = Some (Running id a rx) -> keyed d d2.

(** Since [d0] the master was written the inputs that came out of [tx], all of them
    while the session is alive. *)
Definition pressed (tx : cmd_tx) (d0 d : Daemon) : Prop :=
  exists id a rx new, tasks d !! k = Some (Running id a rx) /\ linked tx rx /\ desk a = fd /\ opened (chans d) tx /\
    handled (chans d0) tx <= handled (chans d) tx /\
    (handled (chans d) tx = handled (chans d0) tx \/ handled (chans d) tx <= length (commands (chans d) tx)) /\
    writes (machine d) = writes (machine d0) ++ new /\ Forall taken_of new /\
    let given := inputs (window (handled (chans d0) tx) (handled (chans d) tx) (commands (chans d) tx)) in
    new.*1 `prefix_of` given /\ (Session.is_dead (session a) = false -> new.*1 = given).

(** The channel of another task is another channel. *)
Lemma other_channel d k1 k2 id1 id2 a1 a2 rx1 rx2 tx1 tx2 :
  settled d -> tasks d !! k1 = Some (Running id1 a1 rx1) -> tasks d !! k2 = Some (Running id2 a2 rx2) ->
  linked tx1 rx1 -> linked tx2 rx2 -> k1 <> k2 -> tx1 <> tx2.
Proof.
  intros Hd E1 E2 L1 L2 Hk <-. destruct (task_named _ (settled_matched _ Hd) k1 id1 rx1) as (t1 & S1 & M1); [by apply (live_at d k1 _ E1)|].
  destruct (task_named _ (settled_matched _ Hd) k2 id2 rx2) as (t2 & S2 & M2); [by apply (live_at d k2 _ E2)|].
  rewrite (linked_one _ _ _ M1 L1) in S1. rewrite (linked_one _ _ _ M2 L2) in S2. cbn [view v_reg] in *.
  pose proof (settled_apart _ Hd _ _ _ S1 S2) as <-. apply Hk.
  eapply (task_unique _ (settled_matched _ Hd)); [by apply (live_at d k1 _ E1)|by apply (live_at d k2 _ E2)].
Qed.

(** An event of another task, or of none. *)
Lemma fills_step e d d' tx id a rx :
  settled d -> tasks d !! k = Some (Running id a rx) -> linked tx rx -> event_of k e = false ->
  step opts version me e d = Some d' -> fills tx (chans d) (chans d').
Proof.
  intros Hd Ek Hl He. apply (step_follows (P := fills tx)). split; try done.
  - intros n _. by apply (respects_infos (P := fills tx)).
  - intros n rs dec t out wh st f _ Hc Hr. destruct (settled_tracked _ Hd) as (h & lg & Ht).
    destruct (tracked_conn _ _ _ Ht n _ Hc) as (_ & _ & o & _ & _ & Hp & _).
    eapply fills_quiet; [by eapply flow_recv_frame|by intros []].
  - intros k' fuel b t id' a' rx' -> Ek'. apply bool_decide_eq_false in He.
    destruct (task_named _ (settled_matched _ Hd) k' id' rx') as (tx' & _ & Hl'); [by apply (live_at d k' _ Ek')|].
    unfold poll_cmd. destruct (recv_cmd rx' (chans d)) as [[st c]|] eqn:Er; [|done].
    eapply fills_quiet; [by eapply flow_recv_cmd|]. eapply other_channel; [exact Hd|exact Ek'|exact Ek|done..].
  - apply forgets_ended.
Qed.

Lemma pressed_other e tx d0 d d' :
  settled d -> sole_desk d -> (forall w, e = Outside w -> writes w = writes (machine d)) -> event_of k e = false ->
  step opts version me e d = Some d' -> pressed tx d0 d -> pressed tx d0 d'.
Proof.
  intros Hd Hsole Hout He Hs (id & a & rx & new & Ek & Hl & Ha & Ho & Hle & Hlen & Ht & Hf & Hp).
  destruct (fills_step _ _ _ _ _ _ _ Hd Ek Hl He Hs Ho) as (Ho' & Eh & Hc).
  assert (Em : writes (machine d') = writes (machine d)).
  { eapply (step_spares (p := fun _ => False) (m := eq fd) (R := fun w w' => writes w' = writes w)); [|exact Hs].
    destruct e as [| | | | | | |k' b|k' fuel b t|k'| | |w]; try done; cbn [elsewhere event_of] in *.
    - intros ? ? ? ? _ _ [].
    - apply bool_decide_eq_false in He. intros id' a' rx' Ek'. split; [by intros []|]. intros E0. by apply (Hsole k' id' a' rx' Ek' He).
    - by intros ? ? ? [].
    - by apply Hout. }
  exists id, a, rx, new. rewrite Eh, Em, (window_prefix _ _ _ _ Hc Hlen). split_and!; [by eapply step_task|done|done|done|done| |done|done|exact Hp].
  destruct Hlen as [|Hx]; [by left|right]. etrans; [exact Hx|by apply prefix_length].
Qed.

(** A turn of the task. *)
Lemma pressed_turn fuel b t tx d0 d d' id' a' rx' :
  actor_turn opts k fuel b t d = Some d' -> tasks d' !! k = Some (Running id' a' rx') -> pressed tx d0 d -> pressed tx d0 d'.
Proof.
  intros Hs Ek' (id & a & rx & new & Ek & Hl & Ha & Ho & Hle & Hlen & Ht & Hf & Hpre & Hall). unfold actor_turn in Hs. rewrite Ek in Hs.
  pose proof (poll_next tx rx (chans d) Hl Ho) as Hn. destruct (poll_cmd rx (chans d)) as [st cmd]. destruct Hn as (Ho1 & Ec & Hn).
  destruct (select _ _ _ _ _ _) as [[[flow w] st']|] eqn:Es; cbn [mbind option_bind] in Hs; [|done].
  destruct (select_writes _ _ _ _ _ _ _ _ _ Es Ha) as (Ha' & more & Hw & Hf' & Hm). cbn [r_cmd] in Hm.
  destruct (respects_select (X := fun _ => True) (P := fills tx) _ _ _ _ _ _ _ _ _ Es ltac:(by intros ?) ltac:(done) ltac:(done)) as [Hfl _].
  destruct (Hfl Ho1) as (Ho2 & Eh & Hc). rewrite Ec in Hc.
  destruct (turn_window _ _ _ _ _ _ Hle Hlen Hn Hc) as (Hle' & Hlen' & Ewin).
  destruct flow as [a0|a0]; injection Hs as <-; cbn [tasks set_task with_tasks with_machine with_chans with_registry] in Ek';
    rewrite lookup_insert_eq in Ek'; [|done]. injection Ek' as <- <- <-. exists id, a0, rx, (new ++ more).
  cbn [tasks chans machine set_task with_tasks with_machine with_chans].
  rewrite lookup_insert_eq, Eh, Ewin, Hw, Ht, fmap_app, Hm, app_assoc. pose proof (select_dead _ _ _ _ _ _ _ _ _ Es) as Hdead.
  split_and!; [done|done|done|done|done|done|done|by apply Forall_app| |].
  - destruct (Session.is_dead (session a)); [rewrite app_nil_r; by apply prefix_app_r|by rewrite Hall].
  - destruct (Session.is_dead (session a)); [by rewrite Hdead|by rewrite Hall].
Qed.

Lemma pressed_step e tx d0 d d' id a rx :
  settled d -> sole_desk d -> (forall w, e = Outside w -> writes w = writes (machine d)) ->
  step opts version me e d = Some d' -> tasks d' !! k = Some (Running id a rx) -> pressed tx d0 d -> pressed tx d0 d'.
Proof.
  intros Hd Hsole Hout Hs Ek Hp. destruct (event_of k e) eqn:Ev; [|by eapply pressed_other].
  destruct e as [| | | | | | |k' b|k' fuel b t|k'| | |]; try done; apply bool_decide_eq_true in Ev as ->; cbn [step] in Hs.
  - destruct Hp as (? & ? & ? & ? & E0 & _). unfold open_task in Hs. by rewrite E0 in Hs.
  - by eapply pressed_turn.
  - destruct Hp as (? & ? & ? & ? & E0 & _). unfold finish_task in Hs. by rewrite E0 in Hs.
Qed.
(** From the moment the actor loops. *)
Lemma pressed_start tx d id a rx :
  settled d -> tasks d !! k = Some (Running id a rx) -> sessions (registry d) !! id = Some tx -> desk a = fd -> pressed tx d d.
Proof.
  intros Hd Ek Htx Ha.
  destruct (task_named _ (settled_matched _ Hd) k id rx) as (tx' & Htx' & Hl); [by apply (live_at d k _ Ek)|].
  cbn [view v_reg] in Htx'. assert (tx' = tx) as -> by congruence. destruct (settled_tracked _ Hd) as (h & lg & Ht).
  exists id, a, rx, []. unfold window. rewrite drop_ge by (rewrite length_take; lia).
  split_and!; [done|done|done|by eapply (tracked_entries _ _ _ Ht)|done|by left|by rewrite app_nil_r|done|done|done].
Qed.

Lemma keyed_pressed tx d0 d :
  settled d0 -> pressed tx d0 d0 -> keyed d0 d -> settled d /\ pressed tx d0 d.
Proof.
  intros Hd0 Hp0. induction 1 as [|e d1 d2 id1 a1 rx1 _ [Hd1 Hp1] Hsole Hout Hs Ek1]; [done|].
  split; [by eapply settled_step|by eapply pressed_step].
Qed.
End runs.
