(* ===== verification/Keystrokes.v ===== *)
(** From the keyboards of the clients to the shell, end to end.

    [Senders] brings the frames of a client to the channel of its session, and
    [Keyboard] the commands in the channel to the master of its PTY. Here the two
    are put together: who typed what the shell reads. *)
From S2P Require Import Prelude Status Engine Pty Protocol Wire Registry Server Actor Connection.
From S2P Require Import Stores Syscalls Daemon DaemonProps Steps Terminal Intake Senders Requests Listing Keyboard.
From S2P Require Session Idle Clients.

(** What is typed by some frames, and by what arrived on the socket of connection
    [n], behind its first frame. *)
Definition keystrokes (fs : list Frame) : list (list byte) :=
  omap (fun f => if decide (ty f = Protocol.Input) then Some (payload f) else None) fs.

Definition keyed_in `{Engine, Os, Tokio, Stream} (n : nat) (es : list event) : list (list byte) :=
  keystrokes (drop 1 (frames (Clients.received (heard n es))).1.1).

(** A stroke: the connection it comes from, and one write call, with the payload of
    its frame and the part of it the kernel took. *)
Definition stroke : Type := nat * (list byte * list byte).
Definition stroke_of (n : nat) (s : stroke) : Prop := s.1 = n.
Definition payload_of (s : stroke) : list byte := s.2.1.
Definition typed_by (s : stroke) : nat * list byte := (s.1, payload_of s).
#[export] Instance stroke_of_dec n s : Decision (stroke_of n s).
Proof. unfold stroke_of. apply _. Defined.

Section lists.
Context `{Tokio}.
#[local] Abbreviation Command := (SessionCommand frame_tx reply_tx).

(** The inputs among some commands, with their senders. *)
Definition tagged (l : list (nat * Command)) : list (nat * list byte) :=
  omap (fun p => match p.2 with Input bs => Some (p.1, bs) | _ => None end) l.

Lemma tagged_inputs l : (tagged l).*2 = inputs l.*2.
Proof.
  induction l as [|[n c] l IH]; [done|]. unfold tagged, inputs in *. cbn [omap list_omap fmap list_fmap fst snd].
  destruct c; cbn [fmap list_fmap snd]; by rewrite ?IH.
Qed.

Lemma tagged_share n l : (base.filter (fun p => p.1 = n) (tagged l)).*2 = inputs (share n l).
Proof.
  induction l as [|[m c] l IH]; [done|]. unfold tagged, inputs, share in *. cbn [omap list_omap fst snd].
  destruct (decide (m = n)) as [->|Hne].
  - rewrite (filter_cons_True _ (n, c)) by done. cbn [fmap list_fmap snd omap list_omap].
    destruct c; try exact IH. rewrite filter_cons_True by done. cbn [fmap list_fmap snd]. by rewrite IH.
  - rewrite (filter_cons_False _ (m, c)) by done.
    destruct c; try exact IH. by rewrite filter_cons_False by done.
Qed.

(** Write calls, with the senders of what they write. *)
Lemma strokes_of (new : list (list byte * list byte)) (l : list (nat * list byte)) :
  new.*1 `prefix_of` l.*2 -> exists ss : list stroke, ss.*2 = new /\ typed_by <$> ss = take (length new) l.
Proof.
  revert l. induction new as [|[bs p] new IH]; intros l Hp; cbn [fmap list_fmap fst] in Hp; [by exists []|].
  destruct l as [|[n x] l]; cbn [fmap list_fmap snd] in Hp; [by apply prefix_nil_not in Hp|].
  apply prefix_cons_inv_1 in Hp as Hx. subst x. apply prefix_cons_inv_2 in Hp. destruct (IH l Hp) as (ss & <- & Ht).
  exists ((n, (bs, p)) :: ss). split; [done|]. cbn [length take fmap list_fmap]. by rewrite <- Ht.
Qed.

Lemma strokes_client n (ss : list stroke) :
  payload_of <$> base.filter (stroke_of n) ss = (base.filter (fun p => p.1 = n) (typed_by <$> ss)).*2.
Proof.
  induction ss as [|[m [bs p]] ss IH]; [done|]. cbn [fmap list_fmap fst].
  destruct (decide (m = n)) as [->|Hne].
  - rewrite !filter_cons_True by done. cbn [fmap list_fmap snd]. by rewrite IH.
  - by rewrite !filter_cons_False by done.
Qed.

(** The inputs of a client: those before a window, those in it, and the rest. *)
Lemma share_window n h0 h (l : list (nat * Command)) : h0 <= h ->
  exists after, inputs (share n l) = inputs (share n (take h0 l)) ++ inputs (share n (window h0 h l)) ++ after.
Proof.
  intros Hh. exists (inputs (share n (drop h l))). unfold window.
  rewrite <- !inputs_app, <- !share_app, app_assoc. do 2 f_equal.
  replace (take h0 l) with (take h0 (take h l)) by (rewrite take_take; f_equal; lia). by rewrite take_drop, take_drop.
Qed.

(** Those of a first part of a window. *)
Lemma share_taken n m (l : list (nat * Command)) :
  exists after, inputs (share n l) = (base.filter (fun p => p.1 = n) (take m (tagged l))).*2 ++ after.
Proof.
  exists (base.filter (fun p => p.1 = n) (drop m (tagged l))).*2.
  by rewrite <- fmap_app, <- filter_app, take_drop, tagged_share.
Qed.
End lists.

Lemma window_fmap {A B} (f : A -> B) h0 h (l : list A) : f <$> window h0 h l = window h0 h (f <$> l).
Proof. unfold window. by rewrite fmap_drop, fmap_take. Qed.

Section clients.
Context `{Engine, Os}.
Context {T : Tokio} {L : ChannelLaws} {C : CommandLaws} {R : Receivers} {F : Traffic} {FL : TrafficLaws}.
Context `{Stream}.
Context `{!Json StatusMsg, !Json ExitMsg, !Json Hello, !Json (list SessionInfo), !Json AttachOrOpen,
          !Json Protocol.Resize, !Json CloseMsg}.

(** The commands of some frames type what the frames say, up to a CLOSE. *)
Lemma inputs_commands fs : inputs (Clients.commands_of fs) `prefix_of` keystrokes fs.
Proof.
  induction fs as [|f fs IH]; [done|]. unfold inputs, keystrokes in *. cbn [Clients.commands_of omap list_omap].
  destruct (ty f) eqn:Et; try exact IH.
  - cbn [omap list_omap]. rewrite decide_True by done. by apply prefix_cons.
  - destruct (json Protocol.Resize f); exact IH.
  - cbn [omap list_omap]. apply prefix_nil.
Qed.

(** All of it, if there is none. *)
Lemma inputs_unclosed fs : Clients.closes fs = false -> inputs (Clients.commands_of fs) = keystrokes fs.
Proof.
  induction fs as [|f fs IH]; [done|]. intros [Hn Hc]%orb_false_iff. specialize (IH Hc). apply bool_decide_eq_false in Hn.
  unfold inputs, keystrokes in *. cbn [Clients.commands_of omap list_omap]. destruct (ty f) eqn:Et; try done.
  - cbn [omap list_omap]. rewrite decide_True by done. by rewrite IH.
  - by destruct (json Protocol.Resize f).
Qed.

Lemma inputs_infos cs : Forall is_info cs -> inputs cs = [].
Proof. unfold inputs. induction 1 as [|c cs [r ->] _ IH]; [done|]. exact IH. Qed.

Lemma inputs_prefix cs cs' : cs `prefix_of` cs' -> inputs cs `prefix_of` inputs cs'.
Proof. intros [more ->]. rewrite inputs_app. by apply prefix_app_r. Qed.

Lemma keystrokes_app fs fs' : keystrokes (fs ++ fs') = keystrokes fs ++ keystrokes fs'.
Proof. apply omap_app. Qed.

Lemma asks_keystrokes o first fs cs : asks o first fs cs -> inputs cs `prefix_of` keystrokes fs.
Proof. intros (req & _ & ->). apply inputs_commands. Qed.

(** Whatever the state of its connection, the inputs of a client are the first
    of those it has typed. *)
Lemma share_typed h lg d n tx :
  tracked h lg d -> inputs (share n (lg tx)) `prefix_of` keystrokes (drop 1 (frames (Clients.received (h n))).1.1).
Proof.
  intros Ht. destruct (conns d !! n) as [c|] eqn:Ec.
  2: { destruct (tracked_new _ _ _ Ht n Ec) as [_ Hs]. rewrite Hs. apply prefix_nil. }
  assert (Hinfo : Forall is_info (share n (lg tx)) -> inputs (share n (lg tx)) `prefix_of` keystrokes (drop 1 (frames (Clients.received (h n))).1.1)).
  { intros Hi. rewrite (inputs_infos _ Hi). apply prefix_nil. }
  apply (tracked_conn _ _ _ Ht) in Ec. destruct c as [rs dec wh|rs dec wh|rs dec wh rxs infos t|rs dec tx' out wh|wh]; cbn [said] in Ec.
  - apply Hinfo. destruct Ec as [_ ->]. constructor.
  - apply Hinfo, Ec.
  - apply Hinfo, Ec.
  - destruct Ec as (first & fs & o & Hr & _ & _ & Ha & Hn).
    destruct (decide (tx = tx')) as [->|Hne]; [|rewrite (Hn tx Hne); apply prefix_nil].
    destruct (reading_frames _ _ _ _ Hr) as (fs' & r & e & _ & ->). cbn [fst drop app].
    etrans; [by eapply asks_keystrokes|]. rewrite skipn_O, keystrokes_app. by apply prefix_app_r.
  - destruct Ec as [Hi|(tx' & o & first & fs & rest & cs & Hb & Ha & Hp & Hn)]; [apply Hinfo, Hi|].
    destruct (decide (tx = tx')) as [->|Hne]; [|rewrite (Hn tx Hne); apply prefix_nil].
    rewrite (consumed_frames _ _ _ Hb). cbn [fst drop app]. rewrite skipn_O, keystrokes_app. apply prefix_app_r.
    etrans; [by apply inputs_prefix|by eapply asks_keystrokes].
Qed.

(** A client that is still bound has lost nothing: what it typed is in its share,
    or is still to be read. *)
Lemma share_complete h lg d n rs dec tx out wh :
  tracked h lg d -> conns d !! n = Some (Attached rs dec tx out wh) ->
  keystrokes (drop 1 (frames (Clients.received (h n))).1.1) =
    inputs (share n (lg tx)) ++ keystrokes (frames (unread dec ++ Clients.received rs)).1.1.
Proof.
  intros Ht Hc. apply (tracked_conn _ _ _ Ht) in Hc as (first & fs & o & Hr & Hcl & _ & (req & _ & ->) & _).
  destruct (reading_frames _ _ _ _ Hr) as (fs' & r & e & -> & ->). cbn [fst drop app].
  rewrite skipn_O, keystrokes_app. f_equal. symmetry. by apply inputs_unclosed.
Qed.
End clients.

(** * A run *)

Section runs.
Context `{EngineLaws}.
Context {T : Tokio} {L : ChannelLaws} {C : CommandLaws} {R : Receivers} {F : Traffic} {FL : TrafficLaws}.
Context {P : Replies} {PL : ReplyLaws} {O : Os} {fd : Fd} {K : Keyboard fd}.
Context `{Stream}.
Context `{!Json StatusMsg, !Json ExitMsg, !Json Hello, !Json (list SessionInfo), !Json AttachOrOpen,
          !Json Protocol.Resize, !Json CloseMsg} `{!JsonLaws StatusMsg}.
Context (opts : ServerOpts) (version : list byte) (me : u32) (k : nat).

(** [keyed], with its events. *)
Inductive presses (d : Daemon) : list event -> Daemon -> Prop :=
  | Presses0 : presses d [] d
  | PressesMore es e d1 d2 id a rx : presses d es d1 -> sole_desk (fd := fd) k d1 ->
      (forall w, e = Outside w -> writes w = writes (machine d1)) ->
      step opts version me e d1 = Some d2 -> tasks d2 !! k = Some (Running id a rx) -> presses d (es ++ [e]) d2.

Lemma presses_keyed d es d' : presses d es d' -> keyed opts version me k d d'.
Proof. induction 1; [apply Keyed0|by eapply KeyedMore]. Qed.

Lemma presses_run d es d' : presses d es d' -> run opts version me es d = Some d'.
Proof. induction 1 as [|? ? ? ? ? ? ? _ IH _ _ Hs _]; [done|]. rewrite run_app, IH. cbn. by rewrite Hs. Qed.

(** The writes of a window, as strokes. *)
Lemma window_strokes h lg d tx h0 h1 new :
  tracked h lg d -> h0 <= h1 -> new.*1 `prefix_of` inputs (window h0 h1 (commands (chans d) tx)) ->
  exists ss : list stroke, ss.*2 = new /\ typed_by <$> ss `prefix_of` tagged (window h0 h1 (lg tx)) /\
    (new.*1 = inputs (window h0 h1 (commands (chans d) tx)) -> typed_by <$> ss = tagged (window h0 h1 (lg tx))) /\
    forall n, exists after, keystrokes (drop 1 (frames (Clients.received (h n))).1.1) =
      inputs (share n (take h0 (lg tx))) ++ (payload_of <$> base.filter (stroke_of n) ss) ++ after.
Proof.
  intros Ht Hh Hp. rewrite <- (tracked_log _ _ _ Ht), <- window_fmap, <- tagged_inputs in *.
  destruct (strokes_of _ _ Hp) as (ss & Hss & Htag). exists ss. rewrite Htag. split; [done|]. split; [apply prefix_take|]. split.
  - intros E0. apply (f_equal length) in E0. rewrite !length_fmap in E0. by rewrite take_ge by lia.
  - intros n. rewrite strokes_client, Htag. destruct (share_window n h0 h1 (lg tx) Hh) as (after & Hsh).
    destruct (share_taken n (length new) (window h0 h1 (lg tx))) as (after' & Hw).
    destruct (share_typed _ _ _ n tx Ht) as [more ->]. rewrite Hsh, Hw. exists (after' ++ after ++ more). by rewrite <- !app_assoc.
Qed.
End runs.

