(* ===== verification/Panics.v ===== *)
(** No task of the daemon panics.

    The definitions keep every [expect], slice and index of the source as a
    [None]. In a run of the daemon none of them is met: a handler whose task is
    where it runs has a result, unless it waits. *)
From S2P Require Import Prelude Status Engine Pty Protocol Registry Server Wire Actor Connection Clients.
From S2P Require Import Stores Daemon DaemonProps Terminal Intake Senders.
From S2P Require Session.

(** * The actor *)

Section actor.
Context `{EngineLaws, Os, ChannelLaws} `{!Json StatusMsg, !Json ExitMsg} `{!TotalJson StatusMsg, !TotalJson ExitMsg}.

Lemma status_frame_total s : exists f, status_frame s = Some f.
Proof.
  unfold status_frame, control. destruct (to_vec_total {| msg_running := running s; msg_progress := progress s |}) as [bs ->].
  eauto.
Qed.

Lemma exit_frame_total code : exists f, exit_frame code = Some f.
Proof. unfold exit_frame, control. destruct (to_vec_total {| exit_status := code |}) as [bs ->]. eauto. Qed.

Lemma push_status_total a st : is_Some (push_status a st).
Proof.
  unfold push_status. cbv zeta. case_bool_decide; [done|].
  destruct (status_frame_total (effective_status (session a) (poll_running a))) as [f ->]. cbn [mbind option_bind].
  by destruct (push_or_drop _ _ st).
Qed.

Lemma drained_status_total a w st : is_Some (drained_status a w st).
Proof.
  unfold drained_status. destruct (client a); [|done].
  destruct (if negb _ && _ then _ else _) as [w1 a1]. destruct (push_status_total a1 st) as [[st1 a2] ->]. done.
Qed.

(** An engine that was reached takes any more output. *)
Lemma reached_total e more : reached e -> is_Some (eng_feed e more).
Proof.
  intros [out Ho]. rewrite (eng_feed_app _ _ _ Ho). destruct (eng_feed_total (out ++ more)) as [e' ->]. done.
Qed.

Lemma drain_total fuel s w :
  reached (Session.engine_st s) -> Pty.drain fuel (Session.pty s) [] w <> None -> is_Some (Session.drain fuel s w).
Proof.
  intros Hr Hd. unfold Session.drain. destruct (Pty.drain _ _ _ w) as [[w1 [dr|er]]|]; cbn [mbind option_bind]; [|done..].
  destruct (reached_total _ (bytes dr) Hr) as [e He].
  destruct (if bool_decide _ then _ else _) as [e'|] eqn:Ee; [|case_bool_decide; [done|congruence]].
  cbn [mbind option_bind]. destruct (_ && _); [|done]. by destruct (reap_blocking _ w1) as [w2 []].
Qed.

Lemma readable_total opts fuel now b a w st :
  reached (eng a) -> Pty.drain fuel (Session.pty (session a)) [] w <> None ->
  is_Some (on_readable opts fuel now b a w st).
Proof.
  intros Hr Hd. unfold on_readable. destruct (negb b); [done|].
  destruct (drain_total fuel (session a) w Hr Hd) as [[[w1 s1] [out|er]] ->]; cbn [mbind option_bind]; [|done].
  destruct (if bool_decide _ then _ else _) as [st1 c1].
  destruct (drained_status_total (set_client c1 (set_session s1 a)) w1 st1) as [[[w2 st2] a2] ->]. cbn [mbind option_bind].
  destruct (Session.exit out) as [code|]; [|done]. destruct (exit_frame_total code) as [f ->]. cbn [mbind option_bind].
  destruct (push_or_drop _ _ st2). by destruct (closing _).
Qed.

Lemma close_total now g a w st : is_Some (on_close now g a w st).
Proof.
  unfold on_close. destruct (Session.hangup _ w). cbv zeta. set (a1 := if (0 <? g)%N then _ else _).
  destruct (Session.is_dead _); [|done]. destruct (client a1); [|done].
  match goal with |- context [exit_frame ?c] => destruct (exit_frame_total c) as [x Hx] end; rewrite Hx. done.
Qed.

(** A turn of the loop has a result, if the kernel stops within the fuel. *)
Lemma select_total opts fuel ready a w st :
  reached (eng a) -> Pty.drain fuel (Session.pty (session a)) [] w <> None -> is_Some (select opts fuel ready a w st).
Proof.
  intros Hr Hd. unfold select. destruct (r_cmd ready) as [[[input|c r|g|req|reply]|]|]; cbn [on_cmd].
  - by destruct (Session.write_input _ _ w).
  - by destruct (Session.resize _ _ _ w) as [[? ?] ?].
  - apply close_total.
  - destruct (on_attach_total req a w st) as [x ->]. done.
  - by destruct (Session.info _ _ w).
  - done.
  - destruct (if Session.is_dead _ then None else r_readable ready) as [b|]; [by apply readable_total|].
    destruct (passed _ _); [done|]. destruct (passed _ _).
    { unfold on_kill_deadline. by destruct (if Session.is_dead _ then _ else _). }
    destruct (_ && _); [|done]. unfold on_tick. destruct (refresh_poll a w) as [w1 a1].
    by destruct (push_status_total a1 st) as [[st1 a2] ->].
Qed.
End actor.

(** * The daemon *)

Section daemon.
Context `{EngineLaws, Os} {T : Tokio} {L : ChannelLaws} {R : Receivers} `{Stream}.
Context `{!Json StatusMsg, !Json ExitMsg, !Json Hello, !Json (list SessionInfo), !Json AttachOrOpen,
          !Json Protocol.Resize, !Json CloseMsg} `{!JsonLaws StatusMsg}.
Context (opts : ServerOpts) (version : list byte) (me : u32).

Lemma greet_total n k d rs dec wh h fs :
  conns d !! n = Some (Greeting rs dec wh) -> tasks d !! k = None -> reading h rs dec fs ->
  is_Some (greet opts version n k d).
Proof.
  intros Ec Ek Hr. unfold greet. rewrite Ec, Ek. destruct (reading_one _ _ _ _ Hr) as (dec' & rs' & r & -> & _).
  cbn [mbind option_bind]. destruct r as [first| |e|]; try done. destruct (ty first); try done.
  by destruct (handle_session _ _ _ _ _ _) as [[reg st] c].
Qed.

Lemma serve_total n d rs dec wh h fs :
  conns d !! n = Some (Serving rs dec wh) -> reading h rs dec fs -> is_Some (serve n d).
Proof.
  intros Ec Hr. unfold serve. rewrite Ec. destruct (reading_one _ _ _ _ Hr) as (dec' & rs' & r & -> & _).
  cbn [mbind option_bind]. destruct r as [f| |e|]; try done. destruct (request_infos _ _). by destruct (ty f).
Qed.

Lemma list_turn_total n d rs dec wh rxs infos t :
  conns d !! n = Some (Listing rs dec wh rxs infos t) ->
  is_Some (list_turn n d) \/ exists rx rest, rxs = rx :: rest /\ recv_reply rx (chans d) = None /\ (clock d < t)%N.
Proof.
  intros Ec. unfold list_turn. rewrite Ec. destruct rxs as [|rx rest]; [by left|].
  destruct (recv_reply rx (chans d)) as [[st [i|]]|] eqn:Er; [by left..|].
  destruct (N.leb_spec t (clock d)); [by left|]. right. by exists rx, rest.
Qed.

Lemma attached_total n d rs dec tx out wh h fs :
  conns d !! n = Some (Attached rs dec tx out wh) -> reading h rs dec fs ->
  is_Some (reader_turn n d) /\ (is_Some (writer_turn n d) \/ recv_frame out (chans d) = None).
Proof.
  intros Ec Hr. unfold reader_turn, writer_turn. rewrite Ec. split.
  - destruct (reading_step _ _ _ _ tx (chans d) Hr) as (rs' & dec' & st & e & -> & _). done.
  - destruct (recv_frame out (chans d)) as [[st [f|]]|]; [left; cbn [mbind option_bind]..|by right]; [|done].
    by destruct (write_all (encode f) wh) as [wh' []].
Qed.

Lemma open_task_total k b d spec rx : tasks d !! k = Some (Opening spec rx) -> is_Some (open_task k b d).
Proof. intros Ek. unfold open_task. by rewrite Ek. Qed.

Lemma actor_turn_total k fuel b t d id a rx `{!TotalJson StatusMsg, !TotalJson ExitMsg} :
  engines (tasks d) -> tasks d !! k = Some (Running id a rx) ->
  is_Some (actor_turn opts k fuel b t d) \/ Pty.drain fuel (Session.pty (session a)) [] (machine d) = None.
Proof.
  intros He Ek. destruct (Pty.drain fuel (Session.pty (session a)) [] (machine d)) as [x|] eqn:Ed; [left|by right].
  unfold actor_turn. rewrite Ek. destruct (poll_cmd rx (chans d)) as [st cmd]. destruct (He _ _ _ _ Ek) as [Hr _].
  match goal with |- context [select opts fuel ?r a (machine d) st] =>
    destruct (select_total opts fuel r a (machine d) st Hr) as [[[flow w] st'] ->] end; [by rewrite Ed|done].
Qed.

Lemma finish_task_total k d a rx : tasks d !! k = Some (Ending a rx) -> is_Some (finish_task k d).
Proof. intros Ek. unfold finish_task. rewrite Ek. by destruct (drop_actor a _ _). Qed.
End daemon.

