(* ===== verification/DaemonWitness.v ===== *)
(** The theorems of the whole daemon at concrete runs. *)
From S2P Require Import Prelude Status Engine Pty Protocol Registry Server Wire Actor Connection.
From S2P Require Import OsInstance TokioInstance Vte ParserInstance ActorWitness ClientsWitness.
From S2P Require Import Idle Syscalls Daemon DaemonProps Detach Terminal Senders Listing Keyboard Keystrokes Panics.
From S2P Require Session.

#[local] Abbreviation attach_bytes := (encode (Frame_new AttachOrOpen_ [x00])).

(** A client of the same user connects and opens a session. *)
Definition open_events : list event :=
  [Accept 0 (Ok (Ok 1000%N, [] : @Connection.stream byte_stream)); Arrive 0 (Ok attach_bytes); Greet 0 0].

#[local] Abbreviation start0 :=
  (start 2 (no_channels : @store queue_tokio) (Session.script_demo : @world script_os)).

#[local] Abbreviation run0 := (run default_opts [] 1000).

(** The daemon after that. *)
Definition opened : Daemon :=
  {| registry := {| sessions := <["s" := 0 : @cmd_tx queue_tokio]> ∅; ended := true; max_sessions := 2 |};
     chans := demo_store; machine := (Session.script_demo : @world script_os);
     tasks := <[0 := Opening spec0 (0 : @cmd_rx queue_tokio)]> ∅;
     conns := <[0 := Attached [] {| buf := attach_bytes; pos := 6 |} (0 : @cmd_tx queue_tokio)
                       (1 : @frame_rx queue_tokio) ([] : @Connection.stream byte_stream)]> ∅;
     watcher := FirstCheck; clock := 0; accept_after := 0 |}.

Lemma opened_run : run0 open_events start0 = Some opened.
Proof. reflexivity. Qed.

Lemma one_task_per_entry_witness :
  exists d, run0 open_events start0 = Some d /\
    (exists k t rx, tasks d !! k = Some t /\ live t = Some ("s", rx)) /\
    (N.of_nat (size (omap live (tasks d))) <= 2)%N.
Proof.
  exists opened. split; [exact opened_run|].
  destruct (one_task_per_entry default_opts [] 1000 2 (no_channels : @store queue_tokio)
    (Session.script_demo : @world script_os) open_events opened opened_run) as (He & _ & Hn).
  split; [|exact Hn]. destruct (He "s" (0 : @cmd_tx queue_tokio) eq_refl) as (k & t & rx & Hk & Hl & _).
  exists k, t, rx. split; assumption.
Defined.

(** The master of the new shell cannot be watched: the task leaves the table. *)
Lemma unwatched k rx (d : Daemon) :
  tasks d !! k = Some (Opening spec0 rx) -> machine d = (Session.script_demo : @world script_os) ->
  open_task k false d =
    Some (set_task k (Ending (Actor_new Session.session0) rx)
            (with_machine (Session.script_demo : @world script_os) (with_registry (remove "s" (registry d)) d))).
Proof.
  intros Ht Hm. unfold open_task. rewrite Ht, Hm. cbn [session_id argv cwd Protocol.cols Protocol.rows spec0].
  by rewrite Session.opened_session0.
Qed.

Lemma run_then a b (d d1 d2 : Daemon) : run0 a d = Some d1 -> run0 b d1 = Some d2 -> run0 (a ++ b) d = Some d2.
Proof.
  revert d. induction a as [|e a IH]; intros d; [by intros [= ->]|]. cbn [run app].
  destruct (step default_opts [] 1000 e d) as [d0|]; cbn [mbind option_bind]; [apply IH|done].
Qed.

Lemma run_step e (d d1 : Daemon) : step default_opts [] 1000 e d = Some d1 -> run0 [e] d = Some d1.
Proof. intros E. cbn [run]. by rewrite E. Qed.

(** The watcher sees the session before that, and the table stays empty for the
    grace. *)
Definition watched (w : Watch) (t : N) (d : Daemon) : Daemon :=
  {| registry := registry d; chans := chans d; machine := machine d; tasks := tasks d; conns := conns d;
     watcher := w; clock := t; accept_after := accept_after d |}.

Definition unregistered : Daemon :=
  {| registry := {| sessions := ∅; ended := true; max_sessions := 2 |};
     chans := chans opened; machine := (Session.script_demo : @world script_os);
     tasks := <[0 := Ending (Actor_new Session.session0) (0 : @cmd_rx queue_tokio)]> ∅;
     conns := conns opened; watcher := Wait; clock := 0; accept_after := 0 |}.

(** The table is empty and the permit is taken. *)
Definition left_ (w : Watch) (t : N) : Daemon :=
  with_registry {| sessions := ∅; ended := false; max_sessions := 2 |} (watched w t unregistered).

Definition close_events : list event :=
  open_events ++ [WatchTurn; WatchTurn] ++ [OpenTask 0 false] ++ [WatchTurn; WatchTurn; Elapse 5000].

Lemma close_run : run0 close_events start0 = Some (left_ (Sleep 5000) 5000).
Proof.
  unfold close_events. eapply run_then; [exact opened_run|].
  eapply (run_then _ _ _ (watched Wait 0 opened)); [reflexivity|].
  eapply (run_then _ _ _ unregistered); [|reflexivity].
  apply run_step. cbn [step]. rewrite (unwatched 0 (0 : @cmd_rx queue_tokio)) by reflexivity. reflexivity.
Qed.

Lemma exit_leaves_no_session_witness :
  exists d d', run0 close_events start0 = Some d /\ step default_opts [] 1000 WatchTurn d = Some d' /\
    watcher d' = Return_ /\ forall k t, tasks d' !! k = Some t -> live t = None.
Proof.
  exists (left_ (Sleep 5000) 5000), (left_ Return_ 5000). split; [exact close_run|].
  split; [reflexivity|]. split; [reflexivity|].
  exact (proj1 (proj2 (exit_leaves_no_session default_opts [] 1000 2 (no_channels : @store queue_tokio)
    (Session.script_demo : @world script_os) close_events (left_ (Sleep 5000) 5000) (left_ Return_ 5000)
    close_run eq_refl eq_refl))).
Defined.

(** The shell runs, and its client waits for the attach. *)
Definition attaching : Daemon := set_task 0 (Running "s" actor0 (0 : @cmd_rx queue_tokio)) opened.

Lemma attaching_run : run0 (open_events ++ [OpenTask 0 true]) start0 = Some attaching.
Proof.
  eapply run_then; [exact opened_run|]. apply run_step. cbn [step]. unfold open_task.
  change (tasks opened !! 0) with (Some (Opening spec0 (0 : @cmd_rx queue_tokio))). cbn match.
  cbn [session_id argv cwd Protocol.cols Protocol.rows spec0 machine opened].
  rewrite Session.opened_session0. reflexivity.
Qed.

(** ** Detaching *)

(** The signals to group 7 that end a shell. *)
Definition deadly (w : Script) : list (Pid * Signal) :=
  base.filter (fun e => e.1 = 7%N /\ e.2 <> SIGWINCH) (signals w).
Definition same_deadly : relation (@world script_os) := fun w w' => deadly w = deadly w'.

#[export] Instance script_spares : @Spares script_os (eq 7%N) (fun _ => False) same_deadly.
Proof.
  split; [split|..]; unfold same_deadly.
  - split; [by intros w|]. intros w1 w2 w3. apply eq_trans.
  - intros q s w Hq. cbn [killpg script_os script_kill fst]. unfold deadly. cbn [signals].
    rewrite filter_app, (filter_cons_False _ (q, s)), filter_nil, app_nil_r; [done|].
    simpl. intros [-> Hs]. by destruct Hq.
  - intros fd w. unfold deadly. cbn [os_read script_os]. unfold script_read. by destruct (script_reads w).
  - intros fd bs w _. unfold deadly. cbn [os_write script_os]. unfold script_write. by destruct (_ =? _)%N, (script_writes w).
  - done.
  - done.
  - intros q b w. unfold deadly. cbn [waitpid script_os]. unfold script_wait. by destruct (script_waits w).
  - done.
  - done.
  - done.
  - done.
  - done.
Qed.

(** The client of a shell that runs goes away. *)
Definition disconnecting : Daemon :=
  set_conn 0 (Attached [Ok []] {| buf := attach_bytes; pos := 6 |} (0 : @cmd_tx queue_tokio)
                (1 : @frame_rx queue_tokio) ([] : @Connection.stream byte_stream)) attaching.

Definition disconnected : Daemon :=
  hang_up 0 (0 : @cmd_tx queue_tokio) (1 : @frame_rx queue_tokio) ([] : @Connection.stream byte_stream) disconnecting.

(** The only command is the attach. *)
Lemma attached_log g : Registry.Close g ∉ commands demo_store (0 : @cmd_tx queue_tokio).
Proof.
  change (Registry.Close g ∉ [Attach (mkAttach 0 80 24 (1 : @frame_tx queue_tokio)) :
    SessionCommand (@frame_tx queue_tokio) (@reply_tx queue_tokio)]).
  by intros Hg%list_elem_of_singleton.
Qed.

(** The actor takes the attach. *)
Lemma attach_turn : exists d', actor_turn default_opts 0 1 None false disconnected = Some d'.
Proof.
  unfold actor_turn. change (tasks disconnected !! 0) with (Some (Running "s" actor0 (0 : @cmd_rx queue_tokio))).
  cbn match. set (pc := poll_cmd _ _).
  assert (Hpc : exists req, pc.2 = Some (Some (Attach req))) by (eexists; reflexivity).
  destruct pc as [st cmd]. cbn [snd] in Hpc. destruct Hpc as [req ->]. unfold select. cbn [r_cmd on_cmd].
  destruct (on_attach_total req actor0 (machine disconnected) st) as [[[flow w] st'] ->].
  cbn [mbind option_bind]. by eexists.
Qed.

(** Nobody else holds the pid. *)
Lemma attaching_sole : sole_owner (p := 7) 0 attaching.
Proof.
  intros k' t Ht Hk. change (tasks attaching) with
    (<[0 := Running "s" actor0 (0 : @cmd_rx queue_tokio)]> (tasks opened)) in Ht.
  rewrite lookup_insert_ne in Ht by done. change (tasks opened) with
    (<[0 := Opening spec0 (0 : @cmd_rx queue_tokio)]> (∅ : gmap nat Task)) in Ht.
  by rewrite lookup_insert_ne in Ht.
Qed.

Lemma detach_never_kills_witness :
  exists d', run0 (open_events ++ [OpenTask 0 true]) start0 = Some attaching /\
    unclosed_run (p := 7) (R := same_deadly) default_opts [] 1000 0 (0 : @cmd_tx queue_tokio) attaching d' /\
    actor_turn default_opts 0 1 None false disconnected = Some d' /\
    deadly (machine d') = [] /\ exists a' rx', tasks d' !! 0 = Some (Running "s" a' rx').
Proof.
  destruct attach_turn as [d' E]. exists d'. split; [exact attaching_run|].
  assert (Hrun : unclosed_run (p := 7) (R := same_deadly) default_opts [] 1000 0 (0 : @cmd_tx queue_tokio) attaching d').
  { eapply (UnclosedMore _ _ _ _ _ _ (ActorTurn 0 1 None false) disconnected); [| |exact E].
    - eapply (UnclosedMore _ _ _ _ _ _ (ReaderTurn 0) disconnecting); [| |reflexivity].
      + eapply (UnclosedMore _ _ _ _ _ _ (Arrive 0 (Ok [])) attaching); [apply UnclosedDone|exact I|reflexivity].
      + intros rs dec out wh dec' f Hc Hn. injection Hc as <- <- <- <-. discriminate Hn.
    - intros id a rx _ Ht. injection Ht as <- <- <-. split; [discriminate|]. split; [discriminate|].
      intros _ st. discriminate. }
  split; [exact Hrun|]. split; [exact E|].
  destruct (detach_never_kills (p := 7) (R := same_deadly) default_opts [] 1000 2 (no_channels : @store queue_tokio)
    (Session.script_demo : @world script_os) (open_events ++ [OpenTask 0 true]) 0 (0 : @cmd_tx queue_tokio)
    (0 : @cmd_rx queue_tokio) "s" actor0 attaching d' attaching_run eq_refl eq_refl eq_refl eq_refl (conj eq_refl eq_refl)
    attaching_sole attached_log Hrun) as [Hd (a' & rx' & Ek & _)].
  split; [symmetry; exact Hd|]. by exists a', rx'.
Defined.

(** ** A pid given twice *)

(** The first shell exits at once, and the second gets its pid. *)
Definition reused : Script :=
  {| script_reads := [Err EIO]; script_writes := []; script_waits := [Ok (Exited 0)]; foreground := 7;
     written := []; signals := [] |}.

Definition open_as (b : byte) : list byte := encode (Frame_new AttachOrOpen_ [b]).

Definition reuse_events : list event :=
  [Accept 0 (Ok (Ok 1000%N, [] : @Connection.stream byte_stream)); Arrive 0 (Ok (open_as x00)); Greet 0 0;
   OpenTask 0 true; ActorTurn 0 1 None false; ActorTurn 0 1 (Some true) false;
   Accept 1 (Ok (Ok 1000%N, [] : @Connection.stream byte_stream)); Arrive 1 (Ok (open_as x01)); Greet 1 1;
   OpenTask 1 true; ActorTurn 1 1 None false; Elapse (dead_grace default_opts)].

Definition reuse_run : option Daemon :=
  run0 reuse_events (start 2 (no_channels : @store queue_tokio) (reused : @world script_os)).

(** Two sessions of one pid, the first dead, its grace over and nothing to do. *)
Definition pid_reused (o : option Daemon) : bool :=
  match o with
  | Some d =>
      match tasks d !! 0, tasks d !! 1 with
      | Some (Running _ a1 rx1), Some (Running _ a2 _) =>
          Session.is_dead (session a1) && negb (Session.is_dead (session a2)) && (shell a1 =? shell a2)%N &&
          match grace_deadline a1 with Some t => (t <=? clock d)%N | None => false end &&
          match recv_cmd rx1 (chans d) with None => true | Some _ => false end &&
          bool_decide (signals (machine d : Script) = [(7, SIGWINCH); (7, SIGWINCH)])%N && (shell a2 =? 7)%N
      | _, _ => false
      end
  | None => false
  end.

Lemma pid_reused_spec (o : option Daemon) : pid_reused o = true -> exists d id1 a1 rx1 id2 a2 rx2, o = Some d /\
  tasks d !! 0 = Some (Running id1 a1 rx1) /\ tasks d !! 1 = Some (Running id2 a2 rx2) /\
  Session.is_dead (session a1) = true /\ Session.lifecycle (session a2) = Session.Live /\ shell a1 = shell a2 /\
  (forall t, grace_deadline a1 = Some t -> (t <= clock d)%N) /\ recv_cmd rx1 (chans d) = None /\
  signals (machine d : Script) = [(7, SIGWINCH); (7, SIGWINCH)]%N /\ shell a2 = 7%N.
Proof.
  unfold pid_reused. destruct o as [d|]; [|done].
  destruct (tasks d !! 0) as [[|id1 a1 rx1|]|] eqn:E1; try done. destruct (tasks d !! 1) as [[|id2 a2 rx2|]|] eqn:E2; try done.
  intros ((((((H1 & H2)%andb_true_iff & H3)%andb_true_iff & H4)%andb_true_iff & H5)%andb_true_iff &
    H6%bool_decide_eq_true)%andb_true_iff & H7)%andb_true_iff.
  exists d, id1, a1, rx1, id2, a2, rx2. split_and!; try done.
  - unfold Session.is_dead in H2. by destruct (Session.lifecycle (session a2)).
  - by apply N.eqb_eq.
  - intros t Hg. rewrite Hg in H4. by apply N.leb_le.
  - by destruct (recv_cmd rx1 (chans d)).
  - by apply N.eqb_eq.
Qed.

Lemma reuse_reached : pid_reused reuse_run = true.
Proof. vm_compute. reflexivity. Qed.

Lemma recycled_pid_killed_witness :
  exists d d' id2 a2 rx2, reuse_run = Some d /\ run0 [ActorTurn 0 1 None false; EndTask 0] d = Some d' /\
    tasks d' !! 1 = Some (Running id2 a2 rx2) /\ Session.lifecycle (session a2) = Session.Live /\ shell a2 = 7%N /\
    signals (machine d' : Script) = [(7, SIGWINCH); (7, SIGWINCH); (7, SIGKILL)]%N.
Proof.
  destruct (pid_reused_spec _ reuse_reached) as (d & id1 & a1 & rx1 & id2 & a2 & rx2 & Ho & E1 & E2 & H1 & H2 & H3 & H4 & H5 & H6 & H7).
  destruct (recycled_pid_killed default_opts [] 1000 2 (no_channels : @store queue_tokio) (reused : @world script_os) reuse_events 1
    d 0 id1 a1 rx1 1 id2 a2 rx2 Ho E1 H1 E2 H2 H3) as (t & Hg & Hk).
  destruct (Hk (H4 t Hg) H5) as (d' & Hr & Hm & Et & _). exists d, d', id2, a2, rx2. split_and!; try assumption.
  rewrite Hm, H7. cbn [killpg waitpid script_os script_kill fst]. unfold script_wait. cbn [script_waits].
  destruct (script_waits _); cbn [fst signals]; rewrite H6; reflexivity.
Defined.

(** ** The terminal *)

#[local] Abbreviation request1 := (mkAttach 0 80 24 (1 : @frame_tx queue_tokio)).

(** A new session has nothing to replay: the handshake is a status. *)
Lemma attach_new (w : @world script_os) (st : @store queue_tokio) :
  exists a' w' f poll, on_attach request1 actor0 w st = Some (Continue a', w', (try_send (1 : @frame_tx queue_tokio) f st).1) /\
    status_frame (effective_status Session.session0 poll) = Some f.
Proof.
  unfold on_attach. set (wa := if Session.has_prompt_marking _ then _ else _).
  assert (Hwa : session wa.2 = Session.session0 /\ client wa.2 = None).
  { unfold wa, refresh_poll. destruct (Session.has_prompt_marking _); [done|]. by destruct (Session.poll_running _ w). }
  destruct wa as [w1 a1]. cbn [snd] in Hwa. destruct Hwa as [Es Ec]. unfold attach_client. rewrite Es, Ec.
  cbn [cols rows want_chunks out_tx].
  destruct (resize_session 80 24 Session.session0 w1) as [He Hl].
  destruct (Session.resize 80 24 Session.session0 w1) as [[w2 s2] x]. cbn [fst snd] in He, Hl.
  assert (Hfs : frame_data (Session.replay_data (Session.replay_for_attach 0 s2)) = [])
    by (unfold Session.replay_for_attach; rewrite He; vm_compute; reflexivity).
  assert (Heff : effective_status s2 (poll_running a1) = effective_status Session.session0 (poll_running a1))
    by (unfold effective_status, Session.status, Session.has_prompt_marking; by rewrite He).
  rewrite Hfs, Heff, Hl. cbn [send_all foldl].
  destruct (status_frame (effective_status Session.session0 (poll_running a1))) as [f|] eqn:Ef; [|done].
  change (Session.lifecycle Session.session0) with Session.Live in *. cbn [mbind option_bind]. unfold Session.is_dead.
  cbn [session set_last_status set_client set_session]. rewrite Hl. by eexists _, _, f, (poll_running a1).
Qed.

(** What the look for the attach leaves. *)
Definition polled_store : @store queue_tokio := (poll_cmd (0 : @cmd_rx queue_tokio) demo_store).1.

(** The actor sends the status, and the writer puts it on the socket. *)
Lemma attach_step a w f :
  on_attach request1 actor0 (Session.script_demo : @world script_os) polled_store =
    Some (Continue a, w, (try_send (1 : @frame_tx queue_tokio) f polled_store).1) ->
  exists d1, step default_opts [] 1000 (ActorTurn 0 1 None false) attaching = Some d1 /\
    tasks d1 !! 0 = Some (Running "s" a (0 : @cmd_rx queue_tokio)) /\
    chans d1 = (try_send (1 : @frame_tx queue_tokio) f polled_store).1 /\ conns d1 = conns opened.
Proof.
  intros Ha. cbn [step]. unfold actor_turn.
  change (tasks attaching !! 0) with (Some (Running "s" actor0 (0 : @cmd_rx queue_tokio))). cbn match.
  change (poll_cmd (0 : @cmd_rx queue_tokio) (chans attaching)) with
    (polled_store, Some (Some (Attach request1 : SessionCommand (@frame_tx queue_tokio) (@reply_tx queue_tokio)))).
  unfold select. cbn [r_cmd on_cmd]. change (machine attaching) with (Session.script_demo : @world script_os).
  rewrite Ha. eexists. split; [reflexivity|]. split; [|split; reflexivity]. reflexivity.
Qed.

Lemma writer_step d1 f :
  conns d1 = conns opened -> chans d1 = (try_send (1 : @frame_tx queue_tokio) f polled_store).1 ->
  exists d2, step default_opts [] 1000 (WriterTurn 0) d1 = Some d2 /\ tasks d2 = tasks d1 /\
    accepted (chans d2) (1 : @frame_tx queue_tokio) = [f] /\
    exists c, conns d2 !! 0 = Some c /\ Connection.written (socket c) = encode f.
Proof.
  intros Ec Es. cbn [step]. unfold writer_turn. rewrite Ec, Es.
  change (conns opened !! 0) with (Some (Attached [] {| buf := attach_bytes; pos := 6 |} (0 : @cmd_tx queue_tokio)
                       (1 : @frame_rx queue_tokio) ([] : @Connection.stream byte_stream))). cbn match.
  set (st := (try_send _ f polled_store).1).
  assert (Hr : exists st', recv_frame (1 : @frame_rx queue_tokio) st = Some (st', Some f) /\
    accepted st' (1 : @frame_tx queue_tokio) = [f]) by (eexists; split; reflexivity).
  destruct Hr as (st' & -> & Hacc). cbn [mbind option_bind]. cbn [write_all byte_stream app].
  eexists. split; [reflexivity|]. split; [reflexivity|]. split; [exact Hacc|].
  eexists. split; [cbn [conns set_conn with_chans]; rewrite lookup_insert, decide_True by done; reflexivity|reflexivity].
Qed.

Lemma daemon_shows_output_witness :
  exists d f dec' fs o later a1,
    run0 (open_events ++ [OpenTask 0 true]) start0 = Some d /\
    read_all FrameDecoder_new [encode f] = Some (dec', fs, None) /\
    eng_feed (eng actor0) o = Some (eng a1) /\ [] ++ o = data_of fs ++ later.
Proof.
  destruct (attach_new (Session.script_demo : @world script_os) polled_store) as (a1 & w1 & f & poll & Ha & Hf).
  destruct (attach_step a1 w1 f Ha) as (d1 & E1 & Ek1 & Es & Ec).
  destruct (writer_step d1 f Ec Es) as (d2 & E2 & Et & Hacc & c & Hc & Hw).
  assert (Ek2 : tasks d2 !! 0 = Some (Running "s" a1 (0 : @cmd_rx queue_tokio))) by (rewrite Et; exact Ek1).
  assert (Hun : undisturbed default_opts [] 1000 0 d1 d2).
  { eapply (UndisturbedMore _ _ _ _ _ (WriterTurn 0) d1); [apply Undisturbed0|exact I|exact I|exact E2|exact Ek2]. }
  destruct (daemon_shows_output default_opts [] 1000 2 (no_channels : @store queue_tokio)
    (Session.script_demo : @world script_os) (open_events ++ [OpenTask 0 true]) attaching 0 []
    {| buf := attach_bytes; pos := 6 |} (0 : @cmd_tx queue_tokio) (1 : @frame_rx queue_tokio)
    ([] : @Connection.stream byte_stream) 0 "s" actor0 (0 : @cmd_rx queue_tokio) request1 1022 1 None false
    d1 a1 d2 "s" a1 (0 : @cmd_rx queue_tokio) c [encode f] [])
    as (dec' & fs & o & later & G1 & G2 & G3 & _).
  - intros tx. reflexivity.
  - repeat constructor.
  - exact attaching_run.
  - reflexivity.
  - exists 1024%N, (cmd_channel 256 (no_channels : @store queue_tokio)).1. reflexivity.
  - reflexivity.
  - reflexivity.
  - vm_compute. reflexivity.
  - exact E1.
  - exact Ek1.
  - exact Hun.
  - exact Ek2.
  - intros g Hg _. assert (g = f) as ->.
    { apply list_elem_of_singleton. rewrite <- Hacc. exact Hg. }
    exact (small_status poll f Hf).
  - exact Hc.
  - rewrite Hw. cbn [concat]. rewrite !app_nil_r. reflexivity.
  - exists attaching, f, dec', fs, o, later, a1. split; [exact attaching_run|]. split; [exact G1|]. split; [exact G2|exact G3].
Defined.

(** ** Typing *)

Lemma no_commands (tx : @cmd_tx queue_tokio) : commands (no_channels : @store queue_tokio) tx = [].
Proof. reflexivity. Qed.

(** The client of [opened] types. *)
Definition typing_events : list event :=
  open_events ++ [Arrive 0 (Ok (encode (Frame_new Protocol.Input (lit "ls")))); ReaderTurn 0; ReaderTurn 0].

Definition typed_store : @store queue_tokio := (send_cmd (0 : @cmd_tx queue_tokio) (Input (lit "ls")) demo_store).1.

#[local] Abbreviation typed_bytes := (encode (Frame_new Protocol.Input (lit "ls"))).

#[local] Abbreviation attached rs dec :=
  (Attached rs dec (0 : @cmd_tx queue_tokio) (1 : @frame_rx queue_tokio) ([] : @Connection.stream byte_stream)).

Definition typed_ls : Daemon :=
  {| registry := registry opened; chans := typed_store; machine := machine opened; tasks := tasks opened;
     conns := <[0 := attached [] {| buf := typed_bytes; pos := 7 |}]> ∅;
     watcher := FirstCheck; clock := 0; accept_after := 0 |}.

Lemma typing_run : run0 typing_events start0 = Some typed_ls.
Proof. unfold typing_events. eapply run_then; [exact opened_run|]. reflexivity. Qed.

Lemma clients_interleave_witness :
  exists d log, run0 typing_events start0 = Some d /\
    (log (0 : @cmd_tx queue_tokio)).*2 =
      [Attach (mkAttach 0 80 24 (1 : @frame_tx queue_tokio)); Input (lit "ls")] /\
    exists o first fs, asks o first fs (share 0 (log (0 : @cmd_tx queue_tokio))) /\ share 0 (log (7 : @cmd_tx queue_tokio)) = [].
Proof.
  destruct (clients_interleave default_opts [] 1000 2 (no_channels : @store queue_tokio)
    (Session.script_demo : @world script_os) typing_events typed_ls no_commands typing_run) as (log & Hl & Ha & _).
  exists typed_ls, log. split; [exact typing_run|]. split; [rewrite Hl; reflexivity|].
  destruct (Ha 0 _ _ _ _ _ eq_refl) as (o & first & taken & left_ & rest & e & _ & _ & _ & _ & Hx & Ho).
  exists o, first, taken. split; [exact Hx|]. apply Ho. discriminate.
Defined.


(** ** A LIST *)

#[local] Abbreviation hello_bytes := (encode (Frame_new Hello_ [x01])).
#[local] Abbreviation list_bytes := (encode (Frame_new List_ [])).

(** A second client of the same user asks for the LIST. *)
Definition list_events : list event :=
  [Accept 1 (Ok (Ok 1000%N, [] : @Connection.stream byte_stream)); Arrive 1 (Ok hello_bytes); Greet 1 1; Arrive 1 (Ok list_bytes)].

Definition hello_reply : @Connection.stream byte_stream :=
  (control_hello [] (Frame_new Hello_ [x01]) ([] : @Connection.stream byte_stream)).1.

Definition asking : Daemon :=
  set_conn 1 (Serving [Ok list_bytes] {| buf := hello_bytes; pos := 6 |} hello_reply) attaching.

Lemma asking_run : run0 (open_events ++ [OpenTask 0 true] ++ list_events) start0 = Some asking.
Proof. rewrite app_assoc. eapply run_then; [exact attaching_run|]. reflexivity. Qed.

(** The request is in the channel of the session. *)
Definition list_store : @store queue_tokio :=
  (send_cmd (0 : @cmd_tx queue_tokio) (Info (2 : @reply_tx queue_tokio)) (oneshot demo_store).1).1.

#[local] Abbreviation listing rxs infos :=
  (Listing [] {| buf := list_bytes; pos := 5 |} hello_reply rxs infos 1000).

Definition asked_list : Daemon :=
  set_conn 1 (listing [2 : @reply_rx queue_tokio] []) (with_chans list_store asking).

Lemma serve_asking : step default_opts [] 1000 (Serve 1) asking = Some asked_list.
Proof. reflexivity. Qed.

#[local] Abbreviation running0 a := (Running "s" a (0 : @cmd_rx queue_tokio)).

(** The channels after the attach, once [f] is in the queue, and after the request. *)
Definition greeted_store (f : Frame) : @store queue_tokio :=
  (try_send (1 : @frame_tx queue_tokio) f (poll_cmd (0 : @cmd_rx queue_tokio) list_store).1).1.
Definition told_store (f : Frame) (i : SessionInfo) : @store queue_tokio :=
  reply_send (2 : @reply_tx queue_tokio) i (poll_cmd (0 : @cmd_rx queue_tokio) (greeted_store f)).1.

Definition greeted (a : Actor) (w : @world script_os) (f : Frame) : Daemon :=
  set_task 0 (running0 a) (with_machine w (with_chans (greeted_store f) asked_list)).
Definition told (a : Actor) (w w' : @world script_os) (f : Frame) (i : SessionInfo) : Daemon :=
  set_task 0 (running0 a) (with_machine w' (with_chans (told_store f i) (greeted a w f))).

Lemma greeted_step a w f :
  on_attach request1 actor0 (Session.script_demo : @world script_os) (poll_cmd (0 : @cmd_rx queue_tokio) list_store).1 =
    Some (Continue a, w, greeted_store f) ->
  step default_opts [] 1000 (ActorTurn 0 1 None false) asked_list = Some (greeted a w f).
Proof.
  intros Ha. cbn [step]. unfold actor_turn.
  change (tasks asked_list !! 0) with (Some (running0 actor0)). cbn match.
  change (poll_cmd (0 : @cmd_rx queue_tokio) (chans asked_list)) with
    ((poll_cmd (0 : @cmd_rx queue_tokio) list_store).1,
     Some (Some (Attach request1 : SessionCommand (@frame_tx queue_tokio) (@reply_tx queue_tokio)))).
  unfold select. cbn [r_cmd on_cmd]. change (machine asked_list) with (Session.script_demo : @world script_os).
  rewrite Ha. reflexivity.
Qed.

(** The turn of an actor that finds a request. *)
Lemma info_turn k id a rx r st w' i (d : Daemon) :
  tasks d !! k = Some (Running id a rx) ->
  poll_cmd rx (chans d) = (st, Some (Some (Info r : SessionCommand (@frame_tx queue_tokio) (@reply_tx queue_tokio)))) ->
  Session.info (match client a with Some _ => true | None => false end) (session a) (machine d) = (w', i) ->
  step default_opts [] 1000 (ActorTurn k 1 None false) d =
    Some (set_task k (Running id a rx) (with_machine w' (with_chans (reply_send r i st) d))).
Proof. intros Hk Hp Hi. cbn [step]. unfold actor_turn. rewrite Hk, Hp. unfold select. cbn [r_cmd on_cmd]. by rewrite Hi. Qed.

Definition told_poll (f : Frame) : @store queue_tokio := (poll_cmd (0 : @cmd_rx queue_tokio) (greeted_store f)).1.

Lemma poll_greeted f :
  poll_cmd (0 : @cmd_rx queue_tokio) (greeted_store f) =
    (told_poll f, Some (Some (Info (2 : @reply_tx queue_tokio) : SessionCommand (@frame_tx queue_tokio) (@reply_tx queue_tokio)))).
Proof. reflexivity. Qed.

Lemma told_step a w f w' i :
  Session.info (match client a with Some _ => true | None => false end) (session a) w = (w', i) ->
  step default_opts [] 1000 (ActorTurn 0 1 None false) (greeted a w f) = Some (told a w w' f i).
Proof.
  intros Hi. apply (info_turn 0 "s" a (0 : @cmd_rx queue_tokio) (2 : @reply_tx queue_tokio) (told_poll f) w' i (greeted a w f));
    [reflexivity|exact (poll_greeted f)|exact Hi].
Qed.

Definition listed (d : Daemon) (i : SessionInfo) : Daemon := set_conn 1 (listing [] [i]) d.

Lemma listed_step a w w' f i :
  step default_opts [] 1000 (ListTurn 1) (told a w w' f i) = Some (listed (told a w w' f i) i).
Proof. reflexivity. Qed.

Definition answered (d : Daemon) (i : SessionInfo) : Daemon :=
  set_conn 1 (Serving [] {| buf := list_bytes; pos := 5 |} (reply_list [i] hello_reply).1) d.

Lemma list_is_current_witness :
  exists d3 wh i, reply_list [i] hello_reply = (wh, None) /\
    conns d3 !! 1 = Some (Serving [] {| buf := list_bytes; pos := 5 |} wh) /\
    is_Some (sessions (registry asking) !! info_session_id i) /\ "s" ∈ info_session_id <$> [i].
Proof.
  destruct (attach_new (Session.script_demo : @world script_os) (poll_cmd (0 : @cmd_rx queue_tokio) list_store).1)
    as (a & w & f & poll & Ha & _).
  destruct (Session.info (match client a with Some _ => true | None => false end) (session a) w) as [w' i] eqn:Ei.
  destruct (list_is_current default_opts [] 1000 2 (no_channels : @store queue_tokio)
    (Session.script_demo : @world script_os) (open_events ++ [OpenTask 0 true] ++ list_events)
    [ActorTurn 0 1 None false; ActorTurn 0 1 None false; ListTurn 1] 1 asking asked_list (listed (told a w w' f i) i)
    (answered (listed (told a w w' f i) i) i)
    [] {| buf := list_bytes; pos := 5 |} hello_reply [] [i] 1000 [] {| buf := list_bytes; pos := 5 |}
    (reply_list [i] hello_reply).1) as (Hw & _ & _ & Hf & Hall).
  - exact no_commands.
  - exact asking_run.
  - exact serve_asking.
  - repeat constructor; discriminate.
  - cbn [run]. rewrite (greeted_step a w f Ha). cbn [mbind option_bind].
    rewrite (told_step a w f w' i Ei). cbn [mbind option_bind]. rewrite listed_step. reflexivity.
  - reflexivity.
  - reflexivity.
  - reflexivity.
  - exists (answered (listed (told a w w' f i) i) i), (reply_list [i] hello_reply).1, i.
    split; [exact Hw|]. split; [reflexivity|]. split; [exact (proj1 (Forall_inv Hf))|].
    apply (Hall eq_refl "s" (0 : @cmd_tx queue_tokio)); [reflexivity| |reflexivity].
    intros Heq. apply (f_equal length) in Heq. vm_compute in Heq. discriminate Heq.
Defined.

(** ** The keyboard *)

#[export] Instance script_keyboard : @Keyboard script_os 3.
Proof.
  refine {| writes := fun w : @world script_os => written w |}.
  - split; [split; try done|done..].
    + split; [by intros w|]. intros w1 w2 w3 E1 E2. by rewrite E2.
    + intros fd w. cbn [os_read script_os]. unfold script_read. by destruct (script_reads w).
    + intros fd bs w Hfd. cbn [os_write script_os]. destruct (N.eqb_spec fd 3); [by subst|done].
    + intros q b w. cbn [waitpid script_os]. unfold script_wait. by destruct (script_waits w).
  - intros bs w w' r. cbn [os_write script_os N.eqb Pos.eqb]. unfold script_write. destruct (script_writes w) as [|n ns].
    + by intros [= <- <-].
    + intros [= <- <-]. cbn [written]. do 3 f_equal.
      rewrite N2Nat.inj_min, Nat2N.id. destruct (Nat.min_spec (N.to_nat n) (length bs)) as [[_ ->]|[Hle ->]]; [done|].
      by rewrite !take_ge.
Defined.

(** The turn of an actor that finds an attach, and the turn of one that finds input. *)
Lemma attach_turn_of k id a rx req st a' w' st' (d : Daemon) :
  tasks d !! k = Some (Running id a rx) ->
  poll_cmd rx (chans d) = (st, Some (Some (Attach req : SessionCommand (@frame_tx queue_tokio) (@reply_tx queue_tokio)))) ->
  on_attach req a (machine d) st = Some (Continue a', w', st') ->
  step default_opts [] 1000 (ActorTurn k 1 None false) d =
    Some (set_task k (Running id a' rx) (with_machine w' (with_chans st' d))).
Proof. intros Hk Hp Ha. cbn [step]. unfold actor_turn. rewrite Hk, Hp. unfold select. cbn [r_cmd on_cmd]. by rewrite Ha. Qed.

Lemma input_turn k id a rx bs st w' x (d : Daemon) :
  tasks d !! k = Some (Running id a rx) ->
  poll_cmd rx (chans d) = (st, Some (Some (Input bs : SessionCommand (@frame_tx queue_tokio) (@reply_tx queue_tokio)))) ->
  Session.write_input (session a) bs (machine d) = (w', x) ->
  step default_opts [] 1000 (ActorTurn k 1 None false) d =
    Some (set_task k (Running id a rx) (with_machine w' (with_chans st d))).
Proof. intros Hk Hp Hw. cbn [step]. unfold actor_turn. rewrite Hk, Hp. unfold select. cbn [r_cmd on_cmd]. by rewrite Hw. Qed.

(** The shell of the client that types runs. *)
Definition shelled : Daemon := set_task 0 (running0 actor0) typed_ls.

Lemma shelled_run : run0 (typing_events ++ [OpenTask 0 true]) start0 = Some shelled.
Proof.
  eapply run_then; [exact typing_run|]. apply run_step. cbn [step]. unfold open_task.
  change (tasks typed_ls !! 0) with (Some (Opening spec0 (0 : @cmd_rx queue_tokio))). cbn match.
  cbn [session_id argv cwd Protocol.cols Protocol.rows spec0].
  change (machine typed_ls) with (Session.script_demo : @world script_os).
  rewrite Session.opened_session0. reflexivity.
Qed.

(** The kernel takes two bytes of the next write. *)
Definition typing_world (taken : list (list byte * list byte)) : @world script_os :=
  {| script_reads := []; script_writes := match taken with [] => [2%N] | _ => [] end; script_waits := [];
     foreground := 7; OsInstance.written := taken; signals := [] |}.

Definition entered_store (f : Frame) : @store queue_tokio :=
  (try_send (1 : @frame_tx queue_tokio) f (poll_cmd (0 : @cmd_rx queue_tokio) typed_store).1).1.
Definition emptied_store (f : Frame) : @store queue_tokio := (poll_cmd (0 : @cmd_rx queue_tokio) (entered_store f)).1.

Definition entered (a : Actor) (w : @world script_os) (f : Frame) : Daemon :=
  with_machine (typing_world []) (set_task 0 (running0 a) (with_machine w (with_chans (entered_store f) shelled))).
Definition pressed_ls (a : Actor) (w : @world script_os) (f : Frame) : Daemon :=
  set_task 0 (running0 a) (with_machine (typing_world [(lit "ls", lit "ls")]) (with_chans (emptied_store f) (entered a w f))).

Lemma entered_run a w f :
  on_attach request1 actor0 (Session.script_demo : @world script_os) (poll_cmd (0 : @cmd_rx queue_tokio) typed_store).1 =
    Some (Continue a, w, entered_store f) ->
  run0 ((typing_events ++ [OpenTask 0 true]) ++ [ActorTurn 0 1 None false; Outside (typing_world [])]) start0 = Some (entered a w f).
Proof.
  intros Ha. eapply run_then; [exact shelled_run|]. cbn [run].
  rewrite (attach_turn_of 0 "s" actor0 (0 : @cmd_rx queue_tokio) request1
    (poll_cmd (0 : @cmd_rx queue_tokio) typed_store).1 a w (entered_store f) shelled); [reflexivity..|exact Ha].
Qed.

Lemma poll_entered f :
  poll_cmd (0 : @cmd_rx queue_tokio) (entered_store f) =
    (emptied_store f, Some (Some (Input (lit "ls") : SessionCommand (@frame_tx queue_tokio) (@reply_tx queue_tokio)))).
Proof. reflexivity. Qed.

Lemma pressed_ls_step a w f :
  Session.pty (session a) = Session.pty Session.session0 -> Session.is_dead (session a) = false ->
  step default_opts [] 1000 (ActorTurn 0 1 None false) (entered a w f) = Some (pressed_ls a w f).
Proof.
  intros Hp Hd. apply (input_turn 0 "s" a (0 : @cmd_rx queue_tokio) (lit "ls") (emptied_store f) (typing_world [(lit "ls", lit "ls")]) (Ok tt));
    [reflexivity|exact (poll_entered f)|].
  unfold Session.write_input. rewrite Hd, Hp. reflexivity.
Qed.

(** The client of the new session is bound, and the session is alive. *)
Lemma attached_alive (w : @world script_os) (st : @store queue_tokio) a' w' st' :
  on_attach request1 actor0 w st = Some (Continue a', w', st') ->
  Session.pty (session a') = Session.pty Session.session0 /\ Session.is_dead (session a') = false.
Proof.
  intros Ha. split; [exact (proj1 (proj2 (on_attach_spares (p := eq 7%N) (m := fun _ => False) (R := same_deadly) _ _ _ _ _ _ _ Ha)))|].
  destruct (on_attach_flow _ _ _ _ _ _ _ Ha) as (a & _ & Hl & _ & Hf). injection Hf as ->.
  unfold Session.is_dead. rewrite Hl. reflexivity.
Qed.

(** It is the only session. *)
Lemma entered_sole a w f : sole_desk (fd := 3%N) 0 (entered a w f).
Proof.
  intros k' id' a' rx' Hk Hne. change (tasks (entered a w f)) with (<[0 := running0 a]> (tasks shelled)) in Hk.
  rewrite lookup_insert_ne in Hk by (intros E0; by apply Hne). change (tasks shelled) with
    (<[0 := running0 actor0]> (<[0 := Opening spec0 (0 : @cmd_rx queue_tokio)]> (∅ : gmap nat Task))) in Hk.
  rewrite !lookup_insert_ne in Hk by (intros E0; by apply Hne). discriminate Hk.
Qed.

#[local] Abbreviation all_typed :=
  (((typing_events ++ [OpenTask 0 true]) ++ [ActorTurn 0 1 None false; Outside (typing_world [])]) ++ [ActorTurn 0 1 None false]).

