(* ===== verification/Startup.v ===== *)
(** jftermd/src/socket.rs and the command line of main.rs.

    The paths are byte strings with the [join] of [std::path]; [stat] and
    [mkdir] are the answers of the file system. *)
From S2P Require Import Prelude Pty.

(** * socket.rs *)

(** [PathBuf::push] on Unix: an absolute path replaces, and a separator goes in
    unless the buffer is empty or ends with one. *)
Definition join (base path : list byte) : list byte :=
  match path with
  | x2f :: _ => path
  | _ => match last base with
         | Some b => if bool_decide (b = x2f) then base ++ path else base ++ x2f :: path
         | None => path
         end
  end.

Definition socket_path_in (xdg : option (list byte)) (uid : u32) : list byte :=
  let base := match xdg with
              | Some ((_ :: _) as x) => join x (lit "jfterm")
              | _ => lit "/tmp/jfterm-" ++ to_string uid
              end in
  join base (lit "muxer.sock").

Inductive FileKind := Directory | Symlink | SocketKind | OtherKind.

(** The part of [std::fs::Metadata] that is looked at. *)
Record Metadata := mkMetadata { kind : FileKind; md_uid : u32; mode : u32 }.

(** [0x1FF] and [0x1C0] are the octal 777 and 700. *)
Definition validate_socket_dir (md : Metadata) (uid : u32) : io_result unit :=
  match kind md with
  | Directory =>
      if negb (md_uid md =? uid)%N then Err PermissionDenied
      else if negb (N.land (mode md) 0x1FF =? 0x1C0)%N then Err PermissionDenied
      else Ok tt
  | _ => Err AlreadyExists
  end.

(** [parent] is whether the path has one; [lstat] and [mkdir] answer for it, and
    [mkdir] creates the missing directories with mode 0700. *)
Definition ensure_socket_dir (parent : bool) (lstat : io_result Metadata) (mkdir : io_result unit)
    (uid : u32) : io_result unit :=
  if negb parent then Err InvalidInput
  else match lstat with
       | Ok md => validate_socket_dir md uid
       | Err NotFound => mkdir
       | Err e => Err e
       end.

(** * The command line *)

Record Args := mkArgs { foreground : bool; socket : option (list byte) }.

(** [Exit ExitCode::SUCCESS] and [Exit ExitCode::FAILURE], by [true] and [false]. *)
Inductive ArgsOutcome := Run (a : Args) | Exit (success : bool).

(** The [while let] over the arguments behind the program's name. [std::env::args]
    panics ([None]) at the first argument it comes to that is not UTF-8, the one it
    skips included. *)
Fixpoint parse_from (args : Args) (it : list (list byte)) : option ArgsOutcome :=
  match it with
  | [] => Some (Run args)
  | arg :: it =>
      if negb (utf8_valid arg) then None
      else if bool_decide (arg = lit "--foreground" \/ arg = lit "-f")
      then parse_from {| foreground := true; socket := socket args |} it
      else if bool_decide (arg = lit "--socket") then
        match it with
        | path :: it =>
            if negb (utf8_valid path) then None
            else parse_from {| foreground := foreground args; socket := Some path |} it
        | [] => Some (Exit false)
        end
      else if bool_decide (arg = lit "--help" \/ arg = lit "-h") then Some (Exit true)
      else parse_from args it
  end.

Definition parse_args (argv : list (list byte)) : option ArgsOutcome :=
  let args := {| foreground := false; socket := None |} in
  match argv with
  | [] => parse_from args []
  | name :: it => if negb (utf8_valid name) then None else parse_from args it
  end.

(** ** The grammar *)

Inductive Token := Foreground | Socket (path : list byte) | Help | MissingPath | Unknown (arg : list byte).

#[export] Instance Token_eq_dec : EqDecision Token.
Proof. solve_decision. Defined.

(** The options, each with the argument it takes. *)
Fixpoint tokens (it : list (list byte)) : list Token :=
  match it with
  | [] => []
  | arg :: it =>
      if bool_decide (arg = lit "--foreground" \/ arg = lit "-f") then Foreground :: tokens it
      else if bool_decide (arg = lit "--socket") then
        match it with
        | path :: it => Socket path :: tokens it
        | [] => [MissingPath]
        end
      else if bool_decide (arg = lit "--help" \/ arg = lit "-h") then Help :: tokens it
      else Unknown arg :: tokens it
  end.

(** An option that ends the program. *)
Definition exits (t : Token) : option bool :=
  match t with Help => Some true | MissingPath => Some false | _ => None end.

Definition socket_of (t : Token) : option (list byte) :=
  match t with Socket path => Some path | _ => None end.

(** The first option that exits decides; otherwise the last socket is used, and
    [-f] anywhere counts. *)
Definition meaning (ts : list Token) : ArgsOutcome :=
  match head (omap exits ts) with
  | Some success => Exit success
  | None => Run {| foreground := bool_decide (Foreground ∈ ts); socket := last (omap socket_of ts) |}
  end.

(** The same from what was read already. *)
Definition meaning_from (args : Args) (ts : list Token) : ArgsOutcome :=
  match head (omap exits ts) with
  | Some success => Exit success
  | None => Run {| foreground := foreground args || bool_decide (Foreground ∈ ts);
                   socket := match last (omap socket_of ts) with Some p => Some p | None => socket args end |}
  end.

Lemma foreground_cons t ts :
  bool_decide (Foreground ∈ t :: ts) = bool_decide (t = Foreground) || bool_decide (Foreground ∈ ts).
Proof.
  rewrite <- bool_decide_or. apply bool_decide_ext. rewrite elem_of_cons. intuition congruence.
Qed.

Lemma parse_from_meaning n args it :
  length it <= n ->
  (forall o, parse_from args it = Some o -> o = meaning_from args (tokens it)) /\
  (forallb utf8_valid it = true -> parse_from args it <> None).
Proof.
  revert args it. induction n as [|n IH]; intros args [|arg it] Hn; try (simpl in Hn; lia).
  1,2: split; [|done]; intros o [= <-]; unfold meaning_from; simpl; rewrite orb_false_r; by destruct args.
  simpl in Hn. cbn [parse_from tokens forallb]. destruct (utf8_valid arg); [|done]. cbn [negb andb]. unfold meaning_from.
  assert (Hit : forall args', (forall o, parse_from args' it = Some o -> o = meaning_from args' (tokens it)) /\
    (forallb utf8_valid it = true -> parse_from args' it <> None)) by (intros args'; apply IH; lia).
  destruct (bool_decide (arg = lit "--foreground" \/ arg = lit "-f")).
  { split; [|apply Hit]. intros o ->%Hit. unfold meaning_from. rewrite foreground_cons. cbn [omap list_omap exits socket_of].
    simpl. by rewrite orb_true_r. }
  destruct (bool_decide (arg = lit "--socket")).
  { destruct it as [|path it]; [split; [by intros o [= <-]|done]|]. simpl in Hn. cbn [forallb].
    destruct (utf8_valid path); [|done]. cbn [negb andb]. split; [|apply IH; lia]. intros o Ho. apply IH in Ho as ->; [|lia].
    unfold meaning_from. rewrite foreground_cons. cbn [omap list_omap exits socket_of]. destruct (head _); [done|].
    rewrite last_cons. cbn [foreground socket]. by destruct (last _). }
  destruct (bool_decide (arg = lit "--help" \/ arg = lit "-h")); [split; [by intros o [= <-]|done]|].
  split; [|apply Hit]. intros o ->%Hit. unfold meaning_from. rewrite foreground_cons. done.
Qed.

(** The command line means what its options say, if it can be read: [parse_args]
    exits at the first help (0) or socket without a path (1), and else runs with the
    last socket given and in the foreground if an option says so, wherever it stands;
    unknown arguments change nothing. It panics at an argument that is not UTF-8, but
    not without one. *)
Theorem parse_args_meaning name args :
  (forall o, parse_args (name :: args) = Some o -> o = meaning (tokens args)) /\
  (forallb utf8_valid (name :: args) = true -> parse_args (name :: args) <> None).
Proof.
  unfold parse_args. cbn [forallb]. destruct (utf8_valid name); [|done]. cbn [negb andb].
  destruct (parse_from_meaning (length args) {| foreground := false; socket := None |} args) as [Hm Ht]; [done|].
  split; [|exact Ht]. intros o ->%Hm. unfold meaning_from, meaning. destruct (head _); [done|]. cbn [foreground socket orb].
  by destruct (last _).
Qed.

(** The socket's directory is trusted only if it is private: it is accepted
    exactly when it is a directory and no symbolic link, owned by the daemon's
    user, with the permissions 0700, or when it did not exist and was created.
    The bits above the permissions are not looked at. *)
Theorem socket_dir_private parent lstat mkdir uid :
  (ensure_socket_dir parent lstat mkdir uid = Ok tt <->
    parent = true /\
    ((exists md, lstat = Ok md /\ kind md = Directory /\ md_uid md = uid /\
        forall i, (i < 9)%N -> N.testbit (mode md) i = (6 <=? i)%N) \/
     (lstat = Err NotFound /\ mkdir = Ok tt))).
Proof.
  unfold ensure_socket_dir. destruct parent; cbn [negb]; [|by split; [|intros [? _]]].
  assert (Hmode : forall md, (N.land (mode md) 0x1FF =? 0x1C0)%N = true <->
    forall i, (i < 9)%N -> N.testbit (mode md) i = (6 <=? i)%N).
  { intros md. rewrite N.eqb_eq. change 0x1FF%N with (N.ones 9). split.
    - intros E i Hi. rewrite <- (N.mod_pow2_bits_low _ 9 i Hi), <- N.land_ones, E.
      assert (i = 0 \/ i = 1 \/ i = 2 \/ i = 3 \/ i = 4 \/ i = 5 \/ i = 6 \/ i = 7 \/ i = 8)%N by lia.
      by repeat destruct H as [-> | H]; [..|subst i].
    - intros Hb. apply N.bits_inj. intros i. rewrite N.land_spec. destruct (N.ltb_spec i 9) as [Hi|Hi].
      + rewrite Hb, N.ones_spec_low, andb_true_r by done.
        assert (i = 0 \/ i = 1 \/ i = 2 \/ i = 3 \/ i = 4 \/ i = 5 \/ i = 6 \/ i = 7 \/ i = 8)%N by lia.
        by repeat destruct H as [-> | H]; [..|subst i].
      + rewrite N.ones_spec_high, andb_false_r by done. symmetry. apply N.bits_above_log2.
        change (N.log2 0x1C0) with 8%N. lia. }
  destruct lstat as [md|e].
  - unfold validate_socket_dir. specialize (Hmode md).
    destruct (kind md) eqn:Ek; [|split; [done|]; intros [_ [(md' & [= <-] & Ek' & _)|[? _]]]; congruence..].
    destruct (N.eqb_spec (md_uid md) uid) as [Eu|Eu]; cbn [negb];
      [|split; [done|]; intros [_ [(md' & [= <-] & _ & Eu' & _)|[? _]]]; congruence].
    destruct (N.land (mode md) 0x1FF =? 0x1C0)%N; cbn [negb]; split; try done.
    + intros _. split; [done|]. left. exists md. repeat split; try done. by apply Hmode.
    + intros [_ [(md' & [= <-] & _ & _ & Hb)|[? _]]]; [|done]. by apply Hmode in Hb.
  - destruct e; try (split; [done|]; by intros [_ [(? & ? & _)|[? _]]]).
    split; [intros Hm; split; [done|]; by right|]. by intros [_ [(? & ? & _)|[_ ?]]].
Qed.
