(* ===== verification/Boot.v ===== *)
(** jftermd/src/main.rs and the fork of daemonize.rs: how the daemon starts and
    what it leaves behind.

    A process is its ids, its umask, its directory and its table of descriptors;
    the calls answer as the kernel documents them, and the failures they may have
    are arguments. [main] is the sequence of its calls: what it did, in order, and
    the code it exits with. *)
From S2P Require Import Prelude Pty Startup.

(** * The descriptors *)

(** What a descriptor is open on. *)
Inductive Desc := DevNull | OtherFile (n : nat).

#[export] Instance Desc_eq_dec : EqDecision Desc.
Proof. solve_decision. Defined.

Abbreviation Fds := (gmap nat Desc).

(** [open] answers the lowest free descriptor. *)
Definition lowest_free (t : Fds) : nat :=
  match list_find (fun n => t !! n = None) (seq 0 (S (size t))) with
  | Some (n, _) => n
  | None => size t
  end.

Definition open_fd (d : Desc) (t : Fds) : Fds * nat := (<[lowest_free t := d]> t, lowest_free t).

(** [dup2] closes the target. *)
Definition dup2 (src target : nat) (t : Fds) : Fds :=
  match t !! src with Some d => <[target := d]> t | None => t end.

Definition close (fd : nat) (t : Fds) : Fds := delete fd t.

(** The loop over the targets; [dup_fails] is the error a [dup2] onto a target
    has, if it has one. *)
Fixpoint dup_loop (dup_fails : nat -> option Errno) (src : nat) (targets : list nat) (t : Fds) :
    Fds * io_result unit :=
  match targets with
  | [] => (if 2 <? src then close src t else t, Ok tt)
  | target :: targets =>
      if negb (src =? target) then
        match dup_fails target with
        | Some e => (if 2 <? src then close src t else t, Err (Sys e))
        | None => dup_loop dup_fails src targets (dup2 src target t)
        end
      else dup_loop dup_fails src targets t
  end.

(** [open_fails] is the error the [open] of [/dev/null] has, if it has one. *)
Definition redirect_std_to_devnull (open_fails : option Errno) (dup_fails : nat -> option Errno) (t : Fds) :
    Fds * io_result unit :=
  match open_fails with
  | Some e => (t, Err (Sys e))
  | None => let '(t, src) := open_fd DevNull t in dup_loop dup_fails src [0; 1; 2] t
  end.

Lemma lowest_free_spec (t : Fds) : t !! lowest_free t = None /\ forall n, n < lowest_free t -> is_Some (t !! n).
Proof.
  unfold lowest_free. destruct (list_find _ _) as [[n x]|] eqn:E.
  - apply list_find_Some in E as (Hx & Hn & Hlt). apply lookup_seq in Hx as [-> Hx]. simpl in Hn |- *.
    split; [done|]. intros m Hm. apply not_eq_None_Some.
    apply (Hlt m m); [|done]. apply lookup_seq. lia.
  - exfalso. apply list_find_None in E. rewrite Forall_forall in E.
    assert (Hsub : list_to_set (seq 0 (S (size t))) ⊆ dom t).
    { intros n Hn%elem_of_list_to_set. apply elem_of_dom, not_eq_None_Some. by apply E. }
    apply subseteq_size in Hsub. rewrite size_list_to_set in Hsub by apply NoDup_seq.
    rewrite length_seq, size_dom in Hsub. lia.
Qed.

(** The source is closed, unless it is a standard descriptor. *)
Lemma close_source src (t : Fds) fd :
  (if 2 <? src then close src t else t) !! fd = if decide (fd = src /\ 2 < fd) then None else t !! fd.
Proof.
  unfold close. destruct (Nat.ltb_spec 2 src); case_decide as Hd; try lia.
  - destruct Hd as [-> _]. by rewrite lookup_delete, decide_True.
  - rewrite lookup_delete_ne; [done|]. intros ->. lia.
  - done.
Qed.

(** Nothing but the standard descriptors and the source changes in the loop. *)
Lemma dup_loop_spec dup_fails src targets (t t' : Fds) r :
  t !! src = Some DevNull -> Forall (fun x => x <= 2) targets ->
  dup_loop dup_fails src targets t = (t', r) ->
  (forall fd, fd ∉ targets -> t' !! fd = if decide (fd = src /\ 2 < fd) then None else t !! fd) /\
  (r = Ok tt -> forall fd, fd ∈ targets -> t' !! fd = Some DevNull).
Proof.
  intros Hs Hf. revert t Hs. induction Hf as [|x l Hx Hf IH]; intros t Hs; cbn [dup_loop].
  { intros [= <- <-]. split; [intros fd _; apply close_source|]. by intros _ fd []%elem_of_nil. }
  assert (Hgo : forall t1, t1 !! src = Some DevNull -> t1 !! x = Some DevNull ->
    (forall fd, fd <> x -> t1 !! fd = t !! fd) -> dup_loop dup_fails src l t1 = (t', r) ->
    (forall fd, fd ∉ x :: l -> t' !! fd = if decide (fd = src /\ 2 < fd) then None else t !! fd) /\
    (r = Ok tt -> forall fd, fd ∈ x :: l -> t' !! fd = Some DevNull)).
  { intros t1 Hs1 Hx1 Ho Hd. destruct (IH t1 Hs1 Hd) as [Hn Hi]. split.
    - intros fd Hin. rewrite not_elem_of_cons in Hin. destruct Hin as [Hne Hin]. by rewrite Hn, Ho.
    - intros Hr fd [->|Hin]%elem_of_cons; [|by apply Hi].
      destruct (decide (x ∈ l)) as [|Hxl]; [by apply Hi|]. rewrite Hn by done.
      rewrite decide_False by lia. done. }
  destruct (Nat.eqb_spec src x) as [->|Hne]; cbn [negb]; [by apply Hgo|].
  destruct (dup_fails x) as [e|].
  - intros [= <- <-]. split; [intros fd _; apply close_source|done].
  - unfold dup2. rewrite Hs. apply Hgo.
    + by rewrite lookup_insert_ne.
    + by rewrite lookup_insert, decide_True.
    + intros fd Hfd. by rewrite lookup_insert_ne.
Qed.

(** After [redirect_std_to_devnull] the three standard descriptors are open on
    [/dev/null] and every other descriptor is as it was, for any table: also when
    standard descriptors were closed, so that [open] answers one of them, and the
    source is then not closed under them. A failure leaks nothing. *)
Lemma redirect_spec open_fails dup_fails (t t' : Fds) r :
  redirect_std_to_devnull open_fails dup_fails t = (t', r) ->
  (forall fd, 2 < fd -> t' !! fd = t !! fd) /\
  (r = Ok tt -> forall fd, fd <= 2 -> t' !! fd = Some DevNull).
Proof.
  unfold redirect_std_to_devnull. destruct open_fails as [e|]; [by intros [= <- <-]|].
  unfold open_fd. destruct (lowest_free_spec t) as [Hfree _]. intros Hd.
  destruct (dup_loop_spec dup_fails (lowest_free t) [0; 1; 2] (<[lowest_free t := DevNull]> t) t' r) as [Hn Hi].
  { by rewrite lookup_insert, decide_True. }
  { repeat constructor. }
  { exact Hd. }
  split.
  - intros fd Hfd. rewrite Hn by (rewrite !elem_of_cons, elem_of_nil; lia).
    case_decide as Hc; [destruct Hc as [-> _]; by rewrite Hfree|].
    rewrite lookup_insert_ne; [done|]. intros <-. by apply Hc.
  - intros Hr fd Hfd. apply Hi; [done|]. rewrite !elem_of_cons. lia.
Qed.

(** * [daemonize] *)

Record Process := mkProcess {
  pid : N;
  pgid : N;
  sid : N;
  umask : N;
  dir : list byte;
  fds : Fds
}.

Definition with_fds (t : Fds) (p : Process) : Process :=
  {| pid := pid p; pgid := pgid p; sid := sid p; umask := umask p; dir := dir p; fds := t |}.

(** [0x3F] is the octal 077. *)
Definition set_umask (m : N) (p : Process) : Process :=
  {| pid := pid p; pgid := pgid p; sid := sid p; umask := m; dir := dir p; fds := fds p |}.

(** What [fork] answers here: the parent, or the child with its new pid. *)
Inductive ForkResult := Parent | Child (new_pid : N).

Definition forked (new_pid : N) (p : Process) : Process :=
  {| pid := new_pid; pgid := pgid p; sid := sid p; umask := umask p; dir := dir p; fds := fds p |}.

(** [setsid] fails for the leader of a group, and only for it. *)
Definition setsid (p : Process) : io_result Process :=
  if (pid p =? pgid p)%N then Err PermissionDenied
  else Ok {| pid := pid p; pgid := pid p; sid := pid p; umask := umask p; dir := dir p; fds := fds p |}.

Definition chdir (d : list byte) (p : Process) : Process :=
  {| pid := pid p; pgid := pgid p; sid := sid p; umask := umask p; dir := d; fds := fds p |}.

(** The process has exited with 0, or it goes on, with a result. *)
Inductive Daemonized := Exit0 | Back (p : Process) (r : io_result unit).

(** What the calls answer. *)
Record ForkEnv := mkForkEnv {
  first_fork : result ForkResult Errno;
  second_fork : result ForkResult Errno;
  chdir_fails : option Errno;
  open_fails : option Errno;
  dup_fails : nat -> option Errno
}.

Definition daemonize (env : ForkEnv) (p : Process) : Daemonized :=
  let p := set_umask 0x3F p in
  match first_fork env with
  | Err e => Back p (Err (Sys e))
  | Ok Parent => Exit0
  | Ok (Child child) =>
      let p := forked child p in
      match setsid p with
      | Err e => Back p (Err e)
      | Ok p =>
          match second_fork env with
          | Err e => Back p (Err (Sys e))
          | Ok Parent => Exit0
          | Ok (Child grandchild) =>
              let p := forked grandchild p in
              match chdir_fails env with
              | Some e => Back p (Err (Sys e))
              | None =>
                  let p := chdir (lit "/") p in
                  let '(t, r) := redirect_std_to_devnull (open_fails env) (dup_fails env) (fds p) in
                  Back (with_fds t p) r
              end
          end
      end
  end.

(** A new pid is not in use, neither as a pid nor as a process group. *)
Definition fresh_pids (env : ForkEnv) (p : Process) : Prop :=
  (forall c, first_fork env = Ok (Child c) -> c <> pid p /\ c <> pgid p /\ c <> sid p) /\
  (forall c g, first_fork env = Ok (Child c) -> second_fork env = Ok (Child g) ->
     g <> c /\ g <> pid p /\ g <> pgid p /\ g <> sid p).

Lemma redirect_errors open_fails dup_fails (t t' : Fds) e :
  redirect_std_to_devnull open_fails dup_fails t = (t', Err e) -> exists x, e = Sys x.
Proof.
  assert (Hl : forall targets src t, dup_loop dup_fails src targets t = (t', Err e) -> exists x, e = Sys x).
  { induction targets as [|x l IH]; intros src t0; cbn [dup_loop]; [done|]. destruct (negb _); [|apply IH].
    destruct (dup_fails x) as [y|]; [|apply IH]. intros [= _ <-]. by exists y. }
  unfold redirect_std_to_devnull. destruct open_fails as [x|]; [intros [= _ <-]; by exists x|].
  destruct (open_fd DevNull t). apply Hl.
Qed.

(** C33: a process that comes back from [daemonize] without an error is detached
    from where it was started: it is not the caller, it is in a session of its
    own that it does not lead, so that it cannot acquire a controlling terminal,
    it runs in [/] with the umask 077, its standard descriptors are [/dev/null]
    and its other descriptors are the caller's. [setsid] cannot fail: an error is
    one of the forks, of [chdir] or of the redirection. *)
Theorem daemonize_detaches env p :
  fresh_pids env p ->
  (forall p', daemonize env p = Back p' (Ok tt) ->
     pid p' <> pid p /\ sid p' <> sid p /\ sid p' <> pid p' /\ pgid p' = sid p' /\
     dir p' = lit "/" /\ umask p' = 0x3F%N /\
     (forall fd, fd <= 2 -> fds p' !! fd = Some DevNull) /\
     (forall fd, 2 < fd -> fds p' !! fd = fds p !! fd)) /\
  (forall p' e, daemonize env p = Back p' (Err e) -> exists x, e = Sys x).
Proof.
  intros [H1 H2]. unfold daemonize. cbv zeta. destruct (first_fork env) as [[|c]|e].
  1,3: split; [done|]; intros p' e' He; try done; injection He as _ <-; eauto.
  destruct (H1 c eq_refl) as (A1 & A2 & A3). unfold setsid. cbn [pid pgid forked set_umask].
  rewrite (proj2 (N.eqb_neq _ _) A2). destruct (second_fork env) as [[|g]|e].
  1,3: split; [done|]; intros p' e' He; try done; injection He as _ <-; eauto.
  destruct (H2 c g eq_refl eq_refl) as (B1 & B2 & B3 & B4). destruct (chdir_fails env).
  { split; [done|]. intros p' e' [= _ <-]. eauto. }
  cbn [fds forked chdir sid umask dir set_umask].
  destruct (redirect_std_to_devnull _ _ (fds p)) as [t r] eqn:Er. split.
  - intros p' [= <- ->]. destruct (redirect_spec _ _ _ _ _ Er) as [Ho Hn]. split_and!; try done. by apply Hn.
  - intros p' e [= <- ->]. by eapply redirect_errors.
Qed.

(** A shell starts the daemon with its standard input closed. *)
Lemma daemonize_detaches_witness :
  exists p', daemonize (mkForkEnv (Ok (Child 11)) (Ok (Child 12)) None None (fun _ => None))
    (mkProcess 10 9 8 0x12 (lit "/home") {[1 := OtherFile 1; 2 := OtherFile 1; 3 := OtherFile 5]}) = Back p' (Ok tt) /\
    sid p' = 11%N /\ fds p' !! 0 = Some DevNull /\ fds p' !! 3 = Some (OtherFile 5).
Proof.
  assert (Hf : fresh_pids (mkForkEnv (Ok (Child 11)) (Ok (Child 12)) None None (fun _ => None))
    (mkProcess 10 9 8 0x12 (lit "/home") {[1 := OtherFile 1; 2 := OtherFile 1; 3 := OtherFile 5]})).
  { split; [intros c [= <-]; cbn; lia|intros c g [= <-] [= <-]; cbn; lia]. }
  destruct (daemonize_detaches _ _ Hf) as [Hd _]. eexists. split; [reflexivity|].
  destruct (Hd _ eq_refl) as (_ & _ & _ & _ & _ & _ & Hstd & Hrest).
  split; [reflexivity|]. split; [apply Hstd; lia|]. apply Hrest. lia.
Defined.

(** * [Path::with_extension] *)

(** Without the separators, and the dots behind one, at its end; reversed. *)
Fixpoint trim_rev (p : list byte) : list byte :=
  match p with
  | x2f :: p => trim_rev p
  | x2e :: ((x2f :: _) as q) => trim_rev q
  | _ => p
  end.

(** The bytes in front of the first [b], and what follows from it. *)
Fixpoint split_at (b : byte) (l : list byte) : list byte * list byte :=
  match l with
  | [] => ([], [])
  | x :: l => if bool_decide (x = b) then ([], x :: l) else let '(p, q) := split_at b l in (x :: p, q)
  end.

(** The stem of a name ends at its last dot, unless that is its first byte. *)
Definition stem_rev (name : list byte) : list byte :=
  match split_at x2e name with
  | (_, _ :: ((_ :: _) as stem)) => stem
  | _ => name
  end.

(** A path with no file name (a root, one that ends in [..], or empty) is left
    alone. *)
Definition with_extension (p ext : list byte) : list byte :=
  let '(name, before) := split_at x2f (trim_rev (rev p)) in
  if bool_decide (name = [] \/ name = [x2e] \/ name = [x2e; x2e]) then p
  else rev before ++ rev (stem_rev name) ++ x2e :: ext.

(** * [main] *)

(** [0x180] is the octal 0600. *)
Definition SOCKET_MODE : N := 0x180.

(** Where the kernel finds a path: relative to the process's directory. *)
Definition resolve (p : Process) (path : list byte) : list byte := join (dir p) path.

(** What is done to the machine, in the order of the source, at resolved paths.
    [Shutdown] is the drop of the runtime, and with it of every session. *)
Inductive Act :=
  | EnsureDir (sock : list byte)
  | Daemonize (p : Process)
  | TakeLock (lock : list byte)
  | RemoveStale (sock : list byte)
  | BindSocket (sock : list byte) (mode : N)
  | Chmod (sock : list byte) (mode : N)
  | Serve
  | RemoveFile (path : list byte)
  | Shutdown
  | ReleaseLock.

(** The answers of what [acquire_daemon] calls: [acquire_flock], whose wait is in
    [Daemonize], with [false] for a lock that stayed held; [bind], twice; the
    [lstat] and the removal of [unlink_stale_socket]; [fcntl]. *)
Record AcquireEnv := mkAcquireEnv {
  acquire_flock : io_result bool;
  bind_first : io_result unit;
  lstat_sock : io_result Metadata;
  remove_stale : io_result unit;
  bind_again : io_result unit;
  set_cloexec : io_result unit
}.

(** The answers of what [main] calls: without [runtime], the build of the
    runtime, and without [adopted], the adoption of the listener and the signal
    handlers, an [expect] fails. *)
Record Env := mkEnv {
  argv : list (list byte);
  xdg_runtime_dir : option (list byte);
  uid : u32;
  has_parent : list byte -> bool;
  lstat : list byte -> io_result Metadata;
  mkdir : list byte -> io_result unit;
  forks : ForkEnv;
  acquiring : AcquireEnv;
  chmod : io_result unit;
  nonblocking : io_result unit;
  runtime : bool;
  adopted : bool
}.

(** The exit code, [SUCCESS] by [true]; [Panicked] unwinds through [main]. *)
Inductive Outcome := Code (success : bool) | Panicked.

Definition default_socket_path (env : Env) : list byte := socket_path_in (xdg_runtime_dir env) (uid env).

(** [bind] creates the socket with what the umask leaves of 0777. *)
Definition bind_mode (p : Process) : N := N.ldiff 0x1FF (umask p).

Definition restrict_socket_perms (env : Env) (sock : list byte) : Act * io_result unit :=
  (Chmod sock SOCKET_MODE, chmod env).

(** What a call did, in front of what is done with its result. *)
Definition after {A B : Type} (r : list Act * io_result A) (k : A -> list Act * io_result B) :
    list Act * io_result B :=
  match r with
  | (acts, Ok a) => let '(acts', r) := k a in (acts ++ acts', r)
  | (acts, Err e) => (acts, Err e)
  end.

(** A call that does something only when it succeeds. *)
Definition call (a : Act) (r : io_result unit) : list Act * io_result unit :=
  match r with Ok _ => ([a], Ok tt) | Err e => ([], Err e) end.

Definition unlink_stale_socket (env : AcquireEnv) (uid : u32) (sock : list byte) : list Act * io_result unit :=
  match lstat_sock env with
  | Err e => ([], Err e)
  | Ok md =>
      match kind md with
      | SocketKind =>
          if negb (md_uid md =? uid)%N then ([], Err PermissionDenied)
          else call (RemoveStale sock) (remove_stale env)
      | _ => ([], Err AlreadyExists)
      end
  end.

(** [Ok true] is [Bound], [Ok false] is [AlreadyRunning]; on an error the lock is
    dropped, and the listener with it. *)
Definition acquire_daemon (env : AcquireEnv) (uid : u32) (m : N) (sock lock : list byte) :
    list Act * io_result bool :=
  match acquire_flock env with
  | Err e => ([], Err e)
  | Ok false => ([], Ok false)
  | Ok true =>
      let listener :=
        match bind_first env with
        | Ok _ => ([BindSocket sock m], Ok tt)
        | Err AddrInUse =>
            after (unlink_stale_socket env uid sock) (fun _ => call (BindSocket sock m) (bind_again env))
        | Err e => ([], Err e)
        end in
      match after listener (fun _ => ([], set_cloexec env)) with
      | (acts, Err e) => (TakeLock lock :: acts ++ [ReleaseLock], Err e)
      | (acts, Ok _) => (TakeLock lock :: acts, Ok true)
      end
  end.

(** From [acquire_daemon] on; the lock is released whenever this returns. *)
Definition serve_main (env : Env) (sock lock : list byte) (p : Process) : list Act * Outcome :=
  let sock := resolve p sock in
  let lock := resolve p lock in
  match acquire_daemon (acquiring env) (uid env) (bind_mode p) sock lock with
  | (acts, Err _) => (acts, Code false)
  | (acts, Ok false) => (acts, Code true)
  | (bound, Ok true) =>
      let '(restrict, r) := restrict_socket_perms env sock in
      match r with
      | Err _ => (bound ++ [RemoveFile sock; ReleaseLock], Code false)
      | Ok _ =>
          match nonblocking env with
          | Err _ => (bound ++ [restrict; ReleaseLock], Code false)
          | Ok _ =>
              if negb (runtime env) then (bound ++ [restrict; ReleaseLock], Panicked)
              else if negb (adopted env) then (bound ++ [restrict; Shutdown; ReleaseLock], Panicked)
              else (bound ++ [restrict; Serve; RemoveFile sock; RemoveFile lock; Shutdown; ReleaseLock],
                    Code true)
          end
      end
  end.

Definition main (env : Env) (p : Process) : list Act * Outcome :=
  match parse_args (argv env) with
  | None => ([], Panicked)
  | Some (Exit success) => ([], Code success)
  | Some (Run args) =>
      let sock := match socket args with Some s => s | None => default_socket_path env end in
      match ensure_socket_dir (has_parent env sock) (lstat env sock) (mkdir env sock) (uid env) with
      | Err _ => ([EnsureDir (resolve p sock)], Code false)
      | Ok _ =>
          let lock := with_extension sock (lit "lock") in
          if foreground args then
            let '(acts, o) := serve_main env sock lock p in (EnsureDir (resolve p sock) :: acts, o)
          else
            match daemonize (forks env) p with
            | Exit0 => ([EnsureDir (resolve p sock)], Code true)
            | Back _ (Err _) => ([EnsureDir (resolve p sock)], Code false)
            | Back p' (Ok _) =>
                let '(acts, o) := serve_main env sock lock p' in
                (EnsureDir (resolve p sock) :: Daemonize p' :: acts, o)
            end
      end
  end.

Example extension_of_default : with_extension (lit "/run/user/7/jfterm/muxer.sock") (lit "lock") =
  lit "/run/user/7/jfterm/muxer.lock".
Proof. vm_compute. reflexivity. Qed.
Example extension_none : with_extension (lit "/run/x.d/sock") (lit "lock") = lit "/run/x.d/sock.lock".
Proof. vm_compute. reflexivity. Qed.
Example extension_dots : with_extension (lit "/run/.sock") (lit "lock") = lit "/run/.sock.lock" /\
  with_extension (lit "/run/a.b.c//") (lit "lock") = lit "/run/a.b.lock" /\
  with_extension (lit "/run/..") (lit "lock") = lit "/run/..".
Proof. vm_compute. split; [reflexivity|split; reflexivity]. Qed.

(** A socket that is named like a lock is its own lock file. *)
Example extension_lock : with_extension (lit "/run/x.lock") (lit "lock") = lit "/run/x.lock".
Proof. vm_compute. reflexivity. Qed.

(** ** What [main] does *)

Lemma daemonize_back env p p' r :
  daemonize env p = Back p' r -> umask p' = 0x3F%N /\ (r = Ok tt -> dir p' = lit "/").
Proof.
  unfold daemonize. cbv zeta. destruct (first_fork env) as [[|c]|e]; try by intros [= <- <-].
  unfold setsid. destruct (_ =? _)%N; [by intros [= <- <-]|].
  destruct (second_fork env) as [[|g]|e]; try by intros [= <- <-].
  destruct (chdir_fails env); [by intros [= <- <-]|].
  destruct (redirect_std_to_devnull _ _ _) as [t x]. by intros [= <- <-].
Qed.

(** A stale socket may be removed: it is one, and its owner is the daemon's user. *)
Definition stale (env : Env) : Prop :=
  exists md, lstat_sock (acquiring env) = Ok md /\ kind md = SocketKind /\ md_uid md = uid env.

(** What comes behind the bind, with the end it leads to. *)
Inductive served (sock lock : list byte) : list Act -> Outcome -> Prop :=
  | ServedOut :
      served sock lock [Chmod sock SOCKET_MODE; Serve; RemoveFile sock; RemoveFile lock; Shutdown] (Code true)
  | NoCloexec : served sock lock [] (Code false)
  | NoChmod : served sock lock [RemoveFile sock] (Code false)
  | NoNonblocking : served sock lock [Chmod sock SOCKET_MODE] (Code false)
  | NoRuntime : served sock lock [Chmod sock SOCKET_MODE] Panicked
  | NoListener : served sock lock [Chmod sock SOCKET_MODE; Shutdown] Panicked.

(** What was bound, if anything was. *)
Inductive binds (sock lock : list byte) (m : N) : list Act -> Outcome -> Prop :=
  | Unbound : binds sock lock m [] (Code false)
  | BindsTo rest o : served sock lock rest o -> binds sock lock m (BindSocket sock m :: rest) o.

(** The acts under the lock: they start with it and end with its release. *)
Inductive bound_acts (env : Env) (sock lock : list byte) (m : N) : list Act -> Outcome -> Prop :=
  | BoundActs old rest o :
      old = [] \/ (old = [RemoveStale sock] /\ stale env) -> binds sock lock m rest o ->
      bound_acts env sock lock m (TakeLock lock :: old ++ rest ++ [ReleaseLock]) o.

Lemma acquire_daemon_acts env m sock lock acts r :
  acquire_daemon (acquiring env) (uid env) m sock lock = (acts, r) ->
  (acts = [] /\ (r = Ok false \/ exists e, r = Err e)) \/
  exists old, (old = [] \/ (old = [RemoveStale sock] /\ stale env)) /\
    ((r = Ok true /\ acts = TakeLock lock :: old ++ [BindSocket sock m]) \/
     exists e b, r = Err e /\ (b = [] \/ b = [BindSocket sock m]) /\
       acts = TakeLock lock :: old ++ b ++ [ReleaseLock]).
Proof.
  unfold acquire_daemon. destruct (acquire_flock _) as [[]|e]; [|intros [= <- <-]; left; eauto..].
  set (listener := match bind_first _ with Ok _ => _ | Err _ => _ end).
  assert (Hl : exists old, (old = [] \/ (old = [RemoveStale sock] /\ stale env)) /\
    (listener = (old ++ [BindSocket sock m], Ok tt) \/ exists e, listener = (old, Err e))).
  { unfold listener. destruct (bind_first _) as [[]|e]; [exists []; eauto|].
    destruct e; try (exists []; split; [by left|by eauto]).
    unfold unlink_stale_socket, call. destruct (lstat_sock _) as [md|e] eqn:El; [|exists []; by eauto].
    destruct (kind md) eqn:Ek; try (exists []; by eauto).
    destruct (N.eqb_spec (md_uid md) (uid env)) as [Eu|Eu]; cbn [negb]; [|exists []; by eauto].
    destruct (remove_stale _) as [[]|e]; [|exists []; by eauto]. exists [RemoveStale sock].
    split; [right; split; [done|by exists md]|]. destruct (bind_again _) as [[]|e]; [by left|]. right. by exists e. }
  destruct Hl as (old & Ho & [-> | [e -> ]]); cbn [after].
  - destruct (set_cloexec _) as [[]|e]; intros [= <- <-]; right; exists old; (split; [done|]).
    + left. by rewrite app_nil_r.
    + right. exists e, [BindSocket sock m]. rewrite app_nil_r, <- app_assoc. eauto.
  - intros [= <- <-]. right. exists old. split; [done|]. right. exists e, []. eauto.
Qed.

Lemma serve_main_acts env sock lock p acts o :
  serve_main env sock lock p = (acts, o) ->
  acts = [] \/ bound_acts env (resolve p sock) (resolve p lock) (bind_mode p) acts o.
Proof.
  unfold serve_main. cbv zeta. set (s := resolve p sock). set (l := resolve p lock).
  destruct (acquire_daemon _ _ _ _ _) as [acts1 r] eqn:Ea.
  destruct (acquire_daemon_acts _ _ _ _ _ _ Ea) as [[-> [->|[e ->]]]|(old & Ho & [[-> ->]|(e & b & -> & Hb & ->)])].
  1,2: intros [= <- _]; by left.
  - assert (Hmk : forall rest o', served s l rest o' ->
      bound_acts env s l (bind_mode p) ((TakeLock l :: old ++ [BindSocket s (bind_mode p)]) ++ rest ++ [ReleaseLock]) o').
    { intros rest o' Hr. cbn [app]. rewrite <- app_assoc. apply (BoundActs env s l _ old (BindSocket s _ :: rest)).
      - done.
      - by constructor. }
    cbn [restrict_socket_perms].
    destruct (chmod env); [destruct (nonblocking env); [destruct (runtime env); [destruct (adopted env)|]|]|];
      cbn [negb]; intros [= <- <-]; right.
    + apply (Hmk _ _ (ServedOut s l)).
    + apply (Hmk _ _ (NoListener s l)).
    + apply (Hmk _ _ (NoRuntime s l)).
    + apply (Hmk _ _ (NoNonblocking s l)).
    + apply (Hmk _ _ (NoChmod s l)).
  - intros [= <- <-]. right. constructor; [done|]. destruct Hb as [-> | ->]; [constructor|by do 2 constructor].
Qed.

(** The whole of [main]. *)
Lemma main_acts env p acts o :
  main env p = (acts, o) ->
  (acts = [] \/ exists sock, acts = [EnsureDir sock]) \/
  exists args p' tl,
    let sock := default (default_socket_path env) (socket args) in
    let lock := with_extension sock (lit "lock") in
    parse_args (argv env) = Some (Run args) /\
    ensure_socket_dir (has_parent env sock) (lstat env sock) (mkdir env sock) (uid env) = Ok tt /\
    acts = EnsureDir (resolve p sock) :: (if foreground args then [] else [Daemonize p']) ++ tl /\
    (if foreground args then p' = p else daemonize (forks env) p = Back p' (Ok tt)) /\
    (tl = [] \/ bound_acts env (resolve p' sock) (resolve p' lock) (bind_mode p') tl o).
Proof.
  unfold main. destruct (parse_args (argv env)) as [[args|b]|]; [|intros [= <- _]; left; by left..].
  change (match socket args with Some s => s | None => default_socket_path env end) with
    (default (default_socket_path env) (socket args)).
  set (sock := default _ (socket args)).
  destruct (ensure_socket_dir _ _ _ _) as [[]|e] eqn:Ee; [|intros [= <- _]; left; right; eauto].
  destruct (foreground args) eqn:Ef.
  - destruct (serve_main env sock _ p) as [tl o'] eqn:Es. intros [= <- <-]. right. exists args, p, tl.
    fold sock. cbv zeta. rewrite Ef. split_and!; try done. by eapply serve_main_acts.
  - destruct (daemonize (forks env) p) as [|p' [[]|e]] eqn:Ed; [intros [= <- _]; left; right; eauto| |
      intros [= <- _]; left; right; eauto].
    destruct (serve_main env sock _ p') as [tl o'] eqn:Es. intros [= <- <-]. right. exists args, p', tl.
    fold sock. cbv zeta. rewrite Ef. split_and!; try done. by eapply serve_main_acts.
Qed.

#[local] Ltac in_acts :=
  let Hx := fresh "Hx" in
  intros Hx; cbn [app] in Hx |- *; rewrite ?elem_of_cons, ?elem_of_nil in Hx; destruct_or? Hx; simplify_eq;
  rewrite ?elem_of_cons; auto 14.

Lemma bound_acts_serve env sock lock m acts o :
  bound_acts env sock lock m acts o -> Serve ∈ acts ->
  exists old, (old = [] \/ old = [RemoveStale sock]) /\ o = Code true /\
  acts = TakeLock lock :: old ++ [BindSocket sock m; Chmod sock SOCKET_MODE; Serve; RemoveFile sock;
                                  RemoveFile lock; Shutdown; ReleaseLock].
Proof.
  intros [old rest o' Ho Hb] Hs. exists old. split; [intuition|].
  destruct Hb as [|rest' o' [ | | | | |]]; [|done|..]; exfalso; revert Hs;
    destruct Ho as [-> | [-> _]]; in_acts.
Qed.

Lemma bound_acts_remove env sock lock m acts o path :
  bound_acts env sock lock m acts o -> RemoveFile path ∈ acts ->
  TakeLock lock ∈ acts /\ BindSocket sock m ∈ acts /\ (path = sock \/ path = lock).
Proof.
  intros [old rest o' Ho Hb]. destruct Hb as [|rest' o' [ | | | | |]]; destruct Ho as [-> | [-> _]]; in_acts.
Qed.

Lemma bound_acts_stale env sock lock m acts o path :
  bound_acts env sock lock m acts o -> RemoveStale path ∈ acts -> path = sock /\ TakeLock lock ∈ acts /\ stale env.
Proof.
  intros [old rest o' Ho Hb]. destruct Hb as [|rest' o' [ | | | | |]]; destruct Ho as [-> | [-> Hst]]; in_acts.
Qed.

Lemma bound_acts_bind env sock lock m acts o sock' m' :
  bound_acts env sock lock m acts o -> BindSocket sock' m' ∈ acts -> sock' = sock /\ m' = m.
Proof.
  intros [old rest o' Ho Hb]. destruct Hb as [|rest' o' [ | | | | |]]; destruct Ho as [-> | [-> _]]; in_acts.
Qed.

Lemma bound_acts_daemonize env sock lock m acts o p :
  bound_acts env sock lock m acts o -> ~ (Daemonize p ∈ acts).
Proof.
  intros [old rest o' Ho Hb]. destruct Hb as [|rest' o' [ | | | | |]]; destruct Ho as [-> | [-> _]]; in_acts.
Qed.

Lemma bound_acts_last env sock lock m acts o : bound_acts env sock lock m acts o -> last acts = Some ReleaseLock.
Proof. intros [old rest o' _ _]. by rewrite app_comm_cons, app_assoc, last_snoc. Qed.

(** What comes before the lock. *)
Definition early (a : Act) : bool := match a with EnsureDir _ | Daemonize _ => true | _ => false end.

(** C32: [main] serves only on a socket it has bound under the lock and made 0600,
    and then removes the socket, then the lock file, ends every session and
    releases the lock last, with exit code 0; nothing is removed but what this
    daemon has bound or locked, and, under the lock, a socket of its own user that
    was in the way; however it leaves, the lock is released; and a daemon that went
    to the background creates its socket with no permission for anyone else, even
    before the [chmod]. In the foreground the socket is created with what the
    caller's umask leaves. *)
Theorem served_socket_private env p acts o :
  main env p = (acts, o) ->
  (Serve ∈ acts -> exists pre sock lock m old, (Serve ∉ pre) /\ (old = [] \/ old = [RemoveStale sock]) /\
     acts = pre ++ TakeLock lock :: old ++ [BindSocket sock m; Chmod sock SOCKET_MODE; Serve;
                    RemoveFile sock; RemoveFile lock; Shutdown; ReleaseLock] /\ o = Code true) /\
  (forall path, RemoveFile path ∈ acts -> exists sock lock m,
     TakeLock lock ∈ acts /\ BindSocket sock m ∈ acts /\ (path = sock \/ path = lock)) /\
  (forall sock, RemoveStale sock ∈ acts -> stale env /\ exists lock, TakeLock lock ∈ acts) /\
  (forall lock, TakeLock lock ∈ acts -> last acts = Some ReleaseLock) /\
  (forall p' sock m, Daemonize p' ∈ acts -> BindSocket sock m ∈ acts -> m = 0x1C0%N) /\
  (forall sock m, BindSocket sock m ∈ acts -> (forall p', ~ (Daemonize p' ∈ acts)) -> m = bind_mode p).
Proof.
  intros [[->|[s ->]]|(args & p' & tl & Ha & _ & -> & Hp & Htl)]%main_acts.
  1,2: split_and!; intros; rewrite ?elem_of_nil, ?list_elem_of_singleton in *; intuition discriminate.
  set (path := default (default_socket_path env) (socket args)) in *.
  set (sock := resolve p' path) in Htl. set (lock := resolve p' (with_extension path _)) in Htl.
  set (pre := EnsureDir (resolve p path) :: (if foreground args then [] else [Daemonize p'])).
  rewrite app_comm_cons. fold pre.
  assert (Hpre : forall a, a ∈ pre -> early a = true).
  { intros a. unfold pre. destruct (foreground args); rewrite !elem_of_cons, elem_of_nil;
      intros; repeat destruct_or?; by subst. }
  destruct Htl as [->|Hb].
  { rewrite app_nil_r. split_and!; intros; match goal with Hx : _ ∈ pre |- _ => by apply Hpre in Hx end. }
  assert (Hin : forall a, early a = false -> a ∈ pre ++ tl -> a ∈ tl).
  { intros a He [Hx%Hpre|Hx]%elem_of_app; [congruence|done]. }
  split_and!.
  - intros Hs%Hin; [|done]. destruct (bound_acts_serve _ _ _ _ _ _ Hb Hs) as (old & Ho & -> & ->).
    exists pre, sock, lock, (bind_mode p'), old. split; [by intros Hx%Hpre|done].
  - intros f Hs%Hin; [|done]. exists sock, lock, (bind_mode p').
    destruct (bound_acts_remove _ _ _ _ _ _ _ Hb Hs) as (? & ? & ?). rewrite !elem_of_app. auto.
  - intros q Hs%Hin; [|done]. destruct (bound_acts_stale _ _ _ _ _ _ _ Hb Hs) as (_ & Hl & Hst).
    split; [done|]. exists lock. rewrite elem_of_app. auto.
  - intros l _. rewrite last_app, (bound_acts_last _ _ _ _ _ _ Hb). done.
  - intros q s m Hd Hs%Hin; [|done]. destruct (bound_acts_bind _ _ _ _ _ _ _ _ Hb Hs) as [_ ->].
    assert (Hf : foreground args = false).
    { apply elem_of_app in Hd as [Hd|Hd]; [|by apply (bound_acts_daemonize _ _ _ _ _ _ _ Hb) in Hd].
      unfold pre in Hd. destruct (foreground args); [|done]. by apply list_elem_of_singleton in Hd. }
    rewrite Hf in Hp. apply daemonize_back in Hp as [Hu _]. unfold bind_mode. by rewrite Hu.
  - intros s m Hs%Hin Hd; [|done]. destruct (bound_acts_bind _ _ _ _ _ _ _ _ Hb Hs) as [_ ->].
    destruct (foreground args) eqn:Ef; [by subst|].
    exfalso. apply (Hd p'). apply elem_of_app. left. unfold pre. by right; left.
Qed.

(** C40: a relative path given with [--socket] means another file once the daemon is
    in the background: the directory that was checked or created is the one in
    the caller's directory, and the socket and the lock file are made under the
    root. *)
Theorem relative_socket_moves env p acts o args b s sock m :
  main env p = (acts, o) -> parse_args (argv env) = Some (Run args) -> foreground args = false ->
  socket args = Some (b :: s) -> b <> x2f -> 1 < length (dir p) ->
  BindSocket sock m ∈ acts ->
  EnsureDir (join (dir p) (b :: s)) ∈ acts /\ sock = x2f :: b :: s /\ sock <> join (dir p) (b :: s).
Proof.
  intros [[->|[x ->]]|(args' & p' & tl & Ha & _ & -> & Hp & Htl)]%main_acts Hargs Hf Hs Hb Hd Hin;
    [by apply elem_of_nil in Hin|by apply list_elem_of_singleton in Hin|].
  rewrite Ha in Hargs. injection Hargs as ->. rewrite Hf, Hs in *. cbn [default] in *. split; [by left|].
  assert (Hj : forall d, join d (b :: s) = match last d with
    | Some c => if bool_decide (c = x2f) then d ++ b :: s else d ++ x2f :: b :: s | None => b :: s end).
  { intros d. unfold join. by destruct b. }
  apply daemonize_back in Hp as [_ Hdir]. specialize (Hdir eq_refl).
  assert (Hsock : sock = x2f :: b :: s).
  { apply elem_of_cons in Hin as [[=]|Hin]. apply elem_of_app in Hin as [Hin%list_elem_of_singleton|Hin]; [done|].
    destruct Htl as [->|Hbt]; [by apply elem_of_nil in Hin|].
    destruct (bound_acts_bind _ _ _ _ _ _ _ _ Hbt Hin) as [-> _]. unfold resolve. rewrite Hj, Hdir. done. }
  split; [done|]. subst sock. rewrite Hj. intros E. apply (f_equal length) in E.
  destruct (last (dir p)) as [c|] eqn:El; [|by apply last_None in El; rewrite El in Hd; simpl in Hd; lia].
  destruct (bool_decide _); rewrite length_app in E; simpl in E; lia.
Qed.

(** ** Two starts *)

(** A daemon started by a shell with these arguments. *)
Definition demo_env (args : list (list byte)) : Env :=
  {| argv := lit "jftermd" :: args; xdg_runtime_dir := Some (lit "/run/user/7"); uid := 7;
     has_parent _ := true; lstat _ := Ok (mkMetadata Directory 7 0x41C0); mkdir _ := Ok tt;
     forks := mkForkEnv (Ok (Child 11)) (Ok (Child 12)) None None (fun _ => None);
     acquiring := mkAcquireEnv (Ok true) (Err AddrInUse) (Ok (mkMetadata SocketKind 7 0xC180)) (Ok tt) (Ok tt) (Ok tt);
     chmod := Ok tt; nonblocking := Ok tt; runtime := true; adopted := true |}.
Definition demo_shell : Process := mkProcess 10 9 8 0x12 (lit "/home") {[0 := OtherFile 0]}.

Lemma served_socket_private_witness :
  exists acts, main (demo_env []) demo_shell = (acts, Code true) /\ Serve ∈ acts /\
    forall sock m, BindSocket sock m ∈ acts -> m = 0x1C0%N.
Proof.
  eexists. split; [reflexivity|]. split; [by do 6 right; left|].
  intros sock m Hb.
  destruct (served_socket_private (demo_env []) demo_shell _ _ eq_refl) as (_ & _ & _ & _ & Hm & _).
  eapply Hm; [|exact Hb]. right. left.
Defined.

Lemma relative_socket_moves_witness :
  exists acts sock m, main (demo_env [lit "--socket"; lit "run/x.sock"]) demo_shell = (acts, Code true) /\
    EnsureDir (lit "/home/run/x.sock") ∈ acts /\ BindSocket sock m ∈ acts /\ sock = lit "/run/x.sock".
Proof.
  assert (Ha : parse_args (argv (demo_env [lit "--socket"; lit "run/x.sock"])) =
    Some (Run {| foreground := false; socket := Some (lit "run/x.sock") |})) by (vm_compute; reflexivity).
  destruct (main (demo_env [lit "--socket"; lit "run/x.sock"]) demo_shell) as [acts o] eqn:E.
  assert (Eo : o = Code true /\ BindSocket (lit "/run/x.sock") 0x1C0 ∈ acts).
  { vm_compute in E. injection E as <- <-. split; [reflexivity|]. do 4 right. left. }
  destruct Eo as [-> Hb].
  destruct (relative_socket_moves (demo_env [lit "--socket"; lit "run/x.sock"]) demo_shell acts (Code true)
    {| foreground := false; socket := Some (lit "run/x.sock") |} x72 (lit "un/x.sock") (lit "/run/x.sock") 0x1C0
    E Ha eq_refl eq_refl ltac:(discriminate) ltac:(vm_compute; lia) Hb) as (H1 & H2 & _).
  exists acts, (lit "/run/x.sock"), 0x1C0%N. split; [reflexivity|]. split; [exact H1|]. split; [exact Hb|exact H2].
Defined.
