(* ===== verification/Daemonize.v ===== *)
(** jftermd/src/daemonize.rs and the end of main.rs: one daemon per socket.

    Daemons started at the same time share a lock file and a socket file. Each
    is a state machine whose steps are its system calls, and the scheduler runs
    them in any order. A lock is taken on the file that was opened (an inode),
    which need no longer be the one the path names. Any call may also fail with an
    error of its own. [uid] is the user of the daemons; what a daemon does before
    it takes the lock is in [Boot], and [Handoff] checks that the machine and
    [Boot.main] make the same calls.

    The lock file and the socket are taken to be different files: [main] derives the
    lock's path with [with_extension("lock")], so they are one file only when the
    socket itself is named [*.lock] ([Boot.extension_lock]), and then no daemon can
    bind it, because its own lock file is in the way. *)
From S2P Require Import Prelude.

Definition ACQUIRE_TIMEOUT : N := 2000.
Definition ACQUIRE_POLL : N := 20.

Abbreviation Inode := nat (only parsing).
Abbreviation Proc := nat (only parsing).

(** What is at the socket path: a socket, by its owner and the daemon that bound
    it ([None]: one that is gone), or something else. *)
Inductive Node :=
  | Sock (owner : u32) (bound_by : option Proc)
  | NotSocket.

#[export] Instance Node_eq_dec : EqDecision Node.
Proof. solve_decision. Defined.

(** Where a daemon is, by the call it makes next: in [try_flock] (open, then
    flock), asleep in [acquire_flock], in [acquire_daemon] (bind, the lstat and
    the unlink of [unlink_stale_socket], the second bind, [set_cloexec]), in [main]
    before it serves (the chmod, the unlink when that fails, [set_nonblocking], the
    runtime, the listener's adoption), serving, or in the teardown. [Exited] and
    [Failed_] have closed their files. *)
Inductive Pc :=
  | Opening (deadline : N)
  | Locking (deadline : N) (ino : Inode)
  | Sleeping (deadline wake : N)
  | Binding (ino : Inode)
  | Checking (ino : Inode)
  | Unlinking (ino : Inode)
  | Rebinding (ino : Inode)
  | Cloexec (ino : Inode)
  | Restricting (ino : Inode)
  | Discarding (ino : Inode)
  | Unblocking (ino : Inode)
  | Building (ino : Inode)
  | Adopting (ino : Inode)
  | Serving (ino : Inode)
  | UnlinkSock (ino : Inode)
  | UnlinkLock (ino : Inode)
  | Closing (ino : Inode)
  | AlreadyRunning
  | Failed_
  | Exited.

#[export] Instance Pc_eq_dec : EqDecision Pc.
Proof. solve_decision. Defined.

Record Machine := mkMachine {
  clock : N;
  lock_path : option Inode;
  next_inode : Inode;
  locked : gmap nat Proc;
  sock_path : option Node;
  procs : gmap nat Pc
}.

(** The inode a daemon holds the lock of. *)
Definition holds (pc : Pc) : option Inode :=
  match pc with
  | Binding i | Checking i | Unlinking i | Rebinding i | Cloexec i | Restricting i | Discarding i
  | Unblocking i | Building i | Adopting i | Serving i | UnlinkSock i | UnlinkLock i | Closing i => Some i
  | _ => None
  end.

Section daemons.
Context (uid : u32).

Definition set_pc (p : Proc) (pc : Pc) (m : Machine) : Machine :=
  {| clock := clock m; lock_path := lock_path m; next_inode := next_inode m; locked := locked m;
     sock_path := sock_path m; procs := <[p := pc]> (procs m) |}.
Definition set_sock (s : option Node) (m : Machine) : Machine :=
  {| clock := clock m; lock_path := lock_path m; next_inode := next_inode m; locked := locked m;
     sock_path := s; procs := procs m |}.
Definition set_locked (l : gmap nat Proc) (m : Machine) : Machine :=
  {| clock := clock m; lock_path := lock_path m; next_inode := next_inode m; locked := l;
     sock_path := sock_path m; procs := procs m |}.
Definition set_lock_path (l : option Inode) (m : Machine) : Machine :=
  {| clock := clock m; lock_path := l; next_inode := next_inode m; locked := locked m;
     sock_path := sock_path m; procs := procs m |}.

(** [open] with [O_CREAT]: the file at the path, or a new one. *)
Definition open_lock (m : Machine) : Machine * Inode :=
  match lock_path m with
  | Some i => (m, i)
  | None =>
      ({| clock := clock m; lock_path := Some (next_inode m); next_inode := S (next_inode m);
          locked := locked m; sock_path := sock_path m; procs := procs m |}, next_inode m)
  end.

(** A non-blocking exclusive [flock]; [false] is [EAGAIN]. *)
Definition flock (i : Inode) (p : Proc) (m : Machine) : Machine * bool :=
  match locked m !! i with
  | None => (set_locked (<[i := p]> (locked m)) m, true)
  | Some _ => (m, false)
  end.

(** [bind]; [false] is [AddrInUse], for anything at the path. *)
Definition bind (p : Proc) (m : Machine) : Machine * bool :=
  match sock_path m with
  | None => (set_sock (Some (Sock uid (Some p))) m, true)
  | Some _ => (m, false)
  end.

(** The process ends: the kernel drops its lock, and its socket has no owner. *)
Definition close_files (p : Proc) (pc : Pc) (m : Machine) : Machine :=
  let m := match holds pc with Some i => set_locked (delete i (locked m)) m | None => m end in
  match sock_path m with
  | Some (Sock u (Some q)) => if bool_decide (q = p) then set_sock (Some (Sock u None)) m else m
  | _ => m
  end.

(** The checks of [unlink_stale_socket]. *)
Definition stale_socket (n : option Node) : bool :=
  match n with
  | Some (Sock owner _) => (owner =? uid)%N
  | _ => false
  end.

(** An error returns from [acquire_daemon] or [main], and the files are closed. *)
Definition fail (p : Proc) (pc : Pc) (m : Machine) : Machine := set_pc p Failed_ (close_files p pc m).

(** The next call of daemon [p]; [Serving] goes to the teardown. *)
Definition daemon_step (p : Proc) (m : Machine) : option Machine :=
  pc ← procs m !! p;
  match pc with
  | Opening d => let '(m, i) := open_lock m in Some (set_pc p (Locking d i) m)
  | Locking d i =>
      match flock i p m with
      | (m, true) => Some (set_pc p (Binding i) m)
      | (m, false) =>
          Some (if (d <=? clock m)%N then set_pc p AlreadyRunning m
                else set_pc p (Sleeping d (clock m + ACQUIRE_POLL)) m)
      end
  | Sleeping d wake => if (wake <=? clock m)%N then Some (set_pc p (Opening d) m) else None
  | Binding i => let '(m, ok) := bind p m in Some (set_pc p (if ok then Cloexec i else Checking i) m)
  | Checking i => Some (if stale_socket (sock_path m) then set_pc p (Unlinking i) m else fail p pc m)
  | Unlinking i =>
      match sock_path m with
      | Some _ => Some (set_pc p (Rebinding i) (set_sock None m))
      | None => Some (fail p pc m)
      end
  | Rebinding i => let '(m, ok) := bind p m in Some (if ok then set_pc p (Cloexec i) m else fail p pc m)
  | Cloexec i => Some (set_pc p (Restricting i) m)
  | Restricting i => Some (set_pc p (Unblocking i) m)
  | Discarding i => Some (fail p pc (set_sock None m))
  | Unblocking i => Some (set_pc p (Building i) m)
  | Building i => Some (set_pc p (Adopting i) m)
  | Adopting i => Some (set_pc p (Serving i) m)
  | Serving i => Some (set_pc p (UnlinkSock i) m)
  | UnlinkSock i => Some (set_pc p (UnlinkLock i) (set_sock None m))
  | UnlinkLock i => Some (set_pc p (Closing i) (set_lock_path None m))
  | Closing i => Some (set_pc p Exited (close_files p pc m))
  | AlreadyRunning | Failed_ | Exited => None
  end.

(** The next call of daemon [p] has an error the state does not decide. The
    teardown ignores the errors of its calls, and so does the removal of a socket
    whose chmod failed; any other error ends the daemon. *)
Definition daemon_error (p : Proc) (m : Machine) : option Machine :=
  pc ← procs m !! p;
  match pc with
  | Opening _ | Locking _ _ | Binding _ | Checking _ | Unlinking _ | Rebinding _ | Cloexec _
  | Discarding _ | Unblocking _ | Building _ | Adopting _ => Some (fail p pc m)
  | Restricting i => Some (set_pc p (Discarding i) m)
  | UnlinkSock i => Some (set_pc p (UnlinkLock i) m)
  | UnlinkLock i => Some (set_pc p (Closing i) m)
  | Sleeping _ _ | Serving _ | Closing _ | AlreadyRunning | Failed_ | Exited => None
  end.

(** What happens: a daemon is started, makes a call, has an error, or is killed;
    time passes. *)
Inductive Event :=
  | Start (p : Proc)
  | Step (p : Proc)
  | Error (p : Proc)
  | Kill (p : Proc)
  | Tick (ms : N).

Definition event (e : Event) (m : Machine) : option Machine :=
  match e with
  | Start p => match procs m !! p with
               | None => Some (set_pc p (Opening (clock m + ACQUIRE_TIMEOUT)) m)
               | Some _ => None
               end
  | Step p => daemon_step p m
  | Error p => daemon_error p m
  | Kill p => pc ← procs m !! p; Some (set_pc p Exited (close_files p pc m))
  | Tick ms => Some {| clock := clock m + ms; lock_path := lock_path m; next_inode := next_inode m;
                       locked := locked m; sock_path := sock_path m; procs := procs m |}
  end.

Definition run_events (es : list Event) (m : Machine) : option Machine := foldM (fun m e => event e m) m es.

(** A file system with anything at the socket path, and no daemon. *)
Definition machine0 (node : option Node) : Machine :=
  {| clock := 0; lock_path := None; next_inode := 0; locked := ∅; sock_path := node; procs := ∅ |}.
End daemons.

(** * Invariants *)

Section invariants.
Context (uid : u32).

(** A daemon past its [flock] is the one its inode is locked by. *)
Definition lock_inv (m : Machine) : Prop :=
  forall p pc i, procs m !! p = Some pc -> holds pc = Some i -> locked m !! i = Some p.

Lemma close_files_keeps p pc m :
  procs (close_files p pc m) = procs m /\ lock_path (close_files p pc m) = lock_path m /\
  clock (close_files p pc m) = clock m /\
  locked (close_files p pc m) = match holds pc with Some i => delete i (locked m) | None => locked m end /\
  (sock_path (close_files p pc m) = sock_path m \/
   exists u, sock_path m = Some (Sock u (Some p)) /\ sock_path (close_files p pc m) = Some (Sock u None)).
Proof.
  unfold close_files.
  set (m1 := match holds pc with Some i => set_locked (delete i (locked m)) m | None => m end).
  assert (Hm : procs m1 = procs m /\ lock_path m1 = lock_path m /\ clock m1 = clock m /\
    locked m1 = match holds pc with Some i => delete i (locked m) | None => locked m end /\
    sock_path m1 = sock_path m) by (unfold m1; by destruct (holds pc)).
  destruct Hm as (E1 & E2 & E3 & E4 & E5). rewrite E5.
  destruct (sock_path m) as [[u [q|]|]|] eqn:Es; try (split_and!; try done; by left).
  case_bool_decide as Hq; [subst q|split_and!; try done; by left].
  split_and!; try done. right. by exists u.
Qed.

(** The lock file a daemon has open. *)
Definition opened (pc : Pc) : option Inode :=
  match pc with Locking _ i => Some i | _ => holds pc end.

(** Its socket is the one it has bound. *)
Definition bound (pc : Pc) : bool :=
  match pc with
  | Cloexec _ | Restricting _ | Discarding _ | Unblocking _ | Building _ | Adopting _ | Serving _ | UnlinkSock _ => true
  | _ => false
  end.

(** What one call of a daemon, that goes well or has an error, changes: the
    daemon's own state; the locks by its own; the lock path from absent to the
    file it creates, or by the unlink; the socket path only under the lock. *)
Record moved (p : Proc) (pc : Pc) (m : Machine) (pc' : Pc) (m' : Machine) : Prop := {
  moved_procs : procs m' = <[p := pc']> (procs m);
  moved_lock :
    (locked m' = locked m /\ (holds pc' = holds pc \/ holds pc' = None)) \/
    (exists i, locked m !! i = None /\ locked m' = <[i := p]> (locked m) /\ holds pc' = Some i) \/
    (locked m' = match holds pc with Some i => delete i (locked m) | None => locked m end /\ holds pc' = None);
  moved_path : lock_path m' = lock_path m \/ lock_path m = None \/ exists i, pc = UnlinkLock i;
  moved_opened : opened pc' = None \/ opened pc' = opened pc \/ opened pc' = lock_path m';
  moved_sock : sock_path m' = sock_path m \/ holds pc <> None \/
    exists u, sock_path m = Some (Sock u (Some p)) /\ sock_path m' = Some (Sock u None);
  moved_bound : bound pc' = true -> sock_path m' = Some (Sock uid (Some p)) \/
    (bound pc = true /\ sock_path m' = sock_path m)
}.

(** The end of a daemon, whatever it did to the socket before. *)
Lemma moved_close p pc pc' s m :
  (s = sock_path m \/ holds pc <> None) -> opened pc' = None -> holds pc' = None -> bound pc' = false ->
  moved p pc m pc' (set_pc p pc' (close_files p pc (set_sock s m))).
Proof.
  intros Hs Ho Hh Hb. destruct (close_files_keeps p pc (set_sock s m)) as (E1 & E2 & _ & E4 & E5).
  cbn [procs lock_path locked sock_path set_sock] in E1, E2, E4, E5.
  split; cbn [procs lock_path locked sock_path set_pc]; rewrite ?E1, ?E2, ?E4; auto; try congruence.
  destruct Hs as [-> | Hs]; [|by auto]. destruct E5 as [-> | (u & Eu & ->)]; [by auto|]. right; right. eauto.
Qed.

Lemma set_sock_same m : set_sock (sock_path m) m = m.
Proof. by destruct m. Qed.

Lemma moved_exit p pc pc' m :
  opened pc' = None -> holds pc' = None -> bound pc' = false ->
  moved p pc m pc' (set_pc p pc' (close_files p pc m)).
Proof. rewrite <- (set_sock_same m) at 2. apply moved_close. by left. Qed.

#[local] Ltac moves := eexists; split; simpl; rewrite ?lookup_insert, ?decide_True by done; eauto 6; try done.

Lemma step_moved p pc m m' :
  procs m !! p = Some pc -> daemon_step uid p m = Some m' -> exists pc', moved p pc m pc' m'.
Proof.
  intros Ep. unfold daemon_step. rewrite Ep. cbn [mbind option_bind].
  destruct pc as [d|d i|d wk|i|i|i|i|i|i|i|i|i|i|i|i|i|i| | |]; try done.
  - unfold open_lock. destruct (lock_path m) as [i|] eqn:El; intros [= <-]; moves.
  - unfold flock. destruct (locked m !! i) eqn:El; intros [= <-]; [destruct (d <=? clock m)%N|]; moves.
  - destruct (wk <=? clock m)%N; [|done]. intros [= <-]. moves.
  - unfold bind. destruct (sock_path m); intros [= <-]; moves.
  - destruct (stale_socket _ _); intros [= <-]; [moves|]. eexists. by apply moved_exit.
  - destruct (sock_path m) eqn:Es; intros [= <-]; [moves|]. eexists. by apply moved_exit.
  - unfold bind. destruct (sock_path m) eqn:Es; intros [= <-]; [|moves]. eexists. by apply moved_exit.
  - intros [= <-]. moves.
  - intros [= <-]. moves.
  - intros [= <-]. eexists. apply moved_close; try done. by right.
  - intros [= <-]. moves.
  - intros [= <-]. moves.
  - intros [= <-]. moves.
  - intros [= <-]. moves.
  - intros [= <-]. moves.
  - intros [= <-]. moves.
  - intros [= <-]. eexists. by apply moved_exit.
Qed.

Lemma error_moved p pc m m' :
  procs m !! p = Some pc -> daemon_error p m = Some m' -> exists pc', moved p pc m pc' m'.
Proof.
  intros Ep. unfold daemon_error. rewrite Ep. cbn [mbind option_bind].
  destruct pc; intros [= <-]; first [by eexists; apply moved_exit|moves].
Qed.

(** What an event does to the daemons. *)
Inductive effect (m m' : Machine) : Prop :=
  | Began p pc : procs m !! p = None -> opened pc = None -> m' = set_pc p pc m -> effect m m'
  | Moved p pc pc' : procs m !! p = Some pc -> moved p pc m pc' m' -> effect m m'
  | Ticked : locked m' = locked m -> lock_path m' = lock_path m -> sock_path m' = sock_path m ->
      procs m' = procs m -> effect m m'.

Lemma event_effect e m m' : event uid e m = Some m' -> effect m m'.
Proof.
  destruct e as [p|p|p|p|ms]; cbn [event].
  - destruct (procs m !! p) eqn:Ep; [done|]. intros [= <-].
    by apply (Began _ _ p (Opening (clock m + ACQUIRE_TIMEOUT))).
  - intros Hs. destruct (procs m !! p) as [pc|] eqn:Ep; [|unfold daemon_step in Hs; by rewrite Ep in Hs].
    destruct (step_moved p pc m m' Ep Hs) as [pc' Hm]. by apply (Moved m m' p pc pc').
  - intros Hs. destruct (procs m !! p) as [pc|] eqn:Ep; [|unfold daemon_error in Hs; by rewrite Ep in Hs].
    destruct (error_moved p pc m m' Ep Hs) as [pc' Hm]. by apply (Moved m m' p pc pc').
  - destruct (procs m !! p) as [pc|] eqn:Ep; cbn [mbind option_bind]; [|done]. intros [= <-].
    by eapply (Moved _ _ p pc); [|apply moved_exit].
  - intros [= <-]. by apply Ticked.
Qed.

(** A daemon is where it was, or where the event has put it. *)
Lemma lookup_moved p pc' q qc (ps : gmap nat Pc) :
  <[p := pc']> ps !! q = Some qc -> (q = p /\ qc = pc') \/ (q <> p /\ ps !! q = Some qc).
Proof. rewrite lookup_insert_Some. intuition congruence. Qed.

Lemma lock_inv_event e m m' : lock_inv m -> event uid e m = Some m' -> lock_inv m'.
Proof.
  intros Hi He. destruct (event_effect e m m' He) as [p pc Ep Ho -> |p pc pc' Ep Hm|El _ _ Eps]; intros q qc i Hq Hh.
  - apply lookup_moved in Hq as [[-> ->]|[_ Hq]]; [by destruct pc|by apply (Hi q qc)].
  - rewrite (moved_procs _ _ _ _ _ Hm) in Hq. apply lookup_moved in Hq as [[-> ->]|[Hne Hq]].
    + destruct (moved_lock _ _ _ _ _ Hm) as [[-> [Hk|Hk]]|[(j & _ & -> & Hk)|[_ Hk]]]; [|congruence| |congruence].
      * apply (Hi p pc); congruence.
      * assert (j = i) as -> by congruence. by rewrite lookup_insert, decide_True.
    + pose proof (Hi q qc i Hq Hh) as Hl.
      destruct (moved_lock _ _ _ _ _ Hm) as [[-> _]|[(j & Hj & -> & _)|[-> _]]]; [done| |].
      * rewrite lookup_insert_ne; [done|congruence].
      * destruct (holds pc) as [j|] eqn:Ej; [|done]. pose proof (Hi p pc j Ep Ej).
        rewrite lookup_delete_ne; [done|congruence].
  - rewrite El. rewrite Eps in Hq. by apply (Hi q qc).
Qed.

(** ** Runs in which no daemon unlinks the lock file *)

(** The event is not the unlink of the lock file. *)
Definition quiet (e : Event) (m : Machine) : Prop :=
  match e with
  | Step p => forall i, procs m !! p <> Some (UnlinkLock i)
  | _ => True
  end.

Record single_inv (m : Machine) : Prop := {
  single_lock : lock_inv m;
  single_path : forall p pc i, procs m !! p = Some pc -> opened pc = Some i -> lock_path m = Some i;
  single_sock : forall p pc, procs m !! p = Some pc -> bound pc = true ->
    sock_path m = Some (Sock uid (Some p))
}.

Lemma holds_opened pc i : holds pc = Some i -> opened pc = Some i.
Proof. by destruct pc. Qed.

Lemma bound_holds pc : bound pc = true -> exists i, holds pc = Some i.
Proof. destruct pc; by eauto. Qed.

Lemma single_holder m p q pc qc i j :
  single_inv m -> procs m !! p = Some pc -> procs m !! q = Some qc ->
  holds pc = Some i -> holds qc = Some j -> p = q.
Proof.
  intros [Hl Hp _] Ep Eq Hi Hj. pose proof (Hl p pc i Ep Hi). pose proof (Hl q qc j Eq Hj).
  pose proof (Hp p pc i Ep (holds_opened _ _ Hi)). pose proof (Hp q qc j Eq (holds_opened _ _ Hj)).
  congruence.
Qed.

Lemma single_moved p pc pc' m m' :
  single_inv m -> lock_inv m' -> (lock_path m' = lock_path m \/ lock_path m = None) ->
  procs m !! p = Some pc -> moved p pc m pc' m' -> single_inv m'.
Proof.
  intros Hi Hl' Hpath Ep Hm. pose proof Hi as [Hl Hp Hk]. destruct Hm as [Eps _ _ Hop Hsock Hb].
  split; [done| |].
  - intros q qc i Hq Ho. rewrite Eps in Hq. apply lookup_moved in Hq as [[-> ->]|[_ Hq]].
    + destruct Hop as [Hop|[Hop|Hop]]; [congruence| |congruence].
      rewrite Hop in Ho. pose proof (Hp p pc i Ep Ho). destruct Hpath; congruence.
    + pose proof (Hp q qc i Hq Ho). destruct Hpath; congruence.
  - intros q qc Hq Hqb. rewrite Eps in Hq. apply lookup_moved in Hq as [[-> ->]|[Hne Hq]].
    + destruct (Hb Hqb) as [Hs|[Hpb ->]]; [done|]. by apply (Hk p pc).
    + pose proof (Hk q qc Hq Hqb) as Hs. destruct Hsock as [-> |[Hh|(u & Eu & _)]]; [done| |congruence].
      exfalso. apply Hne. destruct (holds pc) as [i|] eqn:Ei; [|done].
      destruct (bound_holds qc Hqb) as [j Ej]. by apply (single_holder m q p qc pc j i).
Qed.

Lemma quiet_path e m m' :
  quiet e m -> event uid e m = Some m' -> lock_path m' = lock_path m \/ lock_path m = None.
Proof.
  destruct e as [p|p|p|p|ms]; cbn [event quiet].
  - intros _. destruct (procs m !! p); [done|]. intros [= <-]. by left.
  - intros Hq Hs. destruct (procs m !! p) as [pc|] eqn:Ep; [|unfold daemon_step in Hs; by rewrite Ep in Hs].
    destruct (step_moved p pc m m' Ep Hs) as [pc' Hm].
    destruct (moved_path _ _ _ _ _ Hm) as [Hx|[Hx|(i & -> )]]; [by left|by right|]. by destruct (Hq i).
  - intros _. unfold daemon_error. destruct (procs m !! p) as [pc|]; cbn [mbind option_bind]; [|done].
    destruct (close_files_keeps p pc m) as (_ & E2 & _). destruct pc; intros [= <-]; by left.
  - intros _. destruct (procs m !! p) as [pc|]; cbn [mbind option_bind]; [|done]. intros [= <-].
    left. apply close_files_keeps.
  - intros _ [= <-]. by left.
Qed.

Lemma single_event e m m' : single_inv m -> quiet e m -> event uid e m = Some m' -> single_inv m'.
Proof.
  intros Hi Hq He. pose proof (lock_inv_event e m m' (single_lock m Hi) He) as Hl'.
  destruct (event_effect e m m' He) as [p pc Ep Ho -> |p pc pc' Ep Hm|El Ep Es Eps].
  - destruct Hi as [_ Hp Hk]. split; [done| |].
    + intros q qc i Hq'. apply lookup_moved in Hq' as [[-> ->]|[_ Hq']]; [congruence|]. by apply (Hp q qc).
    + intros q qc Hq' Hb. apply lookup_moved in Hq' as [[-> ->]|[_ Hq']]; [|by apply (Hk q qc)].
      destruct (bound_holds _ Hb) as [i Hx%holds_opened]. congruence.
  - eapply single_moved; try done. by apply (quiet_path e).
  - destruct Hi as [_ Hp Hk]. split; [done| |]; rewrite Eps, ?Ep, ?Es; done.
Qed.

(** Runs, and those in which the lock file is not unlinked. *)
Inductive reach (node : option Node) : Machine -> Prop :=
  | ReachStart : reach node (machine0 node)
  | ReachEvent e m m' : reach node m -> event uid e m = Some m' -> reach node m'.

Inductive quiet_reach (node : option Node) : Machine -> Prop :=
  | QuietStart : quiet_reach node (machine0 node)
  | QuietEvent e m m' : quiet_reach node m -> quiet e m -> event uid e m = Some m' -> quiet_reach node m'.

Lemma no_procs0 node p : procs (machine0 node) !! p = None.
Proof. apply lookup_empty. Qed.

Lemma lock_inv0 node : lock_inv (machine0 node).
Proof. intros p pc i Hp. by rewrite no_procs0 in Hp. Qed.

Lemma reach_lock node m : reach node m -> lock_inv m.
Proof. induction 1; [apply lock_inv0|by eapply lock_inv_event]. Qed.

Lemma quiet_single node m : quiet_reach node m -> single_inv m.
Proof.
  induction 1; [|by eapply single_event]. split; [apply lock_inv0| |];
    intros p pc; [intros i|]; intros Hp; by rewrite no_procs0 in Hp.
Qed.

Lemma run_events_reach node es m : run_events uid es (machine0 node) = Some m -> reach node m.
Proof.
  unfold run_events. apply (foldM_inv _ (reach node)); [|apply ReachStart].
  intros m1 e m2 Hr He. by eapply ReachEvent.
Qed.
End invariants.

(** C24: one daemon per lock. In any run, of any number of daemons started, killed
    and stopped in any order, two daemons never hold the lock of one file; and as
    long as no daemon has unlinked the lock file, at most one is past the lock,
    and a daemon that serves is the one its socket path leads to. *)
Theorem single_daemon uid node :
  (forall m p q pc qc i, reach uid node m -> procs m !! p = Some pc -> procs m !! q = Some qc ->
     holds pc = Some i -> holds qc = Some i -> p = q) /\
  (forall m, quiet_reach uid node m ->
     (forall p q pc qc i j, procs m !! p = Some pc -> procs m !! q = Some qc ->
        holds pc = Some i -> holds qc = Some j -> p = q) /\
     (forall p i, procs m !! p = Some (Serving i) -> sock_path m = Some (Sock uid (Some p)))).
Proof.
  split.
  - intros m p q pc qc i Hr Ep Eq Hp Hq. pose proof (reach_lock _ _ _ Hr) as Hl.
    pose proof (Hl p pc i Ep Hp). pose proof (Hl q qc i Eq Hq). congruence.
  - intros m Hr. pose proof (quiet_single _ _ _ Hr) as Hi. split.
    + intros p q pc qc i j. by apply (single_holder uid).
    + intros p i Hp. destruct Hi as [_ _ Hk]. by apply (Hk p (Serving i)).
Qed.

(** The first daemon stops while the second has its lock file open; the third
    makes a new one, and takes the socket of the second for a stale one. *)
Definition race : list Event :=
  Start 1 :: replicate 10 (Step 1) ++ [Start 2; Step 2; Step 1; Step 1] ++ replicate 7 (Step 2) ++
  Start 3 :: replicate 3 (Step 3).
Definition race_end : list Event := replicate 3 (Step 3).

Lemma checking_step uid p i m :
  procs m !! p = Some (Checking i) -> stale_socket uid (sock_path m) = true ->
  daemon_step uid p m = Some (set_pc p (Unlinking i) m).
Proof. intros Hp Hs. unfold daemon_step. rewrite Hp. cbn [mbind option_bind]. by rewrite Hs. Qed.

Lemma unlinking_step uid p i m node :
  procs m !! p = Some (Unlinking i) -> sock_path m = Some node ->
  daemon_step uid p m = Some (set_pc p (Rebinding i) (set_sock None m)).
Proof. intros Hp Hs. unfold daemon_step. rewrite Hp. cbn [mbind option_bind]. by rewrite Hs. Qed.

Lemma rebinding_step uid p i m :
  procs m !! p = Some (Rebinding i) -> sock_path m = None ->
  daemon_step uid p m = Some (set_pc p (Cloexec i) (set_sock (Some (Sock uid (Some p))) m)).
Proof. intros Hp Hs. unfold daemon_step, bind. rewrite Hp. cbn [mbind option_bind]. by rewrite Hs. Qed.

Lemma set_pc_own p pc m : procs (set_pc p pc m) !! p = Some pc.
Proof. cbn [procs set_pc]. by rewrite lookup_insert, decide_True. Qed.

(** Nothing but its own state changes from the bind to the serving. *)
Lemma serving_steps uid p i m :
  procs m !! p = Some (Cloexec i) ->
  exists m', run_events uid (replicate 5 (Step p)) m = Some m' /\ sock_path m' = sock_path m /\
    procs m' !! p = Some (Serving i) /\ forall q, q <> p -> procs m' !! q = procs m !! q.
Proof.
  intros Hp. unfold run_events. cbn [replicate foldM event]. unfold daemon_step. rewrite Hp.
  cbn [mbind option_bind]. do 4 (rewrite set_pc_own; cbn [mbind option_bind]).
  eexists. split; [done|]. split; [done|]. split; [apply set_pc_own|].
  intros q Hq. cbn [procs set_pc]. by rewrite !lookup_insert_ne.
Qed.

(** C38: the unlink of the lock file at shutdown lets two daemons in: a daemon that
    opened the file before the unlink locks it after, another locks the new file
    at the path, and then removes the socket of the first, which goes on serving
    without one. *)
Theorem two_daemons uid :
  exists m, reach uid None m /\ procs m !! 2 = Some (Serving 0) /\ procs m !! 3 = Some (Serving 1) /\
    sock_path m = Some (Sock uid (Some 3)).
Proof.
  assert (E1 : exists m, run_events uid race (machine0 None) = Some m /\
    procs m !! 2 = Some (Serving 0) /\ procs m !! 3 = Some (Checking 1) /\
    sock_path m = Some (Sock uid (Some 2))) by (eexists; vm_compute; split_and!; reflexivity).
  destruct E1 as (m & Er & E2 & E3 & Es).
  set (m1 := set_pc 3 (Cloexec 1) (set_sock (Some (Sock uid (Some 3)))
    (set_pc 3 (Rebinding 1) (set_sock None (set_pc 3 (Unlinking 1) m))))).
  destruct (serving_steps uid 3 1 m1 (set_pc_own _ _ _)) as (m' & Er' & Es' & Hp & Ho).
  exists m'. split; [|split; [|split; [done|by rewrite Es']]].
  - apply (run_events_reach uid None ((race ++ race_end) ++ replicate 5 (Step 3))). unfold run_events in *.
    rewrite foldM_app, foldM_app, Er. cbn [mbind option_bind foldM race_end replicate event].
    rewrite (checking_step uid 3 1 m) by (rewrite ?Es; simpl; by rewrite ?N.eqb_refl).
    cbn [mbind option_bind]. rewrite (unlinking_step uid 3 1 _ (Sock uid (Some 2))) by (by rewrite ?set_pc_own).
    cbn [mbind option_bind]. rewrite (rebinding_step uid 3 1) by (by rewrite ?set_pc_own).
    cbn [mbind option_bind]. exact Er'.
  - rewrite Ho by done. unfold m1. cbn [procs set_pc set_sock]. by rewrite !lookup_insert_ne.
Qed.

(** ** A file the daemons may not remove *)

(** The states in front of the checks of [unlink_stale_socket], and the ends. *)
Definition cautious (pc : Pc) : bool :=
  match pc with
  | Opening _ | Locking _ _ | Sleeping _ _ | Binding _ | Checking _ | AlreadyRunning | Failed_ | Exited => true
  | _ => false
  end.

Definition planted (uid : u32) (n : Node) : Prop := n = NotSocket \/ exists u, u <> uid /\ n = Sock u None.

Definition kept (n : Node) (m : Machine) : Prop :=
  sock_path m = Some n /\ forall p pc, procs m !! p = Some pc -> cautious pc = true.

Lemma kept_move n p pc m m' :
  kept n m -> sock_path m' = sock_path m -> procs m' = <[p := pc]> (procs m) -> cautious pc = true -> kept n m'.
Proof.
  intros [Hs Hp] Es Ep Hc. split; [congruence|]. intros q qc Hq. rewrite Ep in Hq.
  destruct (decide (p = q)) as [<-|Hne].
  - rewrite lookup_insert, decide_True in Hq by done. by injection Hq as <-.
  - rewrite lookup_insert_ne in Hq by done. by apply (Hp q).
Qed.

Lemma kept_close uid n p pc pc' m :
  planted uid n -> kept n m -> cautious pc' = true -> kept n (set_pc p pc' (close_files p pc m)).
Proof.
  intros Hn Hk Hc. destruct (close_files_keeps p pc m) as (E1 & _ & _ & _ & E5).
  apply (kept_move n p pc' m); [done| |by simpl; rewrite E1|done]. cbn [sock_path set_pc].
  destruct E5 as [E5|(u & Eu & _)]; [done|]. destruct Hk as [Hs _]. exfalso.
  destruct Hn as [->|(u' & _ & ->)]; congruence.
Qed.

Lemma kept_event uid n e m m' : planted uid n -> kept n m -> event uid e m = Some m' -> kept n m'.
Proof.
  intros Hn Hk. pose proof Hk as [Hs Hp].
  assert (Hend : forall p pc, kept n (set_pc p Failed_ (close_files p pc m))) by (intros; by eapply kept_close).
  destruct e as [p|p|p|p|ms]; cbn [event].
  - destruct (procs m !! p); [done|]. intros [= <-]. by eapply kept_move.
  - unfold daemon_step. destruct (procs m !! p) as [pc|] eqn:Ep; cbn [mbind option_bind]; [|done].
    pose proof (Hp p pc Ep) as Hc. destruct pc; try done.
    + unfold open_lock. destruct (lock_path m); intros [= <-]; by eapply kept_move.
    + unfold flock. destruct (locked m !! _); intros [= <-]; [destruct (_ <=? _)%N|]; by eapply kept_move.
    + destruct (_ <=? _)%N; [|done]. intros [= <-]. by eapply kept_move.
    + unfold bind. rewrite Hs. intros [= <-]. by eapply kept_move.
    + assert (Hst : stale_socket uid (sock_path m) = false).
      { rewrite Hs. destruct Hn as [->|(u & Hu & ->)]; [done|]. by apply N.eqb_neq. }
      rewrite Hst. intros [= <-]. apply Hend.
  - unfold daemon_error. destruct (procs m !! p) as [pc|] eqn:Ep; cbn [mbind option_bind]; [|done].
    pose proof (Hp p pc Ep) as Hc. destruct pc; try done; intros [= <-]; apply Hend.
  - destruct (procs m !! p) as [pc|] eqn:Ep; cbn [mbind option_bind]; [|done]. intros [= <-].
    by eapply kept_close.
  - by intros [= <-].
Qed.

(** C31: what is not ours is never removed: if at the start the socket path holds
    something that is not a socket, or a socket of another user, then in every
    run it stays there, no daemon gets to remove a file, and none serves. *)
Theorem planted_file_kept uid n m :
  planted uid n -> reach uid (Some n) m ->
  sock_path m = Some n /\ forall p i, procs m !! p <> Some (Serving i).
Proof.
  intros Hn Hr. assert (Hk : kept n m).
  { induction Hr as [|e m m' _ IH He]; [|by eapply kept_event]. split; [done|].
    intros p pc Hp. by rewrite no_procs0 in Hp. }
  destruct Hk as [Hs Hp]. split; [done|]. intros p i Hx. by specialize (Hp _ _ Hx).
Qed.

Lemma planted_file_kept_witness :
  exists m, run_events 1000 [Start 1; Step 1; Step 1; Step 1; Step 1] (machine0 (Some NotSocket)) = Some m /\
    procs m !! 1 = Some Failed_ /\ sock_path m = Some NotSocket.
Proof.
  destruct (run_events 1000 [Start 1; Step 1; Step 1; Step 1; Step 1] (machine0 (Some NotSocket)))
    as [m|] eqn:E; [|vm_compute in E; discriminate E].
  exists m. split; [reflexivity|]. split; [vm_compute in E; injection E as <-; reflexivity|].
  exact (proj1 (planted_file_kept 1000 NotSocket m (or_introl eq_refl) (run_events_reach 1000 _ _ _ E))).
Defined.
