(* ===== verification/Handoff.v ===== *)
(** The machine of [Daemonize] and the program of [Boot] agree.

    Both are of the same lines of main.rs and daemonize.rs; this file checks the one
    against the other, and says nothing of the source beyond that.

    The machine of [Daemonize] interleaves the calls of many daemons and decides
    their answers by the files they share; [Boot.serve_main] is the program of one,
    over answers that are given. Here the calls of a daemon of the machine are
    written down, and what it has done is what [serve_main] does for some answers.
    The paths are those of the daemon, [proc]. *)
From S2P Require Import Prelude Pty Startup Boot.
From S2P Require Daemonize.
Import Daemonize (Machine, procs, sock_path, locked, event, daemon_step, daemon_error, run_events, machine0).

Abbreviation Pc := Daemonize.Pc.
Abbreviation Event := Daemonize.Event.

Section handoff.
Context (uid : u32) (sock lock : list byte) (mode : N).

(** What the next call of a daemon does, if it goes well or the state decides
    against it. *)
Definition step_acts (pc : Pc) (m : Machine) : list Act :=
  match pc with
  | Daemonize.Locking _ i => match locked m !! i with None => [TakeLock lock] | Some _ => [] end
  | Daemonize.Binding _ => match sock_path m with None => [BindSocket sock mode] | Some _ => [] end
  | Daemonize.Checking _ => if Daemonize.stale_socket uid (sock_path m) then [] else [ReleaseLock]
  | Daemonize.Unlinking _ => match sock_path m with Some _ => [RemoveStale sock] | None => [ReleaseLock] end
  | Daemonize.Rebinding _ => match sock_path m with None => [BindSocket sock mode] | Some _ => [ReleaseLock] end
  | Daemonize.Restricting _ => [Chmod sock SOCKET_MODE]
  | Daemonize.Discarding _ => [RemoveFile sock; ReleaseLock]
  | Daemonize.Adopting _ => [Serve]
  | Daemonize.UnlinkSock _ => [RemoveFile sock]
  | Daemonize.UnlinkLock _ => [RemoveFile lock]
  | Daemonize.Closing _ => [Shutdown; ReleaseLock]
  | _ => []
  end.

(** The same when it has an error: a removal is tried. *)
Definition error_acts (pc : Pc) : list Act :=
  match pc with
  | Daemonize.Binding _ | Daemonize.Checking _ | Daemonize.Unlinking _ | Daemonize.Rebinding _
  | Daemonize.Cloexec _ | Daemonize.Unblocking _ | Daemonize.Building _ => [ReleaseLock]
  | Daemonize.Discarding _ => [RemoveFile sock; ReleaseLock]
  | Daemonize.Adopting _ => [Shutdown; ReleaseLock]
  | Daemonize.UnlinkSock _ => [RemoveFile sock]
  | Daemonize.UnlinkLock _ => [RemoveFile lock]
  | _ => []
  end.

(** The part of daemon [p] in an event, and in a run. *)
Definition event_acts (p : nat) (e : Event) (m : Machine) : list Act :=
  match procs m !! p with
  | None => []
  | Some pc =>
      match e with
      | Daemonize.Step q => if decide (q = p) then step_acts pc m else []
      | Daemonize.Error q => if decide (q = p) then error_acts pc else []
      | _ => []
      end
  end.

Fixpoint run_acts (p : nat) (es : list Event) (m : Machine) : list Act :=
  match es with
  | [] => []
  | e :: es =>
      match event uid e m with
      | Some m' => event_acts p e m ++ run_acts p es m'
      | None => []
      end
  end.

(** ** What a daemon has done, by where it is *)

Definition old_socket (old : list Act) : Prop := old = [] \/ old = [RemoveStale sock].

(** A daemon that has bound, with what it did then. *)
Definition has_bound (more acts : list Act) : Prop :=
  exists old, old_socket old /\ acts = TakeLock lock :: old ++ BindSocket sock mode :: more.

(** A daemon that has failed with the lock. *)
Definition has_failed (acts : list Act) : Prop :=
  acts = [] \/ acts = [TakeLock lock; ReleaseLock] \/ acts = [TakeLock lock; RemoveStale sock; ReleaseLock] \/
  has_bound [ReleaseLock] acts \/ has_bound [RemoveFile sock; ReleaseLock] acts \/
  has_bound [Chmod sock SOCKET_MODE; ReleaseLock] acts \/
  has_bound [Chmod sock SOCKET_MODE; Shutdown; ReleaseLock] acts.

Definition trail (pc : Pc) (acts : list Act) : Prop :=
  match pc with
  | Daemonize.Opening _ | Daemonize.Locking _ _ | Daemonize.Sleeping _ _ | Daemonize.AlreadyRunning => acts = []
  | Daemonize.Binding _ | Daemonize.Checking _ | Daemonize.Unlinking _ => acts = [TakeLock lock]
  | Daemonize.Rebinding _ => acts = [TakeLock lock; RemoveStale sock]
  | Daemonize.Cloexec _ | Daemonize.Restricting _ | Daemonize.Discarding _ => has_bound [] acts
  | Daemonize.Unblocking _ | Daemonize.Building _ | Daemonize.Adopting _ => has_bound [Chmod sock SOCKET_MODE] acts
  | Daemonize.Serving _ | Daemonize.UnlinkSock _ => has_bound [Chmod sock SOCKET_MODE; Serve] acts
  | Daemonize.UnlinkLock _ => has_bound [Chmod sock SOCKET_MODE; Serve; RemoveFile sock] acts
  | Daemonize.Closing _ => has_bound [Chmod sock SOCKET_MODE; Serve; RemoveFile sock; RemoveFile lock] acts
  | Daemonize.Exited =>
      has_bound [Chmod sock SOCKET_MODE; Serve; RemoveFile sock; RemoveFile lock; Shutdown; ReleaseLock] acts
  | Daemonize.Failed_ => has_failed acts
  end.

Lemma has_bound_app more more' acts : has_bound more acts -> has_bound (more ++ more') (acts ++ more').
Proof. intros (old & Ho & ->). exists old. split; [done|]. by rewrite <- app_comm_cons, <- app_assoc. Qed.

Lemma has_bound_first : has_bound [] [TakeLock lock; BindSocket sock mode].
Proof. exists []. split; [by left|done]. Qed.

Lemma has_bound_again : has_bound [] [TakeLock lock; RemoveStale sock; BindSocket sock mode].
Proof. exists [RemoveStale sock]. split; [by right|done]. Qed.

#[local] Hint Resolve has_bound_first has_bound_again : core.

#[local] Ltac trails := first [done|by subst; unfold has_failed; simpl; auto 8|
  match goal with H : has_bound ?more _ |- has_bound _ _ => exact (has_bound_app more _ _ H) end].
#[local] Ltac trailed := eexists; split; [apply Daemonize.set_pc_own|]; simpl trail; rewrite ?app_nil_r; trails.

Lemma step_trail p m m' pc acts :
  procs m !! p = Some pc -> trail pc acts -> daemon_step uid p m = Some m' ->
  exists pc', procs m' !! p = Some pc' /\ trail pc' (acts ++ step_acts pc m).
Proof.
  intros Ep Ht. unfold daemon_step. rewrite Ep. cbn [mbind option_bind].
  destruct pc as [d|d i|d wk|i|i|i|i|i|i|i|i|i|i|i|i|i|i| | |]; try done; cbn [step_acts trail] in *.
  - unfold Daemonize.open_lock. destruct (Daemonize.lock_path m); intros [= <-]; trailed.
  - unfold Daemonize.flock. destruct (locked m !! i); intros [= <-]; [destruct (_ <=? _)%N|]; trailed.
  - destruct (_ <=? _)%N; [|done]. intros [= <-]. trailed.
  - unfold Daemonize.bind. destruct (sock_path m); intros [= <-]; trailed.
  - destruct (Daemonize.stale_socket _ _); intros [= <-]; trailed.
  - destruct (sock_path m); intros [= <-]; trailed.
  - unfold Daemonize.bind. destruct (sock_path m); intros [= <-]; trailed.
  - intros [= <-]. trailed.
  - intros [= <-]. trailed.
  - intros [= <-]. eexists. split; [apply Daemonize.set_pc_own|]. do 4 right; left.
    exact (has_bound_app [] _ _ Ht).
  - intros [= <-]. trailed.
  - intros [= <-]. trailed.
  - intros [= <-]. trailed.
  - intros [= <-]. trailed.
  - intros [= <-]. trailed.
  - intros [= <-]. trailed.
  - intros [= <-]. trailed.
Qed.

Lemma error_trail p m m' pc acts :
  procs m !! p = Some pc -> trail pc acts -> daemon_error p m = Some m' ->
  exists pc', procs m' !! p = Some pc' /\ trail pc' (acts ++ error_acts pc).
Proof.
  intros Ep Ht. unfold daemon_error. rewrite Ep. cbn [mbind option_bind].
  destruct pc; intros [= <-]; (eexists; split; [apply Daemonize.set_pc_own|]); cbn [error_acts trail] in *;
    rewrite ?app_nil_r; try (by subst; unfold has_failed; simpl; auto).
  - do 3 right; left. exact (has_bound_app [] _ _ Ht).
  - do 4 right; left. exact (has_bound_app [] _ _ Ht).
  - do 5 right; left. exact (has_bound_app _ _ _ Ht).
  - do 5 right; left. exact (has_bound_app _ _ _ Ht).
  - do 6 right. exact (has_bound_app _ _ _ Ht).
  - exact (has_bound_app _ _ _ Ht).
  - exact (has_bound_app _ _ _ Ht).
Qed.

(** A daemon that is not killed follows the trail of [main]. *)
Definition on_trail (p : nat) (m : Machine) (acts : list Act) : Prop :=
  match procs m !! p with None => acts = [] | Some pc => trail pc acts end.

Lemma event_trail p e m m' acts :
  e <> Daemonize.Kill p -> event uid e m = Some m' -> on_trail p m acts ->
  on_trail p m' (acts ++ event_acts p e m).
Proof.
  intros Hk He Ht. unfold on_trail, event_acts in *.
  assert (Hsame : procs m' !! p = procs m !! p -> event_acts p e m = [] -> on_trail p m' (acts ++ event_acts p e m)).
  { intros E1 ->. unfold on_trail. by rewrite E1, app_nil_r. }
  unfold on_trail, event_acts in Hsame.
  assert (Hother : forall q, q <> p ->
    (daemon_step uid q m = Some m' \/ daemon_error q m = Some m') -> procs m' !! p = procs m !! p).
  { intros q Hq Hs. assert (exists pc, procs m !! q = Some pc) as [pc Eq].
    { unfold daemon_step, daemon_error in Hs. destruct (procs m !! q) as [pc|]; [by exists pc|]. by destruct Hs. }
    assert (exists pc', Daemonize.moved uid q pc m pc' m') as [pc' Hm].
    { destruct Hs; [by eapply Daemonize.step_moved|by eapply Daemonize.error_moved]. }
    rewrite (Daemonize.moved_procs _ _ _ _ _ _ Hm). by rewrite lookup_insert_ne. }
  destruct e as [q|q|q|q|ms]; cbn [event] in He.
  - destruct (procs m !! q) eqn:Eq; [done|]. injection He as <-. destruct (decide (q = p)) as [->|Hq].
    + rewrite Eq in *. rewrite Daemonize.set_pc_own. simpl. by rewrite app_nil_r.
    + apply Hsame; [|by destruct (procs m !! p)]. cbn [procs Daemonize.set_pc]. by rewrite lookup_insert_ne.
  - destruct (decide (q = p)) as [->|Hq]; [|apply Hsame; [eauto|by destruct (procs m !! p)]].
    destruct (procs m !! p) as [pc|] eqn:Ep; [|unfold daemon_step in He; by rewrite Ep in He].
    destruct (step_trail p m m' pc acts Ep Ht He) as (pc' & -> & Ht'). done.
  - destruct (decide (q = p)) as [->|Hq]; [|apply Hsame; [eauto|by destruct (procs m !! p)]].
    destruct (procs m !! p) as [pc|] eqn:Ep; [|unfold daemon_error in He; by rewrite Ep in He].
    destruct (error_trail p m m' pc acts Ep Ht He) as (pc' & -> & Ht'). done.
  - assert (Hq : q <> p) by congruence. apply Hsame; [|by destruct (procs m !! p)].
    destruct (procs m !! q) as [pc|]; cbn [mbind option_bind] in He; [|done]. injection He as <-.
    destruct (Daemonize.close_files_keeps q pc m) as (E1 & _). cbn [procs Daemonize.set_pc].
    rewrite E1. by rewrite lookup_insert_ne.
  - injection He as <-. by apply Hsame; [|destruct (procs m !! p)].
Qed.

Lemma run_trail p es m m' acts :
  (Daemonize.Kill p ∉ es) -> run_events uid es m = Some m' -> on_trail p m acts ->
  on_trail p m' (acts ++ run_acts p es m).
Proof.
  unfold run_events. revert m acts. induction es as [|e es IH]; intros m acts Hk Hr Ht; cbn [foldM run_acts] in *.
  { injection Hr as <-. by rewrite app_nil_r. }
  rewrite not_elem_of_cons in Hk. destruct Hk as [Hke Hk].
  destruct (event uid e m) as [m1|] eqn:Ee; cbn [mbind option_bind] in Hr; [|done].
  rewrite app_assoc. apply IH; [done|done|]. apply event_trail; [congruence|done|done].
Qed.
End handoff.

(** * The answers behind a trail *)

(** The same start of [main], with these answers from [acquire_daemon] on. *)
Definition answering (env : Env) (acq : AcquireEnv) (ch nb : io_result unit) (rt ad : bool) : Env :=
  {| argv := argv env; xdg_runtime_dir := xdg_runtime_dir env; uid := uid env; has_parent := has_parent env;
     lstat := lstat env; mkdir := mkdir env; forks := forks env; acquiring := acq; chmod := ch;
     nonblocking := nb; runtime := rt; adopted := ad |}.

(** An end, and whether the exit code is 0. *)
Definition ended (pc : Pc) : option bool :=
  match pc with
  | Daemonize.AlreadyRunning | Daemonize.Exited => Some true
  | Daemonize.Failed_ => Some false
  | _ => None
  end.

Section answers.
Context (env : Env) (sock lock : list byte) (proc : Process).
Let s := resolve proc sock.
Let l := resolve proc lock.
Let m := bind_mode proc.

(** [acts] is the beginning of a run of [serve_main], or, at an end, the whole of
    one. *)
Definition runs_main (e : option bool) (acts : list Act) : Prop :=
  exists acq ch nb rt ad rest o,
    serve_main (answering env acq ch nb rt ad) sock lock proc = (acts ++ rest, o) /\
    forall success, e = Some success -> rest = [] /\ (o = Code true <-> success = true).

Lemma runs_main_end acq ch nb rt ad acts o b :
  serve_main (answering env acq ch nb rt ad) sock lock proc = (acts, o) -> (o = Code true <-> b = true) ->
  runs_main (Some b) acts.
Proof.
  intros Hs Ho. exists acq, ch, nb, rt, ad, [], o. rewrite app_nil_r. split; [done|]. by intros ? [= <-].
Qed.

Lemma runs_main_part acq ch nb rt ad acts rest o :
  serve_main (answering env acq ch nb rt ad) sock lock proc = (acts ++ rest, o) -> runs_main None acts.
Proof. intros Hs. by exists acq, ch, nb, rt, ad, rest, o. Qed.

(** The calls of a daemon that binds, with or without a stale socket in the way. *)
Lemma acquires old :
  old_socket s old -> forall cx : io_result unit, exists acq, forall ch nb rt ad,
  acquire_daemon (acquiring (answering env acq ch nb rt ad)) (uid env) m s l =
    match cx with
    | Ok _ => (TakeLock l :: old ++ [BindSocket s m], Ok true)
    | Err e => (TakeLock l :: old ++ [BindSocket s m; ReleaseLock], Err e)
    end.
Proof.
  intros Ho cx. destruct Ho as [-> | ->].
  - exists (mkAcquireEnv (Ok true) (Ok tt) (Err NotFound) (Ok tt) (Ok tt) cx).
    intros. unfold acquire_daemon. cbn -[resolve]. by destruct cx.
  - exists (mkAcquireEnv (Ok true) (Err AddrInUse) (Ok (mkMetadata SocketKind (uid env) 0)) (Ok tt) (Ok tt) cx).
    intros. unfold acquire_daemon, unlink_stale_socket. cbn -[resolve N.eqb].
    rewrite N.eqb_refl. cbn -[resolve]. by destruct cx.
Qed.

(** The ends behind the bind. *)
Lemma serves old (ch nb : io_result unit) (rt ad : bool) :
  old_socket s old -> exists acq,
  serve_main (answering env acq ch nb rt ad) sock lock proc =
    let bound := TakeLock l :: old ++ [BindSocket s m] in
    match ch with
    | Err _ => (bound ++ [RemoveFile s; ReleaseLock], Code false)
    | Ok _ =>
        match nb with
        | Err _ => (bound ++ [Chmod s SOCKET_MODE; ReleaseLock], Code false)
        | Ok _ =>
            if negb rt then (bound ++ [Chmod s SOCKET_MODE; ReleaseLock], Panicked)
            else if negb ad then (bound ++ [Chmod s SOCKET_MODE; Shutdown; ReleaseLock], Panicked)
            else (bound ++ [Chmod s SOCKET_MODE; Serve; RemoveFile s; RemoveFile l; Shutdown; ReleaseLock], Code true)
        end
    end.
Proof.
  intros Ho. destruct (acquires old Ho (Ok tt)) as [acq Ha]. exists acq. unfold serve_main. cbv zeta.
  fold s l m. cbn [uid answering]. rewrite (Ha ch nb rt ad). cbn [restrict_socket_perms chmod nonblocking runtime adopted answering].
  destruct ch; [|done]. by destruct nb.
Qed.

Lemma bound_runs more acts :
  has_bound s l m more acts ->
  more `prefix_of` [Chmod s SOCKET_MODE; Serve; RemoveFile s; RemoveFile l; Shutdown; ReleaseLock] ->
  runs_main None acts.
Proof.
  intros (old & Ho & ->) [rest E]. destruct (serves old (Ok tt) (Ok tt) true true Ho) as [acq Hs].
  apply (runs_main_part acq (Ok tt) (Ok tt) true true _ rest (Code true)). rewrite Hs. cbn [negb]. cbv zeta.
  rewrite E. f_equal. by rewrite <- !app_comm_cons, <- !app_assoc.
Qed.

Lemma failed_runs acts : has_failed s l m acts -> runs_main (Some false) acts.
Proof.
  set (X := Sys EIO : io_error).
  intros [->|[->|[->|[(old & Ho & ->)|[(old & Ho & ->)|[(old & Ho & ->)|(old & Ho & ->)]]]]]].
  - by apply (runs_main_end (mkAcquireEnv (Err X) (Ok tt) (Err X) (Ok tt) (Ok tt) (Ok tt)) (Ok tt) (Ok tt) true true _ (Code false)).
  - by apply (runs_main_end (mkAcquireEnv (Ok true) (Err X) (Err X) (Ok tt) (Ok tt) (Ok tt)) (Ok tt) (Ok tt) true true _ (Code false)).
  - apply (runs_main_end (mkAcquireEnv (Ok true) (Err AddrInUse) (Ok (mkMetadata SocketKind (uid env) 0)) (Ok tt) (Err X) (Ok tt))
      (Ok tt) (Ok tt) true true _ (Code false)); [|done].
    unfold serve_main, acquire_daemon, unlink_stale_socket. cbn -[resolve N.eqb bind_mode]. by rewrite N.eqb_refl.
  - destruct (acquires old Ho (Err X)) as [acq Ha].
    apply (runs_main_end acq (Ok tt) (Ok tt) true true _ (Code false)); [|done].
    unfold serve_main. cbv zeta. fold s l m. cbn [uid answering]. by rewrite (Ha (Ok tt) (Ok tt) true true).
  - destruct (serves old (Err X) (Ok tt) true true Ho) as [acq Hs].
    apply (runs_main_end acq (Err X) (Ok tt) true true _ (Code false)); [|done].
    rewrite Hs. cbv zeta. by rewrite <- app_comm_cons, <- app_assoc.
  - destruct (serves old (Ok tt) (Err X) true true Ho) as [acq Hs].
    apply (runs_main_end acq (Ok tt) (Err X) true true _ (Code false)); [|done].
    rewrite Hs. cbv zeta. by rewrite <- app_comm_cons, <- app_assoc.
  - destruct (serves old (Ok tt) (Ok tt) true false Ho) as [acq Hs].
    apply (runs_main_end acq (Ok tt) (Ok tt) true false _ Panicked); [|done].
    rewrite Hs. cbv zeta. cbn [negb]. by rewrite <- app_comm_cons, <- app_assoc.
Qed.

Lemma locked_runs more acts :
  acts = TakeLock l :: more -> more = [] \/ more = [RemoveStale s] -> runs_main None acts.
Proof.
  intros -> [-> | ->].
  - destruct (serves [] (Ok tt) (Ok tt) true true ltac:(by left)) as [acq Hs].
    eapply (runs_main_part acq (Ok tt) (Ok tt) true true). rewrite Hs. by cbn [negb app].
  - destruct (serves [RemoveStale s] (Ok tt) (Ok tt) true true ltac:(by right)) as [acq Hs].
    eapply (runs_main_part acq (Ok tt) (Ok tt) true true). rewrite Hs. by cbn [negb app].
Qed.

(** The trail of any place is a run of [main], or the beginning of one. *)
Lemma trail_runs pc acts : trail s l m pc acts -> runs_main (ended pc) acts.
Proof.
  assert (Hidle : forall e, e = None \/ e = Some true -> runs_main e []).
  { intros e He. exists (mkAcquireEnv (Ok false) (Ok tt) (Err NotFound) (Ok tt) (Ok tt) (Ok tt)),
      (Ok tt), (Ok tt), true, true, [], (Code true). split; [done|]. intros b ->.
    by destruct He as [He|He]; simplify_eq. }
  destruct pc; cbn [trail ended]; try (intros ->; apply Hidle; by auto).
  1-3: by intros ->; eapply locked_runs; [|left].
  1: by intros ->; eapply locked_runs; [|right].
  1-10: intros Hb; eapply bound_runs; [exact Hb|]; by eexists.
  - apply failed_runs.
  - intros (old & Ho & ->). destruct (serves old (Ok tt) (Ok tt) true true Ho) as [acq Hs].
    apply (runs_main_end acq (Ok tt) (Ok tt) true true _ (Code true)); [|done].
    rewrite Hs. cbv zeta. cbn [negb]. by rewrite <- app_comm_cons, <- app_assoc.
Qed.
End answers.

(** The daemons that race for a socket run [main]: in any run of the machine,
    with any number of daemons and any errors, what a daemon that is not killed has
    done so far, from the lock on, is the beginning of a run of [serve_main] for
    some answers of its calls, and when the daemon has ended it is the whole run,
    with exit code 0 exactly if it has served or has found another daemon. *)
Theorem daemons_run_main env sock lock proc node es m p pc :
  run_events (uid env) es (machine0 node) = Some m -> (Daemonize.Kill p ∉ es) -> procs m !! p = Some pc ->
  runs_main env sock lock proc (ended pc)
    (run_acts (uid env) (resolve proc sock) (resolve proc lock) (bind_mode proc) p es (machine0 node)).
Proof.
  intros Hr Hk Hp. apply trail_runs.
  pose proof (run_trail (uid env) (resolve proc sock) (resolve proc lock) (bind_mode proc) p es _ m [] Hk Hr) as Ht.
  unfold on_trail in Ht. rewrite Hp, Daemonize.no_procs0 in Ht. by apply Ht.
Qed.

(** A daemon whose chmod fails, in the way of a stale socket of its own user. *)
Definition demo_events : list Event :=
  Daemonize.Start 1 :: replicate 7 (Daemonize.Step 1) ++ [Daemonize.Error 1; Daemonize.Step 1].

Lemma daemons_run_main_witness :
  let proc := mkProcess 1 1 1 0x3F (lit "/") ∅ in
  let s := lit "/run/m.sock" in
  let l := lit "/run/m.lock" in
  run_acts 7 s l 0x1C0 1 demo_events (machine0 (Some (Daemonize.Sock 7 None))) =
    [TakeLock l; RemoveStale s; BindSocket s 0x1C0; RemoveFile s; ReleaseLock] /\
  runs_main (demo_env []) s l proc (Some false) [TakeLock l; RemoveStale s; BindSocket s 0x1C0; RemoveFile s; ReleaseLock].
Proof.
  intros proc s l. split; [vm_compute; reflexivity|].
  destruct (run_events 7 demo_events (machine0 (Some (Daemonize.Sock 7 None)))) as [m|] eqn:E;
    [|vm_compute in E; discriminate E].
  assert (Hp : procs m !! 1 = Some Daemonize.Failed_) by (vm_compute in E; injection E as <-; reflexivity).
  assert (Hk : Daemonize.Kill 1 ∉ demo_events).
  { intros Hin. unfold demo_events in Hin. cbn [replicate app] in Hin.
    repeat (apply elem_of_cons in Hin as [Hin|Hin]; [discriminate Hin|]). by apply elem_of_nil in Hin. }
  exact (daemons_run_main (demo_env []) s l proc (Some (Daemonize.Sock 7 None)) demo_events m 1 _ E Hk Hp).
Defined.
