(* ===== verification/CoreTests.v ===== *)
(** The unit tests of core/: ring.rs, status.rs, sticky.rs, scanner.rs, engine.rs.

    Each [#[test]] is a definition of its name that makes the calls of the test on
    the model, in its order, and an example that runs it. A call that can panic is
    a step of the option monad and an assertion that fails is its [None], so a test
    passes when it ends in [Some tt]. The tests of the scanner and of the engine
    are written for any parser and run with the one of [ParserInstance]. *)
From S2P Require Import Prelude Vte ParserInstance.
From S2P Require Status Sticky Ring Scanner Engine.

(** * Assertions *)

Definition assert (b : bool) : option unit := if b then Some tt else None.
Definition assert_eq {A : Type} `{EqDecision A} (x y : A) : option unit := assert (bool_decide (x = y)).

(** [hay.windows(n).any(|w| w == needle)], [starts_with] and [ends_with]. *)
Definition starts_with (hay needle : list byte) : bool := bool_decide (take (length needle) hay = needle).
Definition ends_with (hay needle : list byte) : bool := starts_with (rev hay) (rev needle).
Fixpoint contains (hay needle : list byte) : bool :=
  starts_with hay needle || match hay with [] => false | _ :: hay => contains hay needle end.

(** An escape sequence, by what follows the escape; and one that a bell ends. *)
Definition esc (s : string) : list byte := ESC :: lit s.
Definition bell (s : string) : list byte := esc s ++ [BEL].

Definition passes (t : option unit) : Prop := t = Some tt.

#[local] Ltac passes := vm_compute; reflexivity.

(** * ring.rs *)

Section ring_tests.
Import Ring.

Definition replays_open_chunk_data_with_empty_prologue : option unit :=
  let r := new (128 * 1024) in
  r ← append (lit "hello ") r;
  r ← append (lit "world") r;
  assert_eq (replay usize_MAX r) (lit "hello world").

Definition cut_seals_chunk_and_starts_new_with_prologue : option unit :=
  let r := new (128 * 1024) in
  r ← append (lit "AAA") r;
  let r := cut (esc "[0m" ++ esc "[31m") r in
  r ← append (lit "BBB") r;
  assert_eq (replay usize_MAX r) (lit "AAABBB").

Definition want_chunks_caps_to_most_recent_and_uses_their_prologue : option unit :=
  let r := new (128 * 1024) in
  r ← append (lit "AAA") r;
  let r := cut (lit "P1") r in
  r ← append (lit "BBB") r;
  let r := cut (lit "P2") r in
  r ← append (lit "CCC") r;
  _ ← assert_eq (replay 2 r) (lit "P1BBBCCC");
  assert_eq (replay 1 r) (lit "P2CCC").

Definition should_cut_reports_when_open_chunk_passes_watermark : option unit :=
  let r := new 8 in
  _ ← assert (negb (should_cut r));
  r ← append (lit "1234567") r;
  _ ← assert (negb (should_cut r));
  r ← append (lit "89") r;
  assert (should_cut r).

Definition purge_drops_prior_chunks_and_resets_open_chunk : option unit :=
  let r := new (128 * 1024) in
  r ← append (lit "OLD") r;
  let r := cut (lit "P1") r in
  r ← append (lit "MORE") r;
  let r := purge (esc "c") r in
  r ← append (lit "NEW") r;
  assert_eq (replay usize_MAX r) (esc "cNEW").

Definition replay_more_chunks_than_exist_returns_all : option unit :=
  let r := new (128 * 1024) in
  r ← append (lit "X") r;
  let r := cut (lit "P1") r in
  r ← append (lit "Y") r;
  assert_eq (replay 999 r) (lit "XY").
End ring_tests.

Example ring_tests_pass :
  passes replays_open_chunk_data_with_empty_prologue /\
  passes cut_seals_chunk_and_starts_new_with_prologue /\
  passes want_chunks_caps_to_most_recent_and_uses_their_prologue /\
  passes should_cut_reports_when_open_chunk_passes_watermark /\
  passes purge_drops_prior_chunks_and_resets_open_chunk /\
  passes replay_more_chunks_than_exist_returns_all.
Proof. split_and!; passes. Qed.

(** * status.rs *)

Section status_tests.
Import Status.

Definition defaults_are_idle : option unit :=
  let s := snapshot new in
  _ ← assert (negb (running s));
  assert_eq (progress s) None.

Definition tracks_running_and_progress : option unit :=
  let c := set_running true new in
  let c := set_progress (Some 42%N) c in
  let s := snapshot c in
  _ ← assert (running s);
  assert_eq (progress s) (Some 42%N).

Definition progress_can_clear : option unit :=
  let c := set_progress (Some 10%N) new in
  let c := set_progress None c in
  assert_eq (progress (snapshot c)) None.

Definition prompt_marker_latches : option unit :=
  let c := new in
  _ ← assert (negb (saw_prompt_marker c));
  let c := set_prompt_marker_seen c in
  assert (saw_prompt_marker c).
End status_tests.

Example status_tests_pass :
  passes defaults_are_idle /\ passes tracks_running_and_progress /\
  passes progress_can_clear /\ passes prompt_marker_latches.
Proof. split_and!; passes. Qed.

(** * sticky.rs *)

Section sticky_tests.
Import Sticky.

Definition empty_state_serializes_to_a_hard_reset_only : option unit :=
  let '(out, _) := serialize new in
  assert_eq out (esc "[0m").

Definition sgr_is_reasserted : option unit :=
  let s := set_sgr [1; 31]%N new in
  let '(out, _) := serialize s in
  assert_eq out (esc "[0m" ++ esc "[1;31m").

Definition dec_private_modes_are_reasserted : option unit :=
  let s := set_dec_mode 1049 true new in
  let s := set_dec_mode 2004 true s in
  let '(out, _) := serialize s in
  assert_eq out (esc "[0m" ++ esc "[?1049h" ++ esc "[?2004h").

Definition dec_mode_reset_removes_it : option unit :=
  let s := set_dec_mode 1049 true new in
  let s := set_dec_mode 1049 false s in
  let '(out, _) := serialize s in
  assert_eq out (esc "[0m").

Definition scroll_region_and_cwd_and_title : option unit :=
  let s := set_scroll_region (Some (2, 24)%N) new in
  let s := set_cwd (lit "file:///home/jfim") s in
  let s := set_title (lit "vim") s in
  let '(out, _) := serialize s in
  assert_eq out (esc "[0m" ++ esc "[2;24r" ++ bell "]7;file:///home/jfim" ++ bell "]2;vim").
End sticky_tests.

Example sticky_tests_pass :
  passes empty_state_serializes_to_a_hard_reset_only /\ passes sgr_is_reasserted /\
  passes dec_private_modes_are_reasserted /\ passes dec_mode_reset_removes_it /\
  passes scroll_region_and_cwd_and_title.
Proof. split_and!; passes. Qed.

(** * scanner.rs *)

Section scanner_tests.
Context `{Vte}.
Import Scanner.

(** The helper [feed] of the tests. *)
Definition fed (input : list byte) : option Scanner := feed (new (128 * 1024)) input.

(** Fed [input], the scanner replays [out]. *)
Definition replays (input out : list byte) : option unit :=
  s ← fed input;
  assert_eq (replay usize_MAX s) out.

Definition plain_text_is_kept_verbatim : option unit :=
  replays (lit "hello world") (lit "hello world").

Definition sgr_is_kept_verbatim_and_tracked : option unit :=
  replays (esc "[31mRED") (esc "[31mRED").

Definition osc52_clipboard_is_dropped_from_the_ring : option unit :=
  replays (lit "A" ++ bell "]52;c;aGVsbG8=" ++ lit "B") (lit "AB").

Definition bell_is_dropped : option unit :=
  replays (lit "A" ++ BEL :: lit "B") (lit "AB").

Definition desktop_notification_osc9_is_dropped : option unit :=
  replays (lit "A" ++ bell "]9;build done" ++ lit "B") (lit "AB").

Definition dsr_and_da_queries_are_dropped : option unit :=
  replays (lit "A" ++ esc "[6n" ++ esc "[cB") (lit "AB").

Definition osc9_4_progress_updates_status_and_is_dropped : option unit :=
  s ← fed (lit "X" ++ bell "]9;4;1;42" ++ lit "Y");
  _ ← assert_eq (replay usize_MAX s) (lit "XY");
  assert_eq (Status.progress (scanner_status s)) (Some 42%N).

Definition osc133_prompt_updates_running_and_is_dropped : option unit :=
  running ← fed (bell "]133;C");
  _ ← assert_eq (replay usize_MAX running) [];
  _ ← assert (Status.running (scanner_status running));
  done ← fed (bell "]133;C" ++ lit "cmd output" ++ bell "]133;D");
  _ ← assert_eq (replay usize_MAX done) (lit "cmd output");
  assert (negb (Status.running (scanner_status done))).

Definition osc7_cwd_is_kept_verbatim_and_tracked_into_prologue : option unit :=
  s ← fed (bell "]7;file:///tmp" ++ lit "hi");
  let s2 := new 4 in
  s2 ← feed s2 (bell "]7;file:///tmp");
  s2 ← feed s2 (lit "aaaa");
  s2 ← feed s2 (lit "X");
  let out := replay 1 s2 in
  _ ← assert (contains out (bell "]7;file:///tmp"));
  assert (starts_with (replay usize_MAX s) (bell "]7;file:///tmp")).

Definition clear_screen_purges_history : option unit :=
  let s := new (128 * 1024) in
  s ← feed s (lit "old stuff here");
  s ← feed s (esc "[2J");
  s ← feed s (lit "new");
  let out := replay usize_MAX s in
  _ ← assert (negb (contains out (lit "old")));
  assert (ends_with out (lit "new")).

Definition st_terminated_clipboard_is_fully_dropped : option unit :=
  replays (lit "A" ++ esc "]52;c;aGVsbG8=" ++ esc "\B") (lit "AB").

Definition st_terminated_notification_is_fully_dropped : option unit :=
  replays (lit "A" ++ esc "]9;done" ++ esc "\B") (lit "AB").

Definition st_terminated_title_is_kept_intact : option unit :=
  replays (esc "]2;vim" ++ esc "\X") (esc "]2;vim" ++ esc "\X").

Definition c1_st_terminated_dropped_osc_keeps_following_byte : option unit :=
  replays (lit "A" ++ esc "]52;c;Z" ++ x9c :: lit "B") (lit "AB").

Definition c1_st_terminated_title_keeps_following_byte : option unit :=
  s ← fed (esc "]2;vim" ++ x9c :: lit "X");
  assert (ends_with (replay usize_MAX s) (lit "X")).

(** "café", a check mark and three box-drawing characters, in UTF-8. *)
Definition utf8_input : list byte :=
  lit "caf" ++ [xc3; xa9; x20; xe2; x9c; x93; x20; xe2; x94; x80; xe2; x94; x82; xe2; x94; x9c].

Definition utf8_chars_with_0x9c_continuation_byte_survive_replay : option unit :=
  replays utf8_input utf8_input.

Definition long_single_sequence_is_not_split_across_the_watermark : option unit :=
  let payload := esc "]52;c;" ++ replicate 64 x41 ++ [BEL] in
  let s := new 8 in
  s ← feed s (lit "start");
  s ← feed s payload;
  s ← feed s (lit "end");
  let out := replay usize_MAX s in
  _ ← assert (negb (contains out (lit "AAA")));
  assert (contains out (lit "end")).
End scanner_tests.

Example scanner_tests_pass :
  passes plain_text_is_kept_verbatim /\ passes sgr_is_kept_verbatim_and_tracked /\
  passes osc52_clipboard_is_dropped_from_the_ring /\ passes bell_is_dropped /\
  passes desktop_notification_osc9_is_dropped /\ passes dsr_and_da_queries_are_dropped /\
  passes osc9_4_progress_updates_status_and_is_dropped /\
  passes osc133_prompt_updates_running_and_is_dropped /\
  passes osc7_cwd_is_kept_verbatim_and_tracked_into_prologue /\ passes clear_screen_purges_history.
Proof. split_and!; passes. Qed.

Example scanner_terminator_tests_pass :
  passes st_terminated_clipboard_is_fully_dropped /\ passes st_terminated_notification_is_fully_dropped /\
  passes st_terminated_title_is_kept_intact /\ passes c1_st_terminated_dropped_osc_keeps_following_byte /\
  passes c1_st_terminated_title_keeps_following_byte /\
  passes utf8_chars_with_0x9c_continuation_byte_survive_replay /\
  passes long_single_sequence_is_not_split_across_the_watermark.
Proof. split_and!; passes. Qed.

(** * engine.rs *)

Section engine_tests.
Context `{Vte}.
Import Engine.

Definition feed_replay_status_roundtrip : option unit :=
  let e := new in
  e ← feed e (bell "]133;C");
  e ← feed e (lit "building...");
  e ← feed e (bell "]9;4;1;75");
  _ ← assert_eq (replay e) (lit "building...");
  let s := status e in
  _ ← assert (Status.running s);
  assert_eq (Status.progress s) (Some 75%N).

Definition replay_default_reaches_all_available_scrollback : option unit :=
  let e := new in
  e ← feed e (lit "line one" ++ [x0d; x0a] ++ lit "line two" ++ [x0d; x0a]);
  let out := replay e in
  _ ← assert (contains out (lit "line one"));
  assert (contains out (lit "line two")).

Definition has_prompt_marking_latches_on_first_osc133_any_subtype : option unit :=
  let e := new in
  _ ← assert (negb (has_prompt_marking e));
  e ← feed e (bell "]133;A");
  assert (has_prompt_marking e).

Definition no_prompt_marking_without_osc133 : option unit :=
  let e := new in
  e ← feed e (lit "plain output" ++ [x0d; x0a]);
  assert (negb (has_prompt_marking e)).
End engine_tests.

Example engine_tests_pass :
  passes feed_replay_status_roundtrip /\ passes replay_default_reaches_all_available_scrollback /\
  passes has_prompt_marking_latches_on_first_osc133_any_subtype /\ passes no_prompt_marking_without_osc133.
Proof. split_and!; passes. Qed.
