(* ===== verification/DaemonTests.v ===== *)
(** The unit tests of jftermd/: protocol.rs, registry.rs, server.rs, socket.rs and
    daemonize.rs, in the style of [CoreTests].

    The tests that start a shell, or speak over a real socket, are not here: what
    they observe is the work of programs outside the repository. *)
From S2P Require Import Prelude CoreTests.
From S2P Require Protocol Wire Registry TokioInstance Server Idle Pty Connection Startup Boot Daemonize.

#[local] Ltac passes := vm_compute; reflexivity.

Lemma assert_true (b : bool) : b = true -> assert b = Some tt.
Proof. by intros ->. Qed.

Lemma assert_eq_refl {A : Type} `{EqDecision A} (x y : A) : x = y -> assert_eq x y = Some tt.
Proof. intros ->. unfold assert_eq. by rewrite bool_decide_eq_true_2. Qed.

(** [unwrap] and [unwrap_err]. *)
Definition unwrap {A E : Type} (r : result A E) : option A := match r with Ok a => Some a | Err _ => None end.
Definition is_err {A E : Type} (r : result A E) : bool := match r with Ok _ => false | Err _ => true end.

(** * protocol.rs *)

Section protocol_tests.
Import Protocol.

Definition encode_data_frame_layout : option unit :=
  let f := Frame_new Data (lit "hi") in
  assert_eq (encode f) ([x09; x00; x00; x00; x02] ++ lit "hi").

Definition encode_empty_payload : option unit :=
  let f := Frame_new List_ [] in
  assert_eq (encode f) [x03; x00; x00; x00; x00].

Definition decode_round_trip : option unit :=
  let f := Frame_new Data (lit "hello") in
  d ← push (encode f) FrameDecoder_new;
  '(d, r) ← next_frame d;
  _ ← assert (bool_decide (unwrap r = Some (Some f)));
  '(_, r) ← next_frame d;
  assert (bool_decide (unwrap r = Some None)).

Definition decode_partial_then_complete : option unit :=
  let wire := encode (Frame_new Input (lit "abc")) in
  d ← push (take 3 wire) FrameDecoder_new;
  '(d, r) ← next_frame d;
  _ ← assert (bool_decide (unwrap r = Some None));
  rest ← slice_from 3 wire;
  d ← push rest d;
  '(_, r) ← next_frame d;
  assert (bool_decide (unwrap r = Some (Some (Frame_new Input (lit "abc"))))).

Definition decode_two_frames_in_one_push : option unit :=
  let wire := encode (Frame_new Status (lit "x")) in
  let wire := wire ++ encode (Frame_new Exit (lit "y")) in
  d ← push wire FrameDecoder_new;
  '(d, r) ← next_frame d;
  r ← unwrap r; f ← r;
  _ ← assert (bool_decide (ty f = Status));
  '(d, r) ← next_frame d;
  r ← unwrap r; f ← r;
  _ ← assert (bool_decide (ty f = Exit));
  '(_, r) ← next_frame d;
  assert (bool_decide (unwrap r = Some None)).

Definition decode_unknown_type_errors : option unit :=
  d ← push [xc8; x00; x00; x00; x00] FrameDecoder_new;
  '(_, r) ← next_frame d;
  match r with Err e => assert (bool_decide (e = UnknownType 200)) | Ok _ => None end.

Definition decode_oversized_length_errors_without_alloc : option unit :=
  d ← push [x09; xff; xff; xff; xff] FrameDecoder_new;
  '(_, r) ← next_frame d;
  match r with Err e => assert (bool_decide (e = FrameTooLarge (2 ^ 32 - 1))) | Ok _ => None end.

(** A message through a frame of its type and back. *)
Definition round_trips {T : Type} `{Json T} (t : FrameType) (msg : T) (same : T -> bool) : option unit :=
  frame ← unwrap (control t msg);
  _ ← assert (bool_decide (ty frame = t));
  back ← unwrap (json T frame);
  assert (same back).

Definition attach_or_open_round_trips_through_a_frame `{Json AttachOrOpen} : option unit :=
  let msg := {| session_id := "tab-1"; cwd := lit "/home/u"; argv := [lit "bash"; lit "-l"];
                want_chunks := 0; cols := 80; rows := 24 |} in
  round_trips AttachOrOpen_ msg (fun back =>
    bool_decide (session_id back = session_id msg /\ cwd back = cwd msg /\ argv back = argv msg /\
      want_chunks back = want_chunks msg /\ cols back = cols msg /\ rows back = rows msg)).

Definition status_round_trips_both_progress_states `{Json StatusMsg} : option unit :=
  foldM (fun _ progress =>
    let msg := {| msg_running := true; msg_progress := progress |} in
    round_trips Status msg (fun back =>
      bool_decide (msg_running back = msg_running msg /\ msg_progress back = msg_progress msg)))
    tt [None; Some 0; Some 75; Some 100]%N.

Definition hello_round_trips `{Json Hello} : option unit :=
  let msg := {| proto_version := PROTO_VERSION; daemon_version := lit "0.1.0" |} in
  round_trips Hello_ msg (fun back =>
    bool_decide (proto_version back = proto_version msg /\ daemon_version back = daemon_version msg)).

Definition close_msg_round_trips `{Json CloseMsg} : option unit :=
  foldM (fun _ grace =>
    let msg := {| grace_ms := grace |} in
    round_trips Close msg (fun back => bool_decide (grace_ms back = grace_ms msg)))
    tt [0; 1500; 2 ^ 32 - 1]%N.

Definition frame_data_splits_oversized_payload_into_max_sized_frames : option unit :=
  let big := replicate (N.to_nat (MAX_FRAME_LEN + 1)) xab in
  let frames := frame_data big in
  _ ← assert_eq (length frames) 2;
  f0 ← frames !! 0;
  _ ← assert_eq (N.of_nat (length (payload f0))) MAX_FRAME_LEN;
  f1 ← frames !! 1;
  _ ← assert_eq (N.of_nat (length (payload f1))) 1%N;
  _ ← assert (forallb (fun f => bool_decide (ty f = Data)) frames);
  let joined := concat (payload <$> frames) in
  assert_eq joined big.

Definition frame_data_empty_input_yields_no_frames : option unit :=
  assert (match frame_data [] with [] => true | _ => false end).

(** A loop whose rounds pass. *)
Lemma foldM_tt {A : Type} (f : A -> option unit) l : (forall a, a ∈ l -> f a = Some tt) -> foldM (fun _ a => f a) tt l = Some tt.
Proof.
  induction l as [|a l IH]; intros Hf; [done|]. cbn [foldM]. rewrite Hf by left. cbn [mbind option_bind].
  apply IH. intros x Hx. apply Hf. by right.
Qed.

(** A message that [serde_json] writes is read back. *)
Lemma round_trips_pass {T : Type} `{JsonLaws T} t (msg : T) same bs :
  to_vec msg = Ok bs -> same msg = true -> round_trips t msg same = Some tt.
Proof.
  intros Hv Hs. unfold round_trips, control, json. rewrite Hv. cbn [unwrap mbind option_bind ty payload Frame_new].
  rewrite bool_decide_eq_true_2 by done. cbn [assert]. rewrite (from_to_vec msg bs Hv). cbn [unwrap].
  by apply assert_true.
Qed.
End protocol_tests.

Example protocol_tests_pass :
  passes encode_data_frame_layout /\ passes encode_empty_payload /\ passes decode_round_trip /\
  passes decode_partial_then_complete /\ passes decode_two_frames_in_one_push /\
  passes decode_unknown_type_errors /\ passes decode_oversized_length_errors_without_alloc /\
  passes frame_data_empty_input_yields_no_frames.
Proof. split_and!; passes. Qed.

(** The tests of the messages pass with any [serde_json] that writes them. *)
Example message_tests_pass
    `{Protocol.JsonLaws Protocol.AttachOrOpen, Protocol.JsonLaws Protocol.StatusMsg,
      Protocol.JsonLaws Protocol.Hello, Protocol.JsonLaws Protocol.CloseMsg} :
  (forall m, exists bs, Protocol.to_vec (T := Protocol.AttachOrOpen) m = Ok bs) ->
  (forall m, exists bs, Protocol.to_vec (T := Protocol.StatusMsg) m = Ok bs) ->
  (forall m, exists bs, Protocol.to_vec (T := Protocol.Hello) m = Ok bs) ->
  (forall m, exists bs, Protocol.to_vec (T := Protocol.CloseMsg) m = Ok bs) ->
  passes attach_or_open_round_trips_through_a_frame /\ passes status_round_trips_both_progress_states /\
  passes hello_round_trips /\ passes close_msg_round_trips.
Proof.
  intros Ha Hs Hh Hc. split_and!.
  - edestruct Ha as [bs Hb]. eapply round_trips_pass; [exact Hb|]. by apply bool_decide_eq_true_2.
  - unfold passes, status_round_trips_both_progress_states. apply foldM_tt. intros p _.
    destruct (Hs (Protocol.mkStatusMsg true p)) as [bs Hb]. eapply round_trips_pass; [exact Hb|].
    by apply bool_decide_eq_true_2.
  - edestruct Hh as [bs Hb]. eapply round_trips_pass; [exact Hb|]. by apply bool_decide_eq_true_2.
  - unfold passes, close_msg_round_trips. apply foldM_tt. intros g _.
    destruct (Hc (Protocol.mkCloseMsg g)) as [bs Hb]. eapply round_trips_pass; [exact Hb|].
    by apply bool_decide_eq_true_2.
Qed.

(** Two chunks: the payload is one byte longer than the first may be. *)
Lemma oversized_chunks big :
  N.of_nat (length big) = (Protocol.MAX_FRAME_LEN + 1)%N ->
  exists c1 c2, Protocol.slice_chunks Protocol.MAX_FRAME_LEN big = [c1; c2] /\
    N.of_nat (length c1) = Protocol.MAX_FRAME_LEN /\ N.of_nat (length c2) = 1%N /\ c1 ++ c2 = big.
Proof.
  intros Hl. unfold Protocol.slice_chunks.
  destruct (Wire.chunks_of_spec (length big) Protocol.MAX_FRAME_LEN big eq_refl ltac:(lia)) as (Hc & Hf & Hm).
  revert Hl Hc Hf Hm. generalize (Protocol.chunks_of (length big) Protocol.MAX_FRAME_LEN big) as cs.
  assert (Hpos : (1 < Protocol.MAX_FRAME_LEN)%N) by done. revert Hpos. generalize Protocol.MAX_FRAME_LEN as n.
  intros n Hpos cs Hl Hc Hf Hm. destruct cs as [|c1 [|c2 [|c3 cs]]].
  - subst big. simpl in Hl. lia.
  - apply Forall_cons in Hf as [[_ Hc1] _]. subst big. simpl in Hl. rewrite app_nil_r in Hl. lia.
  - exists c1, c2. simpl in Hc. rewrite app_nil_r in Hc. cbn [removelast] in Hm. apply Forall_cons in Hm as [Hm _].
    subst big. rewrite length_app in Hl. repeat split; lia.
  - cbn [removelast] in Hm. apply Forall_cons in Hm as [H1 Hm].
    assert (H2 : N.of_nat (length c2) = n) by (destruct cs; by apply Forall_cons in Hm as [? _]).
    subst big. simpl in Hl. rewrite !length_app in Hl. lia.
Qed.

Example oversized_test_passes : passes frame_data_splits_oversized_payload_into_max_sized_frames.
Proof.
  unfold passes, frame_data_splits_oversized_payload_into_max_sized_frames. cbv zeta.
  set (big := replicate _ _).
  assert (Hl : N.of_nat (length big) = (Protocol.MAX_FRAME_LEN + 1)%N)
    by (unfold big; by rewrite length_replicate, N2Nat.id).
  clearbody big. destruct (oversized_chunks big Hl) as (c1 & c2 & E & H1 & H2 & Hj).
  unfold Protocol.frame_data. rewrite E. cbn [fmap list_fmap length lookup list_lookup mbind option_bind].
  cbn [Protocol.payload Protocol.Frame_new Protocol.ty forallb concat]. rewrite H1, H2, app_nil_r, Hj.
  rewrite !assert_eq_refl by done. cbn [mbind option_bind]. rewrite !bool_decide_eq_true_2 by done. done.
Qed.

(** * registry.rs *)

Section registry_tests.
Import Registry.
Context `{Tokio} `{!EqDecision cmd_tx}.

(** [matches!(bind, Bind::Created { .. })] and the others. *)
Definition is_created (b : Bind) : bool := match b with Created _ _ => true | _ => false end.
Definition is_existing (b : Bind) : bool := match b with Existing _ => true | _ => false end.
Definition is_rejected (b : Bind) : bool := match b with Rejected => true | _ => false end.

Definition create_then_get_then_remove (st : store) : option unit :=
  let reg := new in
  _ ← assert (is_empty reg);
  let '(_, reg, bind) := attach_or_create "s1" reg st in
  _ ← assert (is_created bind);
  _ ← assert (negb (is_empty reg));
  _ ← assert (existsb (fun h => bool_decide (h.1 = "s1")) (handles reg));
  _ ← assert_eq (length (handles reg)) 1;
  let reg := remove "s1" reg in
  _ ← assert (is_empty reg);
  assert (forallb (fun h => bool_decide (h.1 <> "s1")) (handles reg)).

Definition new_sessions_rejected_at_cap_but_reattach_still_works (st : store) : option unit :=
  let reg := with_max_sessions 2 in
  let '(st, reg, bind) := attach_or_create "s1" reg st in
  _ ← assert (is_created bind);
  let '(st, reg, bind) := attach_or_create "s2" reg st in
  _ ← assert (is_created bind);
  let '(st, reg, bind) := attach_or_create "s3" reg st in
  _ ← assert (is_rejected bind);
  let '(st, reg, bind) := attach_or_create "s1" reg st in
  _ ← assert (is_existing bind);
  let reg := remove "s2" reg in
  let '(_, _, bind) := attach_or_create "s3" reg st in
  assert (is_created bind).

Definition second_attach_or_create_returns_existing (st : store) : option unit :=
  let reg := new in
  let '(st, reg, first) := attach_or_create "s1" reg st in
  match first with
  | Created keep_tx _ =>
      let '(_, _, second) := attach_or_create "s1" reg st in
      match second with
      | Existing tx => assert (bool_decide (tx = keep_tx))
      | _ => None
      end
  | _ => None
  end.

(** The waiter is polled while the test sleeps, and again after the removal. *)
Definition wait_for_change_wakes_on_remove (st : store) : option unit :=
  let reg := new in
  let '(_, reg, _keep) := attach_or_create "s1" reg st in
  match wait_for_change reg with
  | Some _ => Some tt
  | None =>
      let reg := remove "s1" reg in
      _ ← wait_for_change reg;
      Some tt
  end.
End registry_tests.

Example registry_tests_pass :
  let st := TokioInstance.no_channels : @Registry.store TokioInstance.queue_tokio in
  passes (create_then_get_then_remove st) /\
  passes (new_sessions_rejected_at_cap_but_reattach_still_works st) /\
  passes (@second_attach_or_create_returns_existing TokioInstance.queue_tokio Nat.eq_dec st) /\
  passes (wait_for_change_wakes_on_remove st).
Proof. intros st. split_and!; passes. Qed.

(** The last of them does not need its removal: the attach has left a permit, so
    the waiter is done at its first poll, over any [Notify]. *)
Lemma waiter_finds_permit `{Registry.NotifyLaws} st :
  is_Some (Registry.wait_for_change (Registry.attach_or_create "s1" Registry.new st).1.2).
Proof.
  unfold Registry.attach_or_create, Registry.wait_for_change. cbn [Registry.sessions Registry.new Registry.with_max_sessions].
  rewrite lookup_empty. change (_ <=? _)%N with false. cbv match.
  destruct (Registry.cmd_channel 256 st) as [st1 [tx rx]]. cbn [fst snd Registry.ended].
  change (Registry.ended Registry.new) with Registry.notify_new.
  destruct (Registry.notified_one Registry.notify_new) as (n & -> & _). by eexists.
Qed.

(** * server.rs *)

(** The two ends of a socket pair have the uid of the process. *)
Definition peer_uid_check_accepts_same_uid_socket (uid : u32) : option unit :=
  _ ← assert (negb (is_err (Connection.check_peer_uid (Ok uid) uid)));
  assert (negb (is_err (Connection.check_peer_uid (Ok uid) uid))).

Definition merge_running_prefers_engine_when_marked_else_poll : option unit :=
  _ ← assert (Server.merge_running {| Server.has_marking := true; Server.engine_running := true;
                                      Server.in_poll_running := false |});
  _ ← assert (negb (Server.merge_running {| Server.has_marking := true; Server.engine_running := false;
                                            Server.in_poll_running := true |}));
  _ ← assert (Server.merge_running {| Server.has_marking := false; Server.engine_running := false;
                                      Server.in_poll_running := true |});
  assert (negb (Server.merge_running {| Server.has_marking := false; Server.engine_running := true;
                                        Server.in_poll_running := false |})).

Section idle_tests.
Import Registry Idle.
Context `{Tokio}.

(** The watcher runs at [now] until it waits; every wake-up is used up within the
    rounds. *)
Fixpoint polls (rounds : nat) (grace now : N) (c : Registry * Watch) : Registry * Watch :=
  match rounds with
  | O => c
  | S rounds =>
      match watch_step grace now c.1 c.2 with
      | Some c => polls rounds grace now c
      | None => c
      end
  end.

Definition is_finished (w : Watch) : bool := match w with Return_ => true | _ => false end.

Definition idle_watcher_waits_for_first_session_then_resolves_when_empty (st : store) : option unit :=
  let reg := new in
  let '(reg, w) := polls 9 50 0 (reg, FirstCheck) in
  let '(reg, w) := polls 9 50 200 (reg, w) in
  _ ← assert (negb (is_finished w));
  let '(_, reg, _keep) := attach_or_create "s1" reg st in
  let '(reg, w) := polls 9 50 220 (reg, w) in
  let reg := remove "s1" reg in
  let '(reg, w) := polls 9 50 220 (reg, w) in
  let '(_, w) := polls 9 50 2220 (reg, w) in
  assert (is_finished w).

Definition idle_watcher_does_not_resolve_while_a_session_lives (st : store) : option unit :=
  let reg := new in
  let '(_, reg, _keep) := attach_or_create "s1" reg st in
  let '(reg, w) := polls 9 50 0 (reg, FirstCheck) in
  let '(reg, w) := polls 9 50 300 (reg, w) in
  _ ← assert (negb (is_finished w));
  let reg := remove "s1" reg in
  let '(reg, w) := polls 9 50 300 (reg, w) in
  let '(_, w) := polls 9 50 2300 (reg, w) in
  assert (is_finished w).
End idle_tests.

Example server_tests_pass :
  let st := TokioInstance.no_channels : @Registry.store TokioInstance.queue_tokio in
  passes (peer_uid_check_accepts_same_uid_socket 1000) /\
  passes merge_running_prefers_engine_when_marked_else_poll /\
  passes (idle_watcher_waits_for_first_session_then_resolves_when_empty st) /\
  passes (idle_watcher_does_not_resolve_while_a_session_lives st).
Proof. intros st. split_and!; passes. Qed.

(** * socket.rs *)

Section socket_tests.
Import Pty Startup Boot.
(** The temporary directory and the user. *)
Context (dir : list byte) (uid : u32).

Definition socket_path_uses_xdg_runtime_dir_when_set : option unit :=
  let p := socket_path_in (Some dir) 1000 in
  assert_eq p (join (join dir (lit "jfterm")) (lit "muxer.sock")).

Definition socket_path_falls_back_to_tmp_with_uid_when_unset : option unit :=
  let p := socket_path_in None 4242 in
  assert_eq p (join (lit "/tmp/jfterm-4242") (lit "muxer.sock")).

(** The directory is missing, is created, and is then found as it was made. *)
Definition ensure_socket_dir_creates_0700_directory : option unit :=
  let made := mkMetadata Directory uid 0x41C0 in
  _ ← unwrap (ensure_socket_dir true (Err NotFound) (Ok tt) uid);
  _ ← assert_eq (N.land (mode made) 0x1FF) 0x1C0%N;
  unwrap (ensure_socket_dir true (Ok made) (Ok tt) uid).

Definition ensure_socket_dir_refuses_symlink : option unit :=
  let link := mkMetadata Symlink uid 0xA1FF in
  assert (is_err (ensure_socket_dir true (Ok link) (Ok tt) uid)).

Definition ensure_socket_dir_refuses_loose_mode : option unit :=
  let loose := mkMetadata Directory uid 0x41ED in
  assert (is_err (ensure_socket_dir true (Ok loose) (Ok tt) uid)).

Definition restrict_socket_perms_sets_0600 (env : Env) : option unit :=
  let f := join dir (lit "muxer.sock") in
  let '(act, r) := restrict_socket_perms env f in
  _ ← unwrap r;
  match act with
  | Chmod path mode => _ ← assert_eq path f; assert_eq mode 0x180%N
  | _ => None
  end.
End socket_tests.

Example socket_tests_pass :
  let dir := lit "/tmp/.tmpQ3x" in
  passes (socket_path_uses_xdg_runtime_dir_when_set dir) /\
  passes socket_path_falls_back_to_tmp_with_uid_when_unset /\
  passes (ensure_socket_dir_creates_0700_directory 1000) /\
  passes (ensure_socket_dir_refuses_symlink 1000) /\
  passes (ensure_socket_dir_refuses_loose_mode 1000) /\
  passes (restrict_socket_perms_sets_0600 dir (Boot.demo_env [])).
Proof. intros dir. split_and!; passes. Qed.

(** * daemonize.rs *)

Section daemonize_tests.
Import Daemonize.
Context (uid : u32).

(** A daemon makes its calls, and time passes while it sleeps, until it has what
    [acquire_daemon] answers or the clock has come to [until]; [ACQUIRE_TIMEOUT] is
    a hundred polls of four calls. *)
Definition answered (pc : option Pc) : bool :=
  match pc with
  | Some (Restricting _) | Some AlreadyRunning | Some Failed_ | None => true
  | _ => false
  end.

Fixpoint acquire_until (fuel : nat) (until : N) (p : nat) (m : Machine) : Machine :=
  match fuel with
  | O => m
  | S fuel =>
      if answered (procs m !! p) || (until <=? clock m)%N then m
      else
        match daemon_step uid p m with
        | Some m => acquire_until fuel until p m
        | None => acquire_until fuel until p (default m (event uid (Tick ACQUIRE_POLL) m))
        end
  end.

Definition acquire_daemon (p : nat) (m : Machine) : option Machine :=
  m ← event uid (Start p) m;
  Some (acquire_until 500 100000 p m).

Definition is_bound (p : nat) (m : Machine) : bool :=
  match procs m !! p with Some (Restricting _) => true | _ => false end.
Definition is_already_running (p : nat) (m : Machine) : bool :=
  bool_decide (procs m !! p = Some AlreadyRunning).

(** The drop of an [Acquire] closes the files, as the end of the process does. *)
Definition drop_acquire (p : nat) (m : Machine) : option Machine := event uid (Kill p) m.

(** [UnixStream::connect]: a daemon listens on the socket at the path. *)
Definition connects (m : Machine) : bool :=
  match sock_path m with Some (Sock _ (Some _)) => true | _ => false end.

Definition second_acquire_reports_already_running : option unit :=
  m ← acquire_daemon 1 (machine0 None);
  _ ← assert (is_bound 1 m);
  m ← acquire_daemon 2 m;
  assert (is_already_running 2 m).

Definition stale_socket_file_is_unlinked_and_rebound : option unit :=
  let stale := Sock uid None in
  m ← acquire_daemon 1 (machine0 (Some stale));
  _ ← assert (is_bound 1 m);
  assert (connects m).

Definition refuses_to_unlink_non_socket_at_socket_path (env : Boot.AcquireEnv) : option unit :=
  let '(acts, r) := Boot.unlink_stale_socket env uid (lit "muxer.sock") in
  _ ← assert (is_err r);
  assert (match acts with [] => true | _ => false end).

Definition lock_releases_on_drop_allowing_reacquire : option unit :=
  m ← acquire_daemon 1 (machine0 None);
  _ ← assert (is_bound 1 m);
  m ← drop_acquire 1 m;
  m ← acquire_daemon 2 m;
  assert (is_bound 2 m).

Definition successor_binds_after_predecessor_releases_during_teardown : option unit :=
  m ← acquire_daemon 1 (machine0 None);
  _ ← assert (is_bound 1 m);
  let m := set_sock None m in
  m ← event uid (Start 2) m;
  let m := acquire_until 500 (clock m + 150) 2 m in
  m ← drop_acquire 1 m;
  let m := acquire_until 500 100000 2 m in
  _ ← assert (is_bound 2 m);
  assert (connects m).
End daemonize_tests.

(** A regular file at the socket path. *)
Definition regular_file : Boot.AcquireEnv :=
  Boot.mkAcquireEnv (Ok true) (Err Pty.AddrInUse) (Ok (Startup.mkMetadata Startup.OtherKind 1000 0x81A4))
    (Ok tt) (Ok tt) (Ok tt).

Example daemonize_tests_pass :
  passes (second_acquire_reports_already_running 1000) /\
  passes (stale_socket_file_is_unlinked_and_rebound 1000) /\
  passes (refuses_to_unlink_non_socket_at_socket_path 1000 regular_file) /\
  passes (lock_releases_on_drop_allowing_reacquire 1000) /\
  passes (successor_binds_after_predecessor_releases_during_teardown 1000).
Proof. split_and!; passes. Qed.
